(** * VEOS: signal delivery core, DMA manager API and pseudo-process transfers

    A shallow embedding of
      - [src/veos/psm/task_signal.c]   (module [TaskSignal]),
      - [src/veos/dma/dma_api.c]       (module [DmaApi]),
      - [lib/libvepseudo/amm/mm_transfer.c] (module [MmTransfer]),
    with the properties of the design document proved about it.

    Conventions.  C integers are [Z]; an unsigned 64-bit result is reduced
    with [u64] where the C expression can leave the range.  Arrays indexed
    by a C integer are functions from [Z].  What the C code obtains from the
    environment (the result of an allocation, of an address translation, of
    a DMA transfer, of a system call) is an explicit argument of the model. *)

From stdpp Require Import base numbers list.
From Stdlib Require Import ZArith Lia Bool.
From Stdlib Require Ascii.

Local Open Scope Z_scope.

(** ** Machine words *)

Module Word.

Definition u64 (z : Z) : Z := z mod 2 ^ 64.

(** [~x] on an [unsigned long]. *)
Definition lnot64 (z : Z) : Z := u64 (Z.lnot z).

(** [ffsl(3)]: one plus the index of the least significant set bit, 0 for 0.
    A negative argument has the trailing zeros of its absolute value. *)
Fixpoint ffs_pos (p : positive) : Z :=
  match p with
  | xO q => 1 + ffs_pos q
  | _ => 1
  end.

Definition ffsl (x : Z) : Z :=
  match x with
  | Z0 => 0
  | Zpos p => ffs_pos p
  | Zneg p => ffs_pos p
  end.

(** [IS_ALIGNED(x, a)] for a power of two [a]. *)
Definition IS_ALIGNED (x a : Z) : bool := Z.land x (a - 1) =? 0.

Lemma u64_range z : 0 <= u64 z < 2 ^ 64.
Proof. unfold u64. apply Z.mod_pos_bound. lia. Qed.

Lemma u64_small z : 0 <= z < 2 ^ 64 -> u64 z = z.
Proof. intros H. unfold u64. apply Z.mod_small. exact H. Qed.

Lemma u64_bits_low z i : 0 <= i < 64 -> Z.testbit (u64 z) i = Z.testbit z i.
Proof. intros H. unfold u64. apply Z.mod_pow2_bits_low. lia. Qed.

Lemma u64_bits_high z i : 64 <= i -> Z.testbit (u64 z) i = false.
Proof. intros H. unfold u64. apply Z.mod_pow2_bits_high. lia. Qed.

Lemma lnot64_bits_low z i :
  0 <= i < 64 -> Z.testbit (lnot64 z) i = negb (Z.testbit z i).
Proof.
  intros H. unfold lnot64. rewrite u64_bits_low by exact H.
  apply Z.lnot_spec. lia.
Qed.

Lemma ffs_pos_ge1 p : 1 <= ffs_pos p.
Proof. induction p; simpl; lia. Qed.

Lemma ffs_pos_bit p : Z.testbit (Zpos p) (ffs_pos p - 1) = true.
Proof.
  induction p as [q _|q IH|]; simpl ffs_pos; try reflexivity.
  pose proof (ffs_pos_ge1 q).
  replace (1 + ffs_pos q - 1) with (Z.succ (ffs_pos q - 1)) by lia.
  change (Zpos q~0) with (2 * Zpos q).
  rewrite Z.testbit_even_succ by lia. exact IH.
Qed.

Lemma ffs_pos_below p i :
  0 <= i < ffs_pos p - 1 -> Z.testbit (Zpos p) i = false.
Proof.
  revert i. induction p as [q _|q IH|]; simpl ffs_pos; intros i Hi; try lia.
  destruct (Z.eq_dec i 0) as [->|Hne]; [reflexivity|].
  replace i with (Z.succ (i - 1)) by lia.
  change (Zpos q~0) with (2 * Zpos q).
  rewrite Z.testbit_even_succ by lia. apply IH. lia.
Qed.

(** The three facts about [ffsl] the signal chooser needs. *)
Lemma ffsl_zero x : ffsl x = 0 <-> x = 0.
Proof.
  destruct x as [|p|p]; simpl; split; intros H; try reflexivity;
    try discriminate; pose proof (ffs_pos_ge1 p); lia.
Qed.

Lemma ffsl_bit x : 0 < x -> Z.testbit x (ffsl x - 1) = true.
Proof. destruct x as [|p|p]; try lia. intros _. apply ffs_pos_bit. Qed.

Lemma ffsl_least x i :
  0 < x -> 0 <= i -> Z.testbit x i = true -> ffsl x - 1 <= i.
Proof.
  destruct x as [|p|p]; try lia. intros _ Hi Hb. simpl.
  destruct (Z_lt_le_dec i (ffs_pos p - 1)) as [Hlt|Hge]; [|exact Hge].
  rewrite ffs_pos_below in Hb by lia. discriminate.
Qed.

Lemma ffsl_upper x n : 0 < x < 2 ^ n -> 0 <= n -> 1 <= ffsl x <= n.
Proof.
  intros Hx Hn. split.
  - destruct x as [|p|p]; try lia. apply ffs_pos_ge1.
  - destruct (Z_lt_le_dec n (ffsl x)) as [Hlt|Hle]; [|exact Hle].
    pose proof (ffsl_bit x ltac:(lia)) as Hb.
    assert (Z.log2 x < n) as Hlog by (apply Z.log2_lt_pow2; lia).
    rewrite Z.bits_above_log2 in Hb; [discriminate|lia|lia].
Qed.

End Word.


(** * [task_signal.c]: the name of the core file *)

Module CoreName.

Import Word Ascii.

(** [errno.h] of Linux. *)
Definition ENOMEM : Z := 12.

(** [PATH_MAX] of [limits.h], the size of both buffers. *)
Class path_limits := {
  PATH_MAX : nat
}.

(** A character buffer is the list of its bytes, a pointer to one is
    [None] when it is [NULL].  [struct ve_corename] is declared in a
    header that is not among the sources at hand; its fields are the ones
    [ve_vsnprintf] and [ve_format_core_filename] use, the two flags as
    truth values. *)
Record ve_corename := mk_ve_corename {
  corename : option (list ascii);
  core_pattern : option (list ascii);
  actual_space : Z;
  space_used : Z;
  copy_pattern : bool;
  use_all : bool
}.

Definition set_corename (v : option (list ascii)) (c : ve_corename) :=
  mk_ve_corename v (core_pattern c) (actual_space c) (space_used c)
    (copy_pattern c) (use_all c).

Definition set_core_pattern (v : option (list ascii)) (c : ve_corename) :=
  mk_ve_corename (corename c) v (actual_space c) (space_used c)
    (copy_pattern c) (use_all c).

Definition set_actual_space (v : Z) (c : ve_corename) :=
  mk_ve_corename (corename c) (core_pattern c) v (space_used c)
    (copy_pattern c) (use_all c).

Definition set_space_used (v : Z) (c : ve_corename) :=
  mk_ve_corename (corename c) (core_pattern c) (actual_space c) v
    (copy_pattern c) (use_all c).

Definition set_copy_pattern (v : bool) (c : ve_corename) :=
  mk_ve_corename (corename c) (core_pattern c) (actual_space c)
    (space_used c) v (use_all c).

Definition set_use_all (v : bool) (c : ve_corename) :=
  mk_ve_corename (corename c) (core_pattern c) (actual_space c)
    (space_used c) (copy_pattern c) v.

(** What the C standard leaves undefined in this code. *)
Inductive fault :=
  | null_pointer   (* an access through [NULL] *)
  | overflow       (* a write past the end of an allocation *)
  | overrun        (* a read past the end of an allocation *)
  | overlap        (* [vsnprintf] between objects that overlap *)
  | dangling.      (* a read through a pointer [realloc] has released *)

(** The run of a function: it returns, its behaviour is undefined, or the
    model gave up following its jumps. *)
Inductive run (A : Type) :=
  | ret (a : A)
  | undefined (f : fault)
  | unfinished.

Arguments ret {A} a.
Arguments undefined {A} f.
Arguments unfinished {A}.

Definition bind {A B : Type} (m : run A) (f : A -> run B) : run B :=
  match m with
  | ret a => f a
  | undefined e => undefined e
  | unfinished => unfinished
  end.

Notation "x <- m ;; f" := (bind m (fun x => f))
  (at level 100, m at next level, right associativity).

(** The string a [char *] argument of a [%s] conversion denotes: the bytes
    before the first NUL of the buffer. *)
Fixpoint cstring (b : list ascii) : run (list ascii) :=
  match b with
  | [] => undefined overrun
  | ch :: b' =>
      if (ch =? zero)%char then ret []
      else s <- cstring b' ;; ret (ch :: s)
  end.

Definition cstring_at (p : option (list ascii)) : run (list ascii) :=
  match p with
  | None => undefined null_pointer
  | Some b => cstring b
  end.

(** [p[i]]. *)
Definition char_at (p : option (list ascii)) (i : nat) : run ascii :=
  match p with
  | None => undefined null_pointer
  | Some b =>
      match b !! i with
      | Some ch => ret ch
      | None => undefined overrun
      end
  end.

(** The text of the conversion [%d]. *)
Fixpoint digits (u : Decimal.uint) : list ascii :=
  match u with
  | Decimal.Nil => []
  | Decimal.D0 u => "0"%char :: digits u
  | Decimal.D1 u => "1"%char :: digits u
  | Decimal.D2 u => "2"%char :: digits u
  | Decimal.D3 u => "3"%char :: digits u
  | Decimal.D4 u => "4"%char :: digits u
  | Decimal.D5 u => "5"%char :: digits u
  | Decimal.D6 u => "6"%char :: digits u
  | Decimal.D7 u => "7"%char :: digits u
  | Decimal.D8 u => "8"%char :: digits u
  | Decimal.D9 u => "9"%char :: digits u
  end.

Definition decimal (z : Z) : list ascii :=
  match Z.to_int z with
  | Decimal.Pos u => digits u
  | Decimal.Neg u => "-"%char :: digits u
  end.

(** [vsnprintf(p + off, n, ...)] when the text the format produces is [s]:
    nothing is stored when [n] is 0, otherwise at most [n - 1] characters
    of [s] and a NUL.  The call returns the length of [s] in both cases;
    an output error, which gives a negative result, is left out. *)
Definition vsnprintf (p : option (list ascii)) (off n : Z)
    (s : list ascii) : run (option (list ascii)) :=
  if n =? 0 then ret p
  else
    match p with
    | None => undefined null_pointer
    | Some b =>
        let w := take (Z.to_nat (n - 1)) s ++ [zero] in
        if off + Z.of_nat (length w) <=? Z.of_nat (length b)
        then ret (Some (take (Z.to_nat off) b ++ w ++
                        drop (Z.to_nat off + length w)%nat b))
        else undefined overflow
    end.

(** What the code gets from the environment: whether [open] and the
    [malloc] of the pattern buffer succeed, the bytes [read] stores ([None]
    when it returns -1), the array [name] as [gethostname] leaves it, and
    for the [k]-th call of [realloc] whether it succeeds and the bytes
    found in the memory it adds. *)
Record host := mk_host {
  open_core_file : bool;
  malloc_pattern : bool;
  read_core_file : option (list ascii);
  gethostname : list ascii;
  realloc_grants : nat -> bool;
  realloc_fresh : nat -> nat -> ascii
}.

Section Name.

Context `{path_limits}.
Variable h : host.

(** The [k]-th call of [realloc]: the block keeps its first [size] bytes. *)
Definition realloc (k : nat) (p : option (list ascii)) (size : Z)
    : option (list ascii) :=
  if realloc_grants h k
  then
    let old := default [] p in
    Some (take (Z.to_nat size) old ++
          map (realloc_fresh h k) (seq 0 (Z.to_nat size - length old)%nat))
  else None.

(** [ve_vsnprintf] with the text [s] its format and arguments produce;
    [k] counts the calls of [realloc].  [retry] is [None] for an entry at
    the label [again] and the value of [free] for a jump to [retry]. *)
Fixpoint ve_vsnprintf_again (fuel : nat) (retry : option Z) (k : nat)
    (c : ve_corename) (s : list ascii) : run (Z * ve_corename * nat) :=
  match fuel with
  | O => unfinished
  | S fuel =>
      let need := Z.of_nat (length s) in
      let free :=
        match retry with
        | Some f => f
        | None =>
            if copy_pattern c || use_all c then actual_space c
            else u64 (actual_space c - space_used c)
        end in
      c <- (if copy_pattern c
            then b <- vsnprintf (core_pattern c) 0 free s ;;
                 ret (set_core_pattern b c)
            else if use_all c
            then b <- vsnprintf (corename c) 0 free s ;;
                 ret (set_corename b c)
            else b <- vsnprintf (corename c) (space_used c) free s ;;
                 ret (set_corename b c)) ;;
      if need <? free
      then
        if copy_pattern c then ret (0, c, k)
        else if use_all c then ret (0, set_space_used need c, k)
        else ret (0, set_space_used (space_used c + need) c, k)
      else
        let size := u64 (actual_space c + need - free + 1) in
        if copy_pattern c
        then
          match realloc k (core_pattern c) size with
          | Some b =>
              ve_vsnprintf_again fuel (Some size) (S k)
                (set_core_pattern (Some b) c) s
          | None => ret (- ENOMEM, set_core_pattern None c, S k)
          end
        else
          match realloc k (corename c) size with
          | Some b =>
              ve_vsnprintf_again fuel None (S k)
                (set_actual_space size (set_corename (Some b) c)) s
          | None => ret (- ENOMEM, set_corename None c, S k)
          end
  end.

Definition ve_vsnprintf (k : nat) (c : ve_corename) (s : list ascii)
    : run (Z * ve_corename * nat) :=
  ve_vsnprintf_again 3 None k c s.

Section Task.

(** The two fields of the task the function reads: the array
    [ve_exec_path] and [tgid]. *)
Variable ve_exec_path : list ascii.
Variable tgid : Z.

(** The label [free_pattern]: the pattern buffer is released. *)
Definition free_pattern (retval : Z) (c : ve_corename)
    : run (Z * ve_corename) :=
  ret (retval, set_core_pattern None c).

(** The label [append_pid]. *)
Definition append_pid (pid_in_pattern : bool) (k : nat) (c : ve_corename)
    : run (Z * ve_corename) :=
  r <- ve_vsnprintf k c
         (if pid_in_pattern then [".";"v";"e"]%char
          else ["."%char] ++ decimal tgid ++ [".";"v";"e"]%char) ;;
  let '(retval, c, _) := r in
  free_pattern retval c.

(** The loop over the pattern, [pat_ptr] being [core_pattern + i].  It
    ends with [retval], [pid_in_pattern] and the structure; the code goes
    on at [out] when [retval] is 0 and at [free_pattern] otherwise.  A
    call of [ve_vsnprintf] that moved the pattern buffer leaves [pat_ptr]
    behind. *)
Fixpoint pattern_loop (fuel : nat) (i : nat) (pid_in_pattern : bool)
    (k : nat) (c : ve_corename) : run (Z * bool * ve_corename * nat) :=
  match fuel with
  | O => unfinished
  | S fuel =>
      let next (i : nat) (pid_in_pattern : bool)
          (r : run (Z * ve_corename * nat)) :=
        r <- r ;;
        let '(retval, c', k') := r in
        if negb (retval =? 0) then ret (retval, pid_in_pattern, c', k')
        else if copy_pattern c && negb (k' =? k)%nat
        then undefined dangling
        else pattern_loop fuel i pid_in_pattern k' c' in
      ch <- char_at (core_pattern c) i ;;
      if (ch =? zero)%char then ret (0, pid_in_pattern, c, k)
      else if negb (ch =? "%")%char
      then
        if (ch =? "010")%char
        then pattern_loop fuel (S i) pid_in_pattern k c
        else next (S i) pid_in_pattern (ve_vsnprintf k c [ch])
      else
        d <- char_at (core_pattern c) (S i) ;;
        if (d =? zero)%char then ret (0, pid_in_pattern, c, k)
        else if (d =? "%")%char
        then next (S (S i)) pid_in_pattern (ve_vsnprintf k c [d])
        else if (d =? "p")%char
        then next (S (S i)) true (ve_vsnprintf k c (decimal tgid))
        else if (d =? "h")%char
        then next (S (S i)) pid_in_pattern
               (name <- cstring (gethostname h) ;; ve_vsnprintf k c name)
        else pattern_loop fuel (S (S i)) pid_in_pattern k c
  end.

(** The label [out]: a name that is not absolute gets the directory of
    the executable in front.  With a directory of one character the code
    prints [corename] into [corename]. *)
Definition prepend_path (pid_in_pattern : bool) (k : nat)
    (c : ve_corename) : run (Z * ve_corename) :=
  first <- char_at (corename c) 0 ;;
  relative <-
    (if negb (first =? "/")%char
     then path0 <- char_at (Some ve_exec_path) 0 ;;
          ret (negb (path0 =? zero)%char)
     else ret false) ;;
  if relative : bool
  then
    name <- cstring_at (corename c) ;;
    r <- ve_vsnprintf k (set_copy_pattern true c) name ;;
    let '(retval, c, k) := r in
    let c := set_copy_pattern false c in
    if negb (retval =? 0) then free_pattern retval c
    else
      let c := set_use_all true c in
      path1 <- char_at (Some ve_exec_path) 1 ;;
      r <- (if negb (path1 =? zero)%char
            then
              path <- cstring ve_exec_path ;;
              copy <- cstring_at (core_pattern c) ;;
              ve_vsnprintf k c (path ++ ["/"%char] ++ copy)
            else undefined overlap) ;;
      let '(retval, c, k) := r in
      let c := set_use_all false c in
      if negb (retval =? 0) then free_pattern retval c
      else append_pid pid_in_pattern k c
  else append_pid pid_in_pattern k c.

(** The pattern buffer after [memset] and [read]: at most [PATH_MAX]
    bytes of the file, and zeros behind them. *)
Definition read_pattern (data : list ascii) : list ascii :=
  take PATH_MAX data ++ replicate (PATH_MAX - length data) zero.

(** [ve_format_core_filename]: the return value and the structure. *)
Definition ve_format_core_filename (c : ve_corename)
    : run (Z * ve_corename) :=
  if negb (open_core_file h) then ret (-1, c)
  else if negb (malloc_pattern h) then ret (-1, set_core_pattern None c)
  else
    match read_core_file h with
    | None =>
        free_pattern (-1)
          (set_core_pattern (Some (replicate PATH_MAX zero)) c)
    | Some data =>
        let c := set_core_pattern (Some (read_pattern data)) c in
        first <- char_at (core_pattern c) 0 ;;
        if (first =? "|")%char
        then
          path <- cstring ve_exec_path ;;
          r <- ve_vsnprintf 0 c
                 (path ++ ["/"%char] ++ ["c";"o";"r";"e"]%char) ;;
          let '(retval, c, k) := r in
          if negb (retval =? 0) then free_pattern retval c
          else append_pid false k c
        else
          r <- pattern_loop (S PATH_MAX) 0 false 0 c ;;
          let '(retval, pid_in_pattern, c, k) := r in
          if negb (retval =? 0) then free_pattern retval c
          else prepend_path pid_in_pattern k c
    end.

End Task.

(** The structure as [do_ve_coredump] passes it: cleared, but for a name
    buffer of [PATH_MAX] zero bytes and its size. *)
Definition fresh_corename : ve_corename :=
  mk_ve_corename (Some (replicate PATH_MAX zero)) None (Z.of_nat PATH_MAX) 0
    false false.

End Name.

End CoreName.
(** * [veos/psm/task_signal.c] *)

Module TaskSignal.
Import Word.
Import Ascii (ascii).

(** ** Host constants (Linux x86-64 [signal.h], [errno.h]) *)

Definition SIGINT : Z := 2.
Definition SIGKILL : Z := 9.
Definition SIGUSR1 : Z := 10.
Definition SIGSEGV : Z := 11.
Definition SIGCONT : Z := 18.
Definition SIGSTOP : Z := 19.
Definition SIGTSTP : Z := 20.
Definition SIGTTIN : Z := 21.
Definition SIGTTOU : Z := 22.
Definition SIGRTMIN : Z := 34.
Definition _NSIG : Z := 65.

Definition SA_ONSTACK : Z := 0x08000000.
Definition SA_RESTART : Z := 0x10000000.
Definition SA_NODEFER : Z := 0x40000000.
Definition SA_RESETHAND : Z := 0x80000000.
Definition SS_ONSTACK : Z := 1.
Definition SI_USER : Z := 0.
Definition SI_KERNEL : Z := 0x80.
Definition SIG_DFL : Z := 0.
Definition SIG_IGN : Z := 1.
Definition EINTR : Z := 4.
Definition EFAULT : Z := 14.

(** ** [sigset_t]

    The file reads and writes [__val[0]] of a signal set directly, and the
    libc operations on signal numbers 1..64 touch that word only: a set is
    its first word. *)

Definition sigset_t : Type := Z.

Definition valid_signal (sig : Z) : bool := (0 <? sig) && (sig <? _NSIG).

Definition ve_mask (sig : Z) : Z := Z.shiftl 1 (sig - 1).

Definition sigemptyset : sigset_t := 0.

(** The two signals libc keeps for itself ([SIGCANCEL] and [SIGSETXID],
    the numbers between the last standard signal and [SIGRTMIN]). *)
Definition reserved_signal (sig : Z) : bool := (sig =? 32) || (sig =? 33).

(** [sigaddset] and [sigdelset] of libc return -1 ([EINVAL]) and leave the
    set alone for a number outside 1..64 and for the two reserved signals;
    the file ignores their result.  [sigismember] refuses only the numbers
    outside 1..64. *)
Definition sigaddset (set : sigset_t) (sig : Z) : sigset_t :=
  if valid_signal sig && negb (reserved_signal sig)
  then Z.lor set (ve_mask sig) else set.

Definition sigdelset (set : sigset_t) (sig : Z) : sigset_t :=
  if valid_signal sig && negb (reserved_signal sig)
  then Z.land set (lnot64 (ve_mask sig)) else set.

Definition sigismember (set : sigset_t) (sig : Z) : Z :=
  if valid_signal sig then (if Z.testbit set (sig - 1) then 1 else 0) else -1.

Definition sigorset (a b : sigset_t) : sigset_t := Z.lor a b.

(** ** Data *)

(** [siginfo_t], as far as the file names its members.  [si_pid], [si_uid]
    and [si_addr] are members of one union: on x86-64 [si_pid] is its
    first four bytes, [si_uid] the next four, and the pointer [si_addr]
    the eight of them. *)
Record siginfo_t : Type := mk_siginfo {
  si_signo : Z;
  si_errno : Z;
  si_code : Z;
  si_pid : Z;
  si_uid : Z
}.

Definition si_addr (si : siginfo_t) : Z :=
  Z.lor (si_pid si) (Z.shiftl (si_uid si) 32).

(** [si->si_addr = v] *)
Definition set_si_addr (si : siginfo_t) (v : Z) : siginfo_t :=
  mk_siginfo (si_signo si) (si_errno si) (si_code si)
    (Z.land v (Z.ones 32)) (Z.shiftr v 32).

(** The [siginfo_t *] argument of [psm_send_ve_signal]: the distinguished
    pointer [SEND_SIG_PRIV], or a pointer to a real [siginfo_t]. *)
Inductive siginfo_arg : Type :=
| SEND_SIG_PRIV
| SigInfo (si : siginfo_t).

Record ve_sigqueue : Type := mk_sigqueue {
  signo : Z;
  flag : Z;
  info : siginfo_t
}.

(** [struct ve_sigpending]: the queue ([list] in C), oldest record first,
    and the mask. *)
Record ve_sigpending : Type := mk_sigpending {
  sig_list : list ve_sigqueue;
  signal : sigset_t
}.

Record ve_sigaction : Type := mk_sigaction {
  sa_handler : Z;
  sa_flags : Z;
  sa_mask : sigset_t
}.

(** [core_user_reg_t]: the user registers the file names. *)
Record core_user_reg_t : Type := mk_regs {
  IC : Z;
  ICE : Z;
  SR : Z -> Z;
  EXS : Z
}.

Record stack_t : Type := mk_stack {
  ss_sp : Z;
  ss_flags : Z;
  ss_size : Z
}.

Record ucontext_t : Type := mk_ucontext {
  uc_flags : Z;
  uc_link : Z;
  uc_stack : stack_t;
  uc_sigmask : sigset_t;
  uc_mcontext : core_user_reg_t
}.

Record sigframe : Type := mk_sigframe {
  tramp : Z -> Z;
  ve_siginfo : siginfo_t;
  uc : ucontext_t;
  lshm_area : list Z;
  sf_flag : Z;
  sf_signum : Z
}.

(** [struct sighand_struct], shared by the threads of a group. *)
Record sighand_struct : Type := mk_sighand {
  action : Z -> ve_sigaction;
  sh_ve_sigpending : Z;
  rlim_sigpending : Z;
  rlim_core : Z;
  signal_flag : Z;
  got_sigint : Z
}.

(** [struct ve_task_struct]: the signal state of one thread, and of its
    scheduling state the fields the file reads or writes. *)
Record ve_task_struct : Type := mk_task {
  pid : Z;
  p_ve_thread : core_user_reg_t;
  pending : ve_sigpending;
  blocked : sigset_t;
  ve_saved_sigmask : sigset_t;
  mask_saved : bool;
  sas_ss_sp : Z;
  sas_ss_size : Z;
  sigpending : Z;
  usr_reg_dirty : bool;
  lshm : list Z;
  ve_task_state : Z;
  flags : Z;
  vfork_state : Z;
  block_status : Z;
  tgid : Z;
  ve_exec_path : list ascii
}.

(** A thread group and the signal-handler table its threads share.  The
    threads are those of the list [thread_group] of the leader, in the
    order of that list, and then the leader. *)
Record thread_group : Type := mk_group {
  tasks : list ve_task_struct;
  sighand : sighand_struct
}.

(** Field updates. *)

Definition set_IC (r : core_user_reg_t) (v : Z) : core_user_reg_t :=
  mk_regs v (ICE r) (SR r) (EXS r).

Definition set_SR (r : core_user_reg_t) (n v : Z) : core_user_reg_t :=
  mk_regs (IC r) (ICE r) (fun k => if k =? n then v else SR r k) (EXS r).

Definition set_thread (t : ve_task_struct) (r : core_user_reg_t) : ve_task_struct :=
  mk_task (pid t) r (pending t) (blocked t) (ve_saved_sigmask t) (mask_saved t)
    (sas_ss_sp t) (sas_ss_size t) (sigpending t) (usr_reg_dirty t) (lshm t)
    (ve_task_state t) (flags t) (vfork_state t) (block_status t)
    (tgid t) (ve_exec_path t).

Definition set_pending (t : ve_task_struct) (p : ve_sigpending) : ve_task_struct :=
  mk_task (pid t) (p_ve_thread t) p (blocked t) (ve_saved_sigmask t) (mask_saved t)
    (sas_ss_sp t) (sas_ss_size t) (sigpending t) (usr_reg_dirty t) (lshm t)
    (ve_task_state t) (flags t) (vfork_state t) (block_status t)
    (tgid t) (ve_exec_path t).

Definition set_blocked (t : ve_task_struct) (b : sigset_t) : ve_task_struct :=
  mk_task (pid t) (p_ve_thread t) (pending t) b (ve_saved_sigmask t) (mask_saved t)
    (sas_ss_sp t) (sas_ss_size t) (sigpending t) (usr_reg_dirty t) (lshm t)
    (ve_task_state t) (flags t) (vfork_state t) (block_status t)
    (tgid t) (ve_exec_path t).

Definition set_mask_saved (t : ve_task_struct) (b : bool) : ve_task_struct :=
  mk_task (pid t) (p_ve_thread t) (pending t) (blocked t) (ve_saved_sigmask t) b
    (sas_ss_sp t) (sas_ss_size t) (sigpending t) (usr_reg_dirty t) (lshm t)
    (ve_task_state t) (flags t) (vfork_state t) (block_status t)
    (tgid t) (ve_exec_path t).

Definition set_sigpending (t : ve_task_struct) (v : Z) : ve_task_struct :=
  mk_task (pid t) (p_ve_thread t) (pending t) (blocked t) (ve_saved_sigmask t)
    (mask_saved t) (sas_ss_sp t) (sas_ss_size t) v (usr_reg_dirty t) (lshm t)
    (ve_task_state t) (flags t) (vfork_state t) (block_status t)
    (tgid t) (ve_exec_path t).

Definition set_usr_reg_dirty (t : ve_task_struct) (b : bool) : ve_task_struct :=
  mk_task (pid t) (p_ve_thread t) (pending t) (blocked t) (ve_saved_sigmask t)
    (mask_saved t) (sas_ss_sp t) (sas_ss_size t) (sigpending t) b (lshm t)
    (ve_task_state t) (flags t) (vfork_state t) (block_status t)
    (tgid t) (ve_exec_path t).

Definition set_lshm (t : ve_task_struct) (l : list Z) : ve_task_struct :=
  mk_task (pid t) (p_ve_thread t) (pending t) (blocked t) (ve_saved_sigmask t)
    (mask_saved t) (sas_ss_sp t) (sas_ss_size t) (sigpending t) (usr_reg_dirty t) l
    (ve_task_state t) (flags t) (vfork_state t) (block_status t)
    (tgid t) (ve_exec_path t).

Definition set_ve_task_state (t : ve_task_struct) (v : Z) : ve_task_struct :=
  mk_task (pid t) (p_ve_thread t) (pending t) (blocked t) (ve_saved_sigmask t)
    (mask_saved t) (sas_ss_sp t) (sas_ss_size t) (sigpending t) (usr_reg_dirty t)
    (lshm t) v (flags t) (vfork_state t) (block_status t)
    (tgid t) (ve_exec_path t).

Definition set_flags (t : ve_task_struct) (v : Z) : ve_task_struct :=
  mk_task (pid t) (p_ve_thread t) (pending t) (blocked t) (ve_saved_sigmask t)
    (mask_saved t) (sas_ss_sp t) (sas_ss_size t) (sigpending t) (usr_reg_dirty t)
    (lshm t) (ve_task_state t) v (vfork_state t) (block_status t)
    (tgid t) (ve_exec_path t).

Definition set_handler (sh : sighand_struct) (sig : Z) (h : Z) : sighand_struct :=
  mk_sighand
    (fun k => if k =? sig - 1
              then mk_sigaction h (sa_flags (action sh k)) (sa_mask (action sh k))
              else action sh k)
    (sh_ve_sigpending sh) (rlim_sigpending sh) (rlim_core sh)
    (signal_flag sh) (got_sigint sh).

Definition set_sh_ve_sigpending (sh : sighand_struct) (v : Z) : sighand_struct :=
  mk_sighand (action sh) v (rlim_sigpending sh) (rlim_core sh)
    (signal_flag sh) (got_sigint sh).

Definition set_signal_flag (sh : sighand_struct) (v : Z) : sighand_struct :=
  mk_sighand (action sh) (sh_ve_sigpending sh) (rlim_sigpending sh) (rlim_core sh)
    v (got_sigint sh).

Definition set_got_sigint (sh : sighand_struct) (v : Z) : sighand_struct :=
  mk_sighand (action sh) (sh_ve_sigpending sh) (rlim_sigpending sh) (rlim_core sh)
    (signal_flag sh) v.


(** ** Values of the veos headers

    [signal.h], [task_signal.h], [ve_hw.h] and [velayout.h] of veos are
    not part of the tree under study; the constants the file takes from
    them are parameters of the model. *)

Class veos_headers : Type := {
  VE_SYNCHRONOUS_MASK : Z;
  SYNCHRONOUS_SIGNAL : Z;
  VE_ERESTARTSYS : Z;
  VE_ENORESTART : Z;
  HANDLER_STACK_FRAME : Z;
  sizeof_sigframe : Z;
  offsetof_ve_siginfo : Z;
  offsetof_uc : Z;
  VE_SIGNAL_GROUP_COREDUMP : Z;
  VE_SIGNAL_GROUP_EXIT : Z;
  SIGNAL_PENDING : Z
}.

(** ** The rest of veos and the host

    The states of a task, the values of [vfork_state] and [block_status],
    the exception bits of [EXS] and the process flags are constants of
    headers that are not part of the tree under study.  So is what the
    file asks of other files: [psm_get_ve_proc_info], here the state
    letter the host reports for a pid ([None] when the call returns -1),
    and the core of a task, here the user registers the core holds when
    the task of that pid is its current task ([None] when it is not). *)
Class veos_scheduler : Type := {
  RUNNING : Z;
  WAIT : Z;
  STOP : Z;
  VFORK_ONGOING : Z;
  BLOCK_RECVD : Z;
  VE_EXCEPTION : Z;
  PF_DUMPCORE : Z;
  PF_SIGNALED : Z;
  psm_get_ve_proc_info : Z -> option Z;
  curr_ve_task : Z -> option core_user_reg_t
}.

(** Modelled from the spec: [VE_SIG_STOP_MASK] and [ve_sig_stop] are macros
    of the missing [signal.h]; the design notes name the set they stand
    for, {SIGSTOP, SIGTSTP, SIGTTIN, SIGTTOU}. *)
Definition VE_SIG_STOP_MASK : Z :=
  Z.lor (Z.lor (ve_mask SIGSTOP) (ve_mask SIGTSTP))
        (Z.lor (ve_mask SIGTTIN) (ve_mask SIGTTOU)).

Definition ve_sig_stop (sig : Z) : bool :=
  (sig <? SIGRTMIN) && Z.testbit VE_SIG_STOP_MASK (sig - 1).

(** A record of the queue carries signal [sig]. *)
Definition queued (p : ve_sigpending) (sig : Z) : Prop :=
  exists q, q ∈ sig_list p /\ signo q = sig.

(** [legacy_queue] is a macro of the missing [signal.h] as well.  The
    design document describes it by the queue ("a record with the same
    signal number is already queued"), its Linux namesake tests the mask
    bit.  The model takes the macro as a parameter and relies only on what
    both readings share: it is false for a real-time signal, false when
    the signal has neither a record nor its bit, and true for a
    non-real-time signal that has both. *)
Class legacy_queue_macro : Type := {
  legacy_queue : ve_sigpending -> Z -> bool;
  legacy_queue_rt : forall p sig,
    SIGRTMIN <= sig -> legacy_queue p sig = false;
  legacy_queue_absent : forall p sig,
    ~ queued p sig -> sigismember (signal p) sig = 0 ->
    legacy_queue p sig = false;
  legacy_queue_present : forall p sig,
    sig < SIGRTMIN -> queued p sig -> sigismember (signal p) sig = 1 ->
    legacy_queue p sig = true
}.

(** The flag of a group action. [FINVALID] stands for any other value. *)
Inductive group_flag : Type :=
| FSIGCONTINUE
| FSIGSTOPPING
| FSTOPPROC
| FCLEANTHREAD
| FSIGMASKING
| FINVALID.

(** What the daemon does to the outside world. *)
Inductive event : Type :=
| Kill (target sig : Z)
| CloseFd (fd : Z)
| Exec
| Exit (code : Z).

Section Operations.

Context {hdr : veos_headers} {lq : legacy_queue_macro}
  {sched : veos_scheduler} {limits : CoreName.path_limits}.

(** [__veos_virt_to_phy] on the address space of the task at hand:
    negative when the address has no translation. *)
Variable __veos_virt_to_phy : Z -> Z.

(** Accelerator memory, as far as this file looks at it: the frame the
    DMA engine stores at or loads from a physical address. *)
Definition ve_memory : Type := Z -> sigframe.

Definition recalc_sigpending (t : ve_task_struct) : Z * ve_task_struct :=
  if negb (Z.land (signal (pending t)) (lnot64 (blocked t)) =? 0)
  then (1, set_sigpending t SIGNAL_PENDING)
  else (0, set_sigpending t 0).

(** [calloc_ok] is the outcome of [calloc]. The fresh record is zeroed. *)
Definition psm_ve_sigqueue_alloc (sig : Z) (override_ve_rlimit : bool)
    (calloc_ok : bool) (sh : sighand_struct)
  : option ve_sigqueue * sighand_struct :=
  let n := sh_ve_sigpending sh + 1 in
  let ve_q :=
    if override_ve_rlimit || (n <=? rlim_sigpending sh)
    then (if calloc_ok
          then Some (mk_sigqueue 0 0 (mk_siginfo 0 0 0 0 0))
          else None)
    else None in
  match ve_q with
  | None => (None, set_sh_ve_sigpending sh (n - 1))
  | Some q => (Some (mk_sigqueue sig 0 (info q)), set_sh_ve_sigpending sh n)
  end.

(** The [FSIGCONTINUE] loop: every record whose signal [sigismember]
    reports in the stop mask is unlinked and its bit cleared. *)
Fixpoint delete_stopping (l : list ve_sigqueue) (set : sigset_t)
  : list ve_sigqueue * sigset_t :=
  match l with
  | [] => ([], set)
  | q :: l' =>
    if negb (sigismember VE_SIG_STOP_MASK (signo q) =? 0)
    then delete_stopping l' (sigdelset set (signo q))
    else let '(l'', set') := delete_stopping l' set in (q :: l'', set')
  end.

(** The [FSIGMASKING] loop: the first record of [sig] is unlinked and its
    bit cleared, then the loop breaks. *)
Fixpoint delete_first (sig : Z) (l : list ve_sigqueue) (set : sigset_t)
  : list ve_sigqueue * sigset_t :=
  match l with
  | [] => ([], set)
  | q :: l' =>
    if signo q =? sig
    then (l', sigdelset set (signo q))
    else let '(l'', set') := delete_first sig l' set in (q :: l'', set')
  end.

(** Modelled from the spec: [psm_set_task_state] is in another file; the
    design notes have it set the state of the task. *)
Definition psm_set_task_state (p_ve_task : ve_task_struct) (state : Z)
  : ve_task_struct :=
  set_ve_task_state p_ve_task state.

Definition psm_start_ve_process (p_ve_task : ve_task_struct) : ve_task_struct :=
  if vfork_state p_ve_task =? VFORK_ONGOING
  then psm_set_task_state p_ve_task WAIT
  else if negb (Z.land (EXS (p_ve_thread p_ve_task)) VE_EXCEPTION =? 0)
          && (block_status p_ve_task =? BLOCK_RECVD)
  then set_ve_task_state p_ve_task WAIT
  else if negb (RUNNING =? ve_task_state p_ve_task)
  then psm_set_task_state p_ve_task RUNNING
  else p_ve_task.

(** The state letter of a stopped process is 'T'. *)
Definition is_actually_stopped (pid : Z) : bool :=
  match psm_get_ve_proc_info pid with
  | None => false
  | Some state => state =? 84
  end.

(** [psm_stop_ve_process]: the task and [*traverse] afterwards.  Modelled
    from the spec: [psm_halt_ve_core] and [psm_save_current_user_context]
    are in other files; the design notes have them halt the core and
    snapshot its registers into the task. *)
Definition psm_stop_ve_process (p_ve_task : ve_task_struct) (fl : group_flag)
    (traverse : Z) : ve_task_struct * Z :=
  if match fl with
     | FSTOPPROC => negb (is_actually_stopped (pid p_ve_task))
     | _ => false
     end
  then (p_ve_task, 0)
  else
    let t := psm_set_task_state p_ve_task STOP in
    match curr_ve_task (pid p_ve_task) with
    | Some regs => (set_thread t regs, 1)
    | None => (t, 1)
    end.

(** [ve_group_action]: its result, the task and [*is_needed]
    afterwards. *)
Definition ve_group_action (t : ve_task_struct) (fl : group_flag) (sig : Z)
    (is_needed : Z) : Z * ve_task_struct * Z :=
  let p := pending t in
  match fl with
  | FSIGCONTINUE =>
    let '(l, s) := delete_stopping (sig_list p) (signal p) in
    (0, psm_start_ve_process (set_pending t (mk_sigpending l s)), is_needed)
  | FSIGSTOPPING | FSTOPPROC | FCLEANTHREAD =>
    let '(t, is_needed) := psm_stop_ve_process t fl is_needed in
    (0, t, is_needed)
  | FSIGMASKING =>
    let '(l, s) := delete_first sig (sig_list p) (signal p) in
    (0, set_pending t (mk_sigpending l s), is_needed)
  | FINVALID => (-1, t, is_needed)
  end.

(** [FCLEANTHREAD] spares the requesting thread. *)
Definition spared (fl : group_flag) (tmp : ve_task_struct) (req_pid : Z) : bool :=
  match fl with
  | FCLEANTHREAD => pid tmp =? req_pid
  | _ => false
  end.

(** The loop of [ve_do_group_action] over the threads of the list of the
    leader: the threads and [traversal_required] as it leaves them, and
    whether it came to its end ([false] when the function returned from
    inside it). *)
Fixpoint ve_do_group_action_threads (threads : list ve_task_struct)
    (req_pid : Z) (fl : group_flag) (sig : Z) (traversal_required : Z)
  : list ve_task_struct * Z * bool :=
  match threads with
  | [] => ([], traversal_required, true)
  | tmp :: threads' =>
    if spared fl tmp req_pid
    then
      let '(l, tr, ended) :=
        ve_do_group_action_threads threads' req_pid fl sig traversal_required in
      (tmp :: l, tr, ended)
    else
      let '(_, tmp', tr) := ve_group_action tmp fl sig traversal_required in
      if match fl with FSTOPPROC => tr =? 0 | _ => false end
      then (tmp' :: threads', tr, false)
      else
        let '(l, tr, ended) :=
          ve_do_group_action_threads threads' req_pid fl sig tr in
        (tmp' :: l, tr, ended)
  end.

(** [ve_do_group_action] for the task [req_pid]: the threads of the list
    of the leader, then the leader. *)
Definition ve_do_group_action (g : thread_group) (req_pid : Z)
    (fl : group_flag) (sig : Z) : thread_group :=
  match last (tasks g) with
  | None => g
  | Some group_leader =>
    let '(threads, traversal_required, ended) :=
      ve_do_group_action_threads (removelast (tasks g)) req_pid fl sig 0 in
    if negb ended || spared fl group_leader req_pid
    then mk_group (threads ++ [group_leader]) (sighand g)
    else
      let '(_, group_leader, _) :=
        ve_group_action group_leader fl sig traversal_required in
      mk_group (threads ++ [group_leader]) (sighand g)
  end.

Definition set_task (g : thread_group) (i : nat) (t : ve_task_struct)
  : thread_group :=
  mk_group (<[i := t]> (tasks g)) (sighand g).

Definition set_sighand (g : thread_group) (sh : sighand_struct) : thread_group :=
  mk_group (tasks g) sh.

(** The head of [psm_send_ve_signal], under the signal lock: [None] when
    the signal is ignored because a core dump is in progress, else the
    group after the group action the signal number calls for. *)
Definition send_group_action (g : thread_group) (cur : ve_task_struct)
    (signum : Z) : option thread_group :=
  if signal_flag (sighand g) =? VE_SIGNAL_GROUP_COREDUMP
  then
    if signum =? SIGINT
    then Some (set_sighand g (set_got_sigint (sighand g) 1))
    else None
  else if signum =? SIGCONT
  then Some (ve_do_group_action g (pid cur) FSIGCONTINUE signum)
  else if ve_sig_stop signum
  then Some (ve_do_group_action g (pid cur) FSIGMASKING SIGCONT)
  else Some g.

(** [override_ve_rlimit] as [psm_send_ve_signal] computes it; [SEND_SIG_PRIV]
    is the pointer the comparison [ve_sig_info <= SEND_SIG_PRIV] accepts. *)
Definition override_ve_rlimit (ve_sig_info : siginfo_arg) (signum : Z) : bool :=
  if signum <? SIGRTMIN
  then match ve_sig_info with
       | SEND_SIG_PRIV => true
       | SigInfo si => 0 <=? si_code si
       end
  else false.

(** The record [psm_send_ve_signal] links into the queue, from the record
    [psm_ve_sigqueue_alloc] returned. *)
Definition fill_sigqueue (q : ve_sigqueue) (ve_sig_info : siginfo_arg)
    (signum fl : Z) (t : ve_task_struct) : ve_sigqueue :=
  mk_sigqueue (signo q) fl
    match ve_sig_info with
    | SEND_SIG_PRIV => mk_siginfo signum 0 SI_KERNEL 0 0
    | SigInfo si =>
      if negb (fl =? 0)
      then set_si_addr si (ICE (p_ve_thread t))
      else si
    end.

(** [psm_send_ve_signal] on thread [i] of the group, up to the release of
    the locks.  The two calls into the scheduler that follow a successful
    enqueue, [psm_handle_un_block_request] and
    [psm_find_sched_new_task_on_core], are in other files and are left
    out. *)
Definition psm_send_ve_signal (g : thread_group) (i : nat)
    (ve_sig_info : siginfo_arg) (signum : Z) (fl : Z) (calloc_ok : bool)
  : Z * thread_group :=
  match tasks g !! i with
  | None => (-1, g)
  | Some cur =>
    match send_group_action g cur signum with
    | None => (-1, g)
    | Some g1 =>
      match tasks g1 !! i with
      | None => (-1, g1)
      | Some t =>
        let ve_pending := pending t in
        if legacy_queue ve_pending signum then (-1, g1)
        else
          let '(ve_q, sh) :=
            psm_ve_sigqueue_alloc signum (override_ve_rlimit ve_sig_info signum)
              calloc_ok (sighand g1) in
          let l :=
            match ve_q with
            | None => sig_list ve_pending
            | Some q => sig_list ve_pending ++ [fill_sigqueue q ve_sig_info signum fl t]
            end in
          let p := mk_sigpending l (sigaddset (signal ve_pending) signum) in
          let '(r, t') := recalc_sigpending (set_pending t p) in
          let g2 := set_sighand (set_task g1 i t') sh in
          if r =? 0 then (-1, g2) else (0, g2)
      end
    end
  end.

Definition psm_get_next_ve_signal (pend : ve_sigpending) (mask : sigset_t) : Z :=
  let effective_set := Z.land (signal pend) (lnot64 mask) in
  if negb (effective_set =? 0)
  then
    let effective_set :=
      if negb (Z.land effective_set VE_SYNCHRONOUS_MASK =? 0)
      then Z.land effective_set VE_SYNCHRONOUS_MASK
      else effective_set in
    ffsl effective_set
  else 0.

Fixpoint unlink_first (sig : Z) (l : list ve_sigqueue) : list ve_sigqueue :=
  match l with
  | [] => []
  | q :: l' => if signo q =? sig then l' else q :: unlink_first sig l'
  end.

(** [ve_collect_signal]: the siginfo and flag it fills in, the queue and
    the counter it leaves. *)
Definition ve_collect_signal (ve_siginfo : siginfo_t) (pend : ve_sigpending)
    (sig : Z) (fl : Z) (sh : sighand_struct)
  : siginfo_t * Z * ve_sigpending * sighand_struct :=
  match filter (fun q => signo q = sig) (sig_list pend) with
  | first :: _ :: _ =>
    (info first, flag first,
     mk_sigpending (unlink_first sig (sig_list pend)) (signal pend),
     set_sh_ve_sigpending sh (sh_ve_sigpending sh - 1))
  | [first] =>
    (info first, flag first,
     mk_sigpending (unlink_first sig (sig_list pend))
       (sigdelset (signal pend) sig),
     set_sh_ve_sigpending sh (sh_ve_sigpending sh - 1))
  | [] =>
    (mk_siginfo sig 0 SI_USER 0 0, fl,
     mk_sigpending (sig_list pend) (sigdelset (signal pend) sig), sh)
  end.

Definition psm_dequeue_ve_signal (ve_siginfo : siginfo_t)
    (pend : ve_sigpending) (mask : sigset_t) (fl : Z) (sh : sighand_struct)
  : Z * (siginfo_t * Z * ve_sigpending * sighand_struct) :=
  let sig := psm_get_next_ve_signal pend mask in
  if negb (sig =? 0)
  then (sig, ve_collect_signal ve_siginfo pend sig fl sh)
  else (sig, (ve_siginfo, fl, pend, sh)).

(** ** Handler frames *)

Definition on_sig_stack (current : ve_task_struct) : bool :=
  let sp := SR (p_ve_thread current) 11 in
  (sas_ss_sp current <? sp) &&
  (u64 (sp - sas_ss_sp current) <=? sas_ss_size current).

(** [ve_getframe]: the physical address it returns, the virtual address it
    stores through [vir_frame_addr], and [*on_altstack] afterwards. *)
Definition ve_getframe (p_ve_task : ve_task_struct) (sh : sighand_struct)
    (signum : Z) (on_altstack : Z) : Z * Z * Z :=
  let onsigstack := on_sig_stack p_ve_task in
  let fl := sa_flags (action sh (signum - 1)) in
  let '(frame_vir_addrs, on_altstack') :=
    if negb onsigstack
    then
      if negb (Z.land fl SA_ONSTACK =? 0) && negb (sas_ss_size p_ve_task =? 0)
      then (u64 (sas_ss_sp p_ve_task + sas_ss_size p_ve_task - sizeof_sigframe), 1)
      else (u64 (SR (p_ve_thread p_ve_task) 11 - sizeof_sigframe), on_altstack)
    else (u64 (SR (p_ve_thread p_ve_task) 11 - sizeof_sigframe), on_altstack) in
  (__veos_virt_to_phy frame_vir_addrs, frame_vir_addrs, on_altstack').

Definition psm_prepare_trampoline_ve (k : Z) : Z :=
  if k =? 0 then 0x462eaeae00000000
  else if k =? 1 then 0x012e008e00000018
  else if k =? 2 then 0x45000f0000000000
  else if k =? 3 then 0x310003ae00000000
  else if k =? 4 then 0x3f00000000000000
  else 0.

(** [setup_ve_frame]. [dma_status] is what [ve_dma_xfer_p_va] returns for
    the write of the frame; the frame reaches memory when it is 0. *)
Definition setup_ve_frame (signum : Z) (p_ve_task : ve_task_struct)
    (sh : sighand_struct) (siginfo : siginfo_t) (fl : Z)
    (dma_status : Z) (mem : ve_memory)
  : Z * ve_task_struct * ve_memory :=
  let '(frame_addrs, frame_vir_addr, on_altstack) :=
    ve_getframe p_ve_task sh signum 0 in
  if frame_addrs <? 0 then (- EFAULT, p_ve_task, mem)
  else
    let regs := p_ve_thread p_ve_task in
    let ve_sigframe :=
      mk_sigframe psm_prepare_trampoline_ve siginfo
        (mk_ucontext 0 0
           (mk_stack (sas_ss_sp p_ve_task)
              (if on_sig_stack p_ve_task then SS_ONSTACK else 0)
              (sas_ss_size p_ve_task))
           (if mask_saved p_ve_task
            then ve_saved_sigmask p_ve_task else blocked p_ve_task)
           regs)
        (lshm p_ve_task) fl signum in
    if negb (dma_status =? 0) then (- EFAULT, p_ve_task, mem)
    else
      let mem' := fun a => if a =? frame_addrs then ve_sigframe else mem a in
      let handler := sa_handler (action sh (signum - 1)) in
      let r := set_IC regs handler in
      let r := set_SR r 12 (IC r) in
      let r := set_SR r 0 signum in
      let r := set_SR r 1 (u64 (frame_vir_addr + offsetof_ve_siginfo)) in
      let r := set_SR r 2 (u64 (frame_vir_addr + offsetof_uc)) in
      let r := set_SR r 10 frame_vir_addr in
      let r := set_SR r 11 (u64 (frame_vir_addr - HANDLER_STACK_FRAME)) in
      let r := if negb (on_altstack =? 0)
               then set_SR r 8 (sas_ss_sp p_ve_task) else r in
      (0, set_thread p_ve_task r, mem').

Definition psm_set_current_blocked (p_ve_task : ve_task_struct)
    (newset : sigset_t) : ve_task_struct :=
  let b := sigdelset (sigdelset (sigdelset newset SIGKILL) SIGCONT) SIGSTOP in
  snd (recalc_sigpending (set_blocked p_ve_task b)).

(** [ve_force_sigsegv] on thread [i]. *)
Definition ve_force_sigsegv (signum : Z) (g : thread_group) (i : nat)
    (calloc_ok : bool) : thread_group :=
  match tasks g !! i with
  | None => g
  | Some t =>
    let sh :=
      if negb (sa_handler (action (sighand g) (signum - 1)) =? SIG_DFL)
      then set_handler (sighand g) signum SIG_DFL else sighand g in
    let t' :=
      if negb (sigismember (blocked t) signum =? 0)
      then set_blocked t (sigdelset (blocked t) signum) else t in
    snd (psm_send_ve_signal (set_sighand (set_task g i t') sh) i
           SEND_SIG_PRIV signum (if SYNCHRONOUS_SIGNAL =? 0 then 1 else 0)
           calloc_ok)
  end.

(** How the register read of [psm_restore_ve_context] goes: the task is
    not on its core, or it is and the read succeeds or fails. *)
Inductive sp_read : Type :=
| NotOnCore
| OnCore (sr11 : option Z).

(** The stack pointer [psm_restore_ve_context] starts from: [SR11] of the
    core when the task is on it, the saved [SR[11]] otherwise. *)
Definition read_curr_sp (rd : sp_read) (ve_task_curr : ve_task_struct)
  : option Z :=
  match rd with
  | NotOnCore => Some (SR (p_ve_thread ve_task_curr) 11)
  | OnCore r => r
  end.

(** [psm_restore_ve_context] on thread [i]; [None] is [veos_abort]. *)
Definition psm_restore_ve_context (g : thread_group) (i : nat)
    (rd : sp_read) (dma_status : Z) (mem : ve_memory) (calloc_ok : bool)
  : option (Z * thread_group * list event) :=
  match tasks g !! i with
  | None => Some (- EFAULT, g, [])
  | Some ve_task_curr =>
    match read_curr_sp rd ve_task_curr with
    | None => None
    | Some curr_sp =>
      let frame_addrs := __veos_virt_to_phy (u64 (curr_sp + HANDLER_STACK_FRAME)) in
      if (frame_addrs <? 0) || negb (dma_status =? 0)
      then Some (- EFAULT, ve_force_sigsegv SIGSEGV g i calloc_ok, [])
      else
        let p_ve_sigframe := mem frame_addrs in
        let t := set_thread ve_task_curr (uc_mcontext (uc p_ve_sigframe)) in
        let t := set_usr_reg_dirty t true in
        let t := set_lshm t (lshm_area p_ve_sigframe) in
        let t := set_blocked t (uc_sigmask (uc p_ve_sigframe)) in
        if negb (sf_flag p_ve_sigframe =? 0)
        then Some (-1, set_task g i t,
                   [Kill (pid ve_task_curr) (sf_signum p_ve_sigframe)])
        else Some (0, set_task g i (snd (recalc_sigpending t)), [])
    end
  end.

(** [ve_handle_signal] on thread [i]. [SR[0]] is an unsigned register: the
    case labels are the negated codes as 64-bit values. *)
Definition ve_handle_signal (g : thread_group) (i : nat) (fl : Z)
    (signum : Z) (siginfo : siginfo_t) (dma_status : Z) (mem : ve_memory)
    (calloc_ok : bool) : Z * thread_group * ve_memory :=
  match tasks g !! i with
  | None => (-1, g, mem)
  | Some p_ve_task =>
    let sh := sighand g in
    let regs := p_ve_thread p_ve_task in
    let regs :=
      if SR regs 0 =? u64 (- VE_ENORESTART)
      then set_SR regs 0 (u64 (- EINTR))
      else if SR regs 0 =? u64 (- VE_ERESTARTSYS)
      then
        if negb (Z.land (sa_flags (action sh (signum - 1))) SA_RESTART =? 0)
        then set_IC regs (u64 (IC regs - 8))
        else set_SR regs 0 (u64 (- EINTR))
      else regs in
    let t := set_thread p_ve_task regs in
    let '(ret, t, mem') := setup_ve_frame signum t sh siginfo fl dma_status mem in
    let g := set_task g i t in
    if ret <? 0
    then (ret, ve_force_sigsegv SIGSEGV g i calloc_ok, mem')
    else
      let act := action sh (signum - 1) in
      let sh' :=
        if negb (Z.land (sa_flags act) SA_RESETHAND =? 0)
        then set_handler sh signum SIG_DFL else sh in
      let blk := sigorset (blocked t) (sa_mask act) in
      let blk :=
        if Z.land (sa_flags act) SA_NODEFER =? 0
        then sigaddset blk signum else blk in
      let t := set_mask_saved t false in
      (ret, set_sighand (set_task g i (psm_set_current_blocked t blk)) sh', mem')
  end.

(** ** Core dump *)

(** [struct dump_info]; of the task [ve_task] points to, the dump thread
    uses the pid, the tgid, the path of the executable and, through the
    group, the shared handler table. *)
Record dump_info : Type := mk_dump_info {
  di_signum : Z;
  di_flag : Z;
  di_task_pid : Z;
  di_siginfo : siginfo_t;
  di_task_tgid : Z;
  di_task_exec_path : list ascii
}.

(** The first control message of a [struct msghdr], with the descriptor
    it carries. *)
Record cmsghdr : Type := mk_cmsghdr {
  cmsg_len : Z;
  cmsg_level : Z;
  cmsg_type : Z;
  cmsg_data : Z
}.

(** What [recvmsg] leaves: its result and [CMSG_FIRSTHDR]. *)
Record recvmsg_result : Type := mk_recvmsg {
  recvmsg_size : Z;
  cmsg_firsthdr : option cmsghdr
}.

(** [sys/socket.h] of Linux x86-64; [CMSG_LEN_int] is
    [CMSG_LEN(sizeof(int))]. *)
Definition SOL_SOCKET : Z := 1.
Definition SCM_RIGHTS : Z := 1.
Definition CMSG_LEN_int : Z := 20.

Definition get_ve_corefile_fd (r : recvmsg_result) : Z :=
  if recvmsg_size r <=? 0 then -1
  else
    match cmsg_firsthdr r with
    | None => -1
    | Some cmsg =>
      if negb (cmsg_len cmsg =? CMSG_LEN_int) then -1
      else if negb (cmsg_level cmsg =? SOL_SOCKET)
              || negb (cmsg_type cmsg =? SCM_RIGHTS)
      then -1
      else cmsg_data cmsg
    end.

(** What the system calls of one [do_ve_coredump] run return, and what
    [ve_format_core_filename] gets from the host. *)
Record dump_env : Type := mk_dump_env {
  socketpair_ret : Z;
  socket_fd0 : Z;
  socket_fd1 : Z;
  corename_malloc_ok : bool;
  corename_host : CoreName.host;
  sockfd_malloc_ok : bool;
  fork_ret : Z;
  setgid_ret : Z;
  setuid_ret : Z;
  execle_fails : bool;
  recvmsg_ret : recvmsg_result;
  elf_core_dump_ok : bool
}.

(** The tail of [do_ve_coredump] from the label [hndl_err] on. *)
Definition coredump_hndl_err (di : dump_info) (g : thread_group) (target : Z)
  : thread_group * list event :=
  (set_sighand g (set_signal_flag (sighand g) VE_SIGNAL_GROUP_EXIT),
   [if di_flag di =? SYNCHRONOUS_SIGNAL
    then Kill target (di_signum di)
    else Kill target SIGKILL]).

(** [do_ve_coredump] once the name of the core file is made; [retval] is
    what [ve_format_core_filename] returned. *)
Definition do_ve_coredump_named (di : dump_info) (g : thread_group)
    (env : dump_env) (retval : Z) : thread_group * list event :=
  let finish (evs : list event) :=
    let '(g', k) := coredump_hndl_err di g (di_task_pid di) in (g', evs ++ k) in
  let fd0 := socket_fd0 env in
  let fd1 := socket_fd1 env in
  if retval <? 0 then finish [CloseFd fd0; CloseFd fd1]
  else if negb (sockfd_malloc_ok env) then finish [CloseFd fd0; CloseFd fd1]
  else if fork_ret env =? -1 then finish [CloseFd fd0; CloseFd fd1]
  else if fork_ret env =? 0
  then
    if setgid_ret env =? -1 then (g, [CloseFd fd0; CloseFd fd1; Exit 1])
    else if setuid_ret env =? -1 then (g, [CloseFd fd0; CloseFd fd1; Exit 1])
    else if execle_fails env then (g, [CloseFd fd1; Exec; CloseFd fd0; Exit 1])
    else (g, [CloseFd fd1; Exec])
  else
    let fd := get_ve_corefile_fd (recvmsg_ret env) in
    if fd =? -1 then finish [CloseFd fd0; CloseFd fd1]
    else if negb (elf_core_dump_ok env)
    then finish [CloseFd fd0; CloseFd fd; CloseFd fd1]
    else finish [CloseFd fd0; CloseFd fd; CloseFd fd1].

(** [do_ve_coredump]: the group it leaves and the events of the calling
    process, in order, when the behaviour of the run is defined.
    [fork_ret = 0] is the run of the forked helper, which ends in [_exit]
    or in the image of the helper binary. *)
Definition do_ve_coredump (di : dump_info) (g : thread_group) (env : dump_env)
  : CoreName.run (thread_group * list event) :=
  let g := ve_do_group_action g (di_task_pid di) FCLEANTHREAD (di_signum di) in
  let finish (evs : list event) :=
    let '(g', k) := coredump_hndl_err di g (di_task_pid di) in (g', evs ++ k) in
  let fd0 := socket_fd0 env in
  let fd1 := socket_fd1 env in
  if rlim_core (sighand g) =? 0 then CoreName.ret (finish [])
  else if negb (socketpair_ret env =? 0) then CoreName.ret (finish [])
  else if negb (corename_malloc_ok env)
  then CoreName.ret (finish [CloseFd fd0; CloseFd fd1])
  else
    CoreName.bind
      (CoreName.ve_format_core_filename (corename_host env)
         (di_task_exec_path di) (di_task_tgid di) CoreName.fresh_corename)
      (fun r => CoreName.ret (do_ve_coredump_named di g env (fst r))).

End Operations.

End TaskSignal.

(** * DMA manager API ([src/veos/dma/dma_api.c]) *)

Module DmaApi.
Import Word.

(** [errno.h] of Linux. *)
Definition EBUSY : Z := 16.
Definition EINVAL : Z := 22.
Definition ETIMEDOUT : Z := 110.

(** [dma_private.h] *)
Definition VE_DMA_MAX_LENGTH : Z := 0x7FFFFFFFFFFFFFF8.

(** Values of [dma.h] and [vedma_hw.h], which are not among the sources at
    hand: the six address space types of [ve_dma_addrtype_t], and the mask
    and the halt state of the DMA control status register. *)
Class dma_headers := {
  VE_DMA_VEMVA : Z;
  VE_DMA_VEMVA_WO_PROT_CHECK : Z;
  VE_DMA_VHVA : Z;
  VE_DMA_VEMAA : Z;
  VE_DMA_VERAA : Z;
  VE_DMA_VHSAA : Z;
  VE_DMA_CTL_STATUS_MASK : Z;
  VE_DMA_CTL_STATUS_HALT : Z
}.

(** [ve_dma_status_t] *)
Inductive ve_dma_status_t :=
  | VE_DMA_STATUS_OK
  | VE_DMA_STATUS_NOT_FINISHED
  | VE_DMA_STATUS_TIMEDOUT
  | VE_DMA_STATUS_CANCELED
  | VE_DMA_STATUS_ERROR.

Definition is_not_finished (s : ve_dma_status_t) : bool :=
  match s with VE_DMA_STATUS_NOT_FINISHED => true | _ => false end.

(** [struct ve_dma_hdl_struct], the fields the mutex protects.  DMA reqlist
    entries are referred to by address, 0 for [NULL]. *)
Record ve_dma_hdl := mk_hdl {
  waiting_list : list Z;
  should_stop : Z;
  desc_used_begin : Z;
  desc_num_used : Z;
  req_entry : Z -> Z
}.

(** [struct ve_dma_req_hdl_struct] *)
Record ve_dma_req_hdl := mk_req {
  reqlist : list Z
}.

Definition set_should_stop (hdl : ve_dma_hdl) (v : Z) : ve_dma_hdl :=
  mk_hdl (waiting_list hdl) v (desc_used_begin hdl) (desc_num_used hdl)
    (req_entry hdl).

(** What a call does to the hardware and to the resources of the engine, in
    order. *)
Inductive action :=
  | ve_dma_hw_post_stop
  | ve_dma_hw_start
  | pthread_cond_broadcast
  | pthread_join_helper
  | pthread_mutex_destroy
  | munmap_control_regs
  | free_hdl.

(** The result of [ve_dma_close_p]: the value returned, the handle as the
    call leaves it, and what was done. *)
Record close_result := mk_close {
  cl_ret : Z;
  cl_hdl : ve_dma_hdl;
  cl_actions : list action
}.

(** The result of [ve_dma_post_p_va]: the request handle returned ([None]
    for [NULL]), the value stored in [errno] if any, the engine, and what
    was done. *)
Record post_result := mk_post {
  pr_ret : option ve_dma_req_hdl;
  pr_errno : option Z;
  pr_hdl : ve_dma_hdl;
  pr_actions : list action
}.

(** What a waiter finds when it holds the mutex: the result of
    [ve_dma__test_nolock] and the flag of the engine. *)
Record observation := mk_obs {
  ob_test : ve_dma_status_t;
  ob_should_stop : Z
}.

Section Engine.

Context {hdr : dma_headers}.

(** [ve_dma_hw_get_ctlstatus] is read until the engine is halted: [reads]
    holds the successive values of the register.  The result is what is
    left of them, [None] when the loop is still spinning after the last. *)
Fixpoint wait_for_halt (reads : list Z) : option (list Z) :=
  match reads with
  | [] => None
  | ctl_status :: rest =>
      if Z.land ctl_status VE_DMA_CTL_STATUS_MASK =? VE_DMA_CTL_STATUS_HALT
      then Some rest
      else wait_for_halt rest
  end.

Definition ve_dma__stop_engine (reads : list Z) : option (list action * list Z) :=
  match wait_for_halt reads with
  | None => None
  | Some rest => Some ([ve_dma_hw_post_stop], rest)
  end.

(** [pthread_join] can fail; the code logs it and goes on. *)
Definition ve_dma_close_p (hdl : ve_dma_hdl) (reads : list Z)
    : option close_result :=
  if negb (desc_num_used hdl =? 0) then Some (mk_close (- EBUSY) hdl [])
  else if negb (should_stop hdl =? 0) then Some (mk_close (- EBUSY) hdl [])
  else
    let hdl := set_should_stop hdl 1 in
    match ve_dma__stop_engine reads with
    | None => None
    | Some (acts, _) =>
        Some (mk_close 0 hdl
                (acts ++ [pthread_join_helper; pthread_mutex_destroy;
                          munmap_control_regs; free_hdl]))
    end.

Definition ve_dma_post__check_addr_type (t : Z) : Z :=
  if t =? VE_DMA_VEMVA then 0
  else if t =? VE_DMA_VEMVA_WO_PROT_CHECK then 0
  else if t =? VE_DMA_VHVA then 0
  else if t =? VE_DMA_VEMAA then 0
  else if t =? VE_DMA_VERAA then 0
  else if t =? VE_DMA_VHSAA then 0
  else - EINVAL.

(** The functions of [dma_reqlist.c], which is not among the sources at
    hand. *)
Variable ve_dma_reqlist_make : Z -> Z -> Z -> Z -> Z -> Z -> Z -> Z * list Z.
Variable ve_dma_reqlist_post : ve_dma_hdl -> ve_dma_req_hdl -> Z * ve_dma_hdl.
Variable ve_dma_reqlist__cancel : ve_dma_hdl -> ve_dma_req_hdl -> ve_dma_hdl.
Variable ve_dma_reqlist_drain_waiting_list : ve_dma_hdl -> Z * ve_dma_hdl.

Definition ve_dma__terminate_nolock (hdl : ve_dma_hdl) (req : ve_dma_req_hdl)
    (reads : list Z) : option (ve_dma_hdl * list action * list Z) :=
  match ve_dma__stop_engine reads with
  | None => None
  | Some (acts, rest) =>
      let hdl := ve_dma_reqlist__cancel hdl req in
      let hdl := snd (ve_dma_reqlist_drain_waiting_list hdl) in
      Some (hdl,
            acts
            ++ (if (should_stop hdl =? 0) && (0 <? desc_num_used hdl)
                then [ve_dma_hw_start] else [])
            ++ [pthread_cond_broadcast],
            rest)
  end.

Definition ve_dma_post_p_va (hdl : ve_dma_hdl) (srctype srcpid srcaddr : Z)
    (dsttype dstpid dstaddr length : Z) (malloc_ok : bool) (reads : list Z)
    : option post_result :=
  let invalid := Some (mk_post None (Some EINVAL) hdl []) in
  let failed := Some (mk_post None None hdl []) in
  if negb (IS_ALIGNED length 8) then invalid
  else if VE_DMA_MAX_LENGTH <? length then invalid
  else if negb (IS_ALIGNED srcaddr 8) then invalid
  else if negb (IS_ALIGNED dstaddr 8) then invalid
  else if negb (ve_dma_post__check_addr_type srctype =? 0) then invalid
  else if negb (ve_dma_post__check_addr_type dsttype =? 0) then invalid
  else if negb malloc_ok then failed
  else
    let '(n_dma_req, entries) :=
      ve_dma_reqlist_make srctype srcpid srcaddr dsttype dstpid dstaddr length in
    let ret := mk_req entries in
    if n_dma_req <=? 0 then failed
    else if negb (should_stop hdl =? 0) then failed
    else
      let '(rv_post, hdl) := ve_dma_reqlist_post hdl ret in
      if rv_post <? 0 then
        match ve_dma__terminate_nolock hdl ret reads with
        | None => None
        | Some (hdl, acts, _) => Some (mk_post None None hdl acts)
        end
      else Some (mk_post (Some ret) None hdl [ve_dma_hw_start]).

End Engine.

(** The loop of [ve_dma_wait].  [wakes] holds what the waiter finds each
    time [pthread_cond_wait] returns; the result is [None] when the waiter
    is still blocked after the last of them. *)
Fixpoint wait_loop (ret : ve_dma_status_t) (stop : Z) (wakes : list observation)
    : option ve_dma_status_t :=
  if is_not_finished ret && (stop =? 0) then
    match wakes with
    | [] => None
    | o :: wakes => wait_loop (ob_test o) (ob_should_stop o) wakes
    end
  else Some ret.

Definition ve_dma_wait (first : observation) (wakes : list observation)
    : option ve_dma_status_t :=
  match wait_loop (ob_test first) (ob_should_stop first) wakes with
  | None => None
  | Some ret =>
      Some (if is_not_finished ret then VE_DMA_STATUS_CANCELED else ret)
  end.

(** The loop of [ve_dma_timedwait]: each return of [pthread_cond_timedwait]
    comes with its error code. *)
Fixpoint timedwait_loop (ret : ve_dma_status_t) (stop : Z)
    (wakes : list (Z * observation)) : option ve_dma_status_t :=
  if is_not_finished ret && (stop =? 0) then
    match wakes with
    | [] => None
    | (err, o) :: wakes =>
        if err =? ETIMEDOUT then Some VE_DMA_STATUS_TIMEDOUT
        else timedwait_loop (ob_test o) (ob_should_stop o) wakes
    end
  else Some ret.

Definition ve_dma_timedwait (first : observation) (wakes : list (Z * observation))
    : option ve_dma_status_t :=
  match timedwait_loop (ob_test first) (ob_should_stop first) wakes with
  | None => None
  | Some ret =>
      Some (if is_not_finished ret then VE_DMA_STATUS_CANCELED else ret)
  end.

End DmaApi.

(** * Transfers of the pseudo process ([lib/libvepseudo/amm/mm_transfer.c]) *)

Module MmTransfer.
Import Word.

(** [errno.h] of Linux. *)
Definition ENOMEM : Z := 12.
Definition EFAULT : Z := 14.
Definition EINVAL : Z := 22.

(** [struct addr_struct] *)
Record addr_struct := mk_addr {
  top_address : Z;
  bottom_address : Z;
  aligned_top_address : Z;
  aligned_bottom_address : Z;
  top_offset : Z;
  bottom_offset : Z;
  new_datasize : Z
}.

(** [~(8 - 1)] is an [int]; the conjunction with a [uint64_t] converts it to
    64 bits. *)
Definition calc_address (as_ : addr_struct) : addr_struct :=
  let aligned_top := Z.land (top_address as_) (lnot64 (8 - 1)) in
  let top_off := u64 (top_address as_ - aligned_top) in
  let '(aligned_bottom, bottom_off) :=
    if negb (bottom_address as_ mod 8 =? 0) then
      let ab := u64 (Z.land (bottom_address as_) (lnot64 (8 - 1)) + 8) in
      (ab, u64 (ab - bottom_address as_))
    else (bottom_address as_, 0) in
  mk_addr (top_address as_) (bottom_address as_) aligned_top aligned_bottom
    top_off bottom_off (u64 (aligned_bottom - aligned_top)).

(** A buffer of the host: the byte at each offset.  A pointer into a buffer
    is the buffer and an offset. *)
Definition buffer : Type := Z -> Z.

(** [memcpy(dst + doff, src + soff, n)] *)
Definition memcpy (dst : buffer) (doff : Z) (src : buffer) (soff n : Z) : buffer :=
  fun k => if (doff <=? k) && (k <? doff + n) then src (soff + (k - doff)) else dst k.

Inductive ve_dma_addrtype_t := VE_DMA_VHVA | VE_DMA_VEMVA.

(** [struct dma_args]; a host address is an offset in the buffer at hand. *)
Record dma_args := mk_dma_args {
  srctype : ve_dma_addrtype_t;
  srcaddr : Z;
  dsttype : ve_dma_addrtype_t;
  dstaddr : Z;
  size : Z
}.

(** The memory of the accelerator, byte by byte, the DMA requests sent to
    veos so far, and the number of allocations made so far. *)
Record world := mk_world {
  ve_mem : Z -> Z;
  requests : list dma_args;
  n_malloc : nat
}.

(** [malloc]: [NULL] with [errno] set to [ENOMEM], or a buffer with whatever
    it holds. *)
Inductive malloc_outcome :=
  | malloc_null
  | malloc_buffer (content : buffer).

(** What happens to one DMA_REQ: the packing of the message, the results of
    [pseudo_veos_send_cmd] and [pseudo_veos_recv_cmd], the unpacking of the
    reply, the 64-bit [syscall_retval] it carries, and what veos has done
    by then: the bytes of the request it has moved, by their offset in the
    request.  veos is not part of this file; nothing ties what it moves to
    what it replies but the hypotheses of a theorem. *)
Record veos_reply := mk_reply {
  pack_ok : bool;
  send_cmd_ret : Z;
  recv_cmd_ret : Z;
  unpack_ok : bool;
  syscall_retval : Z;
  moved : Z -> bool
}.

(** The conversion of a 64-bit value to [int]. *)
Definition int_of (z : Z) : Z := (z + 2 ^ 31) mod 2 ^ 32 - 2 ^ 31.

(** Calls that can end in [abort()] ([None]) and that change the world. *)
Definition M (A : Type) : Type := world -> option (A * world).

#[global] Instance M_ret : MRet M := fun A a w => Some (a, w).

#[global] Instance M_bind : MBind M :=
  fun A B f m w => match m w with None => None | Some (a, w') => f a w' end.

(** A request of which veos moves the bytes [moved]: each of them goes
    from the source to the destination, the other bytes stay. *)
Definition dma_transfer (p : dma_args) (moved : Z -> bool) (host : buffer)
    (mem : Z -> Z) : buffer * (Z -> Z) :=
  match srctype p, dsttype p with
  | VE_DMA_VHVA, VE_DMA_VEMVA =>
      (host,
       fun a => if (dstaddr p <=? a) && (a <? dstaddr p + size p)
                   && moved (a - dstaddr p)
                then host (srcaddr p + (a - dstaddr p)) else mem a)
  | VE_DMA_VEMVA, VE_DMA_VHVA =>
      (fun k => if (dstaddr p <=? k) && (k <? dstaddr p + size p)
                   && moved (k - dstaddr p)
                then mem (srcaddr p + (k - dstaddr p)) else host k,
       mem)
  | _, _ => (host, mem)
  end.

Section Transfer.

(** The outcome of the n-th allocation and of the n-th request. *)
Variable malloc_result : nat -> malloc_outcome.
Variable veos : nat -> veos_reply.

Definition malloc : M malloc_outcome :=
  fun w =>
    Some (malloc_result (n_malloc w),
          mk_world (ve_mem w) (requests w) (S (n_malloc w))).

(** [ret] is an [int]: the reply is converted on assignment. *)
Definition amm_dma_xfer_req (dma_param : dma_args) (host : buffer)
    : M (Z * buffer) :=
  fun w =>
    let r := veos (length (requests w)) in
    let '(host', mem') := dma_transfer dma_param (moved r) host (ve_mem w) in
    let w' := mk_world mem' (requests w ++ [dma_param]) (n_malloc w) in
    if negb (pack_ok r) then None
    else if send_cmd_ret r <? 0 then Some ((- EFAULT, host'), w')
    else if recv_cmd_ret r <? 0 then Some ((- EFAULT, host'), w')
    else if negb (unpack_ok r) then None
    else Some ((int_of (syscall_retval r), host'), w').

Definition __ve_send_data (address datasize : Z) (data : buffer) (off : Z)
    : M Z :=
  '(ret, _) ← amm_dma_xfer_req
                (mk_dma_args VE_DMA_VHVA off VE_DMA_VEMVA address datasize) data;
  mret (if ret <? 0 then - EFAULT else ret).

Definition __ve_recv_data (address datasize : Z) (data : buffer) (off : Z)
    : M (Z * buffer) :=
  '(ret, data) ← amm_dma_xfer_req
                   (mk_dma_args VE_DMA_VEMVA address VE_DMA_VHVA off datasize) data;
  mret (if ret <? 0 then - EFAULT else ret, data).

Definition _ve_send_data_ipc (address datasize : Z) (data : buffer) (off : Z)
    : M Z :=
  if negb (datasize mod 8 =? 0) then mret (- EINVAL)
  else __ve_send_data address datasize data off.

Definition _ve_recv_data_ipc (address datasize : Z) (data : buffer) (off : Z)
    : M (Z * buffer) :=
  if negb (datasize mod 8 =? 0) then mret (- EINVAL, data)
  else __ve_recv_data address datasize data off.

Definition ve_recv_data (address datasize : Z) (data : buffer) (off : Z)
    : M (Z * buffer) :=
  as_ ← malloc;
  match as_ with
  | malloc_null => mret (- ENOMEM, data)
  | malloc_buffer _ =>
      let as_ := calc_address
                   (mk_addr address (u64 (address + datasize)) 0 0 0 0 0) in
      buff ← malloc;
      match buff with
      | malloc_null => mret (- ENOMEM, data)
      | malloc_buffer buff =>
          '(ret, buff) ← _ve_recv_data_ipc (aligned_top_address as_)
                           (new_datasize as_) buff 0;
          if ret <? 0 then mret (ret, data)
          else mret (ret, memcpy data off buff (top_offset as_) datasize)
      end
  end.

(** The tail of [ve_send_data], from the copy of the caller's data on. *)
Definition ve_send_data_merge (as_ : addr_struct) (buff data : buffer)
    (datasize : Z) : M Z :=
  let buff := memcpy buff (top_offset as_) data 0 datasize in
  _ve_send_data_ipc (aligned_top_address as_) (new_datasize as_) buff 0.

Definition ve_send_data_bottom (as_ : addr_struct) (buff data : buffer)
    (datasize : Z) : M Z :=
  if negb (bottom_offset as_ =? 0) then
    '(ret, buff) ← ve_recv_data (u64 (aligned_bottom_address as_ - 8)) 8 buff
                     (u64 (new_datasize as_ - 8));
    if negb (ret =? 0) then mret ret
    else ve_send_data_merge as_ buff data datasize
  else ve_send_data_merge as_ buff data datasize.

Definition ve_send_data (address datasize : Z) (data : buffer) : M Z :=
  as_ ← malloc;
  match as_ with
  | malloc_null => mret (- ENOMEM)
  | malloc_buffer _ =>
      let as_ := calc_address
                   (mk_addr address (u64 (address + datasize)) 0 0 0 0 0) in
      buff ← malloc;
      match buff with
      | malloc_null => mret (- ENOMEM)
      | malloc_buffer buff =>
          if negb (top_offset as_ =? 0) then
            '(ret, buff) ← ve_recv_data (aligned_top_address as_) 8 buff 0;
            if negb (ret =? 0) then mret ret
            else ve_send_data_bottom as_ buff data datasize
          else ve_send_data_bottom as_ buff data datasize
      end
  end.

End Transfer.

End MmTransfer.

(** * [task_signal.c]: delivery loop and the handlers of the signal
      system calls *)

Module SignalApi.

Import Word TaskSignal.

(** Values of the system headers (Linux, x86-64). *)
Definition SS_DISABLE : Z := 2.
Definition SIG_BLOCK : Z := 0.
Definition SIG_UNBLOCK : Z := 1.
Definition SIG_SETMASK : Z := 2.
Definition EPERM : Z := 1.
Definition ENOMEM : Z := 12.
Definition EINVAL : Z := 22.

Definition sigandset (a b : sigset_t) : sigset_t := Z.land a b.

(** Field updates. *)

Definition set_ve_saved_sigmask (t : ve_task_struct) (m : sigset_t)
  : ve_task_struct :=
  mk_task (pid t) (p_ve_thread t) (pending t) (blocked t) m (mask_saved t)
    (sas_ss_sp t) (sas_ss_size t) (sigpending t) (usr_reg_dirty t) (lshm t)
    (ve_task_state t) (flags t) (vfork_state t) (block_status t)
    (tgid t) (ve_exec_path t).

Definition set_sas (t : ve_task_struct) (sp size : Z) : ve_task_struct :=
  mk_task (pid t) (p_ve_thread t) (pending t) (blocked t) (ve_saved_sigmask t)
    (mask_saved t) sp size (sigpending t) (usr_reg_dirty t) (lshm t)
    (ve_task_state t) (flags t) (vfork_state t) (block_status t)
    (tgid t) (ve_exec_path t).

Definition set_action (sh : sighand_struct) (sig : Z) (act : ve_sigaction)
  : sighand_struct :=
  mk_sighand (fun k => if k =? sig - 1 then act else action sh k)
    (sh_ve_sigpending sh) (rlim_sigpending sh) (rlim_core sh)
    (signal_flag sh) (got_sigint sh).

(** The task [i] of the group, updated in place. *)
Definition update_task (g : thread_group) (i : nat)
    (f : ve_task_struct -> ve_task_struct) : thread_group :=
  match tasks g !! i with
  | Some t => set_task g i (f t)
  | None => g
  end.

(** Macros of the veos headers that are not part of the tree under study:
    the least size of an alternate stack, the set difference of the signal
    masks, and the three tests on a signal number and its handler. *)
Class signal_macros : Type := {
  VE_MINSIGSTKSZ : Z;
  ve_sigandnsets : sigset_t -> sigset_t -> sigset_t;
  ve_sig_ignore : Z -> bool;
  ve_sig_coredump : Z -> bool;
  ve_sig_handler_ignored : Z -> Z -> bool
}.

(** [struct ve_signal_mask], the argument of [psm_do_sigprocmask]. *)
Record ve_signal_mask : Type := mk_signal_mask {
  mask : bool;
  store_mask : Z;
  how : Z;
  newset : sigset_t;
  oldset : sigset_t
}.

(** [struct ve_sigaction_info], the argument of [psm_do_sigaction_ve]. *)
Record ve_sigaction_info : Type := mk_sigaction_info {
  sai_signum : Z;
  sai_action : Z;
  sai_ve_sigaction : ve_sigaction;
  sai_old_ve_sigaction : ve_sigaction
}.

(** What [ve_get_signal] needs from the environment when it starts the
    thread of the core dump: the results of [malloc], of
    [get_ve_task_struct] (0 is success) and of [pthread_create] (0 is
    success). *)
Record dump_start : Type := mk_dump_start {
  dump_info_malloc_ok : bool;
  get_ve_task_struct_ret : Z;
  pthread_create_ret : Z
}.

(** What [ve_get_signal] leaves: its result, the group, [*flag] and
    [*ve_siginfo], the signals it sent with [kill], and the argument of the
    dump thread it created, if any. *)
Record get_signal_result : Type := mk_get_signal_result {
  gs_signum : Z;
  gs_group : thread_group;
  gs_flag : Z;
  gs_siginfo : siginfo_t;
  gs_events : list event;
  gs_dump : option dump_info
}.

Section Operations.

Context {hdr : veos_headers} {lq : legacy_queue_macro} {sm : signal_macros}
  {sched : veos_scheduler}.

Variable __veos_virt_to_phy : Z -> Z.

Definition ve_sig_handler (sh : sighand_struct) (sig : Z) : Z :=
  sa_handler (action sh (sig - 1)).

(** [should_dump_core]: its result and the requesting task afterwards. *)
Definition should_dump_core (requestor : ve_task_struct) (sh : sighand_struct)
  : bool * ve_task_struct :=
  if signal_flag sh =? VE_SIGNAL_GROUP_COREDUMP
  then (false, psm_set_task_state requestor STOP)
  else (true, requestor).

(** The code from the label [hndl_terminate] of [ve_get_signal] on, [t]
    being thread [i]. *)
Definition hndl_terminate (g : thread_group) (i : nat) (t : ve_task_struct)
    (signum fl : Z) (si : siginfo_t) : get_signal_result :=
  if SYNCHRONOUS_SIGNAL =? fl
  then mk_get_signal_result (-1)
         (set_task g i (set_flags t (Z.lor (flags t) PF_SIGNALED))) fl si
         [Kill (pid t) signum] None
  else mk_get_signal_result (-1) g fl si [Kill (pid t) SIGKILL] None.

(** The loop of [ve_get_signal] on thread [i], at most [fuel] dequeues;
    [None] when they do not suffice. *)
Fixpoint ve_get_signal_loop (fuel : nat) (g : thread_group) (i : nat)
    (fl : Z) (si : siginfo_t) (env : dump_start)
  : option get_signal_result :=
  match fuel with
  | O => None
  | S fuel' =>
    match tasks g !! i with
    | None => Some (mk_get_signal_result (-1) g fl si [] None)
    | Some t =>
      let '(signum, (si, fl, pend, sh)) :=
        psm_dequeue_ve_signal si (pending t) (blocked t) fl (sighand g) in
      let t := set_pending t pend in
      let g := set_sighand (set_task g i t) sh in
      if signum =? 0
      then Some (mk_get_signal_result signum
                   (set_task g i (set_sigpending t 0)) fl si [] None)
      else if SIG_IGN =? sa_handler (action sh (signum - 1))
      then ve_get_signal_loop fuel' g i fl si env
      else if negb (SIG_DFL =? sa_handler (action sh (signum - 1)))
      then Some (mk_get_signal_result signum
                   (set_task g i (set_sigpending t 0)) fl si [] None)
      else if ve_sig_ignore signum
      then ve_get_signal_loop fuel' g i fl si env
      else if ve_sig_stop signum
      then
        let g := ve_do_group_action g (pid t) FSIGSTOPPING signum in
        Some (mk_get_signal_result (-2)
                (update_task g i (fun t => set_sigpending t 0)) fl si [] None)
      else if ve_sig_coredump signum
      then
        let t :=
          psm_set_task_state (set_flags t (Z.lor (flags t) PF_DUMPCORE)) STOP in
        let g := set_sighand (set_task g i t)
                   (set_signal_flag sh VE_SIGNAL_GROUP_COREDUMP) in
        if negb (dump_info_malloc_ok env)
        then Some (hndl_terminate g i t signum fl si)
        else if negb (get_ve_task_struct_ret env =? 0)
        then Some (hndl_terminate g i t signum fl si)
        else if negb (pthread_create_ret env =? 0)
        then Some (hndl_terminate g i t signum fl si)
        else Some (mk_get_signal_result (-1) g fl si []
                     (Some (mk_dump_info signum fl (pid t) si
                              (tgid t) (ve_exec_path t))))
      else Some (hndl_terminate g i t signum fl si)
    end
  end.

Definition ve_get_signal (fuel : nat) (g : thread_group) (i : nat)
    (fl : Z) (si : siginfo_t) (env : dump_start)
  : option get_signal_result :=
  match tasks g !! i with
  | None => Some (mk_get_signal_result (-1) g fl si [] None)
  | Some p_ve_task =>
    let '(able, p_ve_task) := should_dump_core p_ve_task (sighand g) in
    if negb able
    then Some (mk_get_signal_result (-1) (set_task g i p_ve_task) fl si [] None)
    else ve_get_signal_loop fuel g i fl si env
  end.

(** What [psm_do_signal_ve] leaves: its result, the group, the memory of
    the accelerator, and what [ve_get_signal] sent and started. *)
Record do_signal_result : Type := mk_do_signal_result {
  ds_retval : Z;
  ds_group : thread_group;
  ds_memory : ve_memory;
  ds_events : list event;
  ds_dump : option dump_info
}.

(** The branch of [psm_do_signal_ve] for no signal to handle, on the
    task. *)
Definition no_signal_delivered (t : ve_task_struct) : ve_task_struct :=
  let regs := p_ve_thread t in
  let t :=
    if (SR regs 0 =? u64 (- VE_ENORESTART))
       || (SR regs 0 =? u64 (- VE_ERESTARTSYS))
    then set_thread t (set_IC regs (u64 (IC regs - 8)))
    else t in
  if mask_saved t
  then set_mask_saved (psm_set_current_blocked t (ve_saved_sigmask t)) false
  else t.

Definition psm_do_signal_ve (fuel : nat) (g : thread_group) (i : nat)
    (env : dump_start) (dma_status : Z) (mem : ve_memory) (calloc_ok : bool)
  : option do_signal_result :=
  match ve_get_signal fuel g i 0 (mk_siginfo (-1) 0 0 0 0) env with
  | None => None
  | Some r =>
    let signum := gs_signum r in
    let g := gs_group r in
    if 0 <? signum
    then
      let '(retval, g, mem) :=
        ve_handle_signal __veos_virt_to_phy g i (gs_flag r) signum
          (gs_siginfo r) dma_status mem calloc_ok in
      Some (mk_do_signal_result (if 0 >? retval then -1 else 0) g mem
              (gs_events r) (gs_dump r))
    else if (signum =? 0) || (signum =? -2)
    then
      Some (mk_do_signal_result (if signum =? -2 then -1 else 0)
              (update_task g i no_signal_delivered) mem
              (gs_events r) (gs_dump r))
    else Some (mk_do_signal_result (-1) g mem (gs_events r) (gs_dump r))
  end.

(** [psm_do_sigaction_ve] on thread [i]: the group and the argument as the
    call leaves them. *)
Definition psm_do_sigaction_ve (g : thread_group) (i : nat)
    (sigaction_info : ve_sigaction_info) : thread_group * ve_sigaction_info :=
  match tasks g !! i with
  | None => (g, sigaction_info)
  | Some p_ve_task_struct =>
    let signum := sai_signum sigaction_info in
    let info :=
      mk_sigaction_info signum (sai_action sigaction_info)
        (sai_ve_sigaction sigaction_info) (action (sighand g) (signum - 1)) in
    if negb (sai_action sigaction_info =? 0)
    then
      let g := set_sighand g
                 (set_action (sighand g) signum (sai_ve_sigaction sigaction_info)) in
      if ve_sig_handler_ignored (ve_sig_handler (sighand g) signum) signum
      then (ve_do_group_action g (pid p_ve_task_struct) FSIGMASKING signum, info)
      else (g, info)
    else (g, info)
  end.

Definition psm_getold_sas (ve_task_curr : ve_task_struct) : stack_t :=
  mk_stack (sas_ss_sp ve_task_curr)
    (if sas_ss_size ve_task_curr =? 0 then SS_DISABLE
     else if on_sig_stack ve_task_curr then SS_ONSTACK else 0)
    (sas_ss_size ve_task_curr).

(** [psm_setnew_sas]: its result, the task and [*new_sas] afterwards. *)
Definition psm_setnew_sas (ve_task_curr : ve_task_struct) (new_sas : stack_t)
  : Z * ve_task_struct * stack_t :=
  if -1 =? __veos_virt_to_phy (ss_sp new_sas)
  then (- EFAULT, ve_task_curr, new_sas)
  else if on_sig_stack ve_task_curr
  then (- EPERM, ve_task_curr, new_sas)
  else if negb (ss_flags new_sas =? SS_DISABLE)
          && negb (ss_flags new_sas =? SS_ONSTACK)
          && negb (ss_flags new_sas =? 0)
  then (- EINVAL, ve_task_curr, new_sas)
  else
    if ss_flags new_sas =? SS_DISABLE
    then
      let new_sas := mk_stack 0 (ss_flags new_sas) 0 in
      (0, set_sas ve_task_curr (ss_sp new_sas) (ss_size new_sas), new_sas)
    else
      if ss_size new_sas <? VE_MINSIGSTKSZ
      then (- ENOMEM, ve_task_curr, new_sas)
      else (0, set_sas ve_task_curr (ss_sp new_sas) (ss_size new_sas), new_sas).

(** [psm_do_sigprocmask]: the task and the argument afterwards. *)
Definition psm_do_sigprocmask (p_ve_task : ve_task_struct)
    (ve_mask : ve_signal_mask) : ve_task_struct * ve_signal_mask :=
  let ve_mask' :=
    mk_signal_mask (mask ve_mask) (store_mask ve_mask) (how ve_mask)
      (newset ve_mask) (blocked p_ve_task) in
  if 1 =? store_mask ve_mask
  then
    let saved :=
      sigdelset (sigdelset (sigdelset (newset ve_mask) SIGKILL) SIGSTOP) SIGCONT in
    (set_mask_saved (set_ve_saved_sigmask p_ve_task saved) true, ve_mask')
  else if mask ve_mask
  then
    let new_blocked := blocked p_ve_task in
    let new_blocked :=
      if how ve_mask =? SIG_BLOCK then sigorset new_blocked (newset ve_mask)
      else if how ve_mask =? SIG_UNBLOCK
      then ve_sigandnsets new_blocked (newset ve_mask)
      else if how ve_mask =? SIG_SETMASK then newset ve_mask
      else new_blocked in
    (psm_set_current_blocked p_ve_task new_blocked, ve_mask')
  else (p_ve_task, ve_mask').

(** [psm_handle_hw_exception] on thread [i].  The field [syncsignal] of the
    task, which this function sets and the file reads nowhere, is not part
    of the task record. *)
Definition psm_handle_hw_exception (g : thread_group) (i : nat)
    (ve_siginfo : siginfo_t) (signum : Z) (calloc_ok : bool) : thread_group :=
  match tasks g !! i with
  | None => g
  | Some ve_task_curr =>
    let ignored := sa_handler (action (sighand g) (signum - 1)) =? SIG_IGN in
    let blocked_ := negb (sigismember (blocked ve_task_curr) signum =? 0) in
    let sh :=
      if blocked_ || ignored
      then set_handler (sighand g) signum SIG_DFL else sighand g in
    let t :=
      if (blocked_ || ignored) && blocked_
      then set_blocked ve_task_curr (sigdelset (blocked ve_task_curr) signum)
      else ve_task_curr in
    snd (psm_send_ve_signal (set_sighand (set_task g i t) sh) i
           (SigInfo ve_siginfo) signum SYNCHRONOUS_SIGNAL calloc_ok)
  end.

Definition psm_do_sigpending (p_ve_task : ve_task_struct) : sigset_t :=
  sigandset (blocked p_ve_task) (signal (pending p_ve_task)).

Definition psm_do_sigsuspend (p_ve_task : ve_task_struct) (mask_set : sigset_t)
  : ve_task_struct :=
  let t := set_ve_saved_sigmask p_ve_task (blocked p_ve_task) in
  let t := set_mask_saved t true in
  psm_set_current_blocked t mask_set.

End Operations.

End SignalApi.

(** * [dma_api.c]: opening an engine and synchronous transfers *)

Module DmaEngine.

Import Word DmaApi.

(** [VE_DMA_NUM_DESC] of [vedma_hw.h], which is not among the sources at
    hand. *)
Class dma_descriptors := {
  VE_DMA_NUM_DESC : nat
}.

(** What [ve_dma_open_p] does besides the actions of the engine: the
    descriptors it clears and the helper thread it starts. *)
Inductive open_action :=
  | engine (a : action)
  | ve_dma_hw_clear_dma (i : Z)
  | pthread_create_helper.

(** What [ve_dma_open_p] gets from the environment: the results of
    [malloc] and of [vedl_mmap_cnt_reg], the control status register as
    first read and as read while the engine is stopped, the read pointer,
    and the error code of [pthread_create]. *)
Record open_env := mk_open_env {
  hdl_malloc_ok : bool;
  mmap_ok : bool;
  ctl_status : Z;
  halt_reads : list Z;
  readptr : Z;
  pthread_create_err : Z
}.

(** The result of [ve_dma_xfer_p_va]: the status returned, what the post
    left, and whether the request handle was freed. *)
Record xfer_result := mk_xfer {
  xf_ret : ve_dma_status_t;
  xf_post : post_result;
  xf_req_freed : bool
}.

Section Engine.

Context {hdr : dma_headers} {nd : dma_descriptors}.

(** [ve_dma_open_p]: the handle returned ([None] for [NULL]) and what was
    done; the call does not return when the engine never halts. *)
Definition ve_dma_open_p (env : open_env)
    : option (option ve_dma_hdl * list open_action) :=
  if negb (hdl_malloc_ok env) then Some (None, [])
  else if negb (mmap_ok env)
  then Some (None, [engine pthread_mutex_destroy; engine free_hdl])
  else
    let stopped :=
      if Z.land (ctl_status env) VE_DMA_CTL_STATUS_HALT =? 0
      then ve_dma__stop_engine (halt_reads env)
      else Some ([], halt_reads env) in
    match stopped with
    | None => None
    | Some (acts, _) =>
        let clears :=
          map (fun i => ve_dma_hw_clear_dma (Z.of_nat i)) (seq 0 VE_DMA_NUM_DESC) in
        let ret := mk_hdl [] 0 (readptr env) 0 (fun _ => 0) in
        if negb (pthread_create_err env =? 0)
        then Some (None,
                   map engine acts ++ clears
                   ++ [engine munmap_control_regs; engine pthread_mutex_destroy;
                       engine free_hdl])
        else Some (Some ret, map engine acts ++ clears ++ [pthread_create_helper])
    end.

(** The functions of [dma_reqlist.c]. *)
Variable ve_dma_reqlist_make : Z -> Z -> Z -> Z -> Z -> Z -> Z -> Z * list Z.
Variable ve_dma_reqlist_post : ve_dma_hdl -> ve_dma_req_hdl -> Z * ve_dma_hdl.
Variable ve_dma_reqlist__cancel : ve_dma_hdl -> ve_dma_req_hdl -> ve_dma_hdl.
Variable ve_dma_reqlist_drain_waiting_list : ve_dma_hdl -> Z * ve_dma_hdl.

(** [ve_dma_xfer_p_va]: [first] and [wakes] are what [ve_dma_wait] finds
    when it takes the mutex and at each wake-up. *)
Definition ve_dma_xfer_p_va (hdl : ve_dma_hdl) (srctype srcpid srcaddr : Z)
    (dsttype dstpid dstaddr length : Z) (malloc_ok : bool) (reads : list Z)
    (first : observation) (wakes : list observation) : option xfer_result :=
  match ve_dma_post_p_va ve_dma_reqlist_make ve_dma_reqlist_post
          ve_dma_reqlist__cancel ve_dma_reqlist_drain_waiting_list
          hdl srctype srcpid srcaddr dsttype dstpid dstaddr length
          malloc_ok reads with
  | None => None
  | Some pr =>
      match pr_ret pr with
      | None => Some (mk_xfer VE_DMA_STATUS_ERROR pr false)
      | Some req =>
          match ve_dma_wait first wakes with
          | None => None
          | Some ret => Some (mk_xfer ret pr true)
          end
      end
  end.

End Engine.

End DmaEngine.

(** * Properties of the signal delivery core *)

Module TaskSignalSpec.
Import Word TaskSignal.
Import Ascii.

(** ** Instances to run the model on

    One choice of header values (those of Linux where Linux has them), and
    the two readings of [legacy_queue].  The theorems below hold for every
    choice; these serve to evaluate the model on concrete inputs. *)

Definition sample_headers : veos_headers :=
  {| VE_SYNCHRONOUS_MASK :=
       Z.lor (Z.lor (ve_mask SIGSEGV) (ve_mask 7)) (Z.lor (ve_mask 4) (ve_mask 8));
     SYNCHRONOUS_SIGNAL := 1;
     VE_ERESTARTSYS := 512;
     VE_ENORESTART := 513;
     HANDLER_STACK_FRAME := 512;
     sizeof_sigframe := 0x1000;
     offsetof_ve_siginfo := 40;
     offsetof_uc := 168;
     VE_SIGNAL_GROUP_COREDUMP := 1;
     VE_SIGNAL_GROUP_EXIT := 2;
     SIGNAL_PENDING := 1 |}.

(** Task states, flags and exception bits, a host on which every process
    is seen stopped, and cores on which no task of the group runs. *)
Definition sample_scheduler : veos_scheduler :=
  {| RUNNING := 1;
     WAIT := 0;
     STOP := 3;
     VFORK_ONGOING := 1;
     BLOCK_RECVD := 1;
     VE_EXCEPTION := 0xFF00;
     PF_DUMPCORE := 0x200;
     PF_SIGNALED := 0x400;
     psm_get_ve_proc_info := fun _ => Some 84;
     curr_ve_task := fun _ => None |}.


Definition legacy_queue_by_mask (p : ve_sigpending) (sig : Z) : bool :=
  (sig <? SIGRTMIN) && negb (sigismember (signal p) sig =? 0).

Definition legacy_queue_by_record (p : ve_sigpending) (sig : Z) : bool :=
  (sig <? SIGRTMIN) && existsb (fun q => signo q =? sig) (sig_list p).

Lemma by_mask_rt p sig : SIGRTMIN <= sig -> legacy_queue_by_mask p sig = false.
Proof.
  intros H. unfold legacy_queue_by_mask.
  destruct (Z.ltb_spec sig SIGRTMIN); [lia|reflexivity].
Qed.

Lemma by_mask_absent p sig :
  ~ queued p sig -> sigismember (signal p) sig = 0 ->
  legacy_queue_by_mask p sig = false.
Proof. intros _ H. unfold legacy_queue_by_mask. rewrite H. apply andb_false_r. Qed.

Lemma by_mask_present p sig :
  sig < SIGRTMIN -> queued p sig -> sigismember (signal p) sig = 1 ->
  legacy_queue_by_mask p sig = true.
Proof.
  intros H _ Hm. unfold legacy_queue_by_mask. rewrite Hm.
  destruct (Z.ltb_spec sig SIGRTMIN); [reflexivity|lia].
Qed.

Lemma existsb_queued p sig :
  existsb (fun q => signo q =? sig) (sig_list p) = true <-> queued p sig.
Proof.
  unfold queued. rewrite existsb_exists.
  split; intros (q & Hin & Hq); exists q;
    (split; [apply list_elem_of_In; exact Hin|lia]).
Qed.

Lemma by_record_rt p sig : SIGRTMIN <= sig -> legacy_queue_by_record p sig = false.
Proof.
  intros H. unfold legacy_queue_by_record.
  destruct (Z.ltb_spec sig SIGRTMIN); [lia|reflexivity].
Qed.

Lemma by_record_absent p sig :
  ~ queued p sig -> sigismember (signal p) sig = 0 ->
  legacy_queue_by_record p sig = false.
Proof.
  intros H _. unfold legacy_queue_by_record.
  destruct (existsb _ _) eqn:E; [|apply andb_false_r].
  apply existsb_queued in E. contradiction.
Qed.

Lemma by_record_present p sig :
  sig < SIGRTMIN -> queued p sig -> sigismember (signal p) sig = 1 ->
  legacy_queue_by_record p sig = true.
Proof.
  intros H Hq _. unfold legacy_queue_by_record.
  apply existsb_queued in Hq. rewrite Hq.
  destruct (Z.ltb_spec sig SIGRTMIN); [reflexivity|lia].
Qed.

Definition lq_mask : legacy_queue_macro :=
  Build_legacy_queue_macro legacy_queue_by_mask
    by_mask_rt by_mask_absent by_mask_present.

Definition lq_record : legacy_queue_macro :=
  Build_legacy_queue_macro legacy_queue_by_record
    by_record_rt by_record_absent by_record_present.

(** ** Signal sets *)

Lemma valid_signal_range sig : valid_signal sig = true <-> 1 <= sig <= 64.
Proof. unfold valid_signal, _NSIG. lia. Qed.

Lemma sigismember_1 set sig :
  sigismember set sig = 1 <-> 1 <= sig <= 64 /\ Z.testbit set (sig - 1) = true.
Proof.
  unfold sigismember. pose proof (valid_signal_range sig) as Hv.
  destruct (valid_signal sig); destruct (Z.testbit set (sig - 1));
    split; try (intros [? ?]); try intros ?; try discriminate; try lia;
    try (split; [tauto|reflexivity]).
Qed.

Lemma sigismember_0 set sig :
  sigismember set sig = 0 <-> 1 <= sig <= 64 /\ Z.testbit set (sig - 1) = false.
Proof.
  unfold sigismember. pose proof (valid_signal_range sig) as Hv.
  destruct (valid_signal sig); destruct (Z.testbit set (sig - 1));
    split; try (intros [? ?]); try intros ?; try discriminate; try lia;
    try (split; [tauto|reflexivity]).
Qed.

Lemma sigismember_1_valid set sig : sigismember set sig = 1 -> 1 <= sig <= 64.
Proof. rewrite sigismember_1. tauto. Qed.

Lemma sigismember_cases set sig :
  1 <= sig <= 64 -> sigismember set sig = 0 \/ sigismember set sig = 1.
Proof.
  intros Hs. unfold sigismember. rewrite (proj2 (valid_signal_range sig) Hs).
  destruct (Z.testbit _ _); auto.
Qed.

Lemma testbit_one k : Z.testbit 1 k = (k =? 0).
Proof.
  destruct (Z.eqb_spec k 0) as [->|Hne]; [reflexivity|].
  destruct (Z_lt_le_dec k 0) as [Hneg|Hpos].
  - apply Z.testbit_neg_r. exact Hneg.
  - apply Z.bits_above_log2; [lia|]. simpl. lia.
Qed.

Lemma ve_mask_bit sig n :
  1 <= sig -> 0 <= n -> Z.testbit (ve_mask sig) n = (n =? sig - 1).
Proof.
  intros Hs Hn. unfold ve_mask. rewrite Z.shiftl_spec by lia.
  rewrite testbit_one.
  destruct (Z.eqb_spec (n - (sig - 1)) 0), (Z.eqb_spec n (sig - 1)); lia.
Qed.

Lemma reserved_signal_false sig :
  reserved_signal sig = false <-> sig <> 32 /\ sig <> 33.
Proof. unfold reserved_signal. lia. Qed.

Lemma sigaddset_ordinary set sig :
  1 <= sig <= 64 -> reserved_signal sig = false ->
  sigaddset set sig = Z.lor set (ve_mask sig).
Proof.
  intros Hs Hr. unfold sigaddset.
  rewrite (proj2 (valid_signal_range sig) Hs), Hr. reflexivity.
Qed.

Lemma sigdelset_ordinary set sig :
  1 <= sig <= 64 -> reserved_signal sig = false ->
  sigdelset set sig = Z.land set (lnot64 (ve_mask sig)).
Proof.
  intros Hs Hr. unfold sigdelset.
  rewrite (proj2 (valid_signal_range sig) Hs), Hr. reflexivity.
Qed.

Lemma sigaddset_refused set sig :
  ~ 1 <= sig <= 64 \/ reserved_signal sig = true -> sigaddset set sig = set.
Proof.
  intros H. unfold sigaddset. pose proof (valid_signal_range sig) as Hv.
  destruct (valid_signal sig), (reserved_signal sig); try reflexivity.
  destruct H as [H|H]; [tauto|discriminate].
Qed.

Lemma sigdelset_refused set sig :
  ~ 1 <= sig <= 64 \/ reserved_signal sig = true -> sigdelset set sig = set.
Proof.
  intros H. unfold sigdelset. pose proof (valid_signal_range sig) as Hv.
  destruct (valid_signal sig), (reserved_signal sig); try reflexivity.
  destruct H as [H|H]; [tauto|discriminate].
Qed.

Lemma sigismember_sigaddset set sig x :
  1 <= sig <= 64 -> reserved_signal sig = false ->
  sigismember (sigaddset set sig) x = 1 <-> x = sig \/ sigismember set x = 1.
Proof.
  intros Hs Hr. rewrite sigaddset_ordinary by assumption.
  rewrite !sigismember_1. split.
  - intros [Hx Hb]. rewrite Z.lor_spec, ve_mask_bit in Hb by lia.
    apply orb_true_iff in Hb as [Hb|Hb]; [right; tauto|left; lia].
  - intros [->|[Hx Hb]]; (split; [lia|]); rewrite Z.lor_spec, ve_mask_bit by lia.
    + rewrite Z.eqb_refl. apply orb_true_r.
    + rewrite Hb. reflexivity.
Qed.

(** A bit [sigaddset] leaves set was set or is the one of the signal. *)
Lemma sigismember_sigaddset_inv set sig x :
  sigismember (sigaddset set sig) x = 1 ->
  (x = sig /\ reserved_signal sig = false) \/ sigismember set x = 1.
Proof.
  intros H. destruct (reserved_signal sig) eqn:Hr.
  - rewrite sigaddset_refused in H by auto. auto.
  - destruct (Z_le_dec 1 sig) as [H1|H1]; [destruct (Z_le_dec sig 64) as [H2|H2]|].
    + apply sigismember_sigaddset in H; [|lia|exact Hr].
      destruct H as [->|H]; auto.
    + rewrite sigaddset_refused in H by (left; lia). auto.
    + rewrite sigaddset_refused in H by (left; lia). auto.
Qed.

Lemma sigismember_sigaddset_keeps set sig x :
  sigismember set x = 1 -> sigismember (sigaddset set sig) x = 1.
Proof.
  intros H. unfold sigaddset.
  destruct (valid_signal sig && negb (reserved_signal sig)); [|exact H].
  apply sigismember_1 in H as [Hx Hb]. apply sigismember_1. split; [exact Hx|].
  rewrite Z.lor_spec, Hb. reflexivity.
Qed.

Lemma sigismember_sigdelset set sig x :
  reserved_signal sig = false ->
  sigismember (sigdelset set sig) x = 1 <-> x <> sig /\ sigismember set x = 1.
Proof.
  intros Hr. unfold sigdelset. rewrite Hr, andb_true_r.
  pose proof (valid_signal_range sig) as Hv.
  destruct (valid_signal sig).
  - assert (1 <= sig <= 64) as Hs by tauto. rewrite !sigismember_1. split.
    + intros [Hx Hb].
      rewrite Z.land_spec, lnot64_bits_low, ve_mask_bit in Hb by lia.
      apply andb_true_iff in Hb as [Hb Hn]. split; [|tauto].
      destruct (Z.eqb_spec (x - 1) (sig - 1)); [discriminate|lia].
    + intros [Hne [Hx Hb]]. split; [lia|].
      rewrite Z.land_spec, lnot64_bits_low, ve_mask_bit, Hb by lia.
      destruct (Z.eqb_spec (x - 1) (sig - 1)); [lia|reflexivity].
  - rewrite !sigismember_1. split; [|tauto].
    intros [Hx Hb]. split; [|tauto]. intros ->.
    assert (false = true) by (apply Hv; lia). discriminate.
Qed.

(** [sigdelset] sets no bit, and clears none but the one of the signal. *)
Lemma sigismember_sigdelset_inv set sig x :
  sigismember (sigdelset set sig) x = 1 -> sigismember set x = 1.
Proof.
  intros H. destruct (reserved_signal sig) eqn:Hr.
  - rewrite sigdelset_refused in H by auto. exact H.
  - apply sigismember_sigdelset in H; tauto.
Qed.

Lemma sigismember_sigdelset_other set sig x :
  x <> sig -> sigismember set x = 1 -> sigismember (sigdelset set sig) x = 1.
Proof.
  intros Hne H. destruct (reserved_signal sig) eqn:Hr.
  - rewrite sigdelset_refused by auto. exact H.
  - apply sigismember_sigdelset; auto.
Qed.

Lemma sigismember_sigaddset_0 set sig x :
  1 <= sig <= 64 ->
  sigismember (sigaddset set sig) x = 0 -> sigismember set x = 0.
Proof.
  intros Hs. unfold sigaddset.
  destruct (valid_signal sig && negb (reserved_signal sig)); [|auto].
  rewrite !sigismember_0. intros [Hx Hb]. split; [lia|].
  rewrite Z.lor_spec in Hb. apply orb_false_iff in Hb. tauto.
Qed.

Lemma land_range_l a b : 0 <= a < 2 ^ 64 -> 0 <= Z.land a b < 2 ^ 64.
Proof.
  intros Ha.
  assert (Z.land a b = u64 (Z.land a b)) as ->; [|apply u64_range].
  apply Z.bits_inj'. intros n Hn.
  destruct (Z_lt_le_dec n 64) as [Hlt|Hge].
  - rewrite u64_bits_low by lia. reflexivity.
  - rewrite u64_bits_high by lia. rewrite Z.land_spec.
    rewrite <- (u64_small a Ha), u64_bits_high by lia. reflexivity.
Qed.

Lemma u64_idem z : u64 (u64 z) = u64 z.
Proof. apply u64_small, u64_range. Qed.

Lemma u64_sub_add a b : u64 (u64 (a - b) + b) = u64 a.
Proof. unfold u64. rewrite Zplus_mod_idemp_l. f_equal. lia. Qed.

(** ** The next signal *)

(** [sig] is pending and not blocked. *)
Definition deliverable (pend : ve_sigpending) (mask : sigset_t) (sig : Z) : Prop :=
  sigismember (signal pend) sig = 1 /\ sigismember mask sig = 0.

Definition lowest (P : Z -> Prop) (sig : Z) : Prop :=
  P sig /\ forall s, P s -> sig <= s.

Definition effective (pend : ve_sigpending) (mask : sigset_t) : Z :=
  Z.land (signal pend) (lnot64 mask).

Lemma effective_range pend mask : 0 <= effective pend mask < 2 ^ 64.
Proof.
  unfold effective. rewrite Z.land_comm. apply land_range_l, u64_range.
Qed.

Lemma effective_bit pend mask sig :
  1 <= sig <= 64 ->
  Z.testbit (effective pend mask) (sig - 1) = true <-> deliverable pend mask sig.
Proof.
  intros Hs. unfold effective, deliverable.
  rewrite Z.land_spec, lnot64_bits_low by lia.
  rewrite sigismember_1, sigismember_0.
  destruct (Z.testbit (signal pend) (sig - 1)), (Z.testbit mask (sig - 1));
    simpl; intuition congruence.
Qed.

Lemma deliverable_valid pend mask sig :
  deliverable pend mask sig -> 1 <= sig <= 64.
Proof. intros [H _]. apply sigismember_1 in H. tauto. Qed.

(** The lowest set bit of a non-zero 64-bit word, as a signal number. *)
Lemma ffsl_lowest x (P : Z -> Prop) :
  0 <= x < 2 ^ 64 -> x <> 0 ->
  (forall sig, 1 <= sig <= 64 -> Z.testbit x (sig - 1) = true <-> P sig) ->
  (forall sig, P sig -> 1 <= sig <= 64) ->
  lowest P (ffsl x).
Proof.
  intros Hx Hnz Hbit Hval.
  pose proof (ffsl_upper x 64 ltac:(lia) ltac:(lia)) as Hr.
  split.
  - apply Hbit; [lia|]. apply ffsl_bit. lia.
  - intros s Hs. pose proof (Hval s Hs) as Hsr.
    apply Hbit in Hs; [|lia].
    pose proof (ffsl_least x (s - 1) ltac:(lia) ltac:(lia) Hs). lia.
Qed.

Section NextSignal.

Context {hdr : veos_headers}.

(** [sig] belongs to the synchronous-signal subset. *)
Definition synchronous (sig : Z) : Prop :=
  sigismember VE_SYNCHRONOUS_MASK sig = 1.

(** C1: the signal [psm_get_next_ve_signal] returns is 0 when no pending
    signal is unblocked; it is the lowest pending unblocked synchronous
    signal when there is one; and it is the lowest pending unblocked
    signal otherwise. *)
Theorem psm_get_next_ve_signal_lowest pend mask :
  let sig := psm_get_next_ve_signal pend mask in
  ((forall s, ~ deliverable pend mask s) -> sig = 0) /\
  ((exists s, deliverable pend mask s /\ synchronous s) ->
   lowest (fun s => deliverable pend mask s /\ synchronous s) sig) /\
  ((exists s, deliverable pend mask s) ->
   (forall s, deliverable pend mask s -> ~ synchronous s) ->
   lowest (deliverable pend mask) sig).
Proof.
  cbv zeta. unfold psm_get_next_ve_signal. fold (effective pend mask).
  pose proof (effective_range pend mask) as Hr.
  pose proof (land_range_l _ VE_SYNCHRONOUS_MASK Hr) as Hrs.
  set (eff := effective pend mask) in *.
  set (syn := Z.land eff VE_SYNCHRONOUS_MASK) in *.
  assert (forall s, 1 <= s <= 64 ->
            Z.testbit syn (s - 1) = true <->
            deliverable pend mask s /\ synchronous s) as Hsyn.
  { intros s Hs. unfold syn. rewrite Z.land_spec, andb_true_iff.
    unfold eff. rewrite effective_bit by lia. unfold synchronous.
    rewrite sigismember_1. tauto. }
  split; [|split].
  - intros Hno. destruct (Z.eqb_spec eff 0) as [_|Hnz]; [reflexivity|].
    exfalso. pose proof (ffsl_upper eff 64 ltac:(lia) ltac:(lia)) as Hu.
    apply (Hno (ffsl eff)). apply effective_bit; [lia|].
    apply ffsl_bit. lia.
  - intros (s & Hd & Hs).
    pose proof (deliverable_valid _ _ _ Hd) as Hv.
    assert (syn <> 0) as Hsnz.
    { intros Hz. pose proof (proj2 (Hsyn s Hv) (conj Hd Hs)) as Hb.
      rewrite Hz, Z.bits_0 in Hb. discriminate. }
    assert (eff <> 0) as Hnz.
    { intros Hz. apply Hsnz. unfold syn. rewrite Hz. apply Z.land_0_l. }
    destruct (Z.eqb_spec eff 0) as [|_]; [contradiction|].
    destruct (Z.eqb_spec syn 0) as [|_]; [contradiction|]. simpl.
    apply ffsl_lowest; [lia|assumption|assumption|].
    intros s' [Hd' _]. eapply deliverable_valid, Hd'.
  - intros (s & Hd) Hnone.
    pose proof (deliverable_valid _ _ _ Hd) as Hv.
    assert (eff <> 0) as Hnz.
    { intros Hz. pose proof (proj2 (effective_bit pend mask s Hv) Hd) as Hb.
      fold eff in Hb. rewrite Hz, Z.bits_0 in Hb. discriminate. }
    destruct (Z.eqb_spec eff 0) as [|_]; [contradiction|].
    destruct (Z.eqb_spec syn 0) as [_|Hsnz]; simpl.
    + apply ffsl_lowest; [lia|assumption| |apply deliverable_valid].
      intros s' Hs'. apply effective_bit. exact Hs'.
    + exfalso. pose proof (ffsl_upper syn 64 ltac:(lia) ltac:(lia)) as Hu.
      pose proof (proj1 (Hsyn (ffsl syn) Hu) (ffsl_bit syn ltac:(lia)))
        as [Hd' Hs'].
      exact (Hnone _ Hd' Hs').
Qed.

End NextSignal.

(** Scenario S4: SIGUSR1 and SIGSEGV pending, none blocked. *)
Example next_signal_prefers_sigsegv :
  psm_get_next_ve_signal (hdr := sample_headers)
    (mk_sigpending [] (Z.lor (ve_mask SIGUSR1) (ve_mask SIGSEGV))) 0 = SIGSEGV.
Proof. reflexivity. Qed.

Example next_signal_none_when_blocked :
  psm_get_next_ve_signal (hdr := sample_headers)
    (mk_sigpending [] (ve_mask SIGUSR1)) (ve_mask SIGUSR1) = 0.
Proof. reflexivity. Qed.

(** ** The frame address *)

(** The stack pointer lies in the alternate signal stack. *)
Definition on_alternate_stack (t : ve_task_struct) : Prop :=
  sas_ss_sp t < SR (p_ve_thread t) 11 /\
  SR (p_ve_thread t) 11 - sas_ss_sp t <= sas_ss_size t.

Lemma on_sig_stack_iff t :
  0 <= sas_ss_sp t -> SR (p_ve_thread t) 11 < 2 ^ 64 ->
  on_sig_stack t = true <-> on_alternate_stack t.
Proof.
  intros H0 H1. unfold on_sig_stack, on_alternate_stack.
  rewrite andb_true_iff, Z.ltb_lt, Z.leb_le.
  split; intros [Ha Hb]; (split; [exact Ha|]);
    rewrite u64_small in * by lia; exact Hb.
Qed.

Section Frame.

Context {hdr : veos_headers}.
Variable __veos_virt_to_phy : Z -> Z.

(** C8: the virtual frame address [ve_getframe] chooses is the top of the
    alternate stack minus the frame size when the task is not on the
    alternate stack, the handler has [SA_ONSTACK] and the alternate stack
    has a size; it is [SR[11]] minus the frame size in every other case
    (64-bit arithmetic). *)
Theorem ve_getframe_address t sh signum on_altstack :
  0 <= sas_ss_sp t -> SR (p_ve_thread t) 11 < 2 ^ 64 ->
  let use_alt :=
    ~ on_alternate_stack t /\
    Z.land (sa_flags (action sh (signum - 1))) SA_ONSTACK <> 0 /\
    sas_ss_size t <> 0 in
  let vir := snd (fst (ve_getframe __veos_virt_to_phy t sh signum on_altstack)) in
  (use_alt -> vir = (sas_ss_sp t + sas_ss_size t - sizeof_sigframe) mod 2 ^ 64) /\
  (~ use_alt -> vir = (SR (p_ve_thread t) 11 - sizeof_sigframe) mod 2 ^ 64).
Proof.
  intros H0 H1. cbv zeta.
  pose proof (on_sig_stack_iff t H0 H1) as Hon.
  unfold ve_getframe.
  destruct (on_sig_stack t) eqn:Eon; simpl.
  - split; [|reflexivity]. intros [Hn _]. exfalso. apply Hn, Hon. reflexivity.
  - destruct (Z.eqb_spec (Z.land (sa_flags (action sh (signum - 1))) SA_ONSTACK) 0)
      as [Ef|Ef];
    destruct (Z.eqb_spec (sas_ss_size t) 0) as [Es|Es]; simpl;
      (split; [intros (Hn & Hf & Hs); try contradiction; reflexivity|]);
      intros Hnot; try reflexivity.
    exfalso. apply Hnot. repeat split; try assumption.
    intros Hc. apply Hon in Hc. discriminate.
Qed.

End Frame.

(** A task on its main stack with an alternate stack registered, whose last
    system call returned [-VE_ERESTARTSYS] (with [sample_headers]), and a
    handler table whose handlers ask for the alternate stack and for the
    restart of system calls. *)
Definition task_demo : ve_task_struct :=
  mk_task 100
    (mk_regs 0x1000 0
       (fun k => if k =? 11 then 0x7000 else if k =? 0 then u64 (-512) else 0)
       0)
    (mk_sigpending [] 0) 0 0 false 0x20000 0x4000 0 false []
    1 0 0 0 100 (["/";"o";"p";"t"]%char ++ replicate 4092 zero).

Definition sighand_demo : sighand_struct :=
  mk_sighand (fun _ => mk_sigaction 0x4000 (Z.lor SA_ONSTACK SA_RESTART) 0)
    0 8 8 0 0.

Definition group_demo : thread_group := mk_group [task_demo] sighand_demo.

Lemma ve_getframe_address_witness :
  snd (fst (ve_getframe (hdr := sample_headers) (fun a => a)
              task_demo sighand_demo SIGUSR1 0))
  = (0x20000 + 0x4000 - 0x1000) mod 2 ^ 64.
Proof.
  refine (proj1 (ve_getframe_address (hdr := sample_headers) (fun a => a)
                   task_demo sighand_demo SIGUSR1 0 _ _) _).
  - vm_compute. discriminate.
  - vm_compute. reflexivity.
  - split; [|split].
    + unfold on_alternate_stack. simpl. lia.
    + vm_compute. discriminate.
    + simpl. lia.
Defined.

(** ** Group actions *)

Section GroupAction.

Context {sched : veos_scheduler}.

(** What an action leaves of a task does not depend on [*is_needed]. *)
Lemma ve_group_action_task t fl sig n :
  (ve_group_action t fl sig n).1.2 = (ve_group_action t fl sig 0).1.2.
Proof.
  unfold ve_group_action, psm_stop_ve_process.
  destruct fl; repeat case_match; simplify_eq; reflexivity.
Qed.

(** The action of [ve_do_group_action] on one thread. *)
Definition group_action_on (req_pid : Z) (fl : group_flag) (sig : Z)
    (tmp : ve_task_struct) : ve_task_struct :=
  if spared fl tmp req_pid then tmp else (ve_group_action tmp fl sig 0).1.2.

Lemma ve_do_group_action_threads_map threads req_pid fl sig n :
  fl <> FSTOPPROC ->
  exists n',
    ve_do_group_action_threads threads req_pid fl sig n
    = (map (group_action_on req_pid fl sig) threads, n', true).
Proof.
  intros Hfl. revert n. induction threads as [|tmp l IH]; intros n; simpl.
  - exists n. reflexivity.
  - unfold group_action_on at 1. destruct (spared fl tmp req_pid).
    + destruct (IH n) as [n' ->]. exists n'. reflexivity.
    + rewrite <- (ve_group_action_task tmp fl sig n).
      destruct (ve_group_action tmp fl sig n) as [[r tmp'] tr].
      assert (match fl with FSTOPPROC => tr =? 0 | _ => false end = false) as ->
        by (destruct fl; try reflexivity; contradiction).
      destruct (IH tr) as [n' ->]. exists n'. reflexivity.
Qed.

(** But for [FSTOPPROC], which can stop half way, [ve_do_group_action]
    acts on every thread of the group. *)
Lemma ve_do_group_action_map g req_pid fl sig :
  fl <> FSTOPPROC ->
  ve_do_group_action g req_pid fl sig
  = mk_group (map (group_action_on req_pid fl sig) (tasks g)) (sighand g).
Proof.
  intros Hfl. unfold ve_do_group_action.
  destruct (tasks g) as [|t0 l0] eqn:E using rev_ind.
  - destruct g; simpl in *; subst; reflexivity.
  - clear IHl0. rewrite last_snoc, removelast_last.
    destruct (ve_do_group_action_threads_map l0 req_pid fl sig 0 Hfl) as [n' ->].
    rewrite map_app. cbn [map negb orb].
    assert (group_action_on req_pid fl sig t0
            = if spared fl t0 req_pid then t0
              else (ve_group_action t0 fl sig 0).1.2) as -> by reflexivity.
    destruct (spared fl t0 req_pid); [reflexivity|].
    rewrite <- (ve_group_action_task t0 fl sig n').
    destruct (ve_group_action t0 fl sig n') as [[r t1] n'']. reflexivity.
Qed.

Lemma ve_do_group_action_sighand g req_pid fl sig :
  sighand (ve_do_group_action g req_pid fl sig) = sighand g.
Proof.
  unfold ve_do_group_action. destruct (last (tasks g)); [|reflexivity].
  destruct (ve_do_group_action_threads _ _ _ _ _) as [[l tr] ended].
  destruct (negb ended || spared fl v req_pid); [reflexivity|].
  destruct (ve_group_action v fl sig tr) as [[r t] n]. reflexivity.
Qed.

Lemma ve_do_group_action_lookup g req_pid fl sig j :
  fl <> FSTOPPROC ->
  tasks (ve_do_group_action g req_pid fl sig) !! j
  = group_action_on req_pid fl sig <$> tasks g !! j.
Proof.
  intros Hfl. rewrite ve_do_group_action_map by exact Hfl. simpl.
  change (map ?f ?l) with (f <$> l). apply list_lookup_fmap.
Qed.

Lemma psm_start_ve_process_pending t :
  pending (psm_start_ve_process t) = pending t.
Proof. unfold psm_start_ve_process. repeat case_match; reflexivity. Qed.

Lemma psm_stop_ve_process_pending t fl n :
  pending (psm_stop_ve_process t fl n).1 = pending t.
Proof. unfold psm_stop_ve_process. repeat case_match; reflexivity. Qed.

(** The pending set an action leaves. *)
Lemma ve_group_action_pending t fl sig n :
  pending (ve_group_action t fl sig n).1.2
  = match fl with
    | FSIGCONTINUE =>
        let '(l, s) := delete_stopping (sig_list (pending t)) (signal (pending t)) in
        mk_sigpending l s
    | FSIGMASKING =>
        let '(l, s) := delete_first sig (sig_list (pending t)) (signal (pending t)) in
        mk_sigpending l s
    | _ => pending t
    end.
Proof.
  unfold ve_group_action. destruct fl; try reflexivity.
  - destruct (delete_stopping _ _). simpl. apply psm_start_ve_process_pending.
  - pose proof (psm_stop_ve_process_pending t FSIGSTOPPING n) as H.
    destruct (psm_stop_ve_process t FSIGSTOPPING n). exact H.
  - pose proof (psm_stop_ve_process_pending t FSTOPPROC n) as H.
    destruct (psm_stop_ve_process t FSTOPPROC n). exact H.
  - pose proof (psm_stop_ve_process_pending t FCLEANTHREAD n) as H.
    destruct (psm_stop_ve_process t FCLEANTHREAD n). exact H.
  - destruct (delete_first _ _ _). reflexivity.
Qed.

End GroupAction.

(** ** Core dump *)

Section CoreDump.

Context {hdr : veos_headers} {sched : veos_scheduler}
  {limits : CoreName.path_limits}.

(** The run of [ve_format_core_filename] in a session. *)
Definition core_file_name (di : dump_info) (env : dump_env)
  : CoreName.run (Z * CoreName.ve_corename) :=
  CoreName.ve_format_core_filename (corename_host env)
    (di_task_exec_path di) (di_task_tgid di) CoreName.fresh_corename.




Lemma do_ve_coredump_named_exit di g env retval :
  fork_ret env <> 0 ->
  signal_flag (sighand (fst (do_ve_coredump_named di g env retval)))
  = VE_SIGNAL_GROUP_EXIT.
Proof.
  intros Hfork. unfold do_ve_coredump_named, coredump_hndl_err.
  destruct (Z.eqb_spec (fork_ret env) 0) as [|_]; [contradiction|].
  repeat case_match; reflexivity.
Qed.

(** The session also leaves the group marked as exiting. *)
Lemma do_ve_coredump_group_exit di g env g' evs :
  fork_ret env <> 0 ->
  do_ve_coredump di g env = CoreName.ret (g', evs) ->
  signal_flag (sighand g') = VE_SIGNAL_GROUP_EXIT.
Proof.
  intros Hfork. unfold do_ve_coredump, coredump_hndl_err.
  set (g1 := ve_do_group_action _ _ _ _).
  destruct (rlim_core (sighand g1) =? 0); [simpl; intros [= <- _]; reflexivity|].
  destruct (negb (socketpair_ret env =? 0));
    [simpl; intros [= <- _]; reflexivity|].
  destruct (negb (corename_malloc_ok env));
    [simpl; intros [= <- _]; reflexivity|].
  destruct (CoreName.ve_format_core_filename _ _ _ _) as [r| |]; simpl;
    [|discriminate..].
  intros [= E]. pose proof (do_ve_coredump_named_exit di g1 env r.1 Hfork) as H.
  rewrite E in H. exact H.
Qed.

End CoreDump.






(** ** Restart of an interrupted system call *)

Section Restart.

Context {hdr : veos_headers} {lq : legacy_queue_macro}
  {sched : veos_scheduler}.
Variable __veos_virt_to_phy : Z -> Z.

Lemma recalc_sigpending_thread t :
  p_ve_thread (snd (recalc_sigpending t)) = p_ve_thread t.
Proof. unfold recalc_sigpending. destruct (negb _); reflexivity. Qed.

Lemma psm_set_current_blocked_thread t b :
  p_ve_thread (psm_set_current_blocked t b) = p_ve_thread t.
Proof.
  unfold psm_set_current_blocked. rewrite recalc_sigpending_thread. reflexivity.
Qed.

Lemma set_task_lookup g i t t0 :
  tasks g !! i = Some t0 -> tasks (set_task g i t) !! i = Some t.
Proof.
  intros H. unfold set_task. simpl. apply list_lookup_insert_eq.
  eapply lookup_lt_Some, H.
Qed.

Lemma ve_getframe_vir_u64 t sh signum oa :
  u64 (snd (fst (ve_getframe __veos_virt_to_phy t sh signum oa)))
  = snd (fst (ve_getframe __veos_virt_to_phy t sh signum oa)).
Proof.
  unfold ve_getframe.
  destruct (negb (on_sig_stack t)); [destruct (_ && _)|]; simpl; apply u64_idem.
Qed.

Lemma ve_getframe_phys t sh signum oa :
  fst (fst (ve_getframe __veos_virt_to_phy t sh signum oa))
  = __veos_virt_to_phy (snd (fst (ve_getframe __veos_virt_to_phy t sh signum oa))).
Proof.
  unfold ve_getframe.
  destruct (negb (on_sig_stack t)); [destruct (_ && _)|]; reflexivity.
Qed.

(** A successful [setup_ve_frame]: the handler address is in the
    instruction counter, and the frame in memory holds the registers the
    task had on entry. *)
Lemma setup_ve_frame_ok signum t sh si fl mem :
  let va := snd (fst (ve_getframe __veos_virt_to_phy t sh signum 0)) in
  0 <= __veos_virt_to_phy va ->
  exists t' mem',
    setup_ve_frame __veos_virt_to_phy signum t sh si fl 0 mem = (0, t', mem') /\
    IC (p_ve_thread t') = sa_handler (action sh (signum - 1)) /\
    SR (p_ve_thread t') 11 = u64 (va - HANDLER_STACK_FRAME) /\
    uc_mcontext (uc (mem' (__veos_virt_to_phy va))) = p_ve_thread t /\
    sf_flag (mem' (__veos_virt_to_phy va)) = fl.
Proof.
  cbv zeta. intros Hpa. unfold setup_ve_frame.
  pose proof (ve_getframe_phys t sh signum 0) as Hp.
  destruct (ve_getframe __veos_virt_to_phy t sh signum 0) as [[pa va] oa] eqn:E.
  simpl in Hp, Hpa |- *. subst pa.
  destruct (Z.ltb_spec (__veos_virt_to_phy va) 0) as [|_]; [lia|].
  cbv beta iota zeta. simpl (negb (0 =? 0)). cbv iota.
  eexists _, _. split; [reflexivity|].
  cbv beta. rewrite Z.eqb_refl.
  repeat split; destruct (negb (oa =? 0)); reflexivity.
Qed.

(** [psm_restore_ve_context], when the stack pointer is read and the
    frame found and read: the user registers of the task become those of
    the saved context, whatever they hold. *)
Lemma psm_restore_ve_context_ok g i t rd sp mem ok :
  tasks g !! i = Some t ->
  read_curr_sp rd t = Some sp ->
  let pa := __veos_virt_to_phy (u64 (sp + HANDLER_STACK_FRAME)) in
  0 <= pa ->
  exists r g' evs t',
    psm_restore_ve_context __veos_virt_to_phy g i rd 0 mem ok
    = Some (r, g', evs) /\
    tasks g' !! i = Some t' /\
    p_ve_thread t' = uc_mcontext (uc (mem pa)).
Proof.
  intros Hi Hsp. cbv zeta. intros Hpa. unfold psm_restore_ve_context.
  rewrite Hi, Hsp.
  destruct (Z.ltb_spec (__veos_virt_to_phy (u64 (sp + HANDLER_STACK_FRAME))) 0)
    as [|_]; [lia|].
  simpl orb. cbv iota.
  destruct (negb (sf_flag _ =? 0)); eexists _, _, _, _;
    (split; [reflexivity|]);
    (split; [eapply set_task_lookup, Hi|]);
    rewrite ?recalc_sigpending_thread; reflexivity.
Qed.

(** A failed read of the stack pointer from the core ends in
    [veos_abort]. *)
Lemma psm_restore_ve_context_abort g i t rd d mem ok :
  tasks g !! i = Some t ->
  read_curr_sp rd t = None ->
  psm_restore_ve_context __veos_virt_to_phy g i rd d mem ok = None.
Proof.
  intros Hi Hsp. unfold psm_restore_ve_context. rewrite Hi, Hsp. reflexivity.
Qed.


(** C3 (amended): for a task whose [SR[0]] holds [-VE_ERESTARTSYS] and a
    handler with [SA_RESTART], [ve_handle_signal] rewinds the instruction
    counter by 8 before [setup_ve_frame] saves the context.  After it the
    instruction counter is the handler address, the frame in memory holds
    the original counter minus 8, with [SR[0]] untouched, and the stack
    pointer given to the handler designates that frame.
    [psm_restore_ve_context], whether it reads the stack pointer from the
    task or from the core, looks for the frame above the stack pointer it
    read: when that is the frame of the delivery it copies the saved
    context back, so that on return from the handler the counter is the
    original one minus 8; when the read from the core fails it aborts
    veos. *)
Theorem ve_handle_signal_restart g i t fl signum si mem calloc_ok :
  tasks g !! i = Some t ->
  SR (p_ve_thread t) 0 = u64 (- VE_ERESTARTSYS) ->
  u64 (- VE_ENORESTART) <> u64 (- VE_ERESTARTSYS) ->
  Z.land (sa_flags (action (sighand g) (signum - 1))) SA_RESTART <> 0 ->
  let va := snd (fst (ve_getframe __veos_virt_to_phy t (sighand g) signum 0)) in
  0 <= __veos_virt_to_phy va ->
  exists g' mem' t',
    ve_handle_signal __veos_virt_to_phy g i fl signum si 0 mem calloc_ok
    = (0, g', mem') /\
    tasks g' !! i = Some t' /\
    IC (p_ve_thread t') = sa_handler (action (sighand g) (signum - 1)) /\
    IC (uc_mcontext (uc (mem' (__veos_virt_to_phy va))))
    = u64 (IC (p_ve_thread t) - 8) /\
    SR (uc_mcontext (uc (mem' (__veos_virt_to_phy va)))) 0
    = u64 (- VE_ERESTARTSYS) /\
    u64 (SR (p_ve_thread t') 11 + HANDLER_STACK_FRAME) = va /\
    forall rd ok,
      (read_curr_sp rd t' = None ->
       psm_restore_ve_context __veos_virt_to_phy g' i rd 0 mem' ok = None) /\
      (forall sp,
         read_curr_sp rd t' = Some sp ->
         u64 (sp + HANDLER_STACK_FRAME) = va ->
         exists r g'' evs t'',
           psm_restore_ve_context __veos_virt_to_phy g' i rd 0 mem' ok
           = Some (r, g'', evs) /\
           tasks g'' !! i = Some t'' /\
           IC (p_ve_thread t'') = u64 (IC (p_ve_thread t) - 8) /\
           SR (p_ve_thread t'') 0 = u64 (- VE_ERESTARTSYS)).
Proof.
  intros Hi H0 Hne Hfl. cbv zeta. intros Hpa.
  unfold ve_handle_signal. rewrite Hi, H0.
  destruct (Z.eqb_spec (u64 (- VE_ERESTARTSYS)) (u64 (- VE_ENORESTART))) as [E|_];
    [congruence|].
  rewrite Z.eqb_refl.
  destruct (Z.eqb_spec
              (Z.land (sa_flags (action (sighand g) (signum - 1))) SA_RESTART) 0)
    as [|_]; [contradiction|]. simpl negb. cbv iota.
  destruct (setup_ve_frame_ok signum
              (set_thread t (set_IC (p_ve_thread t) (u64 (IC (p_ve_thread t) - 8))))
              (sighand g) si fl mem Hpa)
    as (t2 & mem' & Hsetup & HIC & HSP & Hctx & Hflag).
  change (ve_getframe __veos_virt_to_phy
            (set_thread t (set_IC (p_ve_thread t) (u64 (IC (p_ve_thread t) - 8))))
            (sighand g) signum 0)
    with (ve_getframe __veos_virt_to_phy t (sighand g) signum 0)
    in HSP, Hctx, Hflag.
  rewrite Hsetup.
  cbv iota beta. change (0 <? 0) with false. cbv iota.
  match goal with
  | |- exists g' mem' t', (_, ?G, _) = _ /\ _ => set (g1 := G)
  end.
  match goal with
  | g1 := set_sighand (set_task _ _ ?T) _ |- _ => set (t3 := T) in *
  end.
  assert (tasks g1 !! i = Some t3) as Hi3
    by (apply (set_task_lookup _ _ _ t2), (set_task_lookup _ _ _ t), Hi).
  assert (p_ve_thread t3 = p_ve_thread t2) as Hth3
    by (subst t3; rewrite psm_set_current_blocked_thread; reflexivity).
  eexists g1, mem', t3. split; [reflexivity|].
  split; [exact Hi3|]. rewrite Hth3.
  split; [exact HIC|]. rewrite Hctx. simpl.
  split; [reflexivity|]. split; [exact H0|].
  split; [rewrite HSP, u64_sub_add; apply ve_getframe_vir_u64|].
  intros rd ok. split.
  - intros Hsp. apply (psm_restore_ve_context_abort g1 i t3); assumption.
  - intros sp Hsp Hva.
    destruct (psm_restore_ve_context_ok g1 i t3 rd sp mem' ok Hi3 Hsp)
      as (r & g'' & evs & t'' & Hr & Hl & Hth).
    + rewrite Hva. exact Hpa.
    + exists r, g'', evs, t''. split; [exact Hr|]. split; [exact Hl|].
      rewrite Hth, Hva, Hctx. simpl. auto.
Qed.

End Restart.

Definition frame_zero : sigframe :=
  mk_sigframe (fun _ => 0) (mk_siginfo 0 0 0 0 0)
    (mk_ucontext 0 0 (mk_stack 0 0 0) 0 (mk_regs 0 0 (fun _ => 0) 0)) [] 0 0.

Definition handle_demo : Z * thread_group * ve_memory :=
  ve_handle_signal (hdr := sample_headers) (lq := lq_mask)
    (sched := sample_scheduler) (fun a => a)
    group_demo 0%nat 0 SIGUSR1 (mk_siginfo SIGUSR1 0 0 0 0) 0
    (fun _ => frame_zero) true.

(** Memory holding, where the restore of [task_demo] looks for its frame, a
    saved context whose [SR[0]] is [-VE_ERESTARTSYS] and whose instruction
    counter is 0x1000. *)
Definition memory_with_restart_frame : ve_memory :=
  fun _ =>
    mk_sigframe (fun _ => 0) (mk_siginfo 0 0 0 0 0)
      (mk_ucontext 0 0 (mk_stack 0 0 0) 0 (p_ve_thread task_demo)) [] 0 0.

(** C3 fails as stated: on [task_demo] ([IC] 0x1000, [SR[0]] =
    [-VE_ERESTARTSYS], handler 0x4000 with [SA_RESTART]) the delivery
    succeeds and leaves the instruction counter at the handler address,
    not at its old value; and [psm_restore_ve_context], given a saved
    context with [SR[0]] = [-VE_ERESTARTSYS] and counter 0x1000, restores
    the counter 0x1000 with no rewind, with the task on its core or off
    it. *)
Lemma setup_frame_changes_ic_restore_does_not_rewind :
  fst (fst handle_demo) = 0 /\
  IC (p_ve_thread task_demo) = 0x1000 /\
  (IC ∘ p_ve_thread) <$> (tasks (snd (fst handle_demo)) !! 0%nat) = Some 0x4000 /\
  (fun r => (IC ∘ p_ve_thread) <$> (tasks (snd (fst r)) !! 0%nat))
    <$> psm_restore_ve_context (hdr := sample_headers) (lq := lq_mask)
          (sched := sample_scheduler)
          (fun a => a) group_demo 0%nat NotOnCore 0
          memory_with_restart_frame true
  = Some (Some 0x1000) /\
  (fun r => (IC ∘ p_ve_thread) <$> (tasks (snd (fst r)) !! 0%nat))
    <$> psm_restore_ve_context (hdr := sample_headers) (lq := lq_mask)
          (sched := sample_scheduler)
          (fun a => a) group_demo 0%nat (OnCore (Some 0x7000)) 0
          memory_with_restart_frame true
  = Some (Some 0x1000) /\
  SR (uc_mcontext (uc (memory_with_restart_frame 0))) 0 = u64 (- 512).
Proof. vm_compute. repeat split; reflexivity. Qed.

Lemma ve_handle_signal_restart_witness :
  exists g' mem' t',
    handle_demo = (0, g', mem') /\
    tasks g' !! 0%nat = Some t' /\
    IC (p_ve_thread t') = 0x4000 /\
    IC (uc_mcontext (uc (mem' 0x23000))) = 0xFF8 /\
    SR (uc_mcontext (uc (mem' 0x23000))) 0 = u64 (- 512) /\
    u64 (SR (p_ve_thread t') 11 + 512) = 0x23000 /\
    forall rd ok,
      (read_curr_sp rd t' = None ->
       psm_restore_ve_context (hdr := sample_headers) (lq := lq_mask)
         (sched := sample_scheduler) (fun a => a) g' 0%nat rd 0 mem' ok
       = None) /\
      (forall sp,
         read_curr_sp rd t' = Some sp ->
         u64 (sp + 512) = 0x23000 ->
         exists r g'' evs t'',
           psm_restore_ve_context (hdr := sample_headers) (lq := lq_mask)
             (sched := sample_scheduler) (fun a => a) g' 0%nat rd 0 mem' ok
           = Some (r, g'', evs) /\
           tasks g'' !! 0%nat = Some t'' /\
           IC (p_ve_thread t'') = 0xFF8 /\
           SR (p_ve_thread t'') 0 = u64 (- 512)).
Proof.
  refine (ve_handle_signal_restart (hdr := sample_headers) (lq := lq_mask)
            (sched := sample_scheduler)
            (fun a => a) group_demo 0%nat task_demo 0 SIGUSR1
            (mk_siginfo SIGUSR1 0 0 0 0) (fun _ => frame_zero) true
            _ _ _ _ _).
  - reflexivity.
  - reflexivity.
  - vm_compute. discriminate.
  - vm_compute. discriminate.
  - vm_compute. discriminate.
Defined.

(** ** The pending queue and its mask *)

Definition count_sig (sig : Z) (l : list ve_sigqueue) : nat :=
  length (filter (fun q => signo q = sig) l).

(** Every record of the queue has its bit in the mask, but for the
    records of the two signals libc reserves, whose bit [sigaddset] does
    not set. *)
Definition bits_cover (p : ve_sigpending) : Prop :=
  forall q, q ∈ sig_list p -> reserved_signal (signo q) = false ->
    sigismember (signal p) (signo q) = 1.

(** No bit of a reserved signal is set. *)
Definition unreserved (p : ve_sigpending) : Prop :=
  forall x, sigismember (signal p) x = 1 -> reserved_signal x = false.

(** The bit of [sig] is set and no record carries [sig]. *)
Definition orphan (p : ve_sigpending) (sig : Z) : Prop :=
  sigismember (signal p) sig = 1 /\ ~ queued p sig.

(** [p'] comes from [p] by unlinking records and clearing bits, so that a
    surviving record keeps its bit and no bit is left without the record
    it had. *)
Record shrinks (p p' : ve_sigpending) : Prop := {
  shrinks_sub : sig_list p' `sublist_of` sig_list p;
  shrinks_keep : forall q, q ∈ sig_list p' ->
    sigismember (signal p) (signo q) = 1 ->
    sigismember (signal p') (signo q) = 1;
  shrinks_bits : forall x,
    sigismember (signal p') x = 1 -> sigismember (signal p) x = 1;
  shrinks_orphan : forall x,
    reserved_signal x = false -> orphan p' x -> orphan p x
}.

Definition is_stop (q : ve_sigqueue) : bool :=
  negb (sigismember VE_SIG_STOP_MASK (signo q) =? 0).

Lemma queued_count p sig : queued p sig <-> count_sig sig (sig_list p) <> 0%nat.
Proof.
  unfold queued, count_sig. rewrite length_zero_iff_nil. split.
  - intros (q & Hin & Hq) Hnil.
    assert (q ∈ filter (fun q => signo q = sig) (sig_list p)) as Hf
      by (apply list_elem_of_filter; auto).
    rewrite Hnil in Hf. inversion Hf.
  - intros Hne. destruct (filter _ _) as [|q l'] eqn:E; [contradiction|].
    assert (q ∈ filter (fun q => signo q = sig) (sig_list p)) as Hf
      by (rewrite E; left).
    apply list_elem_of_filter in Hf. exists q. tauto.
Qed.

Lemma count_sig_cons sig q l :
  count_sig sig (q :: l)
  = ((if decide (signo q = sig) then 1 else 0) + count_sig sig l)%nat.
Proof.
  unfold count_sig. rewrite filter_cons. destruct (decide (signo q = sig)); reflexivity.
Qed.

Lemma count_sig_app sig l1 l2 :
  count_sig sig (l1 ++ l2) = (count_sig sig l1 + count_sig sig l2)%nat.
Proof. unfold count_sig. rewrite filter_app, length_app. reflexivity. Qed.

Lemma count_sig_sublist sig l l' :
  l' `sublist_of` l -> (count_sig sig l' <= count_sig sig l)%nat.
Proof.
  intros H. unfold count_sig. apply sublist_length.
  induction H; rewrite ?filter_cons; repeat case_decide; try constructor; auto.
Qed.

Lemma shrinks_refl p : shrinks p p.
Proof. split; auto. Qed.

Lemma shrinks_trans p1 p2 p3 : shrinks p1 p2 -> shrinks p2 p3 -> shrinks p1 p3.
Proof.
  intros [S1 K1 B1 O1] [S2 K2 B2 O2]. split.
  - etransitivity; eauto.
  - intros q Hq Hb. apply K2; [exact Hq|]. apply K1; [|exact Hb].
    eapply elem_of_sublist; eauto.
  - auto.
  - auto.
Qed.

Lemma shrinks_cover p p' : shrinks p p' -> bits_cover p -> bits_cover p'.
Proof.
  intros [Hs Hk _ _] Hc q Hq Hr. apply Hk; [exact Hq|]. apply Hc; [|exact Hr].
  eapply elem_of_sublist; eauto.
Qed.

Lemma shrinks_unreserved p p' : shrinks p p' -> unreserved p -> unreserved p'.
Proof. intros [_ _ Hb _] Hu x Hx. apply Hu, Hb, Hx. Qed.

(* unlink_first *)
Lemma unlink_first_sublist sig l : unlink_first sig l `sublist_of` l.
Proof.
  induction l as [|q l IH]; simpl; [constructor|].
  destruct (signo q =? sig); [apply sublist_cons, reflexivity|apply sublist_skip, IH].
Qed.

Lemma count_sig_unlink_first sig x l :
  count_sig x (unlink_first sig l)
  = if decide (x = sig) then pred (count_sig sig l) else count_sig x l.
Proof.
  induction l as [|q l IH]; simpl.
  - destruct (decide (x = sig)); reflexivity.
  - destruct (Z.eqb_spec (signo q) sig) as [E|E].
    + destruct (decide (x = sig)) as [->|Hx]; rewrite count_sig_cons;
        [rewrite decide_True by exact E|rewrite decide_False by congruence];
        reflexivity.
    + rewrite count_sig_cons, IH.
      destruct (decide (x = sig)) as [->|Hx]; rewrite count_sig_cons.
      * rewrite decide_False by exact E. reflexivity.
      * reflexivity.
Qed.

Lemma unlink_first_absent sig l : count_sig sig l = 0%nat -> unlink_first sig l = l.
Proof.
  induction l as [|q l IH]; simpl; [reflexivity|].
  rewrite count_sig_cons. destruct (Z.eqb_spec (signo q) sig) as [E|E].
  - rewrite decide_True by exact E. discriminate.
  - rewrite decide_False by exact E. intros H. f_equal. apply IH. exact H.
Qed.

Lemma queued_mk l s sig : queued (mk_sigpending l s) sig <-> count_sig sig l <> 0%nat.
Proof. apply (queued_count (mk_sigpending l s)). Qed.

Lemma count_sig_elem sig l q : q ∈ l -> signo q = sig -> count_sig sig l <> 0%nat.
Proof.
  intros Hin Hq. apply (queued_mk l 0). exists q. auto.
Qed.

(** Unlinking the first record of [sig], with the bit of [sig] kept when
    other records of [sig] remain or none was there, cleared when at most
    one was there. *)
Lemma unlink_shrinks l s sig s' :
  (s' = s /\ count_sig sig l <> 1%nat) \/
  (s' = sigdelset s sig /\ (count_sig sig l <= 1)%nat) ->
  shrinks (mk_sigpending l s) (mk_sigpending (unlink_first sig l) s').
Proof.
  intros Hs. split; simpl.
  - apply unlink_first_sublist.
  - intros q Hq Hb. destruct Hs as [[-> _]|[-> Hc]]; [exact Hb|].
    apply sigismember_sigdelset_other; [|exact Hb].
    intros Heq. pose proof (count_sig_elem _ _ _ Hq Heq) as Hn.
    rewrite count_sig_unlink_first, decide_True in Hn by reflexivity. lia.
  - intros x Hb. destruct Hs as [[-> _]|[-> _]]; [exact Hb|].
    eapply sigismember_sigdelset_inv, Hb.
  - intros x Hr [Hb Hnq]. rewrite queued_mk, count_sig_unlink_first in Hnq.
    unfold orphan. rewrite queued_mk. simpl.
    destruct (decide (x = sig)) as [->|Hx].
    + destruct Hs as [[-> Hc]|[-> Hc]].
      * split; [exact Hb|]. lia.
      * apply (sigismember_sigdelset _ _ _ Hr) in Hb. tauto.
    + split; [|exact Hnq].
      destruct Hs as [[-> _]|[-> _]]; [exact Hb|].
      eapply sigismember_sigdelset_inv, Hb.
Qed.

Lemma is_stop_unreserved q : is_stop q = true -> reserved_signal (signo q) = false.
Proof.
  unfold is_stop, reserved_signal. intros H.
  destruct (Z.eqb_spec (signo q) 32) as [E|_];
    [rewrite E in H; vm_compute in H; discriminate H|].
  destruct (Z.eqb_spec (signo q) 33) as [E|_];
    [rewrite E in H; vm_compute in H; discriminate H|].
  reflexivity.
Qed.

Section Q.
Context {hdr : veos_headers} {lq : legacy_queue_macro}.

Lemma delete_first_unlink sig l s :
  delete_first sig l s
  = (unlink_first sig l,
     if decide (count_sig sig l = 0%nat) then s else sigdelset s sig).
Proof.
  induction l as [|q l IH]; simpl; [reflexivity|].
  rewrite count_sig_cons.
  destruct (Z.eqb_spec (signo q) sig) as [E|E];
    destruct (decide (signo q = sig)) as [E'|E']; try contradiction.
  - simpl. rewrite E. reflexivity.
  - rewrite IH. reflexivity.
Qed.

Lemma delete_first_shrinks sig l s :
  (count_sig sig l <= 1)%nat ->
  shrinks (mk_sigpending l s)
    (mk_sigpending (fst (delete_first sig l s)) (snd (delete_first sig l s))).
Proof.
  intros Hc. rewrite delete_first_unlink. simpl. apply unlink_shrinks.
  destruct (decide (count_sig sig l = 0%nat)); [left|right]; split; auto; lia.
Qed.

Lemma delete_first_count sig l s :
  (count_sig sig l <= 1)%nat -> count_sig sig (fst (delete_first sig l s)) = 0%nat.
Proof.
  intros Hc. rewrite delete_first_unlink. simpl.
  rewrite count_sig_unlink_first, decide_True by reflexivity. lia.
Qed.

Lemma delete_first_absent sig l s :
  count_sig sig l = 0%nat -> delete_first sig l s = (l, s).
Proof.
  intros Hc. rewrite delete_first_unlink, unlink_first_absent by exact Hc.
  rewrite decide_True by exact Hc. reflexivity.
Qed.

(* delete_stopping *)
Lemma delete_stopping_list l s :
  fst (delete_stopping l s) = filter (fun q => is_stop q = false) l.
Proof.
  revert s. induction l as [|q l IH]; intros s; simpl; [reflexivity|].
  rewrite filter_cons. fold (is_stop q). destruct (is_stop q) eqn:E.
  - rewrite decide_False by discriminate. apply IH.
  - rewrite decide_True by reflexivity.
    specialize (IH s). destruct (delete_stopping l s). simpl in *. congruence.
Qed.

Lemma delete_stopping_bits l s x :
  sigismember (snd (delete_stopping l s)) x = 1 <->
  sigismember s x = 1 /\ forall q, q ∈ l -> is_stop q = true -> signo q <> x.
Proof.
  revert s. induction l as [|q l IH]; intros s; simpl.
  - split; [intros H; split; [exact H|]; intros q Hq; inversion Hq|tauto].
  - fold (is_stop q). destruct (is_stop q) eqn:E.
    + rewrite IH, sigismember_sigdelset by (apply is_stop_unreserved, E). split.
      * intros [[Hne Hb] Hall]. split; [exact Hb|].
        intros q' Hq' Hs'. apply elem_of_cons in Hq' as [->|Hq']; [congruence|auto].
      * intros [Hb Hall]. split; [split; [|exact Hb]|].
        -- intros Heq. apply (Hall q); [left|exact E|congruence].
        -- intros q' Hq'. apply Hall. right. exact Hq'.
    + specialize (IH s). destruct (delete_stopping l s) as [l' s']. simpl in *.
      rewrite IH. split; intros [Hb Hall]; (split; [exact Hb|]).
      * intros q' Hq' Hs'. apply elem_of_cons in Hq' as [->|Hq']; [congruence|auto].
      * intros q' Hq'. apply Hall. right. exact Hq'.
Qed.

Lemma delete_stopping_shrinks l s :
  shrinks (mk_sigpending l s)
    (mk_sigpending (fst (delete_stopping l s)) (snd (delete_stopping l s))).
Proof.
  split; simpl.
  - rewrite delete_stopping_list. apply sublist_filter.
  - intros q Hq Hb. rewrite delete_stopping_list in Hq.
    apply list_elem_of_filter in Hq as [Hns Hq].
    apply delete_stopping_bits. split; [exact Hb|].
    intros q' Hq' Hs' Heq. unfold is_stop in *. rewrite Heq in Hs'. congruence.
  - intros x Hb. apply delete_stopping_bits in Hb. tauto.
  - intros x _ [Hb Hnq]. apply delete_stopping_bits in Hb as [Hb Hall].
    split; [exact Hb|]. intros (q & Hq & Hx). simpl in *.
    destruct (is_stop q) eqn:E.
    + exact (Hall q Hq E Hx).
    + apply Hnq. exists q. split; [|exact Hx]. simpl.
      rewrite delete_stopping_list. apply list_elem_of_filter. auto.
Qed.

Lemma delete_stopping_nostop l s q :
  q ∈ fst (delete_stopping l s) -> sigismember VE_SIG_STOP_MASK (signo q) = 0.
Proof.
  rewrite delete_stopping_list. intros H. apply list_elem_of_filter in H as [H _].
  unfold is_stop in H. destruct (Z.eqb_spec (sigismember VE_SIG_STOP_MASK (signo q)) 0);
    [assumption|discriminate].
Qed.

Lemma delete_stopping_absent l s :
  (forall q, q ∈ l -> sigismember VE_SIG_STOP_MASK (signo q) = 0) ->
  delete_stopping l s = (l, s).
Proof.
  revert s. induction l as [|q l IH]; intros s H; simpl; [reflexivity|].
  rewrite (H q) by left. simpl. rewrite IH; [reflexivity|].
  intros q' Hq'. apply H. right. exact Hq'.
Qed.

(** What [ve_collect_signal] leaves of the pending set. *)
Lemma ve_collect_signal_shrinks si p sig fl sh :
  shrinks p (snd (fst (ve_collect_signal si p sig fl sh))).
Proof.
  unfold ve_collect_signal. destruct p as [l s]. simpl.
  fold (count_sig sig l).
  assert (count_sig sig l = length (filter (fun q => signo q = sig) l)) as Hc
    by reflexivity.
  destruct (filter (fun q => signo q = sig) l) as [|q1 [|q2 rest]]; simpl in *.
  - rewrite <- (unlink_first_absent sig l Hc) at 2.
    apply unlink_shrinks. right. split; [reflexivity|lia].
  - apply unlink_shrinks. right. split; [reflexivity|lia].
  - apply unlink_shrinks. left. split; [reflexivity|lia].
Qed.
End Q.

(** *** Runs of a thread group *)

Inductive op : Type :=
| Send (i : nat) (ve_sig_info : siginfo_arg) (signum fl : Z) (calloc_ok : bool)
| Collect (i : nat) (sig : Z)
| Dequeue (i : nat).

Inductive drop_reason : Type :=
| LimitReached
| AllocFailed.

Definition valid_op (o : op) : Prop :=
  match o with
  | Send _ _ signum _ _ => 1 <= signum <= 64
  | _ => True
  end.

(** Every thread has an empty queue and an empty mask. *)
Definition fresh (g : thread_group) : Prop :=
  forall i t, tasks g !! i = Some t -> pending t = mk_sigpending [] 0.

Section Runs.
Context {hdr : veos_headers} {lq : legacy_queue_macro}
  {sched : veos_scheduler}.

(** The [siginfo_t] and the flag [psm_do_signal_ve] passes down. *)
Definition siginfo_init : siginfo_t := mk_siginfo (-1) 0 0 0 0.

Definition collect_on (g : thread_group) (i : nat) (sig : Z) : thread_group :=
  match tasks g !! i with
  | None => g
  | Some t =>
    let '(_, _, p, sh) :=
      ve_collect_signal siginfo_init (pending t) sig 0 (sighand g) in
    set_sighand (set_task g i (set_pending t p)) sh
  end.

Definition dequeue_on (g : thread_group) (i : nat) : thread_group :=
  match tasks g !! i with
  | None => g
  | Some t =>
    let '(_, (_, _, p, sh)) :=
      psm_dequeue_ve_signal siginfo_init (pending t) (blocked t) 0 (sighand g) in
    set_sighand (set_task g i (set_pending t p)) sh
  end.

Definition step (g : thread_group) (o : op) : thread_group :=
  match o with
  | Send i inf signum fl ok => snd (psm_send_ve_signal g i inf signum fl ok)
  | Collect i sig => collect_on g i sig
  | Dequeue i => dequeue_on g i
  end.

Definition run (ops : list op) (g : thread_group) : thread_group :=
  foldl step g ops.

Definition reachable (g : thread_group) : Prop :=
  exists g0 ops, fresh g0 /\ Forall valid_op ops /\ run ops g0 = g.

(** Whether [psm_send_ve_signal] reaches [psm_ve_sigqueue_alloc] and gets
    no record from it, and why. *)
Definition send_drop (g : thread_group) (i : nat) (inf : siginfo_arg)
    (signum : Z) (calloc_ok : bool) : option drop_reason :=
  match tasks g !! i with
  | None => None
  | Some cur =>
    match send_group_action g cur signum with
    | None => None
    | Some g1 =>
      match tasks g1 !! i with
      | None => None
      | Some t =>
        if legacy_queue (pending t) signum then None
        else
          match fst (psm_ve_sigqueue_alloc signum (override_ve_rlimit inf signum)
                       calloc_ok (sighand g1)) with
          | Some _ => None
          | None =>
            if override_ve_rlimit inf signum
               || (sh_ve_sigpending (sighand g1) + 1 <=? rlim_sigpending (sighand g1))
            then Some AllocFailed else Some LimitReached
          end
      end
    end
  end.

(** The record dropped by one operation, if any: thread, signal, reason. *)
Definition drop_of (g : thread_group) (o : op)
  : list (nat * Z * drop_reason) :=
  match o with
  | Send i inf signum _ ok =>
    match send_drop g i inf signum ok with
    | Some why => [(i, signum, why)]
    | None => []
    end
  | _ => []
  end.

(** The records dropped along a run. *)
Fixpoint drops (ops : list op) (g : thread_group)
  : list (nat * Z * drop_reason) :=
  match ops with
  | [] => []
  | o :: ops' => drop_of g o ++ drops ops' (step g o)
  end.

(** *** The invariant *)

Definition no_cont (g : thread_group) : Prop :=
  forall j t, tasks g !! j = Some t ->
    count_sig SIGCONT (sig_list (pending t)) = 0%nat.

Definition no_stop (g : thread_group) : Prop :=
  forall j t q, tasks g !! j = Some t -> q ∈ sig_list (pending t) ->
    sigismember VE_SIG_STOP_MASK (signo q) = 0.

Record Inv (g : thread_group) : Prop := {
  inv_cover : forall j t, tasks g !! j = Some t -> bits_cover (pending t);
  inv_cont : forall j t, tasks g !! j = Some t ->
    (count_sig SIGCONT (sig_list (pending t)) <= 1)%nat;
  inv_excl : no_cont g \/ no_stop g;
  inv_unreserved : forall j t, tasks g !! j = Some t -> unreserved (pending t)
}.

(** Thread by thread, [g'] comes from [g] by [shrinks]. *)
Definition group_shrinks (g g' : thread_group) : Prop :=
  forall j t', tasks g' !! j = Some t' ->
    exists t, tasks g !! j = Some t /\ shrinks (pending t) (pending t').

Lemma group_shrinks_refl g : group_shrinks g g.
Proof. intros j t H. exists t. split; [exact H|apply shrinks_refl]. Qed.

Lemma group_shrinks_same g g' : tasks g' = tasks g -> group_shrinks g g'.
Proof.
  intros E j t H. rewrite E in H. exists t. split; [exact H|apply shrinks_refl].
Qed.

Lemma group_shrinks_inv g g' : group_shrinks g g' -> Inv g -> Inv g'.
Proof.
  intros Hs [Hc Hk He Hu]. split.
  4:{ intros j t' Hl. destruct (Hs j t' Hl) as (t & Ht & Hsh).
      eapply shrinks_unreserved; eauto. }
  - intros j t' Hl. destruct (Hs j t' Hl) as (t & Ht & Hsh).
    eapply shrinks_cover; eauto.
  - intros j t' Hl. destruct (Hs j t' Hl) as (t & Ht & Hsh).
    etransitivity; [apply count_sig_sublist, Hsh|eauto].
  - destruct He as [He|He]; [left|right].
    + intros j t' Hl. destruct (Hs j t' Hl) as (t & Ht & Hsh).
      pose proof (count_sig_sublist SIGCONT _ _ (shrinks_sub _ _ Hsh)).
      pose proof (He j t Ht). lia.
    + intros j t' q Hl Hq. destruct (Hs j t' Hl) as (t & Ht & Hsh).
      apply (He j t q Ht). eapply elem_of_sublist; [exact Hq|apply Hsh].
Qed.

(** Every orphan bit of [g] is accounted for in [log]. *)
Definition accounted (g : thread_group) (log : list (nat * Z * drop_reason)) : Prop :=
  forall i t x, tasks g !! i = Some t -> orphan (pending t) x ->
    exists why, (i, x, why) ∈ log.

Lemma group_shrinks_accounted g g' log :
  group_shrinks g g' -> Inv g -> accounted g log -> accounted g' log.
Proof.
  intros Hs HI Ha i t' x Hl Ho. destruct (Hs i t' Hl) as (t & Ht & Hsh).
  apply (Ha i t x Ht). apply Hsh; [|exact Ho].
  apply (inv_unreserved g HI i t Ht), Hsh, Ho.
Qed.

Lemma pending_eta t : set_pending t (pending t) = t.
Proof. destruct t. reflexivity. Qed.

(** Replacing the pending set of thread [i] by a shrunk one. *)
Lemma set_pending_group_shrinks g i t p sh :
  tasks g !! i = Some t -> shrinks (pending t) p ->
  group_shrinks g (set_sighand (set_task g i (set_pending t p)) sh).
Proof.
  intros Hi Hsh j t' Hl. simpl in Hl.
  destruct (decide (j = i)) as [->|Hne].
  - rewrite list_lookup_insert_eq in Hl by (eapply lookup_lt_Some, Hi).
    injection Hl as <-. exists t. split; [exact Hi|]. simpl. exact Hsh.
  - rewrite list_lookup_insert_ne in Hl by congruence.
    exists t'. split; [exact Hl|apply shrinks_refl].
Qed.

Lemma collect_on_shrinks g i sig : group_shrinks g (collect_on g i sig).
Proof.
  unfold collect_on. destruct (tasks g !! i) as [t|] eqn:Hi;
    [|apply group_shrinks_refl].
  pose proof (ve_collect_signal_shrinks siginfo_init (pending t) sig 0 (sighand g)) as Hs.
  destruct (ve_collect_signal _ _ _ _ _) as [[[si' fl'] p] sh]. simpl in Hs.
  apply set_pending_group_shrinks; assumption.
Qed.

Lemma dequeue_on_shrinks g i : group_shrinks g (dequeue_on g i).
Proof.
  unfold dequeue_on, psm_dequeue_ve_signal.
  destruct (tasks g !! i) as [t|] eqn:Hi; [|apply group_shrinks_refl].
  destruct (negb (_ =? 0)).
  - pose proof (ve_collect_signal_shrinks siginfo_init (pending t)
                  (psm_get_next_ve_signal (pending t) (blocked t)) 0 (sighand g)) as Hs.
    destruct (ve_collect_signal _ _ _ _ _) as [[[si' fl'] p] sh]. simpl in Hs.
    apply set_pending_group_shrinks; assumption.
  - apply set_pending_group_shrinks; [assumption|apply shrinks_refl].
Qed.
End Runs.

Lemma stop_mask_bit n :
  0 <= n ->
  Z.testbit VE_SIG_STOP_MASK n
  = ((n =? 18) || (n =? 19)) || ((n =? 20) || (n =? 21)).
Proof.
  intros Hn. unfold VE_SIG_STOP_MASK.
  rewrite !Z.lor_spec, !ve_mask_bit by (unfold SIGSTOP, SIGTSTP, SIGTTIN, SIGTTOU; lia).
  reflexivity.
Qed.

Lemma ve_sig_stop_member sig :
  1 <= sig <= 64 ->
  ve_sig_stop sig = false -> sigismember VE_SIG_STOP_MASK sig = 0.
Proof.
  intros Hs Hf. apply sigismember_0. split; [exact Hs|].
  unfold ve_sig_stop in Hf. rewrite stop_mask_bit in * by lia.
  unfold SIGRTMIN in Hf.
  destruct (Z.ltb_spec sig 34); [exact Hf|].
  destruct (Z.eqb_spec (sig - 1) 18), (Z.eqb_spec (sig - 1) 19),
    (Z.eqb_spec (sig - 1) 20), (Z.eqb_spec (sig - 1) 21); try lia; reflexivity.
Qed.

Lemma ve_sig_stop_member_1 sig :
  ve_sig_stop sig = true -> sigismember VE_SIG_STOP_MASK sig = 1.
Proof.
  intros Ht. unfold ve_sig_stop in Ht. apply andb_true_iff in Ht as [Hlt Hb].
  apply sigismember_1. split; [|exact Hb].
  destruct (Z_lt_le_dec (sig - 1) 0) as [Hneg|Hpos].
  - rewrite Z.testbit_neg_r in Hb by exact Hneg. discriminate.
  - rewrite stop_mask_bit in Hb by lia. 
    destruct (Z.eqb_spec (sig - 1) 18), (Z.eqb_spec (sig - 1) 19),
      (Z.eqb_spec (sig - 1) 20), (Z.eqb_spec (sig - 1) 21); try lia; discriminate.
Qed.

Section Steps.
Context {hdr : veos_headers} {lq : legacy_queue_macro}
  {sched : veos_scheduler}.

Lemma recalc_sigpending_pending t :
  pending (snd (recalc_sigpending t)) = pending t.
Proof. unfold recalc_sigpending. destruct (negb _); reflexivity. Qed.

Lemma continue_pending rp sig t :
  pending (group_action_on rp FSIGCONTINUE sig t)
  = mk_sigpending
      (fst (delete_stopping (sig_list (pending t)) (signal (pending t))))
      (snd (delete_stopping (sig_list (pending t)) (signal (pending t)))).
Proof.
  unfold group_action_on. simpl spared. cbv iota.
  rewrite ve_group_action_pending. destruct (delete_stopping _ _). reflexivity.
Qed.

Lemma masking_pending rp sig t :
  pending (group_action_on rp FSIGMASKING sig t)
  = mk_sigpending
      (fst (delete_first sig (sig_list (pending t)) (signal (pending t))))
      (snd (delete_first sig (sig_list (pending t)) (signal (pending t)))).
Proof.
  unfold group_action_on. simpl spared. cbv iota.
  rewrite ve_group_action_pending. destruct (delete_first _ _ _). reflexivity.
Qed.

(** A lookup in the group an action on every thread leaves. *)
Lemma group_action_lookup g rp fl sig j t1 :
  fl <> FSTOPPROC ->
  tasks (ve_do_group_action g rp fl sig) !! j = Some t1 ->
  exists t, tasks g !! j = Some t /\ t1 = group_action_on rp fl sig t.
Proof.
  intros Hfl. rewrite ve_do_group_action_lookup by exact Hfl.
  destruct (tasks g !! j) as [t|]; simpl; [|discriminate].
  intros [= <-]. exists t. auto.
Qed.

Lemma send_group_action_spec g cur signum g1 :
  Inv g -> send_group_action g cur signum = Some g1 ->
  group_shrinks g g1 /\
  (signum = SIGCONT -> no_stop g1) /\
  (ve_sig_stop signum = true -> no_cont g1).
Proof.
  intros HI. unfold send_group_action.
  destruct (signal_flag (sighand g) =? VE_SIGNAL_GROUP_COREDUMP).
  { destruct (Z.eqb_spec signum SIGINT) as [->|]; [|discriminate].
    intros [= <-]. split; [apply group_shrinks_same; reflexivity|].
    split; [discriminate|]. intros Hc. vm_compute in Hc. discriminate Hc. }
  destruct (Z.eqb_spec signum SIGCONT) as [->|Hnc].
  { intros [= <-]. split; [|split].
    - intros j t1 Hl.
      apply group_action_lookup in Hl as (t & Ht & ->); [|discriminate].
      exists t. split; [exact Ht|]. rewrite continue_pending.
      pose proof (delete_stopping_shrinks (sig_list (pending t)) (signal (pending t))) as Hs.
      destruct (pending t); exact Hs.
    - intros _ j t1 q Hl Hq.
      apply group_action_lookup in Hl as (t & Ht & ->); [|discriminate].
      rewrite continue_pending in Hq.
      apply (delete_stopping_nostop (sig_list (pending t)) (signal (pending t)) q Hq).
    - intros Hc. vm_compute in Hc. discriminate Hc. }
  destruct (ve_sig_stop signum) eqn:Hst.
  { intros [= <-]. split; [|split].
    - intros j t1 Hl.
      apply group_action_lookup in Hl as (t & Ht & ->); [|discriminate].
      exists t. split; [exact Ht|]. rewrite masking_pending.
      pose proof (delete_first_shrinks SIGCONT (sig_list (pending t))
                    (signal (pending t)) (inv_cont g HI j t Ht)) as Hs.
      destruct (pending t); exact Hs.
    - contradiction.
    - intros _ j t1 Hl.
      apply group_action_lookup in Hl as (t & Ht & ->); [|discriminate].
      rewrite masking_pending.
      apply (delete_first_count SIGCONT (sig_list (pending t))
               (signal (pending t)) (inv_cont g HI j t Ht)). }
  intros [= <-]. split; [apply group_shrinks_refl|].
  split; [contradiction|discriminate].
Qed.

Lemma alloc_signo sig ov ok sh q sh' :
  psm_ve_sigqueue_alloc sig ov ok sh = (Some q, sh') -> signo q = sig.
Proof.
  unfold psm_ve_sigqueue_alloc.
  destruct (ov || _); [destruct ok|]; intros [= <- _]; reflexivity.
Qed.
End Steps.

Section SendStep.
Context {hdr : veos_headers} {lq : legacy_queue_macro}
  {sched : veos_scheduler}.

(** The three ways [psm_send_ve_signal] ends, with the outcome for
    [send_drop]: nothing happens; the group action happens and the signal
    is coalesced; the group action happens and the signal is set pending,
    with or without a record. *)
Lemma send_shape g i inf signum fl ok :
  (snd (psm_send_ve_signal g i inf signum fl ok) = g /\
   send_drop g i inf signum ok = None) \/
  (exists cur g1,
     tasks g !! i = Some cur /\ send_group_action g cur signum = Some g1 /\
     snd (psm_send_ve_signal g i inf signum fl ok) = g1 /\
     send_drop g i inf signum ok = None /\
     forall t, tasks g1 !! i = Some t -> legacy_queue (pending t) signum = true) \/
  (exists cur g1 t ve_q sh t',
     tasks g !! i = Some cur /\ send_group_action g cur signum = Some g1 /\
     tasks g1 !! i = Some t /\ legacy_queue (pending t) signum = false /\
     psm_ve_sigqueue_alloc signum (override_ve_rlimit inf signum) ok (sighand g1)
     = (ve_q, sh) /\
     snd (psm_send_ve_signal g i inf signum fl ok)
     = set_sighand (set_task g1 i t') sh /\
     pending t'
     = mk_sigpending
         match ve_q with
         | None => sig_list (pending t)
         | Some q => sig_list (pending t) ++ [fill_sigqueue q inf signum fl t]
         end
         (sigaddset (signal (pending t)) signum) /\
     send_drop g i inf signum ok
     = match ve_q with
       | Some _ => None
       | None =>
         Some (if override_ve_rlimit inf signum
                  || (sh_ve_sigpending (sighand g1) + 1 <=? rlim_sigpending (sighand g1))
               then AllocFailed else LimitReached)
       end).
Proof.
  unfold psm_send_ve_signal, send_drop.
  destruct (tasks g !! i) as [cur|] eqn:Hi; [|left; split; reflexivity].
  destruct (send_group_action g cur signum) as [g1|] eqn:Hg;
    [|left; split; reflexivity].
  destruct (tasks g1 !! i) as [t|] eqn:Ht.
  2:{ right; left. exists cur, g1.
      split; [reflexivity|]. split; [exact Hg|]. split; [reflexivity|].
      split; [reflexivity|]. intros t Ht'. congruence. }
  destruct (legacy_queue (pending t) signum) eqn:Hl.
  { right; left. exists cur, g1.
    split; [reflexivity|]. split; [exact Hg|]. split; [reflexivity|].
    split; [reflexivity|]. intros t0 Ht'. congruence. }
  right; right.
  destruct (psm_ve_sigqueue_alloc signum (override_ve_rlimit inf signum) ok (sighand g1))
    as [ve_q sh] eqn:Ha.
  cbv beta iota zeta.
  set (p := mk_sigpending _ _).
  pose proof (recalc_sigpending_pending (set_pending t p)) as Hp.
  destruct (recalc_sigpending (set_pending t p)) as [r t'].
  exists cur, g1, t, ve_q, sh, t'.
  split; [reflexivity|]. split; [exact Hg|]. split; [exact Ht|].
  split; [exact Hl|]. split; [exact Ha|].
  split; [destruct (r =? 0); reflexivity|].
  split; [exact Hp|].
  unfold fst. destruct ve_q; [reflexivity|].
  destruct (_ || _); reflexivity.
Qed.

(** One [psm_send_ve_signal] keeps the invariant, and every orphan bit it
    leaves was one before or is the record it dropped. *)
Lemma send_step g i inf signum fl ok log :
  1 <= signum <= 64 -> Inv g -> accounted g log ->
  Inv (snd (psm_send_ve_signal g i inf signum fl ok)) /\
  accounted (snd (psm_send_ve_signal g i inf signum fl ok))
    (log ++ match send_drop g i inf signum ok with
            | Some why => [(i, signum, why)]
            | None => []
            end).
Proof.
  intros Hv HI Hacc.
  destruct (send_shape g i inf signum fl ok)
    as [[-> ->]|[(cur & g1 & Hi & Hg & -> & -> & _)
                |(cur & g1 & t & ve_q & sh & t' & Hi & Hg & Ht & Hl & Ha & -> & Hp & ->)]].
  - rewrite app_nil_r. auto.
  - rewrite app_nil_r. destruct (send_group_action_spec g cur signum g1 HI Hg) as (Hs & _).
    split; [eapply group_shrinks_inv; eauto|eapply group_shrinks_accounted; eauto].
  - destruct (send_group_action_spec g cur signum g1 HI Hg) as (Hs & Hcont & Hstop).
    pose proof (group_shrinks_inv g g1 Hs HI) as HI1.
    pose proof (group_shrinks_accounted g g1 log Hs HI Hacc) as Hacc1.
    pose proof (inv_cover g1 HI1 i t Ht) as Hcov.
    pose proof (inv_unreserved g1 HI1 i t Ht) as Hunr.
    assert (reserved_signal signum = false ->
            ~ queued (pending t) signum \/ SIGRTMIN <= signum) as Hnq.
    { intros Hres.
      destruct (Z_lt_le_dec signum SIGRTMIN) as [Hlt|Hge]; [left|right; exact Hge].
      intros Hq. rewrite legacy_queue_present in Hl; [discriminate|exact Hlt|exact Hq|].
      destruct Hq as (q & Hq & <-). apply Hcov; assumption. }
    assert (forall q, ve_q = Some q -> signo q = signum) as Hsig.
    { intros q ->. eapply alloc_signo, Ha. }
    assert (forall j tj, tasks (set_sighand (set_task g1 i t') sh) !! j = Some tj ->
              (j = i /\ tj = t') \/ (j <> i /\ tasks g1 !! j = Some tj)) as Hlook.
    { intros j tj Hj. simpl in Hj. destruct (decide (j = i)) as [->|Hne].
      - rewrite list_lookup_insert_eq in Hj by (eapply lookup_lt_Some, Ht).
        left. split; congruence.
      - rewrite list_lookup_insert_ne in Hj by congruence. auto. }
    split; [split|].
    + (* cover *)
      intros j tj Hj. destruct (Hlook j tj Hj) as [[-> ->]|[_ Hj1]];
        [|eapply inv_cover; eauto].
      intros q Hq Hres. rewrite Hp in Hq |- *. simpl in *.
      destruct ve_q as [q0|].
      * apply elem_of_app in Hq as [Hq|Hq];
          [apply sigismember_sigaddset_keeps, Hcov; assumption|].
        apply list_elem_of_singleton in Hq as ->. simpl in *.
        rewrite (Hsig q0 eq_refl) in *.
        apply sigismember_sigaddset; [exact Hv|exact Hres|left; reflexivity].
      * apply sigismember_sigaddset_keeps, Hcov; assumption.
    + (* at most one SIGCONT *)
      intros j tj Hj. destruct (Hlook j tj Hj) as [[-> ->]|[_ Hj1]];
        [|eapply inv_cont; eauto].
      rewrite Hp. simpl. pose proof (inv_cont g1 HI1 i t Ht) as Hc.
      destruct ve_q as [q0|]; [|exact Hc].
      rewrite count_sig_app, count_sig_cons. unfold count_sig at 2. simpl.
      destruct (decide (signo q0 = SIGCONT)) as [E|E]; [|lia].
      rewrite (Hsig q0 eq_refl) in E. subst signum.
      destruct (Hnq eq_refl) as [Hnq'|Hrt]; [|unfold SIGRTMIN, SIGCONT in Hrt; lia].
      rewrite queued_count in Hnq'. lia.
    + (* SIGCONT and stop records exclude each other *)
      assert (forall q, ve_q = Some q ->
                signum <> SIGCONT ->
                count_sig SIGCONT [fill_sigqueue q inf signum fl t] = 0%nat) as Hnew_c.
      { intros q Hq Hne. rewrite count_sig_cons, decide_False; [reflexivity|].
        simpl. rewrite (Hsig q Hq). exact Hne. }
      assert (no_cont g1 -> signum <> SIGCONT ->
              no_cont (set_sighand (set_task g1 i t') sh)) as Hkeep_c.
      { intros Hc Hne j tj Hj. destruct (Hlook j tj Hj) as [[-> ->]|[_ Hj1]];
          [|eapply Hc; eauto].
        rewrite Hp. simpl. pose proof (Hc i t Ht) as Hci.
        destruct ve_q as [q0|]; [|exact Hci].
        rewrite count_sig_app, (Hnew_c q0 eq_refl Hne). lia. }
      assert (no_stop g1 -> sigismember VE_SIG_STOP_MASK signum = 0 ->
              no_stop (set_sighand (set_task g1 i t') sh)) as Hkeep_s.
      { intros Hc Hm j tj q Hj Hq. destruct (Hlook j tj Hj) as [[-> ->]|[_ Hj1]];
          [|eapply Hc; eauto].
        rewrite Hp in Hq. simpl in Hq.
        destruct ve_q as [q0|]; [|eapply Hc; eauto].
        apply elem_of_app in Hq as [Hq|Hq]; [eapply Hc; eauto|].
        apply list_elem_of_singleton in Hq as ->. simpl. rewrite (Hsig q0 eq_refl). exact Hm. }
      destruct (Z.eq_dec signum SIGCONT) as [Ec|Ec].
      { right. apply Hkeep_s; [auto|]. subst signum. reflexivity. }
      destruct (ve_sig_stop signum) eqn:Est.
      { left. apply Hkeep_c; auto. }
      destruct (inv_excl g1 HI1) as [Hc|Hc]; [left; auto|right].
      apply Hkeep_s; [exact Hc|]. apply ve_sig_stop_member; assumption.
    + (* no bit of a reserved signal *)
      intros j tj Hj. destruct (Hlook j tj Hj) as [[-> ->]|[_ Hj1]];
        [|eapply inv_unreserved; eauto].
      intros x Hx. rewrite Hp in Hx. simpl in Hx.
      apply sigismember_sigaddset_inv in Hx as [[-> Hres]|Hx];
        [exact Hres|apply Hunr, Hx].
    + (* orphans *)
      intros j tj x Hj Ho. destruct (Hlook j tj Hj) as [[-> ->]|[_ Hj1]].
      2:{ destruct (Hacc1 j tj x Hj1 Ho) as (why & Hw). exists why.
          apply elem_of_app. left. exact Hw. }
      destruct Ho as [Hb Hq]. rewrite Hp in Hb, Hq. simpl in Hb.
      destruct (Z.eq_dec x signum) as [->|Hx].
      * destruct ve_q as [q0|].
        -- exfalso. apply Hq. exists (fill_sigqueue q0 inf signum fl t). simpl.
           split; [apply elem_of_app; right; left|]. eapply alloc_signo, Ha.
        -- eexists. apply elem_of_app. right. left.
      * apply sigismember_sigaddset_inv in Hb as [[? _]|Hb]; [contradiction|].
        destruct (Hacc1 i t x Ht) as (why & Hw).
        { split; [exact Hb|]. intros (q & Hin & Hsq). apply Hq. exists q.
          split; [|exact Hsq]. simpl. destruct ve_q; [apply elem_of_app; left|]; exact Hin. }
        exists why. apply elem_of_app. left. exact Hw.
Qed.
End SendStep.

Section Main.
Context {hdr : veos_headers} {lq : legacy_queue_macro}
  {sched : veos_scheduler}.

Lemma step_inv g o log :
  valid_op o -> Inv g -> accounted g log ->
  Inv (step g o) /\ accounted (step g o) (log ++ drop_of g o).
Proof.
  intros Hv HI Hacc. destruct o as [i inf signum fl ok|i sig|i]; simpl.
  - apply send_step; assumption.
  - rewrite app_nil_r.
    split; [eapply group_shrinks_inv|eapply group_shrinks_accounted]; eauto;
      apply collect_on_shrinks.
  - rewrite app_nil_r.
    split; [eapply group_shrinks_inv|eapply group_shrinks_accounted]; eauto;
      apply dequeue_on_shrinks.
Qed.

Lemma run_inv ops : forall g log,
  Forall valid_op ops -> Inv g -> accounted g log ->
  Inv (run ops g) /\ accounted (run ops g) (log ++ drops ops g).
Proof.
  induction ops as [|o ops IH]; intros g log Hv HI Hacc; simpl.
  - rewrite app_nil_r. auto.
  - inversion Hv as [|? ? Ho Hops]; subst.
    destruct (step_inv g o log Ho HI Hacc) as [HI' Hacc'].
    rewrite app_assoc. apply IH; assumption.
Qed.

Lemma fresh_inv g : fresh g -> Inv g /\ accounted g [].
Proof.
  intros Hf. split; [split|].
  - intros j t Hj q Hq. rewrite (Hf j t Hj) in Hq. inversion Hq.
  - intros j t Hj. rewrite (Hf j t Hj). simpl. unfold count_sig. simpl. lia.
  - left. intros j t Hj. rewrite (Hf j t Hj). reflexivity.
  - intros j t Hj x Hb. rewrite (Hf j t Hj) in Hb. simpl in Hb.
    apply sigismember_1 in Hb as [_ Hb]. rewrite Z.bits_0 in Hb. discriminate.
  - intros j t x Hj [Hb _]. rewrite (Hf j t Hj) in Hb. simpl in Hb.
    apply sigismember_1 in Hb as [_ Hb]. rewrite Z.bits_0 in Hb. discriminate.
Qed.

Lemma reachable_inv g : reachable g -> Inv g.
Proof.
  intros (g0 & ops & Hf & Hv & <-). destruct (fresh_inv g0 Hf) as [HI Hacc].
  apply (run_inv ops g0 [] Hv HI Hacc).
Qed.


Lemma map_fixed {A} (f : A -> A) (l : list A) :
  (forall x, x ∈ l -> f x = x) -> map f l = l.
Proof.
  intros Hfix. rewrite <- (map_id l) at 2. apply map_ext_in.
  intros x Hin. apply Hfix, list_elem_of_In, Hin.
Qed.

(** The group action of an enqueue leaves the queues and masks alone when
    the signal already has a record in the queue of some thread. *)
Lemma send_group_action_idle g i t cur sig g1 :
  Inv g -> tasks g !! i = Some t -> queued (pending t) sig ->
  send_group_action g cur sig = Some g1 ->
  map pending (tasks g1) = map pending (tasks g).
Proof.
  intros HI Hi Hq. unfold send_group_action.
  destruct (signal_flag (sighand g) =? VE_SIGNAL_GROUP_COREDUMP).
  { destruct (sig =? SIGINT); [|discriminate]. intros [= <-]. reflexivity. }
  destruct (Z.eqb_spec sig SIGCONT) as [->|Hnc].
  { intros [= <-]. rewrite ve_do_group_action_map by discriminate. simpl.
    rewrite map_map. apply map_ext_in. intros tj Hin.
    apply list_elem_of_In, list_elem_of_lookup in Hin as [j Hj].
    rewrite continue_pending.
    destruct (inv_excl g HI) as [Hc|Hs].
    - exfalso. apply queued_count in Hq. apply Hq. eapply Hc, Hi.
    - rewrite delete_stopping_absent by (intros q; apply (Hs j tj q Hj)).
      destruct (pending tj); reflexivity. }
  destruct (ve_sig_stop sig) eqn:Hst; [|intros [= <-]; reflexivity].
  intros [= <-]. rewrite ve_do_group_action_map by discriminate. simpl.
  f_equal. apply map_fixed. intros tj Hin.
  apply list_elem_of_lookup in Hin as [j Hj].
  destruct (inv_excl g HI) as [Hc|Hs].
  - unfold group_action_on, ve_group_action. simpl.
    rewrite delete_first_absent by (eapply Hc, Hj). simpl.
    destruct tj as [? ? [] ? ? ? ? ? ? ? ? ? ? ? ? ? ?]; reflexivity.
  - exfalso. destruct Hq as (q & Hq & <-).
    pose proof (Hs i t q Hi Hq) as H0. pose proof (ve_sig_stop_member_1 _ Hst). lia.
Qed.

Lemma send_coalesces g i t inf sig fl ok :
  Inv g -> tasks g !! i = Some t ->
  sig < SIGRTMIN -> reserved_signal sig = false -> queued (pending t) sig ->
  fst (psm_send_ve_signal g i inf sig fl ok) = -1 /\
  map pending (tasks (snd (psm_send_ve_signal g i inf sig fl ok)))
  = map pending (tasks g).
Proof.
  intros HI Hi Hlt Hr Hq. unfold psm_send_ve_signal. rewrite Hi.
  destruct (send_group_action g t sig) as [g1|] eqn:Hg; [|split; reflexivity].
  pose proof (send_group_action_idle g i t t sig g1 HI Hi Hq Hg) as Hp.
  assert (exists t1, tasks g1 !! i = Some t1 /\ pending t1 = pending t)
    as (t1 & Hi1 & Hp1).
  { pose proof (f_equal (fun l => l !! i) Hp) as E. cbv beta in E.
    change (map pending ?l) with (pending <$> l) in E.
    rewrite !list_lookup_fmap, Hi in E.
    destruct (tasks g1 !! i) as [t1|]; [|discriminate E].
    exists t1. split; [reflexivity|]. simpl in E. congruence. }
  rewrite Hi1, Hp1.
  rewrite legacy_queue_present; [split; [reflexivity|exact Hp]|exact Hlt|exact Hq|].
  destruct Hq as (q & Hq & <-). apply (inv_cover g HI i t Hi q Hq Hr).
Qed.
End Main.

Section Enqueue.
Context {hdr : veos_headers} {lq : legacy_queue_macro}
  {sched : veos_scheduler}.

(** An enqueue that links a record at the tail of the queue of thread [i]
    and counts it. *)
Definition enqueued (g : thread_group) (i : nat) (sig : Z) (g' : thread_group)
  : Prop :=
  exists t t' q,
    tasks g !! i = Some t /\ tasks g' !! i = Some t' /\
    sig_list (pending t') = sig_list (pending t) ++ [q] /\ signo q = sig /\
    signal (pending t') = sigaddset (signal (pending t)) sig /\
    signal_flag (sighand g') = signal_flag (sighand g) /\
    rlim_sigpending (sighand g') = rlim_sigpending (sighand g) /\
    sh_ve_sigpending (sighand g') = sh_ve_sigpending (sighand g) + 1.

Lemma send_group_action_plain g cur sig :
  signal_flag (sighand g) <> VE_SIGNAL_GROUP_COREDUMP ->
  sig <> SIGCONT -> ve_sig_stop sig = false ->
  send_group_action g cur sig = Some g.
Proof.
  intros Hf Hc Hs. unfold send_group_action.
  destruct (Z.eqb_spec (signal_flag (sighand g)) VE_SIGNAL_GROUP_COREDUMP);
    [contradiction|].
  destruct (Z.eqb_spec sig SIGCONT); [contradiction|]. rewrite Hs. reflexivity.
Qed.

Lemma send_plain_queued g i t inf sig fl :
  tasks g !! i = Some t ->
  signal_flag (sighand g) <> VE_SIGNAL_GROUP_COREDUMP ->
  sig <> SIGCONT -> ve_sig_stop sig = false ->
  legacy_queue (pending t) sig = false ->
  sh_ve_sigpending (sighand g) + 1 <= rlim_sigpending (sighand g) ->
  enqueued g i sig (snd (psm_send_ve_signal g i inf sig fl true)).
Proof.
  intros Hi Hf Hc Hs Hl Hlim. unfold psm_send_ve_signal.
  rewrite Hi, (send_group_action_plain g t sig Hf Hc Hs), Hi, Hl.
  unfold psm_ve_sigqueue_alloc.
  destruct (Z.leb_spec (sh_ve_sigpending (sighand g) + 1) (rlim_sigpending (sighand g)));
    [|lia].
  rewrite orb_true_r. cbv beta iota zeta.
  set (p := mk_sigpending _ _).
  pose proof (recalc_sigpending_pending (set_pending t p)) as Hp.
  destruct (recalc_sigpending (set_pending t p)) as [r t']. simpl in Hp.
  exists t, t', (fill_sigqueue (mk_sigqueue sig 0 (mk_siginfo 0 0 0 0 0)) inf sig fl t).
  split; [exact Hi|].
  split.
  { destruct (r =? 0); simpl; apply list_lookup_insert_eq; eapply lookup_lt_Some, Hi. }
  rewrite Hp. unfold p. simpl.
  repeat split; destruct (r =? 0); reflexivity.
Qed.

Lemma send_plain_coalesced g i t inf sig fl ok :
  tasks g !! i = Some t ->
  signal_flag (sighand g) <> VE_SIGNAL_GROUP_COREDUMP ->
  sig <> SIGCONT -> ve_sig_stop sig = false ->
  legacy_queue (pending t) sig = true ->
  snd (psm_send_ve_signal g i inf sig fl ok) = g.
Proof.
  intros Hi Hf Hc Hs Hl. unfold psm_send_ve_signal.
  rewrite Hi, (send_group_action_plain g t sig Hf Hc Hs), Hi, Hl. reflexivity.
Qed.

Lemma rt_plain sig :
  SIGRTMIN <= sig -> sig <> SIGCONT /\ ve_sig_stop sig = false.
Proof.
  intros Hs. split; [unfold SIGRTMIN, SIGCONT in *; lia|].
  unfold ve_sig_stop. destruct (Z.ltb_spec sig SIGRTMIN); [lia|reflexivity].
Qed.

Lemma send_rt_queued g i t inf sig fl :
  tasks g !! i = Some t -> SIGRTMIN <= sig <= 64 ->
  signal_flag (sighand g) <> VE_SIGNAL_GROUP_COREDUMP ->
  sh_ve_sigpending (sighand g) + 1 <= rlim_sigpending (sighand g) ->
  enqueued g i sig (snd (psm_send_ve_signal g i inf sig fl true)).
Proof.
  intros Hi Hs Hf Hlim. destruct (rt_plain sig (proj1 Hs)) as [Hc Hst].
  apply (send_plain_queued g i t); auto.
  apply legacy_queue_rt. lia.
Qed.

(** An enqueue of a real-time signal for which no record is allocated
    sets the bit and leaves the queue as it was. *)
Lemma send_rt_dropped g i t inf sig fl ok :
  tasks g !! i = Some t -> SIGRTMIN <= sig <= 64 ->
  signal_flag (sighand g) <> VE_SIGNAL_GROUP_COREDUMP ->
  ok = false \/ rlim_sigpending (sighand g) < sh_ve_sigpending (sighand g) + 1 ->
  exists t',
    tasks (snd (psm_send_ve_signal g i inf sig fl ok)) !! i = Some t' /\
    sig_list (pending t') = sig_list (pending t) /\
    signal (pending t') = sigaddset (signal (pending t)) sig.
Proof.
  intros Hi Hs Hf Hd. destruct (rt_plain sig (proj1 Hs)) as [Hc Hst].
  unfold psm_send_ve_signal.
  rewrite Hi, (send_group_action_plain g t sig Hf Hc Hst), Hi.
  rewrite legacy_queue_rt by lia.
  assert (psm_ve_sigqueue_alloc sig (override_ve_rlimit inf sig) ok (sighand g)
          = (None, set_sh_ve_sigpending (sighand g)
                     (sh_ve_sigpending (sighand g) + 1 - 1))) as ->.
  { unfold psm_ve_sigqueue_alloc, override_ve_rlimit.
    destruct (Z.ltb_spec sig SIGRTMIN); [lia|]. simpl orb.
    destruct (Z.leb_spec (sh_ve_sigpending (sighand g) + 1)
                (rlim_sigpending (sighand g))); [|reflexivity].
    destruct Hd as [->|Hd]; [reflexivity|lia]. }
  cbv beta iota zeta.
  set (p := mk_sigpending _ _).
  pose proof (recalc_sigpending_pending (set_pending t p)) as Hp.
  destruct (recalc_sigpending (set_pending t p)) as [r t']. simpl in Hp.
  exists t'. split.
  { destruct (r =? 0); simpl; apply list_lookup_insert_eq; eapply lookup_lt_Some, Hi. }
  rewrite Hp. split; reflexivity.
Qed.

(** While a core dump is in progress every signal but SIGINT is refused. *)
Lemma send_during_coredump g i inf sig fl ok :
  signal_flag (sighand g) = VE_SIGNAL_GROUP_COREDUMP -> sig <> SIGINT ->
  psm_send_ve_signal g i inf sig fl ok = (-1, g).
Proof.
  intros Hf Hs. unfold psm_send_ve_signal, send_group_action.
  destruct (tasks g !! i); [|reflexivity].
  rewrite Hf, Z.eqb_refl.
  destruct (Z.eqb_spec sig SIGINT); [contradiction|reflexivity].
Qed.

(** C6 (amended): in a state reached by enqueues and dequeues from empty
    queues, enqueueing a non-real-time signal other than the two libc
    reserves (32 and 33) that has a record in the queue of the thread
    fails with -1 and leaves every queue and every pending mask of the
    group as they were.  An enqueue of a real-time signal does not
    coalesce.  When no core dump is in progress it sets the bit, and it
    links one more record of that signal at the tail of the queue when
    the limit on pending signals is not reached and the allocation
    succeeds, and leaves the queue as it was otherwise.  While a core
    dump is in progress an enqueue of any signal but SIGINT returns -1
    and changes nothing.  So on a thread with an empty queue, with no
    core dump in progress and room for four records under the limit,
    SIGUSR1 twice and SIGRTMIN+3 three times leave a queue of four
    records with both bits set. *)
Theorem enqueue_coalesces_below_sigrtmin :
  (forall g i t inf sig fl ok,
     reachable g -> tasks g !! i = Some t ->
     sig < SIGRTMIN -> reserved_signal sig = false -> queued (pending t) sig ->
     fst (psm_send_ve_signal g i inf sig fl ok) = -1 /\
     map pending (tasks (snd (psm_send_ve_signal g i inf sig fl ok)))
     = map pending (tasks g)) /\
  (forall g i t inf sig fl,
     tasks g !! i = Some t -> SIGRTMIN <= sig <= 64 ->
     signal_flag (sighand g) <> VE_SIGNAL_GROUP_COREDUMP ->
     sh_ve_sigpending (sighand g) + 1 <= rlim_sigpending (sighand g) ->
     exists t' q,
       tasks (snd (psm_send_ve_signal g i inf sig fl true)) !! i = Some t' /\
       sig_list (pending t') = sig_list (pending t) ++ [q] /\ signo q = sig /\
       sigismember (signal (pending t')) sig = 1) /\
  (forall g i t inf sig fl ok,
     tasks g !! i = Some t -> SIGRTMIN <= sig <= 64 ->
     signal_flag (sighand g) <> VE_SIGNAL_GROUP_COREDUMP ->
     ok = false \/
     rlim_sigpending (sighand g) < sh_ve_sigpending (sighand g) + 1 ->
     exists t',
       tasks (snd (psm_send_ve_signal g i inf sig fl ok)) !! i = Some t' /\
       sig_list (pending t') = sig_list (pending t) /\
       sigismember (signal (pending t')) sig = 1) /\
  (forall g i inf sig fl ok,
     signal_flag (sighand g) = VE_SIGNAL_GROUP_COREDUMP -> sig <> SIGINT ->
     psm_send_ve_signal g i inf sig fl ok = (-1, g)) /\
  (forall g i t inf1 inf2 inf3 inf4 inf5 fl1 fl2 fl3 fl4 fl5,
     tasks g !! i = Some t -> pending t = mk_sigpending [] 0 ->
     signal_flag (sighand g) <> VE_SIGNAL_GROUP_COREDUMP ->
     sh_ve_sigpending (sighand g) + 4 <= rlim_sigpending (sighand g) ->
     exists t',
       tasks (run [Send i inf1 SIGUSR1 fl1 true; Send i inf2 SIGUSR1 fl2 true;
                   Send i inf3 (SIGRTMIN + 3) fl3 true;
                   Send i inf4 (SIGRTMIN + 3) fl4 true;
                   Send i inf5 (SIGRTMIN + 3) fl5 true] g) !! i = Some t' /\
       length (sig_list (pending t')) = 4%nat /\
       sigismember (signal (pending t')) SIGUSR1 = 1 /\
       sigismember (signal (pending t')) (SIGRTMIN + 3) = 1).
Proof.
  assert (forall sig, SIGRTMIN <= sig <= 64 -> reserved_signal sig = false) as Hrt
    by (intros sig; unfold SIGRTMIN, reserved_signal; lia).
  split; [|split; [|split; [|split]]].
  - intros g i t inf sig fl ok Hr Hi Hlt Hres Hq.
    apply (send_coalesces g i t); auto. apply reachable_inv, Hr.
  - intros g i t inf sig fl Hi Hs Hf Hlim.
    destruct (send_rt_queued g i t inf sig fl Hi Hs Hf Hlim)
      as (t0 & t' & q & Hi0 & Hi' & Hl & Hq & Hb & _).
    rewrite Hi in Hi0. injection Hi0 as <-.
    exists t', q. repeat split; auto.
    rewrite Hb. apply sigismember_sigaddset;
      [unfold SIGRTMIN in *; lia|apply Hrt, Hs|auto].
  - intros g i t inf sig fl ok Hi Hs Hf Hd.
    destruct (send_rt_dropped g i t inf sig fl ok Hi Hs Hf Hd)
      as (t' & Hi' & Hl & Hb).
    exists t'. split; [exact Hi'|]. split; [exact Hl|].
    rewrite Hb. apply sigismember_sigaddset;
      [unfold SIGRTMIN in *; lia|apply Hrt, Hs|auto].
  - apply send_during_coredump.
  - intros g i t inf1 inf2 inf3 inf4 inf5 fl1 fl2 fl3 fl4 fl5 Hi Hp Hf Hlim.
    unfold run. simpl foldl.
    (* first SIGUSR1 *)
    destruct (send_plain_queued g i t inf1 SIGUSR1 fl1 Hi Hf) as
      (t0 & t1 & q1 & Hi0 & Hi1 & Hl1 & Hq1 & Hb1 & Hf1 & Hr1 & Hc1);
      [discriminate|reflexivity| |lia|].
    { apply legacy_queue_absent; rewrite Hp; [|reflexivity].
      intros (q & Hq & _). inversion Hq. }
    rewrite Hi in Hi0. injection Hi0 as <-. rewrite Hp in Hl1, Hb1. simpl in Hl1, Hb1.
    set (g1 := snd (psm_send_ve_signal g i inf1 SIGUSR1 fl1 true)) in *.
    (* second SIGUSR1 *)
    rewrite (send_plain_coalesced g1 i t1 inf2 SIGUSR1 fl2 true Hi1);
      [|congruence|discriminate|reflexivity|].
    2:{ apply legacy_queue_present; [reflexivity| |rewrite Hb1; reflexivity].
        exists q1. rewrite Hl1. split; [left|exact Hq1]. }
    (* three times SIGRTMIN+3 *)
    destruct (send_rt_queued g1 i t1 inf3 (SIGRTMIN + 3) fl3 Hi1) as
      (t1' & t2 & q2 & Hi1' & Hi2 & Hl2 & Hq2 & Hb2 & Hf2 & Hr2 & Hc2);
      [unfold SIGRTMIN; lia|congruence|lia|].
    rewrite Hi1 in Hi1'. injection Hi1' as <-.
    set (g2 := snd (psm_send_ve_signal g1 i inf3 (SIGRTMIN + 3) fl3 true)) in *.
    destruct (send_rt_queued g2 i t2 inf4 (SIGRTMIN + 3) fl4 Hi2) as
      (t2' & t3 & q3 & Hi2' & Hi3 & Hl3 & Hq3 & Hb3 & Hf3 & Hr3 & Hc3);
      [unfold SIGRTMIN; lia|congruence|lia|].
    rewrite Hi2 in Hi2'. injection Hi2' as <-.
    set (g3 := snd (psm_send_ve_signal g2 i inf4 (SIGRTMIN + 3) fl4 true)) in *.
    destruct (send_rt_queued g3 i t3 inf5 (SIGRTMIN + 3) fl5 Hi3) as
      (t3' & t4 & q4 & Hi3' & Hi4 & Hl4 & Hq4 & Hb4 & Hf4 & Hr4 & Hc4);
      [unfold SIGRTMIN; lia|congruence|lia|].
    rewrite Hi3 in Hi3'. injection Hi3' as <-.
    exists t4. split; [exact Hi4|].
    rewrite Hl4, Hl3, Hl2, Hl1, Hb4, Hb3, Hb2, Hb1.
    split; [reflexivity|]. split; reflexivity.
Qed.
End Enqueue.

(** A group whose limit on pending signals is 0, and a queued siginfo
    ([si_code] = [SI_QUEUE]). *)
Definition group_at_limit : thread_group :=
  mk_group [task_demo] (mk_sighand (fun _ => mk_sigaction 0 0 0) 0 0 0 0 0).

Definition siginfo_queued (sig : Z) : siginfo_t := mk_siginfo sig 0 (-1) 0 0.

(** C6 fails as stated: with the limit on pending signals reached, the
    enqueue of SIGRTMIN+3 returns 0 and sets the bit, and adds no record. *)
Lemma rt_enqueue_at_limit_adds_no_record :
  let r := psm_send_ve_signal (hdr := sample_headers) (lq := lq_mask)
             (sched := sample_scheduler)
             group_at_limit 0%nat (SigInfo (siginfo_queued (SIGRTMIN + 3)))
             (SIGRTMIN + 3) 0 true in
  fst r = 0 /\
  (sig_list ∘ pending) <$> (tasks (snd r) !! 0%nat) = Some [] /\
  (fun t => sigismember (signal (pending t)) (SIGRTMIN + 3))
    <$> (tasks (snd r) !! 0%nat) = Some 1.
Proof. vm_compute. repeat split; reflexivity. Qed.

(** The two reserved signals: an enqueue of signal 32 links a record,
    sets no bit and, with no bit to find, returns -1; where [legacy_queue]
    looks at the mask, a second enqueue links a second record. *)
Example reserved_signal_is_queued_without_bit :
  let r1 := psm_send_ve_signal (hdr := sample_headers) (lq := lq_mask)
              (sched := sample_scheduler)
              group_demo 0%nat SEND_SIG_PRIV 32 0 true in
  let r2 := psm_send_ve_signal (hdr := sample_headers) (lq := lq_mask)
              (sched := sample_scheduler)
              (snd r1) 0%nat SEND_SIG_PRIV 32 0 true in
  fst r1 = -1 /\
  (fun t => (map signo (sig_list (pending t)), signal (pending t)))
    <$> (tasks (snd r1) !! 0%nat) = Some ([32], 0) /\
  (fun t => (map signo (sig_list (pending t)), signal (pending t)))
    <$> (tasks (snd r2) !! 0%nat) = Some ([32; 32], 0).
Proof. vm_compute. repeat split; reflexivity. Qed.


Ltac valid_ops :=
  repeat (apply List.Forall_cons;
          [first [exact I | vm_compute; split; discriminate]|]);
  apply List.Forall_nil.

Lemma fresh_group_demo : fresh group_demo.
Proof.
  intros [|i] t H; [injection H as <-; reflexivity|discriminate H].
Defined.

Lemma enqueue_coalesces_below_sigrtmin_witness :
  (let g1 := run (hdr := sample_headers) (lq := lq_mask)
               (sched := sample_scheduler)
               [Send 0%nat SEND_SIG_PRIV SIGUSR1 0 true] group_demo in
   fst (psm_send_ve_signal (hdr := sample_headers) (lq := lq_mask)
          (sched := sample_scheduler)
          g1 0%nat SEND_SIG_PRIV SIGUSR1 0 true) = -1 /\
   map pending
     (tasks (snd (psm_send_ve_signal (hdr := sample_headers) (lq := lq_mask)
                    (sched := sample_scheduler)
                    g1 0%nat SEND_SIG_PRIV SIGUSR1 0 true)))
   = map pending (tasks g1)) /\
  (exists t',
     tasks (run (hdr := sample_headers) (lq := lq_mask)
              (sched := sample_scheduler)
              [Send 0%nat SEND_SIG_PRIV SIGUSR1 0 true;
               Send 0%nat SEND_SIG_PRIV SIGUSR1 0 true;
               Send 0%nat (SigInfo (siginfo_queued (SIGRTMIN + 3))) (SIGRTMIN + 3) 0 true;
               Send 0%nat (SigInfo (siginfo_queued (SIGRTMIN + 3))) (SIGRTMIN + 3) 0 true;
               Send 0%nat (SigInfo (siginfo_queued (SIGRTMIN + 3))) (SIGRTMIN + 3) 0 true]
              group_demo) !! 0%nat = Some t' /\
     length (sig_list (pending t')) = 4%nat /\
     sigismember (signal (pending t')) SIGUSR1 = 1 /\
     sigismember (signal (pending t')) (SIGRTMIN + 3) = 1).
Proof.
  split.
  - refine (proj1 (enqueue_coalesces_below_sigrtmin (hdr := sample_headers)
                     (lq := lq_mask) (sched := sample_scheduler))
              _ 0%nat _ SEND_SIG_PRIV SIGUSR1 0 true _ _ _ _ _).
    + exists group_demo, [Send 0%nat SEND_SIG_PRIV SIGUSR1 0 true].
      split; [exact fresh_group_demo|]. split; [|reflexivity].
      valid_ops.
    + reflexivity.
    + reflexivity.
    + reflexivity.
    + eexists. split; [left|reflexivity].
  - refine (proj2 (proj2 (proj2 (proj2 (enqueue_coalesces_below_sigrtmin
                            (hdr := sample_headers) (lq := lq_mask)
                            (sched := sample_scheduler)))))
              group_demo 0%nat task_demo _ _ _ _ _ _ _ _ _ _ _ _ _ _).
    + reflexivity.
    + reflexivity.
    + vm_compute. discriminate.
    + vm_compute. discriminate.
Defined.



End TaskSignalSpec.

(** * Properties of the DMA manager API *)

Module DmaApiSpec.
Import Word DmaApi.

(** One choice of header values, to run the model on. *)
Definition sample_dma_headers : dma_headers :=
  {| VE_DMA_VEMVA := 0;
     VE_DMA_VEMVA_WO_PROT_CHECK := 1;
     VE_DMA_VHVA := 2;
     VE_DMA_VEMAA := 3;
     VE_DMA_VERAA := 4;
     VE_DMA_VHSAA := 5;
     VE_DMA_CTL_STATUS_MASK := 3;
     VE_DMA_CTL_STATUS_HALT := 1 |}.

Lemma IS_ALIGNED_8 x : IS_ALIGNED x 8 = true <-> x mod 8 = 0.
Proof.
  unfold IS_ALIGNED. change (8 - 1) with (Z.ones 3).
  rewrite Z.land_ones by lia. change (2 ^ 3) with 8. apply Z.eqb_eq.
Qed.

(** ** Submission *)

Section Post.

Context {hdr : dma_headers}.

(** [t] is one of the six address space types. *)
Definition addr_kind (t : Z) : Prop :=
  t = VE_DMA_VEMVA \/ t = VE_DMA_VEMVA_WO_PROT_CHECK \/ t = VE_DMA_VHVA \/
  t = VE_DMA_VEMAA \/ t = VE_DMA_VERAA \/ t = VE_DMA_VHSAA.

Lemma ve_dma_post__check_addr_type_0 t :
  ve_dma_post__check_addr_type t = 0 <-> addr_kind t.
Proof.
  unfold ve_dma_post__check_addr_type, addr_kind, EINVAL.
  repeat match goal with
         | |- context [?a =? ?b] =>
             destruct (Z.eqb_spec a b) as [?|?];
             [split; [intros _; tauto|reflexivity]|]
         end.
  split; [lia|tauto].
Qed.

Definition invalid_arguments (srctype srcaddr dsttype dstaddr length : Z) : Prop :=
  length mod 8 <> 0 \/ VE_DMA_MAX_LENGTH < length \/
  srcaddr mod 8 <> 0 \/ dstaddr mod 8 <> 0 \/
  ~ addr_kind srctype \/ ~ addr_kind dsttype.

Variable ve_dma_reqlist_make : Z -> Z -> Z -> Z -> Z -> Z -> Z -> Z * list Z.
Variable ve_dma_reqlist_post : ve_dma_hdl -> ve_dma_req_hdl -> Z * ve_dma_hdl.
Variable ve_dma_reqlist__cancel : ve_dma_hdl -> ve_dma_req_hdl -> ve_dma_hdl.
Variable ve_dma_reqlist_drain_waiting_list : ve_dma_hdl -> Z * ve_dma_hdl.

(** C2: when the length is not a multiple of 8 or exceeds
    0x7FFFFFFFFFFFFFF8, when the source or the destination address is not a
    multiple of 8, or when one of the two address types is not one of the
    six, [ve_dma_post_p_va] returns [NULL] with [errno] set to [EINVAL],
    the engine is as it was and nothing was done to the hardware. *)
Theorem ve_dma_post_p_va_invalid hdl srctype srcpid srcaddr dsttype dstpid
    dstaddr length malloc_ok reads :
  invalid_arguments srctype srcaddr dsttype dstaddr length ->
  ve_dma_post_p_va ve_dma_reqlist_make ve_dma_reqlist_post
    ve_dma_reqlist__cancel ve_dma_reqlist_drain_waiting_list
    hdl srctype srcpid srcaddr dsttype dstpid dstaddr length malloc_ok reads
  = Some (mk_post None (Some EINVAL) hdl []).
Proof.
  intros H. unfold ve_dma_post_p_va.
  destruct (IS_ALIGNED length 8) eqn:E1; simpl; [|reflexivity].
  destruct (Z.ltb_spec VE_DMA_MAX_LENGTH length) as [|E2]; [reflexivity|].
  destruct (IS_ALIGNED srcaddr 8) eqn:E3; simpl; [|reflexivity].
  destruct (IS_ALIGNED dstaddr 8) eqn:E4; simpl; [|reflexivity].
  destruct (Z.eqb_spec (ve_dma_post__check_addr_type srctype) 0) as [E5|];
    simpl; [|reflexivity].
  destruct (Z.eqb_spec (ve_dma_post__check_addr_type dsttype) 0) as [E6|];
    simpl; [|reflexivity].
  exfalso. apply IS_ALIGNED_8 in E1, E3, E4.
  apply ve_dma_post__check_addr_type_0 in E5, E6.
  destruct H as [H|[H|[H|[H|[H|H]]]]]; try contradiction; lia.
Qed.

(** With valid arguments the call never sets [errno] to [EINVAL]. *)
Lemma ve_dma_post_p_va_valid hdl srctype srcpid srcaddr dsttype dstpid
    dstaddr length malloc_ok reads r :
  ~ invalid_arguments srctype srcaddr dsttype dstaddr length ->
  ve_dma_post_p_va ve_dma_reqlist_make ve_dma_reqlist_post
    ve_dma_reqlist__cancel ve_dma_reqlist_drain_waiting_list
    hdl srctype srcpid srcaddr dsttype dstpid dstaddr length malloc_ok reads
  = Some r ->
  pr_errno r = None.
Proof.
  intros H. unfold ve_dma_post_p_va.
  destruct (IS_ALIGNED length 8) eqn:E1; simpl.
  2:{ exfalso. apply H. left. rewrite <- IS_ALIGNED_8. congruence. }
  destruct (Z.ltb_spec VE_DMA_MAX_LENGTH length) as [E2|E2].
  { exfalso. apply H. right. left. exact E2. }
  destruct (IS_ALIGNED srcaddr 8) eqn:E3; simpl.
  2:{ exfalso. apply H. do 2 right. left. rewrite <- IS_ALIGNED_8. congruence. }
  destruct (IS_ALIGNED dstaddr 8) eqn:E4; simpl.
  2:{ exfalso. apply H. do 3 right. left. rewrite <- IS_ALIGNED_8. congruence. }
  destruct (Z.eqb_spec (ve_dma_post__check_addr_type srctype) 0) as [E5|E5]; simpl.
  2:{ exfalso. apply H. do 4 right. left.
      rewrite <- ve_dma_post__check_addr_type_0. exact E5. }
  destruct (Z.eqb_spec (ve_dma_post__check_addr_type dsttype) 0) as [E6|E6]; simpl.
  2:{ exfalso. apply H. do 5 right.
      rewrite <- ve_dma_post__check_addr_type_0. exact E6. }
  destruct malloc_ok; simpl; [|intros [= <-]; reflexivity].
  destruct (ve_dma_reqlist_make _ _ _ _ _ _ _) as [n entries].
  destruct (n <=? 0); [intros [= <-]; reflexivity|].
  destruct (negb (should_stop hdl =? 0)); [intros [= <-]; reflexivity|].
  destruct (ve_dma_reqlist_post _ _) as [rv hdl1].
  destruct (rv <? 0); [|intros [= <-]; reflexivity].
  destruct (ve_dma__terminate_nolock _ _ _ _ _) as [[[hdl2 acts] rest]|];
    [intros [= <-]; reflexivity|discriminate].
Qed.

End Post.

(** A request list module to run the model on: one entry per request,
    posted on a free descriptor. *)
Definition demo_reqlist_make (_ _ _ _ _ _ _ : Z) : Z * list Z := (1, [0x100]).

Definition demo_reqlist_post (hdl : ve_dma_hdl) (req : ve_dma_req_hdl)
    : Z * ve_dma_hdl :=
  (0, mk_hdl (waiting_list hdl) (should_stop hdl) (desc_used_begin hdl)
        (desc_num_used hdl + 1) (req_entry hdl)).

Definition demo_reqlist__cancel (hdl : ve_dma_hdl) (_ : ve_dma_req_hdl)
    : ve_dma_hdl := hdl.

Definition demo_reqlist_drain_waiting_list (hdl : ve_dma_hdl) : Z * ve_dma_hdl :=
  (0, hdl).

Definition hdl_idle : ve_dma_hdl := mk_hdl [] 0 0 0 (fun _ => 0).

Lemma ve_dma_post_p_va_invalid_witness :
  ve_dma_post_p_va (hdr := sample_dma_headers) demo_reqlist_make
    demo_reqlist_post demo_reqlist__cancel demo_reqlist_drain_waiting_list
    hdl_idle 2 100 0x1000 0 100 0x2004 64 true []
  = Some (mk_post None (Some EINVAL) hdl_idle []).
Proof.
  apply (ve_dma_post_p_va_invalid (hdr := sample_dma_headers)).
  do 3 right. left. vm_compute. discriminate.
Defined.

(** The same submission with an aligned destination is accepted and takes
    a descriptor. *)
Example ve_dma_post_p_va_accepts :
  (fun r => (desc_num_used (pr_hdl r), pr_errno r, pr_actions r))
    <$> ve_dma_post_p_va (hdr := sample_dma_headers) demo_reqlist_make
          demo_reqlist_post demo_reqlist__cancel demo_reqlist_drain_waiting_list
          hdl_idle 2 100 0x1000 0 100 0x2000 64 true []
  = Some (1, None, [ve_dma_hw_start]).
Proof. reflexivity. Qed.

(** ** Close *)

Section Close.

Context {hdr : dma_headers}.

(** The control status register reads as halted. *)
Definition halted (ctl_status : Z) : Prop :=
  Z.land ctl_status VE_DMA_CTL_STATUS_MASK = VE_DMA_CTL_STATUS_HALT.

(** The wait for the halt state ends exactly when some read finds the
    engine halted. *)
Lemma wait_for_halt_ends reads :
  is_Some (wait_for_halt reads) <-> Exists halted reads.
Proof.
  induction reads as [|c reads IH]; simpl.
  - split; [intros [x Hx]; discriminate|intros H; inversion H].
  - unfold halted at 1. rewrite Exists_cons.
    destruct (Z.eqb_spec (Z.land c VE_DMA_CTL_STATUS_MASK) VE_DMA_CTL_STATUS_HALT)
      as [E|E].
    + split; [tauto|eauto].
    + rewrite IH. tauto.
Qed.

(** C5 (amended): [ve_dma_close_p] returns -EBUSY if and only if
    descriptors are in use ([desc_num_used != 0]) or [should_stop] is
    already set, and then the engine is as it was and nothing was done.
    Otherwise it sets [should_stop] and asks the engine to stop; once the
    engine reads as halted it joins the helper, releases the handle and
    returns 0, and as long as the engine does not read as halted it does
    not return. *)
Theorem ve_dma_close_p_busy hdl reads :
  let busy := desc_num_used hdl <> 0 \/ should_stop hdl <> 0 in
  (busy -> ve_dma_close_p hdl reads = Some (mk_close (- EBUSY) hdl [])) /\
  (~ busy -> Exists halted reads ->
   ve_dma_close_p hdl reads
   = Some (mk_close 0 (set_should_stop hdl 1)
             [ve_dma_hw_post_stop; pthread_join_helper; pthread_mutex_destroy;
              munmap_control_regs; free_hdl])) /\
  (~ busy -> ~ Exists halted reads -> ve_dma_close_p hdl reads = None) /\
  (forall r, ve_dma_close_p hdl reads = Some r -> cl_ret r = - EBUSY <-> busy).
Proof.
  cbv zeta. unfold ve_dma_close_p, ve_dma__stop_engine.
  pose proof (wait_for_halt_ends reads) as Hh.
  destruct (Z.eqb_spec (desc_num_used hdl) 0) as [Ed|Ed];
    destruct (Z.eqb_spec (should_stop hdl) 0) as [Es|Es]; simpl;
    try (split; [reflexivity|]; split; [tauto|]; split; [tauto|];
         intros r [= <-]; simpl; tauto).
  split; [tauto|]. destruct (wait_for_halt reads) as [rest|].
  - split; [reflexivity|]. split.
    + intros _ Hn. exfalso. apply Hn, Hh. eauto.
    + intros r [= <-]. simpl. unfold EBUSY. split; [discriminate|tauto].
  - split; [|split; [reflexivity|discriminate]].
    intros _ He. apply Hh in He as [x Hx]. discriminate.
Qed.

End Close.

Definition hdl_closing : ve_dma_hdl := mk_hdl [] 1 0 0 (fun _ => 0).

(** C5 fails as stated: with no descriptor in use and [should_stop] already
    set, [ve_dma_close_p] returns -EBUSY. *)
Lemma close_busy_without_requests :
  desc_num_used hdl_closing = 0 /\
  waiting_list hdl_closing = [] /\
  cl_ret <$> ve_dma_close_p (hdr := sample_dma_headers) hdl_closing [1]
  = Some (- EBUSY).
Proof. repeat split; reflexivity. Qed.

Lemma ve_dma_close_p_busy_witness :
  ve_dma_close_p (hdr := sample_dma_headers) hdl_idle [0; 2; 1]
  = Some (mk_close 0 (set_should_stop hdl_idle 1)
            [ve_dma_hw_post_stop; pthread_join_helper; pthread_mutex_destroy;
             munmap_control_regs; free_hdl]).
Proof.
  refine (proj1 (proj2 (ve_dma_close_p_busy (hdr := sample_dma_headers)
                          hdl_idle [0; 2; 1])) _ _).
  - vm_compute. intros [H|H]; apply H; reflexivity.
  - right. right. left. reflexivity.
Defined.

(** ** Wait *)

(** The waiter has to go on waiting. *)
Definition blocking (o : observation) : Prop :=
  ob_test o = VE_DMA_STATUS_NOT_FINISHED /\ ob_should_stop o = 0.

Lemma blocking_cond o :
  is_not_finished (ob_test o) && (ob_should_stop o =? 0) = true <-> blocking o.
Proof.
  unfold blocking. rewrite andb_true_iff, Z.eqb_eq.
  destruct (ob_test o); simpl; split; intros [? ?]; split;
    try discriminate; auto.
Qed.

Lemma wait_loop_eq ret stop wakes :
  wait_loop ret stop wakes
  = if is_not_finished ret && (stop =? 0) then
      match wakes with
      | [] => None
      | o :: wakes => wait_loop (ob_test o) (ob_should_stop o) wakes
      end
    else Some ret.
Proof. destruct wakes; reflexivity. Qed.

Lemma timedwait_loop_eq ret stop wakes :
  timedwait_loop ret stop wakes
  = if is_not_finished ret && (stop =? 0) then
      match wakes with
      | [] => None
      | (err, o) :: wakes =>
          if err =? ETIMEDOUT then Some VE_DMA_STATUS_TIMEDOUT
          else timedwait_loop (ob_test o) (ob_should_stop o) wakes
      end
    else Some ret.
Proof. destruct wakes; reflexivity. Qed.

Lemma wait_loop_blocked first wakes :
  Forall blocking (first :: wakes) ->
  wait_loop (ob_test first) (ob_should_stop first) wakes = None.
Proof.
  revert first. induction wakes as [|o wakes IH]; intros first H;
    apply Forall_cons in H as [Hb H]; apply blocking_cond in Hb;
    rewrite wait_loop_eq, Hb; [reflexivity|]. apply IH, H.
Qed.

Lemma wait_loop_exit pre o post first wakes :
  first :: wakes = pre ++ o :: post -> Forall blocking pre -> ~ blocking o ->
  wait_loop (ob_test first) (ob_should_stop first) wakes = Some (ob_test o).
Proof.
  revert first wakes.
  induction pre as [|p pre IH]; intros first wakes E Hpre Ho; simpl in E;
    injection E as -> ->; rewrite wait_loop_eq.
  - rewrite <- blocking_cond in Ho. apply not_true_is_false in Ho.
    rewrite Ho. reflexivity.
  - apply Forall_cons in Hpre as [Hb Hpre]. apply blocking_cond in Hb.
    rewrite Hb. destruct pre as [|p' pre]; simpl.
    + apply (IH o post); [reflexivity|constructor|exact Ho].
    + apply (IH p' (pre ++ o :: post)); [reflexivity|exact Hpre|exact Ho].
Qed.

(** A return of [pthread_cond_timedwait] that is not the deadline and finds
    the request unfinished and the engine running. *)
Definition waits_on (w : Z * observation) : Prop :=
  w.1 <> ETIMEDOUT /\ blocking w.2.

Lemma timedwait_loop_blocked first wakes :
  blocking first -> Forall waits_on wakes ->
  timedwait_loop (ob_test first) (ob_should_stop first) wakes = None.
Proof.
  revert first. induction wakes as [|[e o] wakes IH]; intros first Hb H;
    apply blocking_cond in Hb; rewrite timedwait_loop_eq, Hb; [reflexivity|].
  apply Forall_cons in H as [[He Ho] H]. simpl in He, Ho.
  destruct (Z.eqb_spec e ETIMEDOUT) as [|_]; [contradiction|]. apply IH; assumption.
Qed.

Lemma timedwait_loop_exit pre e o post first :
  blocking first -> Forall waits_on pre -> e <> ETIMEDOUT -> ~ blocking o ->
  timedwait_loop (ob_test first) (ob_should_stop first) (pre ++ (e, o) :: post)
  = Some (ob_test o).
Proof.
  revert first. induction pre as [|[e' o'] pre IH]; intros first Hb Hpre He Ho;
    apply blocking_cond in Hb; rewrite timedwait_loop_eq, Hb; simpl.
  - destruct (Z.eqb_spec e ETIMEDOUT) as [|_]; [contradiction|].
    rewrite timedwait_loop_eq.
    rewrite <- blocking_cond in Ho. apply not_true_is_false in Ho.
    rewrite Ho. reflexivity.
  - apply Forall_cons in Hpre as [[He' Ho'] Hpre]. simpl in He', Ho'.
    destruct (Z.eqb_spec e' ETIMEDOUT) as [|_]; [contradiction|].
    apply IH; assumption.
Qed.

Lemma timedwait_loop_deadline pre o post first :
  blocking first -> Forall waits_on pre ->
  timedwait_loop (ob_test first) (ob_should_stop first)
    (pre ++ (ETIMEDOUT, o) :: post)
  = Some VE_DMA_STATUS_TIMEDOUT.
Proof.
  revert first. induction pre as [|[e' o'] pre IH]; intros first Hb Hpre;
    apply blocking_cond in Hb; rewrite timedwait_loop_eq, Hb; simpl.
  - reflexivity.
  - apply Forall_cons in Hpre as [[He' Ho'] Hpre]. simpl in He', Ho'.
    destruct (Z.eqb_spec e' ETIMEDOUT) as [|_]; [contradiction|].
    apply IH; assumption.
Qed.

(** What the caller gets for the status the loop ended with. *)
Definition reported (s : ve_dma_status_t) : ve_dma_status_t :=
  match s with
  | VE_DMA_STATUS_NOT_FINISHED => VE_DMA_STATUS_CANCELED
  | s => s
  end.

(** C4: [ve_dma_wait] and [ve_dma_timedwait] never return
    [VE_DMA_STATUS_NOT_FINISHED].  They stay blocked as long as every look
    at the request finds it not finished with [should_stop] clear (and, for
    [ve_dma_timedwait], the deadline has not expired).  They return at the
    first look that finds otherwise, with the status found, where not
    finished is turned into canceled; and [ve_dma_timedwait] returns
    [VE_DMA_STATUS_TIMEDOUT] when the deadline expires before that. *)
Theorem ve_dma_wait_never_not_finished :
  (forall first wakes r,
     ve_dma_wait first wakes = Some r -> r <> VE_DMA_STATUS_NOT_FINISHED) /\
  (forall first wakes r,
     ve_dma_timedwait first wakes = Some r -> r <> VE_DMA_STATUS_NOT_FINISHED) /\
  (forall first wakes,
     Forall blocking (first :: wakes) -> ve_dma_wait first wakes = None) /\
  (forall first wakes,
     blocking first -> Forall waits_on wakes ->
     ve_dma_timedwait first wakes = None) /\
  (forall first wakes pre o post,
     first :: wakes = pre ++ o :: post -> Forall blocking pre -> ~ blocking o ->
     ve_dma_wait first wakes = Some (reported (ob_test o))) /\
  (forall first wakes,
     ~ blocking first ->
     ve_dma_timedwait first wakes = Some (reported (ob_test first))) /\
  (forall first pre e o post,
     blocking first -> Forall waits_on pre -> e <> ETIMEDOUT -> ~ blocking o ->
     ve_dma_timedwait first (pre ++ (e, o) :: post)
     = Some (reported (ob_test o))) /\
  (forall first pre o post,
     blocking first -> Forall waits_on pre ->
     ve_dma_timedwait first (pre ++ (ETIMEDOUT, o) :: post)
     = Some VE_DMA_STATUS_TIMEDOUT).
Proof.
  repeat apply conj.
  - intros first wakes r. unfold ve_dma_wait.
    destruct (wait_loop _ _ _) as [[]|]; simpl; intros [= <-]; discriminate.
  - intros first wakes r. unfold ve_dma_timedwait.
    destruct (timedwait_loop _ _ _) as [[]|]; simpl; intros [= <-]; discriminate.
  - intros first wakes H. unfold ve_dma_wait.
    rewrite wait_loop_blocked by exact H. reflexivity.
  - intros first wakes Hb H. unfold ve_dma_timedwait.
    rewrite timedwait_loop_blocked by assumption. reflexivity.
  - intros first wakes pre o post E Hpre Ho. unfold ve_dma_wait.
    rewrite (wait_loop_exit pre o post) by assumption.
    destruct (ob_test o); reflexivity.
  - intros first wakes Hb. unfold ve_dma_timedwait.
    rewrite timedwait_loop_eq.
    rewrite <- blocking_cond in Hb. apply not_true_is_false in Hb.
    rewrite Hb. destruct (ob_test first); reflexivity.
  - intros first pre e o post Hb Hpre He Ho. unfold ve_dma_timedwait.
    rewrite timedwait_loop_exit by assumption.
    destruct (ob_test o); reflexivity.
  - intros first pre o post Hb Hpre. unfold ve_dma_timedwait.
    rewrite timedwait_loop_deadline by assumption. reflexivity.
Qed.

Definition unfinished : observation := mk_obs VE_DMA_STATUS_NOT_FINISHED 0.

(** A waiter woken once for nothing, then by the shutdown of the engine;
    and a timed waiter woken once for nothing, then by the deadline. *)
Lemma ve_dma_wait_never_not_finished_witness :
  ve_dma_wait unfinished [unfinished; mk_obs VE_DMA_STATUS_NOT_FINISHED 1]
  = Some VE_DMA_STATUS_CANCELED /\
  ve_dma_timedwait unfinished [(0, unfinished); (ETIMEDOUT, unfinished)]
  = Some VE_DMA_STATUS_TIMEDOUT.
Proof.
  destruct ve_dma_wait_never_not_finished
    as (_ & _ & _ & _ & Hexit & _ & _ & Hdeadline).
  split.
  - refine (Hexit unfinished _ [unfinished; unfinished]
              (mk_obs VE_DMA_STATUS_NOT_FINISHED 1) [] _ _ _).
    + reflexivity.
    + repeat (apply List.Forall_cons; [split; reflexivity|]).
      apply List.Forall_nil.
    + intros [_ H]. discriminate H.
  - refine (Hdeadline unfinished [(0, unfinished)] unfinished [] _ _).
    + split; reflexivity.
    + apply List.Forall_cons; [|apply List.Forall_nil].
      split; [discriminate|split; reflexivity].
Defined.

End DmaApiSpec.

(** * Properties of the transfers of the pseudo process *)

Module MmTransferSpec.
Import Word MmTransfer.

(** ** Aligned addresses *)

(** Linear arithmetic with divisions by 8. *)
Ltac dlia := Z.to_euclidean_division_equations; lia.

Lemma land_lnot64_7 x : 0 <= x < 2 ^ 64 -> Z.land x (lnot64 (8 - 1)) = 8 * (x / 8).
Proof.
  intros Hx.
  assert (Z.land x (lnot64 (8 - 1)) = Z.ldiff x (Z.ones 3)) as ->.
  { apply Z.bits_inj'. intros n Hn.
    rewrite Z.land_spec, Z.ldiff_spec.
    destruct (Z_lt_le_dec n 64) as [Hlt|Hge].
    - rewrite lnot64_bits_low by lia. reflexivity.
    - rewrite <- (u64_small x Hx), u64_bits_high by lia. reflexivity. }
  rewrite Z.ldiff_ones_r by lia.
  rewrite Z.shiftr_div_pow2, Z.shiftl_mul_pow2 by lia.
  change (2 ^ 3) with 8. lia.
Qed.

(** The end of the enclosing aligned span. *)
Definition align_up (x : Z) : Z := 8 * ((x + 7) / 8).

(** The start of the enclosing aligned span. *)
Definition align_down (x : Z) : Z := 8 * (x / 8).

Lemma calc_address_spec address datasize :
  0 <= address -> 0 <= datasize -> address + datasize + 8 <= 2 ^ 64 ->
  let as_ := calc_address (mk_addr address (u64 (address + datasize)) 0 0 0 0 0) in
  aligned_top_address as_ = align_down address /\
  top_offset as_ = address - align_down address /\
  aligned_bottom_address as_ = align_up (address + datasize) /\
  bottom_offset as_ = align_up (address + datasize) - (address + datasize) /\
  new_datasize as_ = align_up (address + datasize) - align_down address.
Proof.
  intros Ha Hd Hb. cbv zeta. unfold calc_address, align_up, align_down. simpl.
  rewrite (u64_small (address + datasize)) by lia.
  rewrite !land_lnot64_7 by lia.
  destruct (Z.eqb_spec ((address + datasize) mod 8) 0) as [E|E]; simpl;
    unfold u64; change (2 ^ 64) with 18446744073709551616 in *;
    repeat split; dlia.
Qed.

(** ** One request *)

Lemma int_of_small z : - 2 ^ 31 <= z < 2 ^ 31 -> int_of z = z.
Proof.
  intros Hz. unfold int_of.
  rewrite Z.mod_small by lia. lia.
Qed.

(** What the library relies on in veos: its reply fits the [int] the
    library keeps it in, and it replies 0 only when it has moved every
    byte of the request. *)
Definition acknowledges (r : veos_reply) : Prop :=
  - 2 ^ 31 <= syscall_retval r < 2 ^ 31 /\
  (syscall_retval r = 0 -> forall k, moved r k = true).

Definition honest (veos : nat -> veos_reply) : Prop :=
  forall n, acknowledges (veos n).

Section Requests.

Variable malloc_result : nat -> malloc_outcome.
Variable veos : nat -> veos_reply.

(** A request is recorded and leaves the memories as veos has moved the
    bytes; a result of 0 comes from a reply whose low 32 bits are zero. *)
Lemma amm_dma_xfer_req_spec p host w ret host' w' :
  amm_dma_xfer_req veos p host w = Some ((ret, host'), w') ->
  requests w' = requests w ++ [p] /\ n_malloc w' = n_malloc w /\
  (host', ve_mem w')
  = dma_transfer p (moved (veos (length (requests w)))) host (ve_mem w) /\
  (ret = 0 -> honest veos ->
   forall k, moved (veos (length (requests w))) k = true).
Proof.
  unfold amm_dma_xfer_req, EFAULT.
  destruct (dma_transfer p _ host (ve_mem w)) as [h m].
  destruct (pack_ok _); simpl; [|discriminate].
  destruct (Z.ltb_spec (send_cmd_ret (veos (length (requests w)))) 0).
  { intros [= <- <- <-]. simpl. repeat (split; [reflexivity|]). lia. }
  destruct (Z.ltb_spec (recv_cmd_ret (veos (length (requests w)))) 0).
  { intros [= <- <- <-]. simpl. repeat (split; [reflexivity|]). lia. }
  destruct (unpack_ok _); simpl; [|discriminate].
  intros [= <- <- <-]. simpl. repeat (split; [reflexivity|]).
  intros Hz Hh. destruct (Hh (length (requests w))) as [Hr Hm].
  rewrite int_of_small in Hz by exact Hr. exact (Hm Hz).
Qed.

(** [_ve_send_data_ipc] of a buffer from its start: some bytes of the span
    take the value the buffer has for them, all of them when the result is
    0. *)
Lemma _ve_send_data_ipc_spec address datasize buff w ret w' :
  _ve_send_data_ipc veos address datasize buff 0 w = Some (ret, w') ->
  exists mv,
    (forall a, ve_mem w' a
               = if (address <=? a) && (a <? address + datasize)
                    && mv (a - address)
                 then buff (a - address) else ve_mem w a) /\
    (ret = 0 -> honest veos -> forall k, mv k = true).
Proof.
  unfold _ve_send_data_ipc, EINVAL.
  destruct (Z.eqb_spec (datasize mod 8) 0) as [_|_]; simpl.
  2:{ intros [= <- <-]. exists (fun _ => false). split; [|lia].
      intros a. rewrite andb_false_r. reflexivity. }
  unfold __ve_send_data, mbind, M_bind, mret, M_ret.
  destruct (amm_dma_xfer_req _ _ _ _) as [[[r h] w1]|] eqn:E; [|discriminate].
  apply amm_dma_xfer_req_spec in E as (_ & _ & Ht & Hz).
  intros [= <- <-].
  exists (moved (veos (length (requests w)))). split.
  - unfold dma_transfer in Ht. simpl in Ht. injection Ht as _ ->.
    intros a. simpl. reflexivity.
  - unfold EFAULT. destruct (Z.ltb_spec r 0); [lia|]. exact Hz.
Qed.

(** [_ve_recv_data_ipc] into a buffer from its start. *)
Lemma _ve_recv_data_ipc_spec address datasize buff w ret buff' w' :
  _ve_recv_data_ipc veos address datasize buff 0 w = Some ((ret, buff'), w') ->
  ve_mem w' = ve_mem w /\
  exists mv,
    (forall k, buff' k
               = if (0 <=? k) && (k <? 0 + datasize) && mv (k - 0)
                 then ve_mem w (address + (k - 0)) else buff k) /\
    (ret = 0 -> honest veos -> forall k, mv k = true).
Proof.
  unfold _ve_recv_data_ipc, EINVAL.
  destruct (Z.eqb_spec (datasize mod 8) 0) as [_|_]; simpl.
  2:{ intros [= <- <- <-]. split; [reflexivity|].
      exists (fun _ => false). split; [|lia].
      intros k. rewrite andb_false_r. reflexivity. }
  unfold __ve_recv_data, mbind, M_bind, mret, M_ret.
  destruct (amm_dma_xfer_req _ _ _ _) as [[[r h] w1]|] eqn:E; [|discriminate].
  apply amm_dma_xfer_req_spec in E as (_ & _ & Ht & Hz).
  intros [= <- <- <-].
  unfold dma_transfer in Ht. simpl in Ht. injection Ht as -> ->.
  split; [reflexivity|].
  exists (moved (veos (length (requests w)))). split.
  - intros k. reflexivity.
  - unfold EFAULT. destruct (Z.ltb_spec r 0); [lia|]. exact Hz.
Qed.

(** [ve_recv_data] leaves the memory of the accelerator as it is; when it
    returns 0 the [datasize] bytes at [data + off] are those of the
    accelerator from [address] on, and the rest of the buffer is as it
    was. *)
Lemma ve_recv_data_spec address datasize data off w ret data' w' :
  0 <= address -> 0 <= datasize -> address + datasize + 8 <= 2 ^ 64 ->
  ve_recv_data malloc_result veos address datasize data off w
  = Some ((ret, data'), w') ->
  ve_mem w' = ve_mem w /\
  (forall k, ~ off <= k < off + datasize -> data' k = data k) /\
  (ret = 0 -> honest veos ->
   forall k, data' k
             = if (off <=? k) && (k <? off + datasize)
               then ve_mem w (address + (k - off)) else data k).
Proof.
  intros Ha Hd Hb.
  destruct (calc_address_spec address datasize Ha Hd Hb)
    as (Hat & Hto & Hab & Hbo & Hnd).
  unfold align_up, align_down in *.
  unfold ve_recv_data, mbind, M_bind, mret, M_ret, malloc.
  destruct (malloc_result (n_malloc w)) as [|?].
  { intros [= <- <- <-]. split; [reflexivity|]. split; [reflexivity|].
    discriminate. }
  simpl.
  destruct (malloc_result (S (n_malloc w))) as [|buff].
  { intros [= <- <- <-]. split; [reflexivity|]. split; [reflexivity|].
    discriminate. }
  destruct (_ve_recv_data_ipc _ _ _ _ _ _) as [[[r b] w1]|] eqn:E; [|discriminate].
  apply _ve_recv_data_ipc_spec in E as (Hm & mv & Hbuf & Hall). simpl in Hm.
  destruct (Z.ltb_spec r 0).
  { intros [= <- <- <-]. split; [exact Hm|]. split; [reflexivity|lia]. }
  intros [= <- <- <-]. split; [exact Hm|]. split.
  - intros k Hk. unfold memcpy.
    destruct (Z.leb_spec off k); simpl; [|reflexivity].
    destruct (Z.ltb_spec k (off + datasize)); [lia|reflexivity].
  - intros Hz Hh k. specialize (Hall Hz Hh).
    unfold memcpy.
    destruct ((off <=? k) && (k <? off + datasize)) eqn:Ek; [|reflexivity].
    rewrite Hbuf, Hall, andb_true_r. simpl ve_mem. rewrite Hat, Hto, Hnd.
    apply andb_true_iff in Ek as [E1 E2]. apply Z.leb_le in E1. apply Z.ltb_lt in E2.
    destruct (Z.leb_spec 0 (address - 8 * (address / 8) + (k - off))); [|dlia].
    destruct (Z.ltb_spec (address - 8 * (address / 8) + (k - off))
                (0 + (8 * ((address + datasize + 7) / 8) - 8 * (address / 8))));
      [|dlia].
    simpl. f_equal. lia.
Qed.

End Requests.

(** ** Sending to an unaligned range *)

Section SendData.

Variable malloc_result : nat -> malloc_outcome.
Variable veos : nat -> veos_reply.
Variables address datasize : Z.
Variable data : buffer.

Hypothesis address_nonneg : 0 <= address.
Hypothesis datasize_nonneg : 0 <= datasize.
Hypothesis no_wrap : address + datasize + 8 <= 2 ^ 64.
Hypothesis veos_honest : honest veos.

Local Notation "'as_'" :=
  (calc_address (mk_addr address (u64 (address + datasize)) 0 0 0 0 0)).

(** What a call that started with the memory [mem] leaves: the bytes
    outside the range are those of [mem], and after a return of 0 the bytes
    of the range are those of [data]. *)
Definition sent (mem : Z -> Z) (ret : Z) (w' : world) : Prop :=
  (forall a, ~ address <= a < address + datasize -> ve_mem w' a = mem a) /\
  (ret = 0 ->
   forall a, address <= a < address + datasize -> ve_mem w' a = data (a - address)).

Lemma ve_send_data_merge_spec buff w ret w' :
  (forall k, 0 <= k < top_offset as_ ->
     buff k = ve_mem w (aligned_top_address as_ + k)) ->
  (forall k, top_offset as_ + datasize <= k < new_datasize as_ ->
     buff k = ve_mem w (aligned_top_address as_ + k)) ->
  ve_send_data_merge veos as_ buff data datasize w = Some (ret, w') ->
  sent (ve_mem w) ret w'.
Proof.
  destruct (calc_address_spec address datasize address_nonneg datasize_nonneg
              no_wrap) as (Hat & Hto & Hab & Hbo & Hnd).
  unfold align_up, align_down in *.
  intros Hhead Htail. unfold ve_send_data_merge. intros E.
  apply _ve_send_data_ipc_spec in E as (mv & Hm & Hall); unfold sent.
  rewrite Hat, Hto, Hnd in *. split.
  - intros a Ha. rewrite Hm.
    destruct (Z.leb_spec (8 * (address / 8)) a); simpl; [|reflexivity].
    destruct (Z.ltb_spec a (8 * (address / 8)
                            + (8 * ((address + datasize + 7) / 8)
                               - 8 * (address / 8)))); [|reflexivity].
    simpl. destruct (mv (a - 8 * (address / 8))); [|reflexivity].
    unfold memcpy.
    destruct (Z.leb_spec (address - 8 * (address / 8)) (a - 8 * (address / 8)));
      simpl.
    + destruct (Z.ltb_spec (a - 8 * (address / 8))
                  (address - 8 * (address / 8) + datasize)); [lia|].
      rewrite Htail by lia. f_equal. lia.
    + rewrite Hhead by lia. f_equal. lia.
  - intros Hz a Ha. rewrite Hm, (Hall Hz veos_honest), andb_true_r.
    destruct (Z.leb_spec (8 * (address / 8)) a); simpl; [|dlia].
    destruct (Z.ltb_spec a (8 * (address / 8)
                            + (8 * ((address + datasize + 7) / 8)
                               - 8 * (address / 8)))); [|dlia].
    unfold memcpy.
    destruct (Z.leb_spec (address - 8 * (address / 8)) (a - 8 * (address / 8)));
      simpl; [|lia].
    destruct (Z.ltb_spec (a - 8 * (address / 8))
                (address - 8 * (address / 8) + datasize)); [|lia].
    f_equal. lia.
Qed.

Lemma ve_send_data_bottom_spec buff w ret w' :
  (forall k, 0 <= k < top_offset as_ ->
     buff k = ve_mem w (aligned_top_address as_ + k)) ->
  ve_send_data_bottom malloc_result veos as_ buff data datasize w
  = Some (ret, w') ->
  sent (ve_mem w) ret w'.
Proof.
  pose proof (calc_address_spec address datasize address_nonneg datasize_nonneg
                no_wrap) as H.
  cbv zeta in H. destruct H as (Hat & Hto & Hab & Hbo & Hnd).
  intros Hhead. unfold ve_send_data_bottom.
  destruct (Z.eqb_spec (bottom_offset as_) 0) as [E0|E0]; simpl.
  - apply ve_send_data_merge_spec; [exact Hhead|].
    intros k Hk. exfalso. rewrite Hto, Hnd in Hk. rewrite Hbo in E0. lia.
  - unfold mbind, M_bind, mret, M_ret.
    destruct (ve_recv_data _ _ _ _ _ _ _) as [[[r b] w1]|] eqn:E; [|discriminate].
    assert (8 <= align_up (address + datasize)) as H8
      by (rewrite Hbo in E0; unfold align_up in *; dlia).
    assert (8 <= new_datasize as_) as Hn8
      by (rewrite Hnd; unfold align_up, align_down in *; dlia).
    assert (align_up (address + datasize) + 8 <= 2 ^ 64) as Hup
      by (unfold align_up; dlia).
    rewrite Hab in E.
    rewrite (u64_small (align_up (address + datasize) - 8)) in E by lia.
    rewrite (u64_small (new_datasize as_ - 8)) in E
      by (rewrite Hnd in *; unfold align_up, align_down in *; dlia).
    apply ve_recv_data_spec in E as (Hm & _ & Hb); [|lia..].
    destruct (Z.eqb_spec r 0) as [->|Hr]; simpl.
    + specialize (Hb eq_refl veos_honest). intros E.
      rewrite <- Hm. apply (ve_send_data_merge_spec b); [| |exact E].
      * intros k Hk. rewrite Hb, Hm.
        destruct ((new_datasize as_ - 8 <=? k) && (k <? new_datasize as_ - 8 + 8))
          eqn:Ek; [|apply Hhead, Hk].
        f_equal. rewrite Hnd, Hat. lia.
      * intros k Hk. rewrite Hb, Hm.
        destruct (Z.leb_spec (new_datasize as_ - 8) k); simpl.
        2:{ exfalso. rewrite Hto, Hnd in *. rewrite Hbo in E0.
            unfold align_up, align_down in *. dlia. }
        destruct (Z.ltb_spec k (new_datasize as_ - 8 + 8)); [|lia].
        f_equal. rewrite Hnd, Hat. lia.
    + intros [= <- <-]. unfold sent. rewrite Hm. split; [reflexivity|].
      intros; contradiction.
Qed.

Lemma ve_send_data_spec w ret w' :
  ve_send_data malloc_result veos address datasize data w = Some (ret, w') ->
  sent (ve_mem w) ret w'.
Proof.
  pose proof (calc_address_spec address datasize address_nonneg datasize_nonneg
                no_wrap) as H.
  cbv zeta in H. destruct H as (Hat & Hto & Hab & Hbo & Hnd).
  unfold ve_send_data, mbind, M_bind, mret, M_ret, malloc, ENOMEM.
  destruct (malloc_result (n_malloc w)) as [|?].
  { intros [= <- <-]. unfold sent. split; [reflexivity|discriminate]. }
  simpl. destruct (malloc_result (S (n_malloc w))) as [|buff].
  { intros [= <- <-]. unfold sent. split; [reflexivity|discriminate]. }
  destruct (Z.eqb_spec (top_offset as_) 0) as [E0|E0]; simpl.
  - intros E. apply ve_send_data_bottom_spec in E; [exact E|].
    intros k Hk. lia.
  - destruct (ve_recv_data _ _ _ _ _ _ _) as [[[r b] w1]|] eqn:E; [|discriminate].
    rewrite Hat in E.
    apply ve_recv_data_spec in E as (Hm & _ & Hb);
      [|unfold align_down; dlia|lia|
       rewrite Hto in E0; unfold align_down in *; dlia].
    simpl in Hm.
    destruct (Z.eqb_spec r 0) as [->|Hr]; simpl.
    + specialize (Hb eq_refl veos_honest). intros E. rewrite <- Hm.
      apply (ve_send_data_bottom_spec b); [|exact E].
      intros k Hk. rewrite Hb, Hm. simpl.
      destruct (Z.leb_spec 0 k); [|lia].
      destruct (Z.ltb_spec k (0 + 8)); simpl.
      * f_equal. rewrite Hat. lia.
      * exfalso. rewrite Hto in Hk. unfold align_down in *. dlia.
    + intros [= <- <-]. unfold sent. rewrite Hm. split; [reflexivity|].
      intros; contradiction.
Qed.

End SendData.

(** ** A transfer that succeeds *)

(** The request that reads the aligned word at [a], and the request that
    sends [n] bytes to [a]. *)
Definition read_word (a : Z) : dma_args :=
  mk_dma_args VE_DMA_VEMVA a VE_DMA_VHVA 0 8.

Definition send_span (a n : Z) : dma_args :=
  mk_dma_args VE_DMA_VHVA 0 VE_DMA_VEMVA a n.

(** The requests of one [ve_send_data]. *)
Definition expected_requests (address datasize : Z) : list dma_args :=
  (if address mod 8 =? 0 then [] else [read_word (align_down address)])
  ++ (if (address + datasize) mod 8 =? 0 then []
      else [read_word (align_up (address + datasize) - 8)])
  ++ [send_span (align_down address)
        (align_up (address + datasize) - align_down address)].

(** Every allocation succeeds and veos carries out every request. *)
Definition cooperative (malloc_result : nat -> malloc_outcome)
    (veos : nat -> veos_reply) : Prop :=
  (forall n, malloc_result n <> malloc_null) /\
  (forall n, pack_ok (veos n) = true /\ 0 <= send_cmd_ret (veos n) /\
             0 <= recv_cmd_ret (veos n) /\ unpack_ok (veos n) = true /\
             syscall_retval (veos n) = 0).

Section Cooperative.

Variable malloc_result : nat -> malloc_outcome.
Variable veos : nat -> veos_reply.
Hypothesis coop : cooperative malloc_result veos.

Lemma amm_dma_xfer_req_coop p host w :
  exists host' w',
    amm_dma_xfer_req veos p host w = Some ((0, host'), w') /\
    requests w' = requests w ++ [p].
Proof.
  destruct coop as [_ Hv].
  destruct (Hv (length (requests w))) as (H1 & H2 & H3 & H4 & H5).
  unfold amm_dma_xfer_req.
  destruct (dma_transfer p _ host (ve_mem w)) as [h m].
  rewrite H1, H4, H5. simpl.
  destruct (Z.ltb_spec (send_cmd_ret (veos (length (requests w)))) 0); [lia|].
  destruct (Z.ltb_spec (recv_cmd_ret (veos (length (requests w)))) 0); [lia|].
  change (int_of 0) with 0.
  eexists _, _. split; reflexivity.
Qed.

Lemma malloc_coop w :
  exists buff,
    malloc malloc_result w
    = Some (malloc_buffer buff,
            mk_world (ve_mem w) (requests w) (S (n_malloc w))).
Proof.
  destruct coop as [Hm _]. unfold malloc.
  destruct (malloc_result (n_malloc w)) as [|buff] eqn:E.
  - exfalso. exact (Hm _ E).
  - exists buff. reflexivity.
Qed.

(** [ve_recv_data] of an aligned word. *)
Lemma ve_recv_data_coop a data off w :
  0 <= a -> a mod 8 = 0 -> a + 16 <= 2 ^ 64 ->
  exists data' w',
    ve_recv_data malloc_result veos a 8 data off w = Some ((0, data'), w') /\
    requests w' = requests w ++ [read_word a].
Proof.
  intros Ha Hal Hb.
  destruct (calc_address_spec a 8 Ha ltac:(lia) ltac:(lia))
    as (Hat & Hto & Hab & Hbo & Hnd).
  unfold align_up, align_down in *.
  unfold ve_recv_data, mbind, M_bind, mret, M_ret.
  destruct (malloc_coop w) as [b1 ->].
  destruct (malloc_coop (mk_world (ve_mem w) (requests w) (S (n_malloc w))))
    as [b2 ->].
  unfold _ve_recv_data_ipc. rewrite Hnd, Hat.
  replace (8 * ((a + 8 + 7) / 8) - 8 * (a / 8)) with 8 by dlia.
  replace (8 * (a / 8)) with a by dlia.
  simpl. unfold __ve_recv_data, mbind, M_bind, mret, M_ret.
  destruct (amm_dma_xfer_req_coop (mk_dma_args VE_DMA_VEMVA a VE_DMA_VHVA 0 8) b2
              (mk_world (ve_mem w) (requests w) (S (S (n_malloc w)))))
    as (h & w1 & -> & Hreq).
  simpl. eexists _, _. split; [reflexivity|exact Hreq].
Qed.

Lemma ve_send_data_coop address datasize data w :
  0 <= address -> 0 <= datasize -> address + datasize + 8 <= 2 ^ 64 ->
  exists w',
    ve_send_data malloc_result veos address datasize data w = Some (0, w') /\
    requests w' = requests w ++ expected_requests address datasize.
Proof.
  intros Ha Hd Hb.
  pose proof (calc_address_spec address datasize Ha Hd Hb) as H.
  cbv zeta in H. destruct H as (Hat & Hto & Hab & Hbo & Hnd).
  assert (forall buff w1,
            exists w',
              ve_send_data_merge veos
                (calc_address (mk_addr address (u64 (address + datasize)) 0 0 0 0 0))
                buff data datasize w1 = Some (0, w') /\
              requests w'
              = requests w1
                ++ [send_span (align_down address)
                      (align_up (address + datasize) - align_down address)])
    as Hmerge.
  { intros buff w1. unfold ve_send_data_merge, _ve_send_data_ipc.
    rewrite Hnd, Hat.
    destruct (Z.eqb_spec ((align_up (address + datasize) - align_down address)
                          mod 8) 0) as [_|E];
      [|exfalso; unfold align_up, align_down in E; dlia].
    simpl. unfold __ve_send_data, mbind, M_bind, mret, M_ret.
    destruct (amm_dma_xfer_req_coop
                (mk_dma_args VE_DMA_VHVA 0 VE_DMA_VEMVA (align_down address)
                   (align_up (address + datasize) - align_down address))
                (memcpy buff
                   (top_offset
                      (calc_address
                         (mk_addr address (u64 (address + datasize)) 0 0 0 0 0)))
                   data 0 datasize) w1)
      as (h & w2 & -> & Hreq).
    simpl. eexists. split; [reflexivity|exact Hreq]. }
  assert (forall buff w1,
            exists w',
              ve_send_data_bottom malloc_result veos
                (calc_address (mk_addr address (u64 (address + datasize)) 0 0 0 0 0))
                buff data datasize w1 = Some (0, w') /\
              requests w'
              = requests w1
                ++ (if (address + datasize) mod 8 =? 0 then []
                    else [read_word (align_up (address + datasize) - 8)])
                ++ [send_span (align_down address)
                      (align_up (address + datasize) - align_down address)])
    as Hbottom.
  { intros buff w1. unfold ve_send_data_bottom. rewrite Hbo.
    destruct (Z.eqb_spec (align_up (address + datasize) - (address + datasize)) 0)
      as [E|E];
      destruct (Z.eqb_spec ((address + datasize) mod 8) 0) as [E'|E'];
      try (exfalso; unfold align_up in E; dlia); simpl.
    - apply Hmerge.
    - unfold mbind, M_bind, mret, M_ret. rewrite Hab.
      rewrite (u64_small (align_up (address + datasize) - 8))
        by (unfold align_up; dlia).
      destruct (ve_recv_data_coop (align_up (address + datasize) - 8) buff
                  (u64 (new_datasize
                          (calc_address
                             (mk_addr address (u64 (address + datasize))
                                0 0 0 0 0)) - 8)) w1)
        as (b & w2 & -> & Hreq); [unfold align_up; dlia..|].
      simpl. destruct (Hmerge b w2) as (w3 & -> & Hreq3).
      exists w3. split; [reflexivity|].
      rewrite Hreq3, Hreq, <- app_assoc. reflexivity. }
  unfold ve_send_data, mbind, M_bind, mret, M_ret.
  destruct (malloc_coop w) as [b1 ->].
  destruct (malloc_coop (mk_world (ve_mem w) (requests w) (S (n_malloc w))))
    as [b2 ->].
  unfold expected_requests. rewrite Hto.
  destruct (Z.eqb_spec (address - align_down address) 0) as [E|E];
    destruct (Z.eqb_spec (address mod 8) 0) as [E'|E'];
    try (exfalso; unfold align_down in E; dlia); simpl.
  - destruct (Hbottom b2 (mk_world (ve_mem w) (requests w) (S (S (n_malloc w)))))
      as (w3 & -> & Hreq3).
    exists w3. split; [reflexivity|exact Hreq3].
  - rewrite Hat.
    destruct (ve_recv_data_coop (align_down address) b2 0
                (mk_world (ve_mem w) (requests w) (S (S (n_malloc w)))))
      as (b & w2 & -> & Hreq); [unfold align_down; dlia..|].
    simpl. destruct (Hbottom b w2) as (w3 & -> & Hreq3).
    exists w3. split; [reflexivity|].
    rewrite Hreq3, Hreq. simpl. rewrite <- app_assoc. reflexivity.
Qed.

End Cooperative.

(** C10 (amended): [ve_send_data] reads the aligned word of the head of
    the range only when the address is not a multiple of 8 and the aligned word of
    the tail only when the end is not, merges the caller's data with what
    it read and sends the enclosing aligned span.  Whatever the outcome of
    the allocations and requests, every byte of the accelerator outside
    [address, address + datasize) is left as it was, those of the
    enclosing aligned span included, and after a return of 0 the bytes of
    the range are the caller's.  When every allocation and every request
    succeeds the call returns 0 and these are its requests.  (The range
    does not wrap around the 64-bit address space, the replies of veos fit
    an [int], veos replies 0 only after moving every byte of a request,
    and nothing else writes the accelerator memory during the call.) *)
Theorem ve_send_data_keeps_neighbours malloc_result veos address datasize data w :
  0 <= address -> 0 <= datasize -> address + datasize + 8 <= 2 ^ 64 ->
  honest veos ->
  (forall ret w',
     ve_send_data malloc_result veos address datasize data w = Some (ret, w') ->
     (forall a, ~ address <= a < address + datasize -> ve_mem w' a = ve_mem w a) /\
     (ret = 0 ->
      forall a, address <= a < address + datasize ->
                ve_mem w' a = data (a - address))) /\
  (cooperative malloc_result veos ->
   exists w',
     ve_send_data malloc_result veos address datasize data w = Some (0, w') /\
     requests w' = requests w ++ expected_requests address datasize).
Proof.
  intros Ha Hd Hb Hh. split.
  - intros ret w' E.
    exact (ve_send_data_spec malloc_result veos address datasize data
             Ha Hd Hb Hh w ret w' E).
  - intros Hc. apply ve_send_data_coop; assumption.
Qed.

(** An accelerator memory whose byte at [a] is [a mod 256], six bytes to
    send to 0x1003, buffers that come filled with 0xEE and a veos that
    carries out every request. *)
Definition world_demo : world := mk_world (fun a => a mod 256) [] 0.

Definition data_demo : buffer := fun k => 0xA0 + k.

Definition malloc_demo (_ : nat) : malloc_outcome := malloc_buffer (fun _ => 0xEE).

Definition veos_demo (_ : nat) : veos_reply :=
  mk_reply true 0 0 true 0 (fun _ => true).

Lemma honest_demo : honest veos_demo.
Proof.
  intros n. split; [simpl; lia|]. intros _ k. reflexivity.
Defined.

Lemma cooperative_demo : cooperative malloc_demo veos_demo.
Proof.
  split.
  - intros n. discriminate.
  - intros n. repeat split; simpl; lia.
Defined.

Lemma ve_send_data_keeps_neighbours_witness :
  (forall ret w',
     ve_send_data malloc_demo veos_demo 0x1003 6 data_demo world_demo
     = Some (ret, w') ->
     (forall a, ~ 0x1003 <= a < 0x1003 + 6 -> ve_mem w' a = ve_mem world_demo a) /\
     (ret = 0 ->
      forall a, 0x1003 <= a < 0x1003 + 6 -> ve_mem w' a = data_demo (a - 0x1003))) /\
  (exists w',
     ve_send_data malloc_demo veos_demo 0x1003 6 data_demo world_demo
     = Some (0, w') /\
     requests w' = requests world_demo ++ expected_requests 0x1003 6).
Proof.
  pose proof (ve_send_data_keeps_neighbours malloc_demo veos_demo 0x1003 6
                data_demo world_demo ltac:(lia) ltac:(lia) ltac:(lia)
                honest_demo) as [H1 H2].
  split; [exact H1|exact (H2 cooperative_demo)].
Defined.

(** The same call, run: two reads, one send, and the sixteen bytes of the
    two words afterwards. *)
Example ve_send_data_demo :
  (fun r => (r.1, requests r.2, (ve_mem r.2) <$> seqZ 0x1000 16))
    <$> ve_send_data malloc_demo veos_demo 0x1003 6 data_demo world_demo
  = Some (0,
          [read_word 0x1000; read_word 0x1008; send_span 0x1000 16],
          [0; 1; 2; 0xA0; 0xA1; 0xA2; 0xA3; 0xA4; 0xA5; 9; 10; 11; 12; 13; 14; 15]).
Proof. vm_compute. reflexivity. Qed.

(** C10 fails as stated: it has the words of the head and of the tail
    read whenever the address or the size is not a multiple of 8.  Eleven bytes sent to the
    aligned address 0x1000: the call succeeds with one read, that of the
    word of the tail; the word of the head, at 0x1000, is not read. *)
Lemma aligned_head_is_not_read :
  (fun r => (r.1, requests r.2))
    <$> ve_send_data malloc_demo veos_demo 0x1000 11 data_demo world_demo
  = Some (0, [read_word 0x1008; send_span 0x1000 16]) /\
  read_word 0x1000 ∉ [read_word 0x1008; send_span 0x1000 16].
Proof.
  split; [vm_compute; reflexivity|].
  intros Hin. apply elem_of_cons in Hin as [E|Hin]; [discriminate E|].
  apply elem_of_cons in Hin as [E|Hin]; [discriminate E|].
  inversion Hin.
Qed.
End MmTransferSpec.

(** * The pending queue: flag, round trips and accounting *)

Module PendingQueue.
Import Word TaskSignal TaskSignalSpec.

Section Flag.

Context {hdr : veos_headers}.

Lemma effective_nonzero pend mask :
  effective pend mask <> 0 <-> exists s, deliverable pend mask s.
Proof.
  pose proof (effective_range pend mask) as Hr. split.
  - intros Hnz. exists (ffsl (effective pend mask)).
    pose proof (ffsl_upper (effective pend mask) 64 ltac:(lia) ltac:(lia)) as Hu.
    apply effective_bit; [lia|]. apply ffsl_bit. lia.
  - intros (s & Hd) Hz.
    pose proof (deliverable_valid _ _ _ Hd) as Hv.
    apply (effective_bit pend mask s Hv) in Hd.
    rewrite Hz, Z.bits_0 in Hd. discriminate.
Qed.

(** The signal [psm_get_next_ve_signal] picks, when it picks one, is
    pending and not blocked. *)
Lemma next_signal_deliverable pend mask :
  psm_get_next_ve_signal pend mask <> 0 ->
  deliverable pend mask (psm_get_next_ve_signal pend mask).
Proof.
  unfold psm_get_next_ve_signal. fold (effective pend mask).
  pose proof (effective_range pend mask) as Hr.
  pose proof (land_range_l _ VE_SYNCHRONOUS_MASK Hr) as Hrs.
  set (eff := effective pend mask) in *.
  set (syn := Z.land eff VE_SYNCHRONOUS_MASK) in *.
  destruct (Z.eqb_spec eff 0) as [E|E]; simpl; [tauto|].
  intros _.
  destruct (Z.eqb_spec syn 0) as [Es|Es]; simpl.
  - pose proof (ffsl_upper eff 64 ltac:(lia) ltac:(lia)) as Hu.
    apply effective_bit; [lia|]. apply ffsl_bit. lia.
  - pose proof (ffsl_upper syn 64 ltac:(lia) ltac:(lia)) as Hu.
    apply effective_bit; [lia|].
    pose proof (ffsl_bit syn ltac:(lia)) as Hb.
    unfold syn in Hb at 1. rewrite Z.land_spec in Hb.
    apply andb_true_iff in Hb. tauto.
Qed.

Lemma next_signal_zero pend mask :
  psm_get_next_ve_signal pend mask = 0 <-> forall s, ~ deliverable pend mask s.
Proof.
  split.
  - intros Hz s Hd. revert Hz.
    unfold psm_get_next_ve_signal. fold (effective pend mask).
    pose proof (effective_range pend mask) as Hr.
    pose proof (land_range_l _ VE_SYNCHRONOUS_MASK Hr) as Hrs.
    assert (effective pend mask <> 0) as E by (apply effective_nonzero; eauto).
    set (eff := effective pend mask) in *.
    set (syn := Z.land eff VE_SYNCHRONOUS_MASK) in *.
    destruct (Z.eqb_spec eff 0) as [|_]; [contradiction|]. simpl.
    destruct (Z.eqb_spec syn 0) as [Es|Es]; simpl.
    + pose proof (ffsl_upper eff 64 ltac:(lia) ltac:(lia)). lia.
    + pose proof (ffsl_upper syn 64 ltac:(lia) ltac:(lia)). lia.
  - intros Hno. destruct (Z.eq_dec (psm_get_next_ve_signal pend mask) 0) as [|Hnz];
      [assumption|].
    exfalso. eapply Hno, next_signal_deliverable, Hnz.
Qed.

(** X1: [recalc_sigpending] returns 1 and raises the flag of the task
    exactly when some signal is pending and not blocked, which is exactly
    when [psm_get_next_ve_signal] has a signal to give; otherwise it
    returns 0 and clears the flag.  It changes nothing else. *)
Theorem recalc_sigpending_flag t :
  let r := recalc_sigpending t in
  (fst r = 1 \/ fst r = 0) /\
  (fst r = 1 <-> exists s, deliverable (pending t) (blocked t) s) /\
  (fst r = 1 <-> psm_get_next_ve_signal (pending t) (blocked t) <> 0) /\
  (fst r = 1 -> sigpending (snd r) = SIGNAL_PENDING) /\
  (fst r = 0 -> sigpending (snd r) = 0) /\
  set_sigpending (snd r) (sigpending t) = t.
Proof.
  cbv zeta. unfold recalc_sigpending. fold (effective (pending t) (blocked t)).
  pose proof (effective_nonzero (pending t) (blocked t)) as He.
  pose proof (next_signal_zero (pending t) (blocked t)) as Hz.
  destruct (Z.eqb_spec (effective (pending t) (blocked t)) 0) as [E|E]; simpl.
  - assert (forall s, ~ deliverable (pending t) (blocked t) s) as Hno.
    { intros s Hd. apply He; eauto. }
    split; [auto|]. split; [split; [discriminate|]|].
    { intros (s & Hd). exfalso. exact (Hno s Hd). }
    split; [split; [discriminate|]|].
    { intros Hn. exfalso. apply Hn, Hz, Hno. }
    split; [discriminate|]. split; [reflexivity|]. destruct t; reflexivity.
  - split; [auto|]. split; [split; [intros _; apply He, E|reflexivity]|].
    split; [split; [|reflexivity]|].
    { intros _ Hn. apply He in E as (s & Hd). exact (proj1 Hz Hn s Hd). }
    split; [reflexivity|]. split; [discriminate|]. destruct t; reflexivity.
Qed.

Lemma recalc_sigpending_deliverable t s :
  deliverable (pending t) (blocked t) s ->
  recalc_sigpending t = (1, set_sigpending t SIGNAL_PENDING).
Proof.
  intros Hd. unfold recalc_sigpending. fold (effective (pending t) (blocked t)).
  destruct (Z.eqb_spec (effective (pending t) (blocked t)) 0) as [E|E];
    [|reflexivity].
  exfalso. revert E. apply effective_nonzero. eauto.
Qed.

End Flag.

(** ** Enqueue, then dequeue *)

Lemma sigismember_empty sig : sigismember 0 sig <> 1.
Proof. rewrite sigismember_1, Z.bits_0. intros [_ H]. discriminate. Qed.

Lemma sigdelset_single s :
  1 <= s <= 64 -> reserved_signal s = false -> sigdelset (sigaddset 0 s) s = 0.
Proof.
  intros Hs Hr. rewrite sigdelset_ordinary, sigaddset_ordinary by assumption.
  rewrite Z.lor_0_l.
  apply Z.bits_inj'. intros n Hn. rewrite Z.land_spec, Z.bits_0.
  destruct (Z_lt_le_dec n 64) as [Hlt|Hge].
  - rewrite lnot64_bits_low by lia. apply andb_negb_r.
  - unfold lnot64. rewrite u64_bits_high by lia. apply andb_false_r.
Qed.

(** Storing [si_addr] and reading it back. *)
Lemma si_addr_set si v : si_addr (set_si_addr si v) = v.
Proof.
  unfold si_addr, set_si_addr. simpl.
  rewrite Z.land_ones, Z.shiftr_div_pow2, Z.shiftl_mul_pow2 by lia.
  rewrite Z.lor_comm, <- Z.add_nocarry_lor.
  - pose proof (Z.div_mod v (2 ^ 32) ltac:(lia)). lia.
  - apply Z.bits_inj'. intros n Hn. rewrite Z.land_spec, Z.bits_0.
    destruct (Z_lt_le_dec n 32) as [Hlt|Hge].
    + rewrite Z.mul_pow2_bits_low by lia. reflexivity.
    + rewrite Z.mod_pow2_bits_high by lia. apply andb_false_r.
Qed.

Section RoundTrip.

Context {hdr : veos_headers} {lq : legacy_queue_macro}
  {sched : veos_scheduler}.

Lemma set_ve_task_state_eta t : set_ve_task_state t (ve_task_state t) = t.
Proof. destruct t. reflexivity. Qed.

(** [psm_start_ve_process] changes the state of the task at most. *)
Lemma psm_start_ve_process_state t :
  exists st, psm_start_ve_process t = set_ve_task_state t st.
Proof.
  unfold psm_start_ve_process, psm_set_task_state.
  repeat case_match; eauto. exists (ve_task_state t).
  symmetry. apply set_ve_task_state_eta.
Qed.

(** On a task with nothing pending the actions of an enqueue change the
    state at most. *)
Lemma group_action_on_empty rp fl sig t :
  pending t = mk_sigpending [] 0 ->
  fl = FSIGCONTINUE \/ fl = FSIGMASKING ->
  exists st, group_action_on rp fl sig t = set_ve_task_state t st.
Proof.
  intros Hp [->| ->]; unfold group_action_on, ve_group_action; rewrite Hp; simpl.
  - rewrite <- Hp, pending_eta. apply psm_start_ve_process_state.
  - rewrite <- Hp, pending_eta. exists (ve_task_state t).
    symmetry. apply set_ve_task_state_eta.
Qed.

Lemma send_group_action_empty g i t cur sig g1 :
  tasks g !! i = Some t -> pending t = mk_sigpending [] 0 ->
  signal_flag (sighand g) <> VE_SIGNAL_GROUP_COREDUMP ->
  send_group_action g cur sig = Some g1 ->
  (exists st, tasks g1 !! i = Some (set_ve_task_state t st)) /\
  sighand g1 = sighand g.
Proof.
  intros Hi Hp Hf. unfold send_group_action.
  destruct (Z.eqb_spec (signal_flag (sighand g)) VE_SIGNAL_GROUP_COREDUMP);
    [contradiction|].
  assert (forall fl s,
            fl = FSIGCONTINUE \/ fl = FSIGMASKING ->
            exists st,
              tasks (ve_do_group_action g (pid cur) fl s) !! i
              = Some (set_ve_task_state t st)) as Hact.
  { intros fl s Hfl.
    destruct (group_action_on_empty (pid cur) fl s t Hp Hfl) as [st Hst].
    exists st. rewrite ve_do_group_action_lookup, Hi by (destruct Hfl; congruence).
    simpl. rewrite Hst. reflexivity. }
  destruct (sig =? SIGCONT);
    [intros [= <-]; split;
       [apply Hact; auto|apply ve_do_group_action_sighand]|].
  destruct (ve_sig_stop sig); intros [= <-].
  - split; [apply Hact; auto|apply ve_do_group_action_sighand].
  - split; [|reflexivity]. exists (ve_task_state t).
    rewrite set_ve_task_state_eta. exact Hi.
Qed.

(** [psm_send_ve_signal] to a thread with nothing pending, which does not
    block the signal. *)
Lemma send_on_empty g i t inf s fl ok :
  tasks g !! i = Some t -> pending t = mk_sigpending [] 0 ->
  1 <= s <= 64 -> reserved_signal s = false ->
  sigismember (blocked t) s = 0 ->
  signal_flag (sighand g) <> VE_SIGNAL_GROUP_COREDUMP ->
  exists g' t',
    psm_send_ve_signal g i inf s fl ok = (0, g') /\
    tasks g' !! i = Some t' /\ blocked t' = blocked t /\
    signal (pending t') = sigaddset 0 s /\
    sig_list (pending t')
    = match fst (psm_ve_sigqueue_alloc s (override_ve_rlimit inf s) ok (sighand g))
      with
      | None => []
      | Some q => [fill_sigqueue q inf s fl t]
      end /\
    sighand g'
    = snd (psm_ve_sigqueue_alloc s (override_ve_rlimit inf s) ok (sighand g)).
Proof.
  intros Hi Hp Hs Hres Hb Hf. unfold psm_send_ve_signal. rewrite Hi.
  destruct (send_group_action g t s) as [g1|] eqn:Hg.
  2:{ exfalso. revert Hg. unfold send_group_action.
      destruct (Z.eqb_spec (signal_flag (sighand g)) VE_SIGNAL_GROUP_COREDUMP);
        [contradiction|].
      destruct (s =? SIGCONT); [discriminate|].
      destruct (ve_sig_stop s); discriminate. }
  destruct (send_group_action_empty g i t t s g1 Hi Hp Hf Hg) as [[st Hi1] Hsh].
  rewrite Hi1, Hsh. simpl pending.
  rewrite legacy_queue_absent.
  2:{ rewrite Hp. intros (q & Hq & _). simpl in Hq. inversion Hq. }
  2:{ rewrite Hp. simpl. apply sigismember_0. rewrite Z.bits_0. tauto. }
  destruct (psm_ve_sigqueue_alloc s (override_ve_rlimit inf s) ok (sighand g))
    as [ve_q sh]. simpl fst. simpl snd.
  rewrite Hp. simpl sig_list. simpl signal.
  set (p := mk_sigpending _ (sigaddset 0 s)).
  rewrite (recalc_sigpending_deliverable (set_pending (set_ve_task_state t st) p) s).
  2:{ split; simpl; [|exact Hb].
      apply (sigismember_sigaddset 0 s s Hs Hres). left. reflexivity. }
  simpl. eexists _, _. split; [reflexivity|].
  split; [simpl; apply list_lookup_insert_eq; eapply lookup_lt_Some, Hi1|].
  simpl. repeat split.
Qed.

(** The only pending signal is the one picked. *)
Lemma next_signal_single l s mask :
  1 <= s <= 64 -> reserved_signal s = false -> sigismember mask s = 0 ->
  psm_get_next_ve_signal (mk_sigpending l (sigaddset 0 s)) mask = s.
Proof.
  intros Hs Hres Hb.
  assert (deliverable (mk_sigpending l (sigaddset 0 s)) mask s) as Hd.
  { split; simpl; [|exact Hb].
    apply (sigismember_sigaddset 0 s s Hs Hres). left. reflexivity. }
  destruct (Z.eq_dec (psm_get_next_ve_signal (mk_sigpending l (sigaddset 0 s)) mask) 0)
    as [Hz|Hnz].
  - exfalso. exact (proj1 (next_signal_zero _ _) Hz s Hd).
  - apply next_signal_deliverable in Hnz as [Hm _]. simpl in Hm.
    apply (sigismember_sigaddset 0 s _ Hs Hres) in Hm as [Hm|Hm]; [exact Hm|].
    exfalso. exact (sigismember_empty _ Hm).
Qed.

(** X2: a signal (1..64, but for the two libc reserves) enqueued with its
    [siginfo_t] for a thread that has nothing pending and does not block
    it, with room under the limit on pending signals, is what the next
    dequeue returns: the same number, the same flag and the same
    [siginfo_t], but that a set flag has [si_addr] overwritten with the
    exception address, and with it [si_pid] and [si_uid], members of the
    same union; the queue and the mask are empty again and the count of
    pending signals is back to what it was. *)
Theorem send_then_dequeue g i t si s fl si0 fl0 :
  tasks g !! i = Some t -> pending t = mk_sigpending [] 0 ->
  1 <= s <= 64 -> reserved_signal s = false ->
  sigismember (blocked t) s = 0 ->
  signal_flag (sighand g) <> VE_SIGNAL_GROUP_COREDUMP ->
  sh_ve_sigpending (sighand g) + 1 <= rlim_sigpending (sighand g) ->
  exists g' t',
    psm_send_ve_signal g i (SigInfo si) s fl true = (0, g') /\
    tasks g' !! i = Some t' /\
    sh_ve_sigpending (sighand g') = sh_ve_sigpending (sighand g) + 1 /\
    let r := psm_dequeue_ve_signal si0 (pending t') (blocked t') fl0 (sighand g') in
    fst r = s /\
    fst (fst (fst (snd r)))
    = (if fl =? 0 then si else set_si_addr si (ICE (p_ve_thread t))) /\
    (fl <> 0 ->
     si_addr (fst (fst (fst (snd r)))) = ICE (p_ve_thread t) /\
     si_pid (fst (fst (fst (snd r)))) = Z.land (ICE (p_ve_thread t)) (Z.ones 32) /\
     si_uid (fst (fst (fst (snd r)))) = Z.shiftr (ICE (p_ve_thread t)) 32) /\
    snd (fst (fst (snd r))) = fl /\
    snd (fst (snd r)) = mk_sigpending [] 0 /\
    sh_ve_sigpending (snd (snd r)) = sh_ve_sigpending (sighand g).
Proof.
  intros Hi Hp Hs Hres Hb Hf Hlim.
  destruct (send_on_empty g i t (SigInfo si) s fl true Hi Hp Hs Hres Hb Hf)
    as (g' & t' & Hsend & Hi' & Hb' & Hsig & Hl & Hsh).
  exists g', t'. split; [exact Hsend|]. split; [exact Hi'|].
  revert Hl Hsh. unfold psm_ve_sigqueue_alloc.
  destruct (Z.leb_spec (sh_ve_sigpending (sighand g) + 1) (rlim_sigpending (sighand g)));
    [|lia].
  rewrite orb_true_r. simpl. intros Hl Hsh.
  split; [rewrite Hsh; reflexivity|].
  cbv zeta. unfold psm_dequeue_ve_signal.
  destruct (pending t') as [l m] eqn:Hpt. simpl in Hsig, Hl. subst l m.
  rewrite Hb', next_signal_single by assumption.
  destruct (Z.eqb_spec s 0) as [|_]; [lia|]. simpl negb. cbv iota.
  unfold ve_collect_signal. simpl sig_list.
  rewrite filter_cons_True by reflexivity. rewrite filter_nil.
  simpl. rewrite Z.eqb_refl, sigdelset_single by assumption.
  rewrite Hsh. simpl.
  split; [reflexivity|]. split; [destruct (fl =? 0); reflexivity|].
  split.
  { intros Hfl. destruct (Z.eqb_spec fl 0) as [|_]; [contradiction|]. simpl.
    split; [apply si_addr_set|]. split; reflexivity. }
  split; [reflexivity|]. split; [reflexivity|lia].
Qed.

(** X3: when [psm_ve_sigqueue_alloc] gives no record (the limit on pending
    signals is reached for a signal that may not exceed it, or [calloc]
    fails), the signal (1..64, but for the two libc reserves) is still
    delivered once: the enqueue returns 0, and the next dequeue returns
    the signal with a [siginfo_t] made up on the spot ([si_code] =
    [SI_USER], [si_errno], [si_pid] and [si_uid] zero, and so [si_addr],
    which shares their bytes), leaves the flag of the caller alone, clears
    the bit and does not touch the count of pending signals. *)
Theorem dropped_record_still_delivered g i t inf s fl ok si0 fl0 :
  tasks g !! i = Some t -> pending t = mk_sigpending [] 0 ->
  1 <= s <= 64 -> reserved_signal s = false ->
  sigismember (blocked t) s = 0 ->
  signal_flag (sighand g) <> VE_SIGNAL_GROUP_COREDUMP ->
  ok = false \/
  (override_ve_rlimit inf s = false /\
   rlim_sigpending (sighand g) < sh_ve_sigpending (sighand g) + 1) ->
  exists g' t',
    psm_send_ve_signal g i inf s fl ok = (0, g') /\
    tasks g' !! i = Some t' /\
    sig_list (pending t') = [] /\
    sigismember (signal (pending t')) s = 1 /\
    sh_ve_sigpending (sighand g') = sh_ve_sigpending (sighand g) /\
    psm_dequeue_ve_signal si0 (pending t') (blocked t') fl0 (sighand g')
    = (s, (mk_siginfo s 0 SI_USER 0 0, fl0, mk_sigpending [] 0, sighand g')) /\
    si_addr (mk_siginfo s 0 SI_USER 0 0) = 0.
Proof.
  intros Hi Hp Hs Hres Hb Hf Hdrop.
  destruct (send_on_empty g i t inf s fl ok Hi Hp Hs Hres Hb Hf)
    as (g' & t' & Hsend & Hi' & Hb' & Hsig & Hl & Hsh).
  exists g', t'. split; [exact Hsend|]. split; [exact Hi'|].
  assert (psm_ve_sigqueue_alloc s (override_ve_rlimit inf s) ok (sighand g)
          = (None,
             set_sh_ve_sigpending (sighand g) (sh_ve_sigpending (sighand g) + 1 - 1)))
    as Ha.
  { unfold psm_ve_sigqueue_alloc. destruct Hdrop as [->|[-> Hlim]].
    - destruct (_ || _); reflexivity.
    - destruct (Z.leb_spec (sh_ve_sigpending (sighand g) + 1)
                  (rlim_sigpending (sighand g))); [lia|]. reflexivity. }
  rewrite Ha in Hl, Hsh. simpl in Hl, Hsh.
  split; [exact Hl|].
  split; [rewrite Hsig; apply (sigismember_sigaddset 0 s s Hs Hres); left; reflexivity|].
  split; [rewrite Hsh; simpl; lia|].
  split; [|reflexivity].
  unfold psm_dequeue_ve_signal.
  destruct (pending t') as [l m] eqn:Hpt. simpl in Hsig, Hl. subst l m.
  rewrite Hb', next_signal_single by assumption.
  destruct (Z.eqb_spec s 0) as [|_]; [lia|]. simpl negb. cbv iota.
  unfold ve_collect_signal. simpl.
  rewrite sigdelset_single by assumption. reflexivity.
Qed.

End RoundTrip.

(** A [siginfo_t] with a sender, and an exception at 0x600000001234. *)
Definition siginfo_sent : siginfo_t := mk_siginfo SIGUSR1 0 0 4242 1000.

Definition task_faulted : ve_task_struct :=
  set_thread task_demo
    (mk_regs 0x1000 0x600000001234 (SR (p_ve_thread task_demo)) 0).

Lemma send_then_dequeue_witness :
  exists g' t',
    psm_send_ve_signal (hdr := sample_headers) (lq := lq_mask)
      (sched := sample_scheduler) (mk_group [task_faulted] sighand_demo) 0%nat
      (SigInfo siginfo_sent) SIGUSR1 1 true = (0, g') /\
    tasks g' !! 0%nat = Some t' /\
    psm_dequeue_ve_signal (hdr := sample_headers) (mk_siginfo (-1) 0 0 0 0)
      (pending t') (blocked t') 0 (sighand g')
    = (SIGUSR1,
       (mk_siginfo SIGUSR1 0 0 0x1234 0x6000, 1, mk_sigpending [] 0,
        snd (snd (psm_dequeue_ve_signal (hdr := sample_headers)
                    (mk_siginfo (-1) 0 0 0 0) (pending t') (blocked t') 0
                    (sighand g'))))).
Proof.
  destruct (send_then_dequeue (hdr := sample_headers) (lq := lq_mask)
              (sched := sample_scheduler)
              (mk_group [task_faulted] sighand_demo) 0%nat task_faulted
              siginfo_sent SIGUSR1 1 (mk_siginfo (-1) 0 0 0 0) 0)
    as (g' & t' & H1 & H2 & _ & H3 & H4 & _ & H5 & H6 & _).
  - reflexivity.
  - reflexivity.
  - vm_compute. split; discriminate.
  - reflexivity.
  - reflexivity.
  - vm_compute. discriminate.
  - vm_compute. discriminate.
  - exists g', t'. split; [exact H1|]. split; [exact H2|].
    destruct (psm_dequeue_ve_signal _ _ _ _ _) as [sig [[[inf fl] p] sh]].
    simpl in *. subst. reflexivity.
Defined.

Lemma dropped_record_still_delivered_witness :
  exists g' t',
    psm_send_ve_signal (hdr := sample_headers) (lq := lq_mask)
      (sched := sample_scheduler) group_at_limit
      0%nat (SigInfo (siginfo_queued (SIGRTMIN + 3))) (SIGRTMIN + 3) 0 true
    = (0, g') /\
    tasks g' !! 0%nat = Some t' /\
    sig_list (pending t') = [] /\
    sigismember (signal (pending t')) (SIGRTMIN + 3) = 1 /\
    sh_ve_sigpending (sighand g') = sh_ve_sigpending (sighand group_at_limit) /\
    psm_dequeue_ve_signal (hdr := sample_headers) (mk_siginfo (-1) 0 0 7 7)
      (pending t') (blocked t') 0 (sighand g')
    = (SIGRTMIN + 3,
       (mk_siginfo (SIGRTMIN + 3) 0 SI_USER 0 0, 0, mk_sigpending [] 0,
        sighand g')) /\
    si_addr (mk_siginfo (SIGRTMIN + 3) 0 SI_USER 0 0) = 0.
Proof.
  refine (dropped_record_still_delivered (hdr := sample_headers) (lq := lq_mask)
            (sched := sample_scheduler) group_at_limit 0%nat task_demo
            (SigInfo (siginfo_queued (SIGRTMIN + 3))) (SIGRTMIN + 3) 0 true
            (mk_siginfo (-1) 0 0 7 7) 0 _ _ _ _ _ _ _).
  - reflexivity.
  - reflexivity.
  - vm_compute. split; discriminate.
  - reflexivity.
  - reflexivity.
  - vm_compute. discriminate.
  - right. split; [reflexivity|]. vm_compute. reflexivity.
Defined.

(** ** SIGCONT against the stop signals *)

Section ContStop.

Context {hdr : veos_headers} {lq : legacy_queue_macro}
  {sched : veos_scheduler}.

(** What holds of every record of the group after the group action of an
    enqueue, and of a record of the signal enqueued, holds of every record
    after the enqueue. *)
Lemma send_records (P : ve_sigqueue -> Prop) g i cur g1 inf signum fl ok :
  tasks g !! i = Some cur -> send_group_action g cur signum = Some g1 ->
  (forall j t q, tasks g1 !! j = Some t -> q ∈ sig_list (pending t) -> P q) ->
  (forall q, signo q = signum -> P q) ->
  forall j t q,
    tasks (snd (psm_send_ve_signal g i inf signum fl ok)) !! j = Some t ->
    q ∈ sig_list (pending t) -> P q.
Proof.
  intros Hi Hg H1 Hs. unfold psm_send_ve_signal. rewrite Hi, Hg.
  destruct (tasks g1 !! i) as [t1|] eqn:Hi1; [|exact H1].
  destruct (legacy_queue (pending t1) signum); [exact H1|].
  destruct (psm_ve_sigqueue_alloc _ _ _ _) as [ve_q sh] eqn:Ha.
  set (p := mk_sigpending _ _).
  pose proof (recalc_sigpending_pending (set_pending t1 p)) as Hp.
  destruct (recalc_sigpending (set_pending t1 p)) as [r t']. simpl in Hp.
  intros j t q Hj Hq.
  assert (tasks (set_sighand (set_task g1 i t') sh) !! j = Some t) as Hj'
    by (destruct (r =? 0); exact Hj).
  clear Hj. simpl in Hj'.
  destruct (decide (j = i)) as [->|Hne].
  - rewrite list_lookup_insert_eq in Hj' by (eapply lookup_lt_Some, Hi1).
    injection Hj' as <-. rewrite Hp in Hq. unfold p in Hq. simpl in Hq.
    destruct ve_q as [q0|]; [|exact (H1 i t1 q Hi1 Hq)].
    apply elem_of_app in Hq as [Hq|Hq]; [exact (H1 i t1 q Hi1 Hq)|].
    apply list_elem_of_singleton in Hq as ->. apply Hs. simpl.
    eapply alloc_signo, Ha.
  - rewrite list_lookup_insert_ne in Hj' by congruence. exact (H1 j t q Hj' Hq).
Qed.

(** X4: unless a core dump is in progress, an enqueue of SIGCONT leaves no
    record of a stop signal in the queue of any thread of the group; and in
    a state reached by enqueues and dequeues, an enqueue of a stop signal
    leaves no record of SIGCONT in the queue of any thread. *)
Theorem sigcont_and_stop_cancel g i inf signum fl ok :
  signal_flag (sighand g) <> VE_SIGNAL_GROUP_COREDUMP ->
  is_Some (tasks g !! i) ->
  let g' := snd (psm_send_ve_signal g i inf signum fl ok) in
  (signum = SIGCONT ->
   forall j t q, tasks g' !! j = Some t -> q ∈ sig_list (pending t) ->
                 sigismember VE_SIG_STOP_MASK (signo q) = 0) /\
  (ve_sig_stop signum = true -> reachable g ->
   forall j t q, tasks g' !! j = Some t -> q ∈ sig_list (pending t) ->
                 signo q <> SIGCONT).
Proof.
  intros Hf [cur Hi]. cbv zeta. split.
  - intros ->.
    assert (send_group_action g cur SIGCONT
            = Some (ve_do_group_action g (pid cur) FSIGCONTINUE SIGCONT)) as Hg.
    { unfold send_group_action.
      destruct (Z.eqb_spec (signal_flag (sighand g)) VE_SIGNAL_GROUP_COREDUMP);
        [contradiction|reflexivity]. }
    apply (send_records _ g i cur _ inf SIGCONT fl ok Hi Hg).
    + intros j t q Hj Hq.
      apply group_action_lookup in Hj as (t0 & Ht0 & ->); [|discriminate].
      rewrite continue_pending in Hq.
      apply (delete_stopping_nostop (sig_list (pending t0))
               (signal (pending t0)) q Hq).
    + intros q ->. reflexivity.
  - intros Hst Hr. pose proof (reachable_inv g Hr) as HI.
    assert (signum <> SIGCONT) as Hnc.
    { intros ->. vm_compute in Hst. discriminate Hst. }
    assert (send_group_action g cur signum
            = Some (ve_do_group_action g (pid cur) FSIGMASKING SIGCONT)) as Hg.
    { unfold send_group_action.
      destruct (Z.eqb_spec (signal_flag (sighand g)) VE_SIGNAL_GROUP_COREDUMP);
        [contradiction|].
      destruct (Z.eqb_spec signum SIGCONT); [contradiction|].
      rewrite Hst. reflexivity. }
    apply (send_records _ g i cur _ inf signum fl ok Hi Hg).
    + intros j t q Hj Hq Hc.
      apply group_action_lookup in Hj as (t0 & Ht0 & ->); [|discriminate].
      rewrite masking_pending in Hq.
      pose proof (delete_first_count SIGCONT (sig_list (pending t0))
                    (signal (pending t0)) (inv_cont g HI j t0 Ht0)) as Hs.
      exact (count_sig_elem _ _ _ Hq Hc Hs).
    + intros q ->. exact Hnc.
Qed.

End ContStop.

(** SIGTSTP is queued, then SIGCONT is sent. *)
Lemma sigcont_and_stop_cancel_witness :
  Forall (fun t =>
            Forall (fun q => sigismember VE_SIG_STOP_MASK (signo q) = 0)
              (sig_list (pending t)))
    (tasks (snd (psm_send_ve_signal (hdr := sample_headers) (lq := lq_mask)
                   (sched := sample_scheduler)
                   (run (hdr := sample_headers) (lq := lq_mask)
                      (sched := sample_scheduler)
                      [Send 0%nat SEND_SIG_PRIV SIGTSTP 0 true] group_demo)
                   0%nat SEND_SIG_PRIV SIGCONT 0 true))).
Proof.
  apply Forall_lookup_2. intros j t Hj. apply Forall_forall. intros q Hq.
  refine (proj1 (sigcont_and_stop_cancel (hdr := sample_headers) (lq := lq_mask)
                   (sched := sample_scheduler)
                   (run (hdr := sample_headers) (lq := lq_mask)
                      (sched := sample_scheduler)
                      [Send 0%nat SEND_SIG_PRIV SIGTSTP 0 true] group_demo)
                   0%nat SEND_SIG_PRIV SIGCONT 0 true _ _) eq_refl j t q Hj Hq).
  - vm_compute. discriminate.
  - eexists. reflexivity.
Defined.

(** ** The count of pending signals *)

Definition total_records (g : thread_group) : Z :=
  Z.of_nat (sum_list_with (fun t => length (sig_list (pending t))) (tasks g)).

Lemma sum_list_with_insert {A} (f : A -> nat) l i x y :
  l !! i = Some x ->
  (sum_list_with f (<[i := y]> l) + f x = sum_list_with f l + f y)%nat.
Proof.
  revert i. induction l as [|a l IH]; intros [|i] H; simpl in *;
    try discriminate.
  - injection H as ->. lia.
  - specialize (IH i H). lia.
Qed.

Lemma sum_list_with_fmap_le {A} (f : A -> nat) (h : A -> A) l :
  (forall x, f (h x) <= f x)%nat ->
  (sum_list_with f (h <$> l) <= sum_list_with f l)%nat.
Proof.
  intros Hh. induction l as [|a l IH]; [simpl; lia|].
  rewrite fmap_cons. simpl. specialize (Hh a). lia.
Qed.

Lemma unlink_first_length sig l :
  count_sig sig l <> 0%nat -> S (length (unlink_first sig l)) = length l.
Proof.
  induction l as [|q l IH]; simpl.
  - unfold count_sig. simpl. lia.
  - rewrite count_sig_cons. destruct (Z.eqb_spec (signo q) sig) as [E|E].
    + reflexivity.
    + rewrite decide_False by exact E. intros H. simpl. rewrite IH by exact H.
      reflexivity.
Qed.

Section Accounting.

Context {hdr : veos_headers} {lq : legacy_queue_macro}
  {sched : veos_scheduler}.

Lemma ve_group_action_length t fl sig n :
  (length (sig_list (pending (ve_group_action t fl sig n).1.2))
   <= length (sig_list (pending t)))%nat.
Proof.
  rewrite ve_group_action_pending. destruct fl; simpl; try lia.
  - pose proof (delete_stopping_list (sig_list (pending t)) (signal (pending t)))
      as Hl.
    destruct (delete_stopping _ _) as [l s]. simpl in *. subst l.
    apply length_filter.
  - rewrite delete_first_unlink. simpl.
    apply sublist_length, unlink_first_sublist.
Qed.

Lemma ve_do_group_action_records g rp fl sig :
  fl <> FSTOPPROC ->
  total_records (ve_do_group_action g rp fl sig) <= total_records g.
Proof.
  intros Hfl. rewrite ve_do_group_action_map by exact Hfl.
  unfold total_records. simpl.
  change (map ?f ?l) with (f <$> l).
  apply inj_le, sum_list_with_fmap_le. intros t. unfold group_action_on.
  destruct (spared fl t rp); [lia|apply ve_group_action_length].
Qed.

Lemma send_group_action_records g cur sig g1 :
  send_group_action g cur sig = Some g1 ->
  sh_ve_sigpending (sighand g1) = sh_ve_sigpending (sighand g) /\
  total_records g1 <= total_records g.
Proof.
  unfold send_group_action.
  destruct (signal_flag (sighand g) =? VE_SIGNAL_GROUP_COREDUMP).
  { destruct (sig =? SIGINT); [|discriminate].
    intros [= <-]. split; [reflexivity|]. unfold total_records. simpl. lia. }
  destruct (sig =? SIGCONT).
  { intros [= <-]. split; [apply f_equal, ve_do_group_action_sighand|].
    apply ve_do_group_action_records. discriminate. }
  destruct (ve_sig_stop sig); intros [= <-];
    [split; [apply f_equal, ve_do_group_action_sighand|]|split; [reflexivity|lia]].
  apply ve_do_group_action_records. discriminate.
Qed.

Lemma set_task_records g i t t' sh :
  tasks g !! i = Some t ->
  total_records (set_sighand (set_task g i t') sh)
  = total_records g - Z.of_nat (length (sig_list (pending t)))
    + Z.of_nat (length (sig_list (pending t'))).
Proof.
  intros Hi. unfold total_records. simpl.
  pose proof (sum_list_with_insert (fun t => length (sig_list (pending t)))
                (tasks g) i t t' Hi). lia.
Qed.

(** The count minus the number of records in all queues. *)
Definition slack (g : thread_group) : Z :=
  sh_ve_sigpending (sighand g) - total_records g.

Lemma send_slack g i inf signum fl ok :
  slack g <= slack (snd (psm_send_ve_signal g i inf signum fl ok)).
Proof.
  destruct (send_shape g i inf signum fl ok)
    as [[-> _]|[(cur & g1 & Hi & Hg & -> & _)
               |(cur & g1 & t & ve_q & sh & t' & Hi & Hg & Ht & _ & Ha & -> & Hp & _)]].
  - lia.
  - apply send_group_action_records in Hg as [Hc Hr]. unfold slack. lia.
  - apply send_group_action_records in Hg as [Hc Hr]. unfold slack.
    rewrite (set_task_records g1 i t t' sh Ht), Hp. simpl.
    revert Ha. unfold psm_ve_sigqueue_alloc.
    destruct (_ || _); [destruct ok|]; intros [= <- <-]; simpl;
      rewrite ?length_app; simpl; lia.
Qed.

Lemma ve_collect_signal_slack g i t si sig fl :
  tasks g !! i = Some t ->
  let r := ve_collect_signal si (pending t) sig fl (sighand g) in
  slack (set_sighand (set_task g i (set_pending t (snd (fst r)))) (snd r))
  = slack g.
Proof.
  intros Hi. cbv zeta. unfold slack.
  rewrite (set_task_records g i t _ _ Hi). unfold ve_collect_signal.
  pose proof (unlink_first_length sig (sig_list (pending t))) as Hl.
  unfold count_sig in Hl.
  destruct (filter (fun q => signo q = sig) (sig_list (pending t)))
    as [|q1 [|q2 l]]; simpl; [lia| |];
    specialize (Hl ltac:(simpl; lia)); simpl in Hl; lia.
Qed.

Lemma step_slack g o : slack g <= slack (step g o).
Proof.
  destruct o as [i inf signum fl ok|i sig|i]; simpl.
  - apply send_slack.
  - unfold collect_on. destruct (tasks g !! i) as [t|] eqn:Hi; [|lia].
    pose proof (ve_collect_signal_slack g i t siginfo_init sig 0 Hi) as H.
    cbv zeta in H.
    destruct (ve_collect_signal _ _ _ _ _) as [[[a b] p] sh]. simpl in H. lia.
  - unfold dequeue_on. destruct (tasks g !! i) as [t|] eqn:Hi; [|lia].
    unfold psm_dequeue_ve_signal.
    destruct (negb (psm_get_next_ve_signal (pending t) (blocked t) =? 0)).
    + pose proof (ve_collect_signal_slack g i t siginfo_init
                    (psm_get_next_ve_signal (pending t) (blocked t)) 0 Hi) as H.
      cbv zeta in H.
      destruct (ve_collect_signal _ _ _ _ _) as [[[a b] p] sh]. simpl in H. lia.
    + rewrite pending_eta. unfold slack, total_records. simpl.
      rewrite list_insert_id by exact Hi. lia.
Qed.

(** X5: along every run of enqueues and dequeues, the count of pending
    signals of the group minus the number of records in the queues of its
    threads never goes down: the count is never below the number of
    records when it started so, and a record unlinked by the group action
    of SIGCONT or of a stop signal is never given back to the count. *)
Theorem count_never_below_records ops g :
  slack g <= slack (run ops g) /\
  (total_records g <= sh_ve_sigpending (sighand g) ->
   total_records (run ops g) <= sh_ve_sigpending (sighand (run ops g))).
Proof.
  assert (slack g <= slack (run ops g)) as H.
  { unfold run. revert g. induction ops as [|o ops IH]; intros g; simpl; [lia|].
    pose proof (step_slack g o). specialize (IH (step g o)). lia. }
  split; [exact H|]. unfold slack in H. lia.
Qed.

End Accounting.

(** SIGTSTP, then SIGCONT: one record is left, two are counted. *)
Example count_leaks_on_sigcont :
  let g := run (hdr := sample_headers) (lq := lq_mask)
             (sched := sample_scheduler)
             [Send 0%nat SEND_SIG_PRIV SIGTSTP 0 true;
              Send 0%nat SEND_SIG_PRIV SIGCONT 0 true] group_demo in
  total_records g = 1 /\ sh_ve_sigpending (sighand g) = 2.
Proof. vm_compute. split; reflexivity. Qed.

End PendingQueue.

(** * Handler frames: delivery, return and their failures *)

Module HandlerFrame.
Import Word TaskSignal TaskSignalSpec PendingQueue.

Section Frames.

Context {hdr : veos_headers} {lq : legacy_queue_macro}
  {sched : veos_scheduler}.
Variable __veos_virt_to_phy : Z -> Z.

Lemma ve_getframe_regs t regs sh signum oa :
  SR regs 11 = SR (p_ve_thread t) 11 ->
  ve_getframe __veos_virt_to_phy (set_thread t regs) sh signum oa
  = ve_getframe __veos_virt_to_phy t sh signum oa.
Proof.
  intros H. unfold ve_getframe, on_sig_stack. simpl. rewrite H. reflexivity.
Qed.

Lemma psm_set_current_blocked_fields t b :
  let t' := psm_set_current_blocked t b in
  pending t' = pending t /\ sas_ss_sp t' = sas_ss_sp t /\
  sas_ss_size t' = sas_ss_size t /\ pid t' = pid t /\
  lshm t' = lshm t /\ mask_saved t' = mask_saved t /\
  ve_saved_sigmask t' = ve_saved_sigmask t /\
  usr_reg_dirty t' = usr_reg_dirty t /\
  blocked t' = sigdelset (sigdelset (sigdelset b SIGKILL) SIGCONT) SIGSTOP.
Proof.
  cbv zeta. unfold psm_set_current_blocked, recalc_sigpending.
  destruct (negb _); simpl; repeat split.
Qed.

(** The frame [setup_ve_frame] writes, and the thread it leaves. *)
Lemma setup_ve_frame_written signum t sh si fl mem :
  let va := snd (fst (ve_getframe __veos_virt_to_phy t sh signum 0)) in
  0 <= __veos_virt_to_phy va ->
  exists t' mem',
    setup_ve_frame __veos_virt_to_phy signum t sh si fl 0 mem = (0, t', mem') /\
    mem' (__veos_virt_to_phy va)
    = mk_sigframe psm_prepare_trampoline_ve si
        (mk_ucontext 0 0
           (mk_stack (sas_ss_sp t) (if on_sig_stack t then SS_ONSTACK else 0)
              (sas_ss_size t))
           (if mask_saved t then ve_saved_sigmask t else blocked t)
           (p_ve_thread t))
        (lshm t) fl signum /\
    (forall a, a <> __veos_virt_to_phy va -> mem' a = mem a) /\
    SR (p_ve_thread t') 11 = u64 (va - HANDLER_STACK_FRAME) /\
    IC (p_ve_thread t') = sa_handler (action sh (signum - 1)) /\
    SR (p_ve_thread t') 0 = signum /\
    set_thread t' (p_ve_thread t) = t.
Proof.
  cbv zeta. intros Hpa. unfold setup_ve_frame.
  pose proof (ve_getframe_phys __veos_virt_to_phy t sh signum 0) as Hp.
  destruct (ve_getframe __veos_virt_to_phy t sh signum 0) as [[pa va] oa] eqn:E.
  simpl in Hp, Hpa |- *. subst pa.
  destruct (Z.ltb_spec (__veos_virt_to_phy va) 0) as [|_]; [lia|].
  cbv beta iota zeta. simpl (negb (0 =? 0)). cbv iota.
  eexists _, _. split; [reflexivity|].
  cbv beta. rewrite Z.eqb_refl.
  split; [reflexivity|].
  split.
  { intros a Ha. destruct (Z.eqb_spec a (__veos_virt_to_phy va)); [contradiction|].
    reflexivity. }
  repeat split; try (destruct (negb (oa =? 0)); reflexivity).
  destruct t; reflexivity.
Qed.

(** [psm_restore_ve_context] when the stack pointer is read and the frame
    above it is found and read. *)
Lemma psm_restore_ve_context_read g i t rd sp mem ok :
  tasks g !! i = Some t ->
  read_curr_sp rd t = Some sp ->
  let pa := __veos_virt_to_phy (u64 (sp + HANDLER_STACK_FRAME)) in
  0 <= pa ->
  exists r g' evs t',
    psm_restore_ve_context __veos_virt_to_phy g i rd 0 mem ok
    = Some (r, g', evs) /\
    tasks g' !! i = Some t' /\
    (forall j, j <> i -> tasks g' !! j = tasks g !! j) /\
    sighand g' = sighand g /\
    p_ve_thread t' = uc_mcontext (uc (mem pa)) /\
    blocked t' = uc_sigmask (uc (mem pa)) /\
    lshm t' = lshm_area (mem pa) /\
    usr_reg_dirty t' = true /\
    pending t' = pending t /\
    sas_ss_sp t' = sas_ss_sp t /\ sas_ss_size t' = sas_ss_size t /\
    (sf_flag (mem pa) = 0 -> r = 0 /\ evs = []) /\
    (sf_flag (mem pa) <> 0 ->
     r = -1 /\ evs = [Kill (pid t) (sf_signum (mem pa))]).
Proof.
  intros Hi Hsp. cbv zeta. intros Hpa. unfold psm_restore_ve_context.
  rewrite Hi, Hsp.
  destruct (Z.ltb_spec (__veos_virt_to_phy
      (u64 (sp + HANDLER_STACK_FRAME))) 0) as [|_]; [lia|].
  simpl orb. cbv iota.
  destruct (Z.eqb_spec (sf_flag (mem (__veos_virt_to_phy
      (u64 (sp + HANDLER_STACK_FRAME))))) 0) as [E|E];
    simpl negb; cbv iota; eexists _, _, _, _;
    (split; [reflexivity|]);
    (split; [eapply set_task_lookup, Hi|]);
    (split; [intros j Hj; simpl; apply list_lookup_insert_ne; congruence|]);
    (split; [reflexivity|]);
    unfold recalc_sigpending; try destruct (negb _); simpl;
    repeat split; try reflexivity; try tauto; try (intros; contradiction).
Qed.

(** A delivery whose frame is written, followed by the return from the
    handler. *)
Lemma handle_then_restore g i t fl signum si mem ok :
  tasks g !! i = Some t ->
  let va := snd (fst (ve_getframe __veos_virt_to_phy t (sighand g) signum 0)) in
  0 <= __veos_virt_to_phy va ->
  exists g1 mem1 t1 regs0,
    ve_handle_signal __veos_virt_to_phy g i fl signum si 0 mem ok = (0, g1, mem1) /\
    tasks g1 !! i = Some t1 /\
    IC (p_ve_thread t1) = sa_handler (action (sighand g) (signum - 1)) /\
    SR (p_ve_thread t1) 0 = signum /\
    mask_saved t1 = false /\
    uc_mcontext (uc (mem1 (__veos_virt_to_phy va))) = regs0 /\
    (SR (p_ve_thread t) 0 <> u64 (- VE_ENORESTART) ->
     SR (p_ve_thread t) 0 <> u64 (- VE_ERESTARTSYS) -> regs0 = p_ve_thread t) /\
    u64 (SR (p_ve_thread t1) 11 + HANDLER_STACK_FRAME) = va /\
    forall rd ok',
      (read_curr_sp rd t1 = None ->
       psm_restore_ve_context __veos_virt_to_phy g1 i rd 0 mem1 ok' = None) /\
      (forall sp,
         read_curr_sp rd t1 = Some sp ->
         u64 (sp + HANDLER_STACK_FRAME) = va ->
         exists r g2 evs t2,
           psm_restore_ve_context __veos_virt_to_phy g1 i rd 0 mem1 ok'
           = Some (r, g2, evs) /\
           tasks g2 !! i = Some t2 /\
           p_ve_thread t2 = regs0 /\
           blocked t2 = (if mask_saved t then ve_saved_sigmask t else blocked t) /\
           lshm t2 = lshm t /\ pending t2 = pending t /\
           sas_ss_sp t2 = sas_ss_sp t /\ sas_ss_size t2 = sas_ss_size t /\
           (fl = 0 -> r = 0 /\ evs = []) /\
           (fl <> 0 -> r = -1 /\ evs = [Kill (pid t) signum])).
Proof.
  intros Hi. cbv zeta. intros Hpa.
  unfold ve_handle_signal. rewrite Hi.
  set (regs := if SR (p_ve_thread t) 0 =? u64 (- VE_ENORESTART) then _ else _).
  assert (SR regs 11 = SR (p_ve_thread t) 11) as H11.
  { unfold regs. repeat (destruct (_ =? _); simpl); reflexivity. }
  assert (SR (p_ve_thread t) 0 <> u64 (- VE_ENORESTART) ->
          SR (p_ve_thread t) 0 <> u64 (- VE_ERESTARTSYS) ->
          regs = p_ve_thread t) as Hregs.
  { intros H1 H2. unfold regs.
    destruct (Z.eqb_spec (SR (p_ve_thread t) 0) (u64 (- VE_ENORESTART)));
      [contradiction|].
    destruct (Z.eqb_spec (SR (p_ve_thread t) 0) (u64 (- VE_ERESTARTSYS)));
      [contradiction|reflexivity]. }
  pose proof (ve_getframe_regs t regs (sighand g) signum 0 H11) as Hgf.
  destruct (setup_ve_frame_written signum (set_thread t regs) (sighand g) si fl mem)
    as (t1 & mem1 & Hsetup & Hframe & _ & HSP & HIC & HS0 & Hsame).
  { rewrite Hgf. exact Hpa. }
  rewrite Hgf in Hframe, HSP. simpl in Hframe.
  pose proof (f_equal pending Hsame) as Hp1.
  pose proof (f_equal sas_ss_sp Hsame) as Hsp1.
  pose proof (f_equal sas_ss_size Hsame) as Hsz1.
  pose proof (f_equal pid Hsame) as Hpid1.
  simpl in Hp1, Hsp1, Hsz1, Hpid1. clear Hsame.
  rewrite Hsetup. cbv iota beta. simpl (0 <? 0). cbv iota.
  set (blk := if Z.land _ SA_NODEFER =? 0 then _ else _).
  set (sh' := if negb _ then _ else _).
  set (t2 := psm_set_current_blocked (set_mask_saved t1 false) blk).
  assert (tasks (set_sighand (set_task (set_task g i t1) i t2) sh') !! i = Some t2)
    as Hi2.
  { apply (set_task_lookup _ _ _ t1), (set_task_lookup _ _ _ t), Hi. }
  assert (p_ve_thread t2 = p_ve_thread t1) as Hth2.
  { unfold t2. rewrite psm_set_current_blocked_thread. reflexivity. }
  eexists _, mem1, t2, regs. split; [reflexivity|].
  split; [exact Hi2|]. rewrite Hth2.
  split; [exact HIC|]. split; [exact HS0|].
  split.
  { destruct (psm_set_current_blocked_fields (set_mask_saved t1 false) blk)
      as (_ & _ & _ & _ & _ & E & _). exact E. }
  split; [rewrite Hframe; reflexivity|]. split; [exact Hregs|].
  split; [rewrite HSP, u64_sub_add; apply ve_getframe_vir_u64|].
  intros rd ok'. split.
  { intros Hnone. unfold psm_restore_ve_context. rewrite Hi2, Hnone. reflexivity. }
  intros sp Hrd Hva.
  destruct (psm_restore_ve_context_read _ i t2 rd sp mem1 ok' Hi2 Hrd)
    as (r & g2 & evs & t3 & Hr & Hl & _ & _ & Hth & Hbl & Hls & _ & Hpe & Hsp & Hsz
        & Hf0 & Hf1).
  { rewrite Hva. exact Hpa. }
  rewrite Hva, Hframe in *.
  simpl in *.
  assert (pending t2 = pending t /\ sas_ss_sp t2 = sas_ss_sp t /\
          sas_ss_size t2 = sas_ss_size t /\ pid t2 = pid t)
    as (Hp2 & Hsp2 & Hsz2 & Hpid2).
  { destruct (psm_set_current_blocked_fields (set_mask_saved t1 false) blk)
      as (E1 & E2 & E3 & E4 & _).
    fold t2 in E1, E2, E3, E4. simpl in E1, E2, E3, E4.
    repeat split; congruence. }
  exists r, g2, evs, t3. split; [exact Hr|]. split; [exact Hl|].
  split; [exact Hth|]. split; [exact Hbl|]. split; [exact Hls|].
  split; [congruence|]. split; [congruence|]. split; [congruence|].
  split; [exact Hf0|]. intros Hfl. rewrite <- Hpid2. exact (Hf1 Hfl).
Qed.

(** X6: a handler frame is a faithful copy.  When the frame address has a
    translation and the transfers succeed, [ve_handle_signal] returns 0,
    the frame in memory holds the registers of the thread as they were
    when the frame was saved (its registers on entry, when no system call
    was interrupted), and the stack pointer given to the handler
    designates the frame.  [psm_restore_ve_context], whether it reads the
    stack pointer from the task or from the core, looks for the frame
    above the stack pointer it read: when that is the frame of the
    delivery it gives the thread those registers back, with the signal
    mask it had before the delivery (the saved mask when one was saved,
    which the delivery uses up), its lshm area, and its queue and
    alternate stack untouched.  It returns 0, unless the flag saved in the
    frame is set (the signal came from an exception): then the process is
    killed with that signal and -1 is returned.  When the read from the
    core fails veos is aborted. *)
Theorem sigreturn_round_trip g i t fl signum si mem ok :
  tasks g !! i = Some t ->
  let va := snd (fst (ve_getframe __veos_virt_to_phy t (sighand g) signum 0)) in
  0 <= __veos_virt_to_phy va ->
  exists g1 mem1 t1 regs0,
    ve_handle_signal __veos_virt_to_phy g i fl signum si 0 mem ok = (0, g1, mem1) /\
    tasks g1 !! i = Some t1 /\
    IC (p_ve_thread t1) = sa_handler (action (sighand g) (signum - 1)) /\
    SR (p_ve_thread t1) 0 = signum /\
    mask_saved t1 = false /\
    uc_mcontext (uc (mem1 (__veos_virt_to_phy va))) = regs0 /\
    (SR (p_ve_thread t) 0 <> u64 (- VE_ENORESTART) ->
     SR (p_ve_thread t) 0 <> u64 (- VE_ERESTARTSYS) -> regs0 = p_ve_thread t) /\
    u64 (SR (p_ve_thread t1) 11 + HANDLER_STACK_FRAME) = va /\
    forall rd ok',
      (read_curr_sp rd t1 = None ->
       psm_restore_ve_context __veos_virt_to_phy g1 i rd 0 mem1 ok' = None) /\
      (forall sp,
         read_curr_sp rd t1 = Some sp ->
         u64 (sp + HANDLER_STACK_FRAME) = va ->
         exists r g2 evs t2,
           psm_restore_ve_context __veos_virt_to_phy g1 i rd 0 mem1 ok'
           = Some (r, g2, evs) /\
           tasks g2 !! i = Some t2 /\
           p_ve_thread t2 = regs0 /\
           blocked t2 = (if mask_saved t then ve_saved_sigmask t else blocked t) /\
           lshm t2 = lshm t /\ pending t2 = pending t /\
           sas_ss_sp t2 = sas_ss_sp t /\ sas_ss_size t2 = sas_ss_size t /\
           (fl = 0 -> r = 0 /\ evs = []) /\
           (fl <> 0 -> r = -1 /\ evs = [Kill (pid t) signum])).
Proof. exact (handle_then_restore g i t fl signum si mem ok). Qed.

(** X7: [psm_restore_ve_context] takes the frame as it finds it.  It
    reads the stack pointer from the core when the task is on it (and
    aborts veos when that fails) and from the task otherwise; when the
    frame above that stack pointer is found and read, the registers, the
    lshm area and the signal mask of the thread become those of the frame,
    the mask as it is, SIGKILL, SIGSTOP and SIGCONT included; the pending
    queue and the other threads are not touched.  When the flag of the
    frame is set the process is killed with the signal number of the frame
    and -1 is returned. *)
Theorem restore_takes_frame_as_is g i t rd mem ok :
  tasks g !! i = Some t ->
  (read_curr_sp rd t = None ->
   psm_restore_ve_context __veos_virt_to_phy g i rd 0 mem ok = None) /\
  (forall sp,
     read_curr_sp rd t = Some sp ->
     let pa := __veos_virt_to_phy (u64 (sp + HANDLER_STACK_FRAME)) in
     0 <= pa ->
     exists r g' evs t',
       psm_restore_ve_context __veos_virt_to_phy g i rd 0 mem ok
       = Some (r, g', evs) /\
       tasks g' !! i = Some t' /\
       (forall j, j <> i -> tasks g' !! j = tasks g !! j) /\
       p_ve_thread t' = uc_mcontext (uc (mem pa)) /\
       (forall s,
          sigismember (blocked t') s = sigismember (uc_sigmask (uc (mem pa))) s) /\
       lshm t' = lshm_area (mem pa) /\
       pending t' = pending t /\
       (sf_flag (mem pa) = 0 -> r = 0 /\ evs = []) /\
       (sf_flag (mem pa) <> 0 ->
        r = -1 /\ evs = [Kill (pid t) (sf_signum (mem pa))])).
Proof.
  intros Hi. split.
  { intros Hnone. unfold psm_restore_ve_context. rewrite Hi, Hnone. reflexivity. }
  intros sp Hsp. cbv zeta. intros Hpa.
  destruct (psm_restore_ve_context_read g i t rd sp mem ok Hi Hsp Hpa)
    as (r & g' & evs & t' & Hr & Hl & Hj & _ & Hth & Hbl & Hls & _ & Hpe & _ & _
        & Hf0 & Hf1).
  exists r, g', evs, t'. split; [exact Hr|]. split; [exact Hl|].
  split; [exact Hj|]. split; [exact Hth|].
  split; [intros s; rewrite Hbl; reflexivity|].
  split; [exact Hls|]. split; [exact Hpe|]. split; assumption.
Qed.

(** An enqueue of a signal that is neither SIGCONT nor a stop signal, with
    no core dump in progress. *)
Lemma send_plain_result g i t inf s fl ok :
  tasks g !! i = Some t ->
  signal_flag (sighand g) <> VE_SIGNAL_GROUP_COREDUMP ->
  s <> SIGCONT -> ve_sig_stop s = false -> 1 <= s <= 64 ->
  reserved_signal s = false ->
  let g' := snd (psm_send_ve_signal g i inf s fl ok) in
  (legacy_queue (pending t) s = true -> g' = g) /\
  (legacy_queue (pending t) s = false ->
   action (sighand g') = action (sighand g) /\
   exists t',
     tasks g' !! i = Some t' /\ blocked t' = blocked t /\
     p_ve_thread t' = p_ve_thread t /\
     sigismember (signal (pending t')) s = 1 /\
     (sigismember (blocked t) s = 0 -> sigpending t' = SIGNAL_PENDING)).
Proof.
  intros Hi Hf Hc Hst Hs Hres. cbv zeta.
  split; [intros Hl; eapply send_plain_coalesced; eassumption|].
  intros Hl. unfold psm_send_ve_signal.
  rewrite Hi, (send_group_action_plain g t s Hf Hc Hst), Hi, Hl.
  destruct (psm_ve_sigqueue_alloc _ _ _ _) as [ve_q sh] eqn:Ha.
  assert (action sh = action (sighand g)) as Hact.
  { revert Ha. unfold psm_ve_sigqueue_alloc.
    destruct (_ || _); [destruct ok|]; intros [= _ <-]; reflexivity. }
  set (p := mk_sigpending _ _).
  assert (sigismember (signal p) s = 1) as Hbit
    by (apply (sigismember_sigaddset _ s s Hs Hres); left; reflexivity).
  assert (sigismember (blocked t) s = 0 ->
          recalc_sigpending (set_pending t p)
          = (1, set_sigpending (set_pending t p) SIGNAL_PENDING)) as Hrec.
  { intros Hb. apply (recalc_sigpending_deliverable _ s). split; assumption. }
  destruct (recalc_sigpending (set_pending t p)) as [r t'] eqn:Hr.
  assert (t' = set_sigpending (set_pending t p) (sigpending t')) as Ht'.
  { revert Hr. unfold recalc_sigpending.
    destruct (negb _); intros [= _ <-]; reflexivity. }
  assert (tasks (if r =? 0
                 then (-1, set_sighand (set_task g i t') sh)
                 else (0, set_sighand (set_task g i t') sh)).2 !! i = Some t')
    as Hlk.
  { destruct (r =? 0); simpl;
      apply list_lookup_insert_eq; eapply lookup_lt_Some, Hi. }
  split; [destruct (r =? 0); exact Hact|].
  exists t'. split; [exact Hlk|].
  split; [rewrite Ht'; reflexivity|]. split; [rewrite Ht'; reflexivity|].
  split; [rewrite Ht'; exact Hbit|].
  intros Hb. injection (Hrec Hb) as _ ->. reflexivity.
Qed.

Lemma ve_force_sigsegv_spec g i t ok :
  tasks g !! i = Some t ->
  signal_flag (sighand g) <> VE_SIGNAL_GROUP_COREDUMP ->
  (legacy_queue (pending t) SIGSEGV = true ->
   sigismember (signal (pending t)) SIGSEGV = 1) ->
  let g' := ve_force_sigsegv SIGSEGV g i ok in
  sa_handler (action (sighand g') (SIGSEGV - 1)) = SIG_DFL /\
  exists t',
    tasks g' !! i = Some t' /\
    sigismember (blocked t') SIGSEGV = 0 /\
    sigismember (signal (pending t')) SIGSEGV = 1 /\
    p_ve_thread t' = p_ve_thread t.
Proof.
  intros Hi Hf Hlq. cbv zeta. unfold ve_force_sigsegv. rewrite Hi.
  set (sh := if negb _ then _ else sighand g).
  set (t0 := if negb (sigismember (blocked t) SIGSEGV =? 0) then _ else t).
  assert (sa_handler (action sh (SIGSEGV - 1)) = SIG_DFL) as Hh.
  { unfold sh.
    destruct (Z.eqb_spec (sa_handler (action (sighand g) (SIGSEGV - 1))) SIG_DFL)
      as [E|E]; simpl; [exact E|reflexivity]. }
  assert (signal_flag sh = signal_flag (sighand g)) as Hsf
    by (unfold sh;
        destruct (negb (sa_handler (action (sighand g) (SIGSEGV - 1)) =? SIG_DFL));
        reflexivity).
  assert (pending t0 = pending t /\ p_ve_thread t0 = p_ve_thread t) as [Hp0 Hth0]
    by (unfold t0; destruct (negb (sigismember (blocked t) SIGSEGV =? 0));
        split; reflexivity).
  assert (sigismember (blocked t0) SIGSEGV = 0) as Hb0.
  { unfold t0.
    destruct (Z.eqb_spec (sigismember (blocked t) SIGSEGV) 0) as [E|E]; simpl;
      [exact E|].
    destruct (sigismember_cases (sigdelset (blocked t) SIGSEGV) SIGSEGV
                ltac:(unfold SIGSEGV; lia)) as [H|H]; [exact H|].
    apply sigismember_sigdelset in H; [tauto|reflexivity]. }
  set (g0 := set_sighand (set_task g i t0) sh).
  assert (tasks g0 !! i = Some t0) as Hi0
    by (apply (set_task_lookup _ _ _ t), Hi).
  destruct (send_plain_result g0 i t0 SEND_SIG_PRIV SIGSEGV
              (if SYNCHRONOUS_SIGNAL =? 0 then 1 else 0) ok Hi0)
    as [Hco Hq]; try (unfold SIGSEGV, SIGCONT; lia); try reflexivity.
  { simpl. rewrite Hsf. exact Hf. }
  destruct (legacy_queue (pending t0) SIGSEGV) eqn:Hl.
  - rewrite (Hco eq_refl). split; [exact Hh|].
    exists t0. split; [exact Hi0|]. split; [exact Hb0|].
    split; [|exact Hth0]. rewrite Hp0 in *. auto.
  - destruct (Hq eq_refl) as (Hact & t' & Ht' & Hb' & Hth' & Hm' & _).
    split; [rewrite Hact; exact Hh|].
    exists t'. split; [exact Ht'|]. split; [congruence|].
    split; [exact Hm'|congruence].
Qed.

(** X8: when the frame of the handler cannot be written (its address has
    no translation, or the transfer fails), [ve_handle_signal] returns
    -EFAULT; with no translation no transfer is tried, and the memory is
    as it was.  When the frame cannot be read back (the address above the
    stack pointer read from the task or from the core has no translation,
    or the transfer fails), [psm_restore_ve_context] returns -EFAULT.  In
    both cases SIGSEGV is forced on the thread: its action is the default
    one, it is not blocked, and it is pending.  (No core dump is in
    progress, and [legacy_queue] holds of SIGSEGV only when its bit is
    set.) *)
Theorem frame_fault_forces_sigsegv g i t ok :
  tasks g !! i = Some t ->
  signal_flag (sighand g) <> VE_SIGNAL_GROUP_COREDUMP ->
  (legacy_queue (pending t) SIGSEGV = true ->
   sigismember (signal (pending t)) SIGSEGV = 1) ->
  let forced (g' : thread_group) :=
    sa_handler (action (sighand g') (SIGSEGV - 1)) = SIG_DFL /\
    exists t',
      tasks g' !! i = Some t' /\
      sigismember (blocked t') SIGSEGV = 0 /\
      sigismember (signal (pending t')) SIGSEGV = 1 in
  (forall fl signum si dma_status mem,
     let pa := __veos_virt_to_phy
                 (snd (fst (ve_getframe __veos_virt_to_phy t (sighand g)
                              signum 0))) in
     pa < 0 \/ dma_status <> 0 ->
     exists g' mem',
       ve_handle_signal __veos_virt_to_phy g i fl signum si dma_status mem ok
       = (- EFAULT, g', mem') /\ forced g' /\ (pa < 0 -> mem' = mem)) /\
  (forall rd sp dma_status mem,
     read_curr_sp rd t = Some sp ->
     __veos_virt_to_phy (u64 (sp + HANDLER_STACK_FRAME)) < 0 \/
     dma_status <> 0 ->
     exists g',
       psm_restore_ve_context __veos_virt_to_phy g i rd dma_status mem ok
       = Some (- EFAULT, g', []) /\ forced g').
Proof.
  intros Hi Hf Hlq. cbv zeta. split.
  - intros fl signum si dma_status mem Hfail.
    unfold ve_handle_signal. rewrite Hi.
    set (regs := if SR (p_ve_thread t) 0 =? u64 (- VE_ENORESTART) then _ else _).
    assert (SR regs 11 = SR (p_ve_thread t) 11) as H11.
    { unfold regs. repeat (destruct (_ =? _); simpl); reflexivity. }
    pose proof (ve_getframe_regs t regs (sighand g) signum 0 H11) as Hgf.
    pose proof (ve_getframe_phys __veos_virt_to_phy t (sighand g) signum 0) as Hp.
    assert (setup_ve_frame __veos_virt_to_phy signum (set_thread t regs)
              (sighand g) si fl dma_status mem
            = (- EFAULT, set_thread t regs, mem)) as ->.
    { unfold setup_ve_frame. rewrite Hgf.
      destruct (ve_getframe __veos_virt_to_phy t (sighand g) signum 0)
        as [[pa va] oa]. simpl in Hp, Hfail. subst pa.
      destruct (Z.ltb_spec (__veos_virt_to_phy va) 0) as [|Hge]; [reflexivity|].
      destruct Hfail as [Hlt|Hd]; [lia|].
      destruct (Z.eqb_spec dma_status 0); [contradiction|reflexivity]. }
    cbv iota beta. unfold EFAULT at 1. simpl (- 14 <? 0). cbv iota.
    eexists _, _. split; [reflexivity|].
    destruct (ve_force_sigsegv_spec (set_task g i (set_thread t regs)) i
                (set_thread t regs) ok)
      as (Hh & t' & Ht' & Hb' & Hm' & _); try assumption.
    { apply (set_task_lookup _ _ _ t), Hi. }
    split; [|reflexivity]. split; [exact Hh|]. exists t'. auto.
  - intros rd sp dma_status mem Hsp Hfail.
    unfold psm_restore_ve_context. rewrite Hi, Hsp.
    assert ((__veos_virt_to_phy (u64 (sp + HANDLER_STACK_FRAME)) <? 0)
            || negb (dma_status =? 0) = true) as ->.
    { apply orb_true_iff. destruct Hfail as [Hlt|Hd].
      - left. apply Z.ltb_lt. exact Hlt.
      - right. destruct (Z.eqb_spec dma_status 0); [contradiction|reflexivity]. }
    eexists. split; [reflexivity|].
    destruct (ve_force_sigsegv_spec g i t ok Hi Hf Hlq)
      as (Hh & t' & Ht' & Hb' & Hm' & _).
    split; [exact Hh|]. exists t'. auto.
Qed.

End Frames.

(** A frame whose mask holds SIGKILL: after the return from the handler
    SIGKILL is blocked, which [psm_set_current_blocked] never allows. *)
Definition memory_with_sigkill_masked : ve_memory :=
  fun _ =>
    mk_sigframe (fun _ => 0) (mk_siginfo 0 0 0 0 0)
      (mk_ucontext 0 0 (mk_stack 0 0 0) (ve_mask SIGKILL) (p_ve_thread task_demo))
      [] 0 0.

Example restore_can_block_sigkill :
  (fun r => (fun t => sigismember (blocked t) SIGKILL)
              <$> (tasks (snd (fst r)) !! 0%nat))
    <$> psm_restore_ve_context (hdr := sample_headers) (lq := lq_mask)
          (sched := sample_scheduler)
          (fun a => a) group_demo 0%nat NotOnCore 0 memory_with_sigkill_masked true
  = Some (Some 1) /\
  sigismember (blocked (psm_set_current_blocked (hdr := sample_headers)
                          task_demo (ve_mask SIGKILL))) SIGKILL = 0.
Proof. vm_compute. split; reflexivity. Qed.

(** A delivery, and the return from the handler of a task that is on its
    core, with the stack pointer the handler was given. *)
Lemma sigreturn_round_trip_witness :
  exists g1 mem1 t1,
    ve_handle_signal (hdr := sample_headers) (lq := lq_mask)
      (sched := sample_scheduler) (fun a => a)
      group_demo 0%nat 0 SIGUSR1 (mk_siginfo SIGUSR1 0 0 0 0) 0
      (fun _ => frame_zero) true = (0, g1, mem1) /\
    tasks g1 !! 0%nat = Some t1 /\
    IC (p_ve_thread t1) = 0x4000 /\
    forall ok', exists r g2 evs t2,
      psm_restore_ve_context (hdr := sample_headers) (lq := lq_mask)
        (sched := sample_scheduler)
        (fun a => a) g1 0%nat (OnCore (Some (SR (p_ve_thread t1) 11))) 0 mem1 ok'
      = Some (r, g2, evs) /\
      tasks g2 !! 0%nat = Some t2 /\
      blocked t2 = 0 /\ pending t2 = mk_sigpending [] 0 /\ r = 0.
Proof.
  destruct (sigreturn_round_trip (hdr := sample_headers) (lq := lq_mask)
              (sched := sample_scheduler)
              (fun a => a) group_demo 0%nat task_demo 0 SIGUSR1
              (mk_siginfo SIGUSR1 0 0 0 0) (fun _ => frame_zero) true)
    as (g1 & mem1 & t1 & regs0 & H1 & H2 & H3 & _ & _ & _ & _ & H7 & H8).
  - reflexivity.
  - vm_compute. discriminate.
  - exists g1, mem1, t1. split; [exact H1|]. split; [exact H2|].
    split; [exact H3|]. intros ok'.
    destruct (proj2 (H8 (OnCore (Some (SR (p_ve_thread t1) 11))) ok')
                (SR (p_ve_thread t1) 11) eq_refl H7)
      as (r & g2 & evs & t2 & R1 & R2 & _ & R4 & _ & R6 & _ & _ & R9 & _).
    exists r, g2, evs, t2. split; [exact R1|]. split; [exact R2|].
    split; [exact R4|]. split; [exact R6|]. exact (proj1 (R9 eq_refl)).
Defined.

Lemma restore_takes_frame_as_is_witness :
  exists r g' evs t',
    psm_restore_ve_context (hdr := sample_headers) (lq := lq_mask)
      (sched := sample_scheduler)
      (fun a => a) group_demo 0%nat (OnCore (Some 0x9000)) 0
      memory_with_sigkill_masked true
    = Some (r, g', evs) /\
    tasks g' !! 0%nat = Some t' /\
    sigismember (blocked t') SIGKILL = 1.
Proof.
  destruct (proj2 (restore_takes_frame_as_is (hdr := sample_headers)
                     (lq := lq_mask) (sched := sample_scheduler)
                     (fun a => a) group_demo 0%nat task_demo
                     (OnCore (Some 0x9000)) memory_with_sigkill_masked true
                     eq_refl) 0x9000 eq_refl)
    as (r & g' & evs & t' & H1 & H2 & _ & _ & H5 & _).
  - vm_compute. discriminate.
  - exists r, g', evs, t'. split; [exact H1|]. split; [exact H2|].
    rewrite H5. reflexivity.
Defined.

(** A thread whose stack pointer has no translation. *)
Lemma frame_fault_forces_sigsegv_witness :
  exists g',
    ve_handle_signal (hdr := sample_headers) (lq := lq_mask)
      (sched := sample_scheduler) (fun _ => -1)
      group_demo 0%nat 0 SIGUSR1 (mk_siginfo SIGUSR1 0 0 0 0) 0
      (fun _ => frame_zero) true = (- EFAULT, g', fun _ => frame_zero) /\
    sa_handler (action (sighand g') (SIGSEGV - 1)) = SIG_DFL /\
    exists t',
      tasks g' !! 0%nat = Some t' /\
      sigismember (blocked t') SIGSEGV = 0 /\
      sigismember (signal (pending t')) SIGSEGV = 1.
Proof.
  destruct (frame_fault_forces_sigsegv (hdr := sample_headers) (lq := lq_mask)
              (sched := sample_scheduler)
              (fun _ => -1) group_demo 0%nat task_demo true)
    as [H _].
  - reflexivity.
  - vm_compute. discriminate.
  - intros H. vm_compute in H. discriminate H.
  - destruct (H 0 SIGUSR1 (mk_siginfo SIGUSR1 0 0 0 0) 0 (fun _ => frame_zero))
      as (g' & mem' & H1 & [H2 H3] & H4).
    + left. reflexivity.
    + exists g'. rewrite (H4 eq_refl) in H1.
      split; [exact H1|]. split; [exact H2|exact H3].
Defined.

End HandlerFrame.

(** * The handlers of the signal system calls *)

Module SignalCalls.
Import Word TaskSignal TaskSignalSpec SignalApi PendingQueue HandlerFrame.

(** The signals no mask may hold. *)
Definition unmaskable (s : Z) : Prop :=
  s = SIGKILL \/ s = SIGSTOP \/ s = SIGCONT.

Lemma sigismember_sigorset a b s :
  sigismember (sigorset a b) s = 1
  <-> sigismember a s = 1 \/ sigismember b s = 1.
Proof.
  rewrite !sigismember_1. unfold sigorset.
  rewrite Z.lor_spec, orb_true_iff. tauto.
Qed.

Lemma sigismember_sigandset a b s :
  sigismember (sigandset a b) s = 1
  <-> sigismember a s = 1 /\ sigismember b s = 1.
Proof.
  rewrite !sigismember_1. unfold sigandset.
  rewrite Z.land_spec, andb_true_iff. tauto.
Qed.

Lemma sigismember_kill_cont_stop b s :
  sigismember (sigdelset (sigdelset (sigdelset b SIGKILL) SIGCONT) SIGSTOP) s = 1
  <-> ~ unmaskable s /\ sigismember b s = 1.
Proof. rewrite !sigismember_sigdelset by reflexivity. unfold unmaskable. tauto. Qed.

Lemma sigismember_kill_stop_cont b s :
  sigismember (sigdelset (sigdelset (sigdelset b SIGKILL) SIGSTOP) SIGCONT) s = 1
  <-> ~ unmaskable s /\ sigismember b s = 1.
Proof. rewrite !sigismember_sigdelset by reflexivity. unfold unmaskable. tauto. Qed.

Section Calls.

Context {hdr : veos_headers} {lq : legacy_queue_macro} {sm : signal_macros}
  {sched : veos_scheduler}.

(** The flag [psm_set_current_blocked] leaves tells whether a signal can
    be delivered under the new mask. *)
Lemma psm_set_current_blocked_flag t b :
  let t' := psm_set_current_blocked t b in
  (forall s, deliverable (pending t') (blocked t') s ->
             sigpending t' = SIGNAL_PENDING) /\
  ((forall s, ~ deliverable (pending t') (blocked t') s) -> sigpending t' = 0).
Proof.
  cbv zeta. unfold psm_set_current_blocked, recalc_sigpending.
  set (tb := set_blocked t _).
  change (Z.land (signal (pending tb)) (lnot64 (blocked tb)))
    with (effective (pending tb) (blocked tb)).
  pose proof (effective_nonzero (pending tb) (blocked tb)) as He.
  destruct (Z.eqb_spec (effective (pending tb) (blocked tb)) 0) as [E|E];
    simpl; split.
  - intros s Hs. exfalso. apply (proj2 He); [exists s; exact Hs|exact E].
  - reflexivity.
  - reflexivity.
  - intros Hn. destruct (proj1 He E) as [s Hs]. destruct (Hn s Hs).
Qed.

Lemma psm_set_current_blocked_member t b s :
  sigismember (blocked (psm_set_current_blocked t b)) s = 1
  <-> ~ unmaskable s /\ sigismember b s = 1.
Proof.
  destruct (psm_set_current_blocked_fields t b)
    as (_ & _ & _ & _ & _ & _ & _ & _ & ->).
  apply sigismember_kill_cont_stop.
Qed.

(** X9: [psm_do_sigprocmask] always hands back the mask the thread had and
    never touches the pending queue.  With [store_mask] = 1 it blocks
    nothing now: it stores the new set, without SIGKILL, SIGSTOP and
    SIGCONT, as the mask to install later.  Otherwise, when [mask] is set,
    SIG_BLOCK adds the new set to the mask, SIG_SETMASK replaces the mask
    by it and an unknown [how] keeps the mask, in each case without
    SIGKILL, SIGSTOP and SIGCONT, which no value of [how] can block; the
    flag of the thread then tells whether a pending signal is deliverable
    under the new mask.  When [mask] is not set the thread is left as it
    was. *)
Theorem psm_do_sigprocmask_spec t m :
  let t' := (psm_do_sigprocmask t m).1 in
  oldset (psm_do_sigprocmask t m).2 = blocked t /\
  pending t' = pending t /\
  (store_mask m = 1 ->
   blocked t' = blocked t /\ mask_saved t' = true /\
   forall s, sigismember (ve_saved_sigmask t') s = 1
             <-> ~ unmaskable s /\ sigismember (newset m) s = 1) /\
  (store_mask m <> 1 -> mask m = true ->
   (forall s, unmaskable s -> sigismember (blocked t') s <> 1) /\
   (forall s, ~ unmaskable s ->
      (how m = SIG_BLOCK ->
       sigismember (blocked t') s = 1
       <-> sigismember (blocked t) s = 1 \/ sigismember (newset m) s = 1) /\
      (how m = SIG_SETMASK ->
       sigismember (blocked t') s = 1 <-> sigismember (newset m) s = 1) /\
      (how m <> SIG_BLOCK -> how m <> SIG_UNBLOCK -> how m <> SIG_SETMASK ->
       sigismember (blocked t') s = 1 <-> sigismember (blocked t) s = 1)) /\
   (forall s, deliverable (pending t') (blocked t') s ->
              sigpending t' = SIGNAL_PENDING) /\
   ((forall s, ~ deliverable (pending t') (blocked t') s) ->
    sigpending t' = 0) /\
   ve_saved_sigmask t' = ve_saved_sigmask t /\
   mask_saved t' = mask_saved t) /\
  (store_mask m <> 1 -> mask m = false -> t' = t).
Proof.
  cbv zeta. unfold psm_do_sigprocmask.
  destruct (Z.eqb_spec 1 (store_mask m)) as [E1|E1].
  - simpl. split; [reflexivity|]. split; [reflexivity|].
    split; [|split; intros; congruence].
    intros _. split; [reflexivity|]. split; [reflexivity|].
    intros s. apply sigismember_kill_stop_cont.
  - destruct (mask m) eqn:Em.
    + cbv zeta. cbn [fst snd oldset].
      set (nb := if how m =? SIG_BLOCK then _ else _).
      destruct (psm_set_current_blocked_fields t nb)
        as (Hp & _ & _ & _ & _ & Hms & Hsv & _ & _).
      split; [reflexivity|]. split; [exact Hp|].
      split; [intros; congruence|]. split; [|intros; congruence].
      intros _ _.
      split.
      { intros s Hs H. apply psm_set_current_blocked_member in H. tauto. }
      split.
      { intros s Hs. rewrite psm_set_current_blocked_member. unfold nb.
        split; [|split].
        - intros ->. rewrite Z.eqb_refl, sigismember_sigorset. tauto.
        - intros ->. change (SIG_SETMASK =? SIG_BLOCK) with false.
          change (SIG_SETMASK =? SIG_UNBLOCK) with false.
          rewrite Z.eqb_refl. tauto.
        - intros H1 H2 H3.
          destruct (Z.eqb_spec (how m) SIG_BLOCK); [contradiction|].
          destruct (Z.eqb_spec (how m) SIG_UNBLOCK); [contradiction|].
          destruct (Z.eqb_spec (how m) SIG_SETMASK); [contradiction|].
          tauto. }
      destruct (psm_set_current_blocked_flag t nb) as [F1 F2].
      split; [exact F1|]. split; [exact F2|]. split; assumption.
    + simpl. split; [reflexivity|]. split; [reflexivity|].
      split; [intros; congruence|]. split; [intros; congruence|].
      reflexivity.
Qed.

End Calls.

Section AltStack.

Context {hdr : veos_headers} {sm : signal_macros}.
Variable __veos_virt_to_phy : Z -> Z.

(** X10: [psm_setnew_sas] checks, in this order, the translation of the
    new stack address (-EFAULT, even when the call only disables the
    stack), that the thread is not running on its alternate stack
    (-EPERM), the flags (-EINVAL) and, unless the stack is disabled, its
    size (-ENOMEM).  A failed call changes neither the thread nor the
    argument.  A successful call changes only the alternate stack of the
    thread, and [psm_getold_sas] then reports it: no stack (SS_DISABLE,
    address and size 0) after a call with SS_DISABLE, the address and size
    given otherwise. *)
Theorem psm_setnew_sas_spec t ns :
  let r := psm_setnew_sas __veos_virt_to_phy t ns in
  let ret := r.1.1 in
  let t' := r.1.2 in
  let valid_flags :=
    ss_flags ns = SS_DISABLE \/ ss_flags ns = SS_ONSTACK \/ ss_flags ns = 0 in
  (ret = - EFAULT <-> __veos_virt_to_phy (ss_sp ns) = -1) /\
  (ret = - EPERM
   <-> __veos_virt_to_phy (ss_sp ns) <> -1 /\ on_sig_stack t = true) /\
  (ret = - EINVAL
   <-> __veos_virt_to_phy (ss_sp ns) <> -1 /\ on_sig_stack t = false /\
       ~ valid_flags) /\
  (ret = - ENOMEM
   <-> __veos_virt_to_phy (ss_sp ns) <> -1 /\ on_sig_stack t = false /\
       valid_flags /\ ss_flags ns <> SS_DISABLE /\
       ss_size ns < VE_MINSIGSTKSZ) /\
  (ret = 0 \/ ret = - EFAULT \/ ret = - EPERM \/ ret = - EINVAL
   \/ ret = - ENOMEM) /\
  (ret <> 0 -> t' = t /\ r.2 = ns) /\
  (ret = 0 ->
   set_sas t' (sas_ss_sp t) (sas_ss_size t) = t /\
   psm_getold_sas t'
   = if ss_flags ns =? SS_DISABLE
     then mk_stack 0 SS_DISABLE 0
     else mk_stack (ss_sp ns)
            (if ss_size ns =? 0 then SS_DISABLE
             else if on_sig_stack t' then SS_ONSTACK else 0)
            (ss_size ns)).
Proof.
  cbv zeta. unfold psm_setnew_sas.
  destruct (Z.eqb_spec (-1) (__veos_virt_to_phy (ss_sp ns))) as [Ev|Ev].
  { simpl. unfold EFAULT, EPERM, EINVAL, ENOMEM.
    repeat split; intros; try lia; try tauto; try (exfalso; lia). }
  destruct (on_sig_stack t) eqn:Eo.
  { simpl. unfold EFAULT, EPERM, EINVAL, ENOMEM.
    repeat split; intros; try lia; try tauto; try congruence;
      try (exfalso; lia);
      repeat match goal with H : _ /\ _ |- _ => destruct H end;
      try congruence. }
  destruct (Z.eqb_spec (ss_flags ns) SS_DISABLE) as [Ed|Ed].
  { change (negb true && negb (ss_flags ns =? SS_ONSTACK)
            && negb (ss_flags ns =? 0)) with false.
    cbv iota. simpl. unfold EFAULT, EPERM, EINVAL, ENOMEM.
    repeat split; intros; try lia; try tauto; try congruence;
      try (exfalso; lia);
      repeat match goal with H : _ /\ _ |- _ => destruct H end;
      try congruence; try tauto.
    destruct t; reflexivity. }
  destruct (Z.eqb_spec (ss_flags ns) SS_ONSTACK) as [Es|Es];
    destruct (Z.eqb_spec (ss_flags ns) 0) as [Ez|Ez];
    cbn [negb andb]; cbv iota.
  4:{ simpl. unfold EFAULT, EPERM, EINVAL, ENOMEM.
      repeat split; intros; try lia; try tauto; try congruence;
        try (exfalso; lia);
        repeat match goal with H : _ /\ _ |- _ => destruct H end;
        try congruence; try tauto. }
  all: destruct (Z.ltb_spec (ss_size ns) VE_MINSIGSTKSZ) as [El|El];
    simpl; unfold EFAULT, EPERM, EINVAL, ENOMEM;
    repeat split; intros; try lia; try tauto; try congruence;
    try (exfalso; lia);
    repeat match goal with H : _ /\ _ |- _ => destruct H end;
    try congruence; try tauto; try lia;
    try (destruct t; reflexivity).
Qed.

End AltStack.

Section Actions.

Context {hdr : veos_headers} {lq : legacy_queue_macro} {sm : signal_macros}
  {sched : veos_scheduler}.

Lemma FSIGMASKING_lookup g rp sig j :
  tasks (ve_do_group_action g rp FSIGMASKING sig) !! j
  = (fun t => (ve_group_action t FSIGMASKING sig 0).1.2) <$> tasks g !! j.
Proof. rewrite ve_do_group_action_lookup by discriminate. reflexivity. Qed.

(** X11: [psm_do_sigaction_ve] hands back the action the signal had.  A
    query (no new action) leaves the group as it was.  An installation
    changes the action of this signal only, a query after it hands back the
    action installed, and no thread has its mask or registers changed.
    When the new handler does not count as ignoring the signal, the threads
    are untouched; when it does, every thread loses its first queued
    record of the signal, if it has one, and then the bit of the signal
    (but for the two signals libc reserves, 32 and 33, which [sigdelset]
    refuses), while the records and bits of the other signals stay. *)
Theorem psm_do_sigaction_ve_spec g i t info :
  tasks g !! i = Some t ->
  let signum := sai_signum info in
  let r := psm_do_sigaction_ve g i info in
  let ignored :=
    ve_sig_handler_ignored (sa_handler (sai_ve_sigaction info)) signum in
  sai_old_ve_sigaction r.2 = action (sighand g) (signum - 1) /\
  (sai_action info = 0 -> r.1 = g) /\
  (sai_action info <> 0 ->
   (forall q,
      sai_old_ve_sigaction
        (psm_do_sigaction_ve r.1 i (mk_sigaction_info signum 0 q q)).2
      = sai_ve_sigaction info) /\
   (forall k, k <> signum - 1 ->
              action (sighand r.1) k = action (sighand g) k) /\
   (ignored = false -> tasks r.1 = tasks g) /\
   (forall j tj, tasks g !! j = Some tj ->
      exists tj',
        tasks r.1 !! j = Some tj' /\
        blocked tj' = blocked tj /\ p_ve_thread tj' = p_ve_thread tj /\
        (ignored = true ->
         sig_list (pending tj') = unlink_first signum (sig_list (pending tj)) /\
         (count_sig signum (sig_list (pending tj)) <> 0%nat ->
          reserved_signal signum = false ->
          sigismember (signal (pending tj')) signum <> 1) /\
         (count_sig signum (sig_list (pending tj)) = 0%nat ->
          pending tj' = pending tj) /\
         (forall s, s <> signum ->
            count_sig s (sig_list (pending tj'))
            = count_sig s (sig_list (pending tj)) /\
            (sigismember (signal (pending tj')) s = 1
             <-> sigismember (signal (pending tj)) s = 1))))).
Proof.
  intros Hi. cbv zeta. unfold psm_do_sigaction_ve. rewrite Hi.
  set (signum := sai_signum info).
  destruct (Z.eqb_spec (sai_action info) 0) as [Ea|Ea]; cbn [negb]; cbv iota.
  { simpl. split; [reflexivity|]. split; [reflexivity|]. congruence. }
  set (g1 := set_sighand g _).
  assert (ve_sig_handler (sighand g1) signum = sa_handler (sai_ve_sigaction info))
    as Hh.
  { unfold ve_sig_handler, g1. simpl. rewrite Z.eqb_refl. reflexivity. }
  rewrite Hh.
  assert (forall k, k <> signum - 1 -> action (sighand g1) k = action (sighand g) k)
    as Hk.
  { intros k Hne. unfold g1. simpl.
    destruct (Z.eqb_spec k (signum - 1)); [contradiction|reflexivity]. }
  assert (action (sighand g1) (signum - 1) = sai_ve_sigaction info) as Hnew.
  { unfold g1. simpl. rewrite Z.eqb_refl. reflexivity. }
  destruct (ve_sig_handler_ignored _ signum) eqn:Eig; cbn [fst snd].
  - split; [reflexivity|]. split; [congruence|]. intros _.
    split.
    { intros q. rewrite FSIGMASKING_lookup.
      change (tasks g1) with (tasks g). rewrite Hi. simpl.
      rewrite ve_do_group_action_sighand. exact Hnew. }
    split; [intros k Hne; rewrite ve_do_group_action_sighand; exact (Hk k Hne)|].
    split; [discriminate|].
    intros j tj Hj. rewrite FSIGMASKING_lookup.
    change (tasks g1) with (tasks g). rewrite Hj. simpl.
    eexists. split; [reflexivity|].
    unfold ve_group_action. rewrite delete_first_unlink. simpl.
    split; [reflexivity|]. split; [reflexivity|]. intros _.
    split; [reflexivity|].
    split.
    { intros Hc Hres. destruct (decide _) as [|_]; [contradiction|].
      intros H. apply sigismember_sigdelset in H; tauto. }
    split.
    { intros Hc. destruct (decide _) as [_|]; [|contradiction].
      destruct (pending tj) as [l s]. simpl in *. f_equal.
      clear -Hc. induction l as [|q l IH]; [reflexivity|].
      simpl. unfold count_sig in Hc. rewrite filter_cons in Hc.
      destruct (decide (signo q = signum)) as [E|E].
      - discriminate Hc.
      - destruct (Z.eqb_spec (signo q) signum); [contradiction|].
        f_equal. apply IH. exact Hc. }
    intros s Hs. split.
    { rewrite count_sig_unlink_first.
      destruct (decide (s = signum)); [contradiction|reflexivity]. }
    destruct (decide _); [tauto|]. split.
    + apply sigismember_sigdelset_inv.
    + apply sigismember_sigdelset_other. exact Hs.
  - split; [reflexivity|]. split; [congruence|]. intros _.
    split.
    { intros q. change (tasks g1) with (tasks g). rewrite Hi. simpl.
      exact Hnew. }
    split; [exact Hk|]. split; [reflexivity|].
    intros j tj Hj. exists tj. split; [exact Hj|].
    split; [reflexivity|]. split; [reflexivity|]. discriminate.
Qed.

(** X12: after [psm_handle_hw_exception] the signal of the exception is
    not blocked and its action is not SIG_IGN: when it was blocked or
    ignored, its action is the default one and the signal has left the
    mask; when it was neither, the handler and the mask are as before.
    The masks of the other signals never change, the signal is pending,
    and unless the enqueue coalesces the flag of the thread is set.  (No
    core dump is in progress; the signal is one of 1..64, neither SIGCONT
    nor a stop signal nor one of the two libc reserves, 32 and 33; and
    [legacy_queue] holds of it only when its bit is set.) *)
Theorem psm_handle_hw_exception_spec g i t si signum ok :
  tasks g !! i = Some t ->
  signal_flag (sighand g) <> VE_SIGNAL_GROUP_COREDUMP ->
  1 <= signum <= 64 -> signum <> SIGCONT -> ve_sig_stop signum = false ->
  reserved_signal signum = false ->
  (legacy_queue (pending t) signum = true ->
   sigismember (signal (pending t)) signum = 1) ->
  let g' := psm_handle_hw_exception g i si signum ok in
  let was_blocked := sigismember (blocked t) signum = 1 in
  let was_ignored := sa_handler (action (sighand g) (signum - 1)) = SIG_IGN in
  exists t',
    tasks g' !! i = Some t' /\
    sigismember (blocked t') signum = 0 /\
    sa_handler (action (sighand g') (signum - 1)) <> SIG_IGN /\
    sigismember (signal (pending t')) signum = 1 /\
    (legacy_queue (pending t) signum = false ->
     sigpending t' = SIGNAL_PENDING) /\
    (was_blocked \/ was_ignored ->
     sa_handler (action (sighand g') (signum - 1)) = SIG_DFL) /\
    (~ was_blocked -> ~ was_ignored ->
     action (sighand g') = action (sighand g) /\ blocked t' = blocked t) /\
    (forall s, s <> signum ->
       sigismember (blocked t') s = 1 <-> sigismember (blocked t) s = 1) /\
    (forall k, k <> signum - 1 ->
       action (sighand g') k = action (sighand g) k) /\
    p_ve_thread t' = p_ve_thread t.
Proof.
  intros Hi Hf Hs Hc Hst Hres Hlq. cbv zeta.
  unfold psm_handle_hw_exception. rewrite Hi.
  set (ign := sa_handler (action (sighand g) (signum - 1)) =? SIG_IGN).
  set (blk := negb (sigismember (blocked t) signum =? 0)).
  set (sh := if blk || ign then _ else sighand g).
  set (t0 := if (blk || ign) && blk then _ else t).
  assert (blk = true <-> sigismember (blocked t) signum = 1) as Hblk.
  { unfold blk. destruct (sigismember_cases (blocked t) signum Hs) as [E|E];
      rewrite E; simpl; split; intros; congruence || lia. }
  assert (ign = true <-> sa_handler (action (sighand g) (signum - 1)) = SIG_IGN)
    as Hign.
  { unfold ign. destruct (Z.eqb_spec (sa_handler (action (sighand g) (signum - 1)))
                            SIG_IGN); split; intros; congruence. }
  assert (signal_flag sh = signal_flag (sighand g)) as Hsf
    by (unfold sh; destruct (blk || ign); reflexivity).
  assert (pending t0 = pending t /\ p_ve_thread t0 = p_ve_thread t) as [Hp0 Hth0]
    by (unfold t0; destruct ((blk || ign) && blk); split; reflexivity).
  assert (sigismember (blocked t0) signum = 0) as Hb0.
  { unfold t0. destruct blk eqn:Eb.
    - rewrite orb_true_l. simpl.
      destruct (sigismember_cases (sigdelset (blocked t) signum) signum Hs)
        as [H|H]; [exact H|].
      apply sigismember_sigdelset in H; tauto.
    - rewrite andb_false_r.
      destruct (sigismember_cases (blocked t) signum Hs) as [H|H]; [exact H|].
      apply Hblk in H. discriminate. }
  assert (forall s, s <> signum ->
            sigismember (blocked t0) s = 1 <-> sigismember (blocked t) s = 1)
    as Hoth.
  { intros s Hne. unfold t0. destruct ((blk || ign) && blk); [|tauto].
    simpl. rewrite sigismember_sigdelset by exact Hres. tauto. }
  assert (sa_handler (action sh (signum - 1)) <> SIG_IGN) as Hni.
  { unfold sh. destruct blk, ign eqn:Ei; simpl; rewrite ?Z.eqb_refl;
      try (unfold SIG_DFL, SIG_IGN; simpl; lia).
    intros H. apply Hign in H. discriminate. }
  assert (blk = true \/ ign = true ->
          sa_handler (action sh (signum - 1)) = SIG_DFL) as Hdfl.
  { intros H. unfold sh. apply orb_true_iff in H. rewrite H. simpl.
    rewrite Z.eqb_refl. reflexivity. }
  assert (forall k, k <> signum - 1 -> action sh k = action (sighand g) k) as Hk.
  { intros k Hne. unfold sh. destruct (blk || ign); [|reflexivity]. simpl.
    destruct (Z.eqb_spec k (signum - 1)); [contradiction|reflexivity]. }
  assert (blk = false -> ign = false -> sh = sighand g /\ t0 = t) as Hsame.
  { intros -> ->. split; reflexivity. }
  set (g0 := set_sighand (set_task g i t0) sh).
  assert (tasks g0 !! i = Some t0) as Hi0
    by (apply (set_task_lookup _ _ _ t), Hi).
  destruct (send_plain_result g0 i t0 (SigInfo si) signum SYNCHRONOUS_SIGNAL ok Hi0)
    as [Hco Hq]; try assumption.
  { simpl. rewrite Hsf. exact Hf. }
  assert (forall b : bool, b <> true -> b = false) as Hnb
    by (intros []; congruence).
  destruct (legacy_queue (pending t0) signum) eqn:Hl.
  - rewrite (Hco eq_refl). exists t0. split; [exact Hi0|].
    split; [exact Hb0|]. split; [exact Hni|].
    split; [rewrite Hp0 in *; auto|].
    split; [rewrite Hp0 in Hl; congruence|].
    split; [intros [H|H]; apply Hdfl; [left; apply Hblk|right; apply Hign]; exact H|].
    split.
    { intros H1 H2.
      destruct (Hsame (Hnb _ (fun E => H1 (proj1 Hblk E)))
                      (Hnb _ (fun E => H2 (proj1 Hign E)))) as [-> ->].
      split; reflexivity. }
    split; [exact Hoth|]. split; [exact Hk|exact Hth0].
  - destruct (Hq eq_refl) as (Hact & t' & Ht' & Hb' & Hth' & Hm' & Hfl).
    exists t'. split; [exact Ht'|].
    split; [congruence|]. split; [rewrite Hact; exact Hni|].
    split; [exact Hm'|]. split; [intros _; exact (Hfl Hb0)|].
    split.
    { intros [H|H]; rewrite Hact; apply Hdfl;
        [left; apply Hblk|right; apply Hign]; exact H. }
    split.
    { intros H1 H2.
      destruct (Hsame (Hnb _ (fun E => H1 (proj1 Hblk E)))
                      (Hnb _ (fun E => H2 (proj1 Hign E)))) as [E1 E2].
      rewrite Hact, Hb'. simpl. rewrite E1, E2. split; reflexivity. }
    split; [intros s Hne; rewrite Hb'; apply Hoth, Hne|].
    split; [intros k Hne; rewrite Hact; apply Hk, Hne|congruence].
Qed.

(** X13: [psm_do_sigpending] reports exactly the signals that are pending
    and blocked, and none of them is the signal [psm_get_next_ve_signal]
    picks for delivery; [psm_do_sigsuspend] keeps the mask the thread had
    as the mask to put back, installs the new one without SIGKILL, SIGSTOP
    and SIGCONT whichever mask is given, and leaves the pending queue. *)
Theorem sigpending_and_sigsuspend t mask_set :
  (forall s, sigismember (psm_do_sigpending t) s = 1
             <-> sigismember (signal (pending t)) s = 1 /\
                 sigismember (blocked t) s = 1) /\
  sigismember (psm_do_sigpending t)
    (psm_get_next_ve_signal (pending t) (blocked t)) <> 1 /\
  let t' := psm_do_sigsuspend t mask_set in
  ve_saved_sigmask t' = blocked t /\ mask_saved t' = true /\
  pending t' = pending t /\ p_ve_thread t' = p_ve_thread t /\
  (forall s, sigismember (blocked t') s = 1
             <-> ~ unmaskable s /\ sigismember mask_set s = 1) /\
  psm_do_sigpending t'
  = sigandset (blocked t') (signal (pending t)).
Proof.
  split.
  { intros s. unfold psm_do_sigpending. rewrite sigismember_sigandset. tauto. }
  split.
  { unfold psm_do_sigpending. rewrite sigismember_sigandset.
    intros [Hb _].
    destruct (Z.eq_dec (psm_get_next_ve_signal (pending t) (blocked t)) 0)
      as [E|E].
    - rewrite E in Hb. vm_compute in Hb. discriminate.
    - destruct (next_signal_deliverable _ _ E) as [_ H0]. congruence. }
  cbv zeta. unfold psm_do_sigsuspend.
  set (t1 := set_mask_saved _ true).
  destruct (psm_set_current_blocked_fields t1 mask_set)
    as (Hp & _ & _ & _ & _ & Hms & Hsv & _ & _).
  split; [rewrite Hsv; reflexivity|]. split; [rewrite Hms; reflexivity|].
  split; [rewrite Hp; reflexivity|].
  split; [rewrite psm_set_current_blocked_thread; reflexivity|].
  split; [intros s; apply psm_set_current_blocked_member|].
  unfold psm_do_sigpending. rewrite Hp. reflexivity.
Qed.

End Actions.

(** Sample values of the macros, for the examples: the set difference on
    64-bit masks, the signals Linux ignores and dumps core for by
    default, and a handler that ignores when it is SIG_IGN or the default
    action is to ignore. *)
Definition sample_macros : signal_macros :=
  {| VE_MINSIGSTKSZ := 0x2000;
     ve_sigandnsets := fun a b => Z.land a (lnot64 b);
     ve_sig_ignore := fun s => (s =? 17) || (s =? 18) || (s =? 23) || (s =? 28);
     ve_sig_coredump := fun s =>
       ((3 <=? s) && (s <=? 8)) || (s =? 11) || (s =? 24) || (s =? 25)
       || (s =? 31);
     ve_sig_handler_ignored := fun h s =>
       (h =? SIG_IGN)
       || ((h =? SIG_DFL) && ((s =? 17) || (s =? 18) || (s =? 23) || (s =? 28)))
  |}.

(** SIGUSR1 set to SIG_IGN in the group of one thread. *)
Lemma psm_do_sigaction_ve_spec_witness :
  let info :=
    mk_sigaction_info SIGUSR1 1 (mk_sigaction SIG_IGN 0 0) (mk_sigaction 0 0 0) in
  let r := psm_do_sigaction_ve (sm := sample_macros)
             (sched := sample_scheduler) group_demo 0%nat info in
  sai_old_ve_sigaction r.2 = action sighand_demo (SIGUSR1 - 1) /\
  forall q,
    sai_old_ve_sigaction
      (psm_do_sigaction_ve (sm := sample_macros) (sched := sample_scheduler)
         r.1 0%nat (mk_sigaction_info SIGUSR1 0 q q)).2
    = mk_sigaction SIG_IGN 0 0.
Proof.
  cbv zeta.
  destruct (psm_do_sigaction_ve_spec (sm := sample_macros)
              (sched := sample_scheduler) group_demo 0%nat
              task_demo
              (mk_sigaction_info SIGUSR1 1 (mk_sigaction SIG_IGN 0 0)
                 (mk_sigaction 0 0 0)) eq_refl)
    as (H1 & _ & H3).
  split; [exact H1|].
  destruct H3 as (H4 & _); [simpl; lia|exact H4].
Defined.

(** A SIGSEGV from an exception, for a thread that blocks it. *)
Lemma psm_handle_hw_exception_spec_witness :
  let t := set_blocked task_demo (ve_mask SIGSEGV) in
  let g := mk_group [t] sighand_demo in
  let g' :=
    psm_handle_hw_exception (hdr := sample_headers) (lq := lq_mask)
      (sched := sample_scheduler) g 0%nat
      (mk_siginfo SIGSEGV 0 0 0x6000 0) SIGSEGV true in
  exists t',
    tasks g' !! 0%nat = Some t' /\
    sigismember (blocked t') SIGSEGV = 0 /\
    sa_handler (action (sighand g') (SIGSEGV - 1)) = SIG_DFL /\
    sigismember (signal (pending t')) SIGSEGV = 1 /\
    sigpending t' = @SIGNAL_PENDING sample_headers.
Proof.
  cbv zeta.
  destruct (psm_handle_hw_exception_spec (hdr := sample_headers) (lq := lq_mask)
              (sched := sample_scheduler)
              (mk_group [set_blocked task_demo (ve_mask SIGSEGV)] sighand_demo)
              0%nat (set_blocked task_demo (ve_mask SIGSEGV))
              (mk_siginfo SIGSEGV 0 0 0x6000 0) SIGSEGV true)
    as (t' & H1 & H2 & _ & H4 & H5 & H6 & _).
  - reflexivity.
  - vm_compute. discriminate.
  - unfold SIGSEGV. lia.
  - unfold SIGSEGV, SIGCONT. lia.
  - reflexivity.
  - reflexivity.
  - intros H. vm_compute in H. discriminate H.
  - exists t'. split; [exact H1|]. split; [exact H2|].
    split; [apply H6; left; reflexivity|]. split; [exact H4|].
    apply H5. reflexivity.
Defined.

End SignalCalls.

(** * Delivery: [ve_get_signal] and [psm_do_signal_ve] *)

Module Delivery.
Import Word TaskSignal TaskSignalSpec SignalApi PendingQueue HandlerFrame.
Import SignalCalls.

(** The number of signals of a mask. *)
Definition popcount (s : sigset_t) : nat :=
  length (filter (fun x => sigismember s x = 1) (seqZ 1 64)).

(** What the dequeues can take from a pending queue: its records and the
    bits of its mask. *)
Definition weight (p : ve_sigpending) : nat :=
  (length (sig_list p) + popcount (signal p))%nat.

Lemma filter_length_mono {A} (P Q : A -> Prop)
    `{!forall x, Decision (P x)} `{!forall x, Decision (Q x)} (l : list A) :
  (forall x, x ∈ l -> P x -> Q x) ->
  (length (filter P l) <= length (filter Q l))%nat.
Proof.
  induction l as [|a l IH]; intros Hpq; [reflexivity|].
  assert (length (filter P l) <= length (filter Q l))%nat as Hl.
  { apply IH. intros x Hx. apply Hpq. right. exact Hx. }
  rewrite !filter_cons.
  destruct (decide (P a)) as [p|np], (decide (Q a)) as [q|nq]; simpl; try lia.
  destruct nq. apply Hpq; [left|exact p].
Qed.

Lemma filter_length_strict {A} (P Q : A -> Prop)
    `{!forall x, Decision (P x)} `{!forall x, Decision (Q x)} (l : list A) x :
  (forall y, y ∈ l -> P y -> Q y) -> x ∈ l -> ~ P x -> Q x ->
  (length (filter P l) < length (filter Q l))%nat.
Proof.
  induction l as [|a l IH]; intros Hpq Hin Hn Hq; [inversion Hin|].
  assert (forall y, y ∈ l -> P y -> Q y) as Hpq'.
  { intros y Hy. apply Hpq. right. exact Hy. }
  pose proof (filter_length_mono P Q l Hpq') as Hl.
  rewrite !filter_cons.
  inversion Hin as [? ? E|? ? ? Hin' E]; subst.
  - destruct (decide (P a)); [contradiction|].
    destruct (decide (Q a)); [simpl; lia|contradiction].
  - specialize (IH Hpq' Hin' Hn Hq).
    destruct (decide (P a)) as [p|np], (decide (Q a)) as [q|nq]; simpl; try lia.
    destruct nq. apply Hpq; [left|exact p].
Qed.

Lemma popcount_le s : (popcount s <= 64)%nat.
Proof.
  unfold popcount.
  etransitivity; [apply length_filter|]. rewrite length_seqZ. lia.
Qed.

Lemma popcount_sigdelset_le s sig : (popcount (sigdelset s sig) <= popcount s)%nat.
Proof.
  apply filter_length_mono. intros x _ H.
  eapply sigismember_sigdelset_inv, H.
Qed.

(** [sigdelset] clears the bit of a signal that libc does not reserve. *)
Lemma popcount_sigdelset_lt s sig :
  reserved_signal sig = false ->
  sigismember s sig = 1 -> (popcount (sigdelset s sig) < popcount s)%nat.
Proof.
  intros Hr H. apply (filter_length_strict _ _ _ sig).
  - intros x _ Hx. eapply sigismember_sigdelset_inv, Hx.
  - apply elem_of_seqZ. apply sigismember_1 in H. lia.
  - intros Hx. apply sigismember_sigdelset in Hx; [tauto|exact Hr].
  - exact H.
Qed.

Lemma weight_le p : (weight p <= length (sig_list p) + 64)%nat.
Proof. unfold weight. pose proof (popcount_le (signal p)). lia. Qed.

(** The bits of the two reserved signals decide [unreserved]. *)
Lemma unreserved_testbit p :
  Z.testbit (signal p) 31 = false -> Z.testbit (signal p) 32 = false ->
  unreserved p.
Proof.
  intros H1 H2 x Hx. apply sigismember_1 in Hx as [_ Hb].
  apply reserved_signal_false.
  split; intros ->;
    [change (32 - 1) with 31 in Hb|change (33 - 1) with 32 in Hb]; congruence.
Qed.

(** What a run of dequeues under the mask [mask] does to a queue: bits
    and records only go, and those of the blocked signals stay. *)
Definition dequeued (mask : sigset_t) (p p' : ve_sigpending) : Prop :=
  (forall s, sigismember (signal p') s = 1 -> sigismember (signal p) s = 1) /\
  (forall s, (count_sig s (sig_list p') <= count_sig s (sig_list p))%nat) /\
  (forall s, sigismember mask s = 1 ->
     (sigismember (signal p') s = 1 <-> sigismember (signal p) s = 1) /\
     count_sig s (sig_list p') = count_sig s (sig_list p)).

Lemma dequeued_refl mask p : dequeued mask p p.
Proof. repeat split; auto. Qed.

Lemma dequeued_trans mask p1 p2 p3 :
  dequeued mask p1 p2 -> dequeued mask p2 p3 -> dequeued mask p1 p3.
Proof.
  intros (A1 & B1 & C1) (A2 & B2 & C2). split; [|split].
  - auto.
  - intros s. etransitivity; [apply B2|apply B1].
  - intros s Hs. destruct (C1 s Hs) as [X1 Y1], (C2 s Hs) as [X2 Y2].
    split; [tauto|congruence].
Qed.

Lemma dequeued_unreserved mask p p' :
  dequeued mask p p' -> unreserved p -> unreserved p'.
Proof. intros (A & _) H x Hx. apply H, A, Hx. Qed.

Lemma dequeued_step mask p p' sig :
  deliverable p mask sig ->
  signal p' = signal p \/ signal p' = sigdelset (signal p) sig ->
  sig_list p' = sig_list p \/ sig_list p' = unlink_first sig (sig_list p) ->
  dequeued mask p p'.
Proof.
  intros [Hb Hm] Hs Hl. split; [|split].
  - intros s. destruct Hs as [->| ->]; [auto|].
    apply sigismember_sigdelset_inv.
  - intros s. destruct Hl as [->| ->]; [reflexivity|].
    rewrite count_sig_unlink_first. destruct (decide (s = sig)); subst; lia.
  - intros s Hbs. assert (s <> sig) as Hne by (intros ->; congruence).
    split.
    + destruct Hs as [->| ->]; [tauto|].
      split; [apply sigismember_sigdelset_inv|].
      apply sigismember_sigdelset_other, Hne.
    + destruct Hl as [->| ->]; [reflexivity|].
      rewrite count_sig_unlink_first.
      destruct (decide (s = sig)); [contradiction|reflexivity].
Qed.

(** The fields of a thread that no delivery loop touches. *)
Definition same_thread (t t' : ve_task_struct) : Prop :=
  pid t' = pid t /\ blocked t' = blocked t /\
  ve_saved_sigmask t' = ve_saved_sigmask t /\
  mask_saved t' = mask_saved t /\ sas_ss_sp t' = sas_ss_sp t /\
  sas_ss_size t' = sas_ss_size t /\ usr_reg_dirty t' = usr_reg_dirty t /\
  lshm t' = lshm t /\ tgid t' = tgid t /\ ve_exec_path t' = ve_exec_path t /\
  vfork_state t' = vfork_state t /\ block_status t' = block_status t.

Lemma same_thread_refl t : same_thread t t.
Proof. repeat split. Qed.

Lemma same_thread_trans t1 t2 t3 :
  same_thread t1 t2 -> same_thread t2 t3 -> same_thread t1 t3.
Proof. unfold same_thread. intuition congruence. Qed.

Section Loop.

Context {hdr : veos_headers} {lq : legacy_queue_macro} {sm : signal_macros}
  {sched : veos_scheduler}.

(** The registers of a thread once it is stopped: those of the core when
    the thread is the current one of a core. *)
Definition stopped_regs (t : ve_task_struct) : core_user_reg_t :=
  match curr_ve_task (pid t) with
  | Some regs => regs
  | None => p_ve_thread t
  end.

(** What the stop of a group leaves of one of its threads. *)
Definition stopped (t : ve_task_struct) : ve_task_struct :=
  (psm_stop_ve_process t FSIGSTOPPING 0).1.

Lemma stopped_eq t :
  stopped t = set_thread (set_ve_task_state t STOP) (stopped_regs t).
Proof.
  unfold stopped, stopped_regs, psm_stop_ve_process, psm_set_task_state.
  destruct (curr_ve_task (pid t)); reflexivity.
Qed.

Lemma same_thread_stopped t : same_thread t (stopped t).
Proof. rewrite stopped_eq. repeat split. Qed.

Lemma FSIGSTOPPING_map g rp sig :
  ve_do_group_action g rp FSIGSTOPPING sig
  = mk_group (stopped <$> tasks g) (sighand g).
Proof.
  rewrite ve_do_group_action_map by discriminate. f_equal.
  change (stopped <$> tasks g) with (map stopped (tasks g)).
  apply map_ext. intros t. unfold group_action_on, ve_group_action, stopped.
  simpl. destruct (psm_stop_ve_process t FSIGSTOPPING 0). reflexivity.
Qed.

Lemma psm_dequeue_ve_signal_step si pend mask fl sh :
  unreserved pend ->
  let r := psm_dequeue_ve_signal si pend mask fl sh in
  (r.1 = 0 -> r.2 = (si, fl, pend, sh) /\ forall s, ~ deliverable pend mask s) /\
  (r.1 <> 0 ->
   deliverable pend mask r.1 /\
   (weight r.2.1.2 < weight pend)%nat /\
   (signal r.2.1.2 = signal pend \/
    signal r.2.1.2 = sigdelset (signal pend) r.1) /\
   (sig_list r.2.1.2 = sig_list pend \/
    sig_list r.2.1.2 = unlink_first r.1 (sig_list pend)) /\
   action r.2.2 = action sh /\ signal_flag r.2.2 = signal_flag sh).
Proof.
  intros Hun. cbv zeta. unfold psm_dequeue_ve_signal.
  set (sig := psm_get_next_ve_signal pend mask).
  destruct (Z.eqb_spec sig 0) as [E|E]; simpl.
  - split; [|intros; contradiction]. intros _. split; [reflexivity|].
    apply next_signal_zero. exact E.
  - split; [intros; contradiction|]. intros _.
    pose proof (next_signal_deliverable pend mask E) as Hd. fold sig in Hd.
    split; [exact Hd|]. unfold ve_collect_signal.
    pose proof (unlink_first_length sig (sig_list pend)) as Hul.
    unfold count_sig in Hul.
    destruct (filter (fun q => signo q = sig) (sig_list pend))
      as [|q1 [|q2 l']] eqn:Ef; simpl.
    + split.
      { unfold weight. simpl.
        pose proof (popcount_sigdelset_lt (signal pend) sig
                      (Hun sig (proj1 Hd)) (proj1 Hd)). lia. }
      split; [right; reflexivity|]. split; [left; reflexivity|].
      split; reflexivity.
    + split.
      { unfold weight. simpl.
        pose proof (popcount_sigdelset_le (signal pend) sig).
        specialize (Hul ltac:(simpl; lia)). lia. }
      split; [right; reflexivity|]. split; [right; reflexivity|].
      split; reflexivity.
    + split.
      { unfold weight. simpl. specialize (Hul ltac:(simpl; lia)). lia. }
      split; [left; reflexivity|]. split; [right; reflexivity|].
      split; reflexivity.
Qed.

(** The other threads of the group after the loop: they are stopped when
    the loop returns -2 and as before otherwise. *)
Definition others (g : thread_group) (i : nat) (r : get_signal_result) : Prop :=
  (gs_signum r <> -2 ->
   forall j, j <> i -> tasks (gs_group r) !! j = tasks g !! j) /\
  (gs_signum r = -2 ->
   forall j, j <> i -> tasks (gs_group r) !! j = stopped <$> tasks g !! j).

(** What a return of the loop of [ve_get_signal] tells, by its result. *)
Definition outcome (g : thread_group) (t : ve_task_struct)
    (r : get_signal_result) (t' : ve_task_struct) : Prop :=
  let sh := sighand g in
  let sh' := sighand (gs_group r) in
  let default_action sig :=
    deliverable (pending t) (blocked t) sig /\
    sa_handler (action sh (sig - 1)) = SIG_DFL /\
    ve_sig_ignore sig = false in
  (gs_signum r = 0 /\
   (forall s, ~ deliverable (pending t') (blocked t) s) /\
   sigpending t' = 0 /\ gs_events r = [] /\ gs_dump r = None /\
   signal_flag sh' = signal_flag sh /\
   p_ve_thread t' = p_ve_thread t /\ ve_task_state t' = ve_task_state t /\
   flags t' = flags t) \/
  (1 <= gs_signum r <= 64 /\
   deliverable (pending t) (blocked t) (gs_signum r) /\
   sa_handler (action sh (gs_signum r - 1)) <> SIG_IGN /\
   sa_handler (action sh (gs_signum r - 1)) <> SIG_DFL /\
   sigpending t' = 0 /\ gs_events r = [] /\ gs_dump r = None /\
   signal_flag sh' = signal_flag sh /\
   p_ve_thread t' = p_ve_thread t /\ ve_task_state t' = ve_task_state t /\
   flags t' = flags t) \/
  (gs_signum r = -2 /\
   (exists sig, default_action sig /\ ve_sig_stop sig = true) /\
   sigpending t' = 0 /\ gs_events r = [] /\ gs_dump r = None /\
   signal_flag sh' = signal_flag sh /\
   p_ve_thread t' = stopped_regs t /\ ve_task_state t' = STOP /\
   flags t' = flags t) \/
  (gs_signum r = -1 /\ p_ve_thread t' = p_ve_thread t /\
   exists sig,
     default_action sig /\ ve_sig_stop sig = false /\
     signal_flag sh'
     = (if ve_sig_coredump sig then VE_SIGNAL_GROUP_COREDUMP
        else signal_flag sh) /\
     ve_task_state t'
     = (if ve_sig_coredump sig then STOP else ve_task_state t) /\
     let fl0 := if ve_sig_coredump sig
                then Z.lor (flags t) PF_DUMPCORE else flags t in
     ((gs_dump r = None /\
       gs_events r = [if SYNCHRONOUS_SIGNAL =? gs_flag r
                      then Kill (pid t) sig else Kill (pid t) SIGKILL] /\
       flags t' = (if SYNCHRONOUS_SIGNAL =? gs_flag r
                   then Z.lor fl0 PF_SIGNALED else fl0)) \/
      (ve_sig_coredump sig = true /\ gs_events r = [] /\
       gs_dump r = Some (mk_dump_info sig (gs_flag r) (pid t) (gs_siginfo r)
                           (tgid t) (ve_exec_path t)) /\
       flags t' = fl0))).

Lemma ve_get_signal_loop_spec fuel :
  forall g i t fl si env,
    tasks g !! i = Some t ->
    unreserved (pending t) ->
    (weight (pending t) < fuel)%nat ->
    exists r t',
      ve_get_signal_loop fuel g i fl si env = Some r /\
      tasks (gs_group r) !! i = Some t' /\
      same_thread t t' /\
      others g i r /\
      action (sighand (gs_group r)) = action (sighand g) /\
      dequeued (blocked t) (pending t) (pending t') /\
      outcome g t r t'.
Proof.
  induction fuel as [|fuel IH]; intros g i t fl si env Hi Hun Hw; [lia|].
  cbn [ve_get_signal_loop]. rewrite Hi.
  pose proof (psm_dequeue_ve_signal_step si (pending t) (blocked t) fl
                (sighand g) Hun) as Hstep. cbv zeta in Hstep.
  destruct (psm_dequeue_ve_signal si (pending t) (blocked t) fl (sighand g))
    as [signum [[[si' fl'] pend'] sh']] eqn:Hd.
  cbn [fst snd] in Hstep. destruct Hstep as [Hz Hnz].
  cbv beta iota zeta.
  set (t1 := set_pending t pend').
  set (g1 := set_sighand (set_task g i t1) sh').
  assert (i < length (tasks g))%nat as Hlen by (eapply lookup_lt_Some, Hi).
  assert (tasks g1 !! i = Some t1) as Hi1
    by (apply list_lookup_insert_eq; exact Hlen).
  assert (forall j, j <> i -> tasks g1 !! j = tasks g !! j) as Hj1.
  { intros j Hne. unfold g1. simpl. apply list_lookup_insert_ne. congruence. }
  assert (forall t2, tasks (set_task g1 i t2) !! i = Some t2) as Hset.
  { intros t2. apply list_lookup_insert_eq. unfold g1. simpl.
    rewrite length_insert. exact Hlen. }
  assert (forall t2 j, j <> i -> tasks (set_task g1 i t2) !! j = tasks g !! j)
    as Hsetj.
  { intros t2 j Hne. simpl. rewrite list_lookup_insert_ne by congruence.
    apply Hj1, Hne. }
  destruct (Z.eqb_spec signum 0) as [E0|E0].
  { (* nothing to dequeue *)
    destruct (Hz E0) as [Heq Hnone]. injection Heq as -> -> -> ->.
    eexists _, _. split; [reflexivity|]. cbn [gs_group].
    split; [apply Hset|]. split; [repeat split|].
    split.
    { split; [intros _; apply Hsetj|]. cbn [gs_signum]. intros; lia. }
    split; [reflexivity|]. split; [apply dequeued_refl|].
    left. simpl. repeat split; try assumption. }
  destruct (Hnz E0) as (Hdel & Hwt & Hsig & Hlist & Hact & Hflag).
  assert (dequeued (blocked t) (pending t) pend') as Hdq
    by (eapply dequeued_step; eassumption).
  assert (1 <= signum <= 64) as Hrange by (eapply deliverable_valid, Hdel).
  assert (forall r t',
            tasks (gs_group r) !! i = Some t' ->
            same_thread t1 t' ->
            others g1 i r ->
            action (sighand (gs_group r)) = action (sighand g1) ->
            dequeued (blocked t1) (pending t1) (pending t') ->
            outcome g1 t1 r t' ->
            same_thread t t' /\
            others g i r /\
            action (sighand (gs_group r)) = action (sighand g) /\
            dequeued (blocked t) (pending t) (pending t') /\
            outcome g t r t') as Hcompose.
  { intros r t' Ht' Hsame [Hoth Hoth2] Hac Hdq' Hout.
    split; [eapply same_thread_trans; [|exact Hsame]; repeat split|].
    split.
    { split.
      - intros Hn j Hne. rewrite (Hoth Hn) by exact Hne. apply Hj1, Hne.
      - intros Hn j Hne. rewrite (Hoth2 Hn) by exact Hne.
        rewrite Hj1 by exact Hne. reflexivity. }
    split; [rewrite Hac; exact Hact|].
    split; [eapply dequeued_trans; [exact Hdq|exact Hdq']|].
    assert (forall s, deliverable (pending t1) (blocked t1) s ->
                      deliverable (pending t) (blocked t) s) as Hmono.
    { intros s [Hb Hm]. split; [|exact Hm].
      destruct Hdq as (A & _ & _). apply A. exact Hb. }
    unfold outcome in *. cbv zeta in *.
    change (sighand g1) with sh' in Hout.
    rewrite Hact, Hflag in Hout.
    destruct Hout as [H|[H|[H|H]]].
    - left. exact H.
    - right. left. destruct H as (H1 & H2 & H3).
      split; [exact H1|]. split; [apply Hmono, H2|exact H3].
    - right. right. left.
      destruct H as (H1 & (sig & (Ha & Hb) & Hc) & H3).
      split; [exact H1|]. split; [|exact H3].
      exists sig. split; [split; [apply Hmono, Ha|exact Hb]|exact Hc].
    - right. right. right.
      destruct H as (H1 & H2 & sig & (Ha & Hb) & Hc).
      split; [exact H1|]. split; [exact H2|].
      exists sig. split; [split; [apply Hmono, Ha|exact Hb]|exact Hc]. }
  assert (exists r t',
            ve_get_signal_loop fuel g1 i fl' si' env = Some r /\
            tasks (gs_group r) !! i = Some t' /\
            same_thread t t' /\
            others g i r /\
            action (sighand (gs_group r)) = action (sighand g) /\
            dequeued (blocked t) (pending t) (pending t') /\
            outcome g t r t') as Hagain.
  { destruct (IH g1 i t1 fl' si' env Hi1)
      as (r & t' & Hr & Ht' & H1 & H2 & H3 & H4 & H5).
    { eapply dequeued_unreserved; [exact Hdq|exact Hun]. }
    { simpl. lia. }
    exists r, t'. split; [exact Hr|]. split; [exact Ht'|].
    eapply Hcompose; eauto. }
  cbv zeta. fold t1. fold g1.
  destruct (Z.eqb_spec SIG_IGN (sa_handler (action sh' (signum - 1)))) as [Ei|Ei];
    [exact Hagain|].
  destruct (Z.eqb_spec SIG_DFL (sa_handler (action sh' (signum - 1)))) as [Ed|Ed];
    cbn [negb]; cbv iota.
  2:{ (* a handler of the process *)
    eexists _, _. split; [reflexivity|]. cbn [gs_group].
    split; [apply Hset|]. split; [repeat split|].
    split.
    { split; [intros _; apply Hsetj|]. cbn [gs_signum]. intros; lia. }
    split; [exact Hact|].
    split; [exact Hdq|].
    right. left. simpl. rewrite <- Hact.
    split; [exact Hrange|]. split; [exact Hdel|].
    split; [congruence|]. split; [congruence|].
    repeat split; assumption. }
  destruct (ve_sig_ignore signum) eqn:Eig; [exact Hagain|].
  assert (deliverable (pending t) (blocked t) signum /\
          sa_handler (action (sighand g) (signum - 1)) = SIG_DFL /\
          ve_sig_ignore signum = false) as Hdefault.
  { split; [exact Hdel|]. split; [rewrite <- Hact; congruence|exact Eig]. }
  destruct (ve_sig_stop signum) eqn:Est.
  { (* stop *)
    rewrite FSIGSTOPPING_map. unfold update_task. cbn [tasks].
    rewrite list_lookup_fmap, Hi1. cbn [fmap option_fmap option_map].
    rewrite (stopped_eq t1).
    eexists _, _. split; [reflexivity|]. cbn [gs_group].
    split.
    { apply list_lookup_insert_eq. cbn [tasks]. rewrite length_fmap.
      eapply lookup_lt_Some, Hi1. }
    split; [repeat split|].
    split.
    { split; [cbn [gs_signum]; intros H; contradiction H; reflexivity|].
      intros _ j Hne. cbn [gs_group tasks set_task].
      rewrite list_lookup_insert_ne by congruence.
      rewrite list_lookup_fmap, Hj1 by exact Hne. reflexivity. }
    split; [exact Hact|].
    split; [exact Hdq|].
    right. right. left. simpl.
    split; [reflexivity|]. split; [exists signum; auto|].
    repeat split; assumption. }
  assert (forall cd gx tx r,
            ve_sig_coredump signum = cd ->
            tasks gx !! i = Some tx ->
            (forall j, j <> i -> tasks gx !! j = tasks g !! j) ->
            action (sighand gx) = action (sighand g) ->
            same_thread t tx -> pending tx = pend' ->
            p_ve_thread tx = p_ve_thread t ->
            signal_flag (sighand gx)
            = (if cd then VE_SIGNAL_GROUP_COREDUMP else signal_flag (sighand g)) ->
            ve_task_state tx = (if cd then STOP else ve_task_state t) ->
            flags tx = (if cd then Z.lor (flags t) PF_DUMPCORE else flags t) ->
            r = hndl_terminate gx i tx signum fl' si' \/
            (cd = true /\
             r = mk_get_signal_result (-1) gx fl' si' []
                   (Some (mk_dump_info signum fl' (pid tx) si'
                            (tgid tx) (ve_exec_path tx)))) ->
            exists r' t',
              Some r = Some r' /\
              tasks (gs_group r') !! i = Some t' /\
              same_thread t t' /\
              others g i r' /\
              action (sighand (gs_group r')) = action (sighand g) /\
              dequeued (blocked t) (pending t) (pending t') /\
              outcome g t r' t') as Hterm.
  { intros cd gx tx r Hcd Hx Hxj Hxa Hxs Hxp Hxr Hxf Hxst Hxfl Hr.
    assert (pid tx = pid t /\ tgid tx = tgid t /\
            ve_exec_path tx = ve_exec_path t) as (Hpid & Htg & Hpath)
      by (destruct Hxs as (? & _ & _ & _ & _ & _ & _ & _ & ? & ? & _); auto).
    destruct Hr as [->|[-> ->]].
    - unfold hndl_terminate.
      destruct (SYNCHRONOUS_SIGNAL =? fl') eqn:Esync.
      + eexists _, _. split; [reflexivity|]. cbn [gs_group].
        split; [eapply set_task_lookup, Hx|].
        split; [eapply same_thread_trans; [exact Hxs|repeat split]|].
        split.
        { split; [|cbn [gs_signum]; intros; lia].
          intros _ j Hne. cbn [gs_group tasks set_task].
          rewrite list_lookup_insert_ne by congruence. apply Hxj, Hne. }
        split; [exact Hxa|].
        split; [cbn [pending set_flags]; rewrite Hxp; exact Hdq|].
        right. right. right. cbn [gs_signum]. split; [reflexivity|].
        split; [exact Hxr|]. exists signum.
        split; [exact Hdefault|]. split; [exact Est|].
        rewrite Hcd. cbn [gs_group sighand set_task].
        split; [exact Hxf|]. split; [exact Hxst|].
        left. cbn [gs_dump gs_events gs_flag]. rewrite Esync, Hpid.
        split; [reflexivity|]. split; [reflexivity|].
        cbn [flags set_flags]. rewrite Hxfl. reflexivity.
      + eexists _, _. split; [reflexivity|]. cbn [gs_group].
        split; [exact Hx|]. split; [exact Hxs|].
        split.
        { split; [intros _; exact Hxj|cbn [gs_signum]; intros; lia]. }
        split; [exact Hxa|].
        split; [rewrite Hxp; exact Hdq|].
        right. right. right. cbn [gs_signum]. split; [reflexivity|].
        split; [exact Hxr|]. exists signum.
        split; [exact Hdefault|]. split; [exact Est|].
        rewrite Hcd. cbn [gs_group].
        split; [exact Hxf|]. split; [exact Hxst|].
        left. cbn [gs_dump gs_events gs_flag]. rewrite Esync, Hpid.
        split; [reflexivity|]. split; [reflexivity|exact Hxfl].
    - eexists _, _. split; [reflexivity|]. cbn [gs_group].
      split; [exact Hx|]. split; [exact Hxs|].
      split.
      { split; [intros _; exact Hxj|cbn [gs_signum]; intros; lia]. }
      split; [exact Hxa|].
      split; [rewrite Hxp; exact Hdq|].
      right. right. right. cbn [gs_signum]. split; [reflexivity|].
      split; [exact Hxr|]. exists signum.
      split; [exact Hdefault|]. split; [exact Est|].
      rewrite Hcd. cbn [gs_group].
      split; [exact Hxf|]. split; [exact Hxst|].
      right. cbn [gs_dump gs_events gs_flag gs_siginfo].
      rewrite Hpid, Htg, Hpath.
      split; [reflexivity|]. split; [reflexivity|].
      split; [reflexivity|exact Hxfl]. }
  destruct (ve_sig_coredump signum) eqn:Ecd.
  - set (t2 := psm_set_task_state _ STOP).
    set (g2 := set_sighand (set_task g1 i t2) _).
    assert (tasks g2 !! i = Some t2) as Hi2 by apply Hset.
    assert (forall j, j <> i -> tasks g2 !! j = tasks g !! j) as Hj2
      by apply Hsetj.
    assert (forall r,
              r = hndl_terminate g2 i t2 signum fl' si' \/
              (true = true /\
               r = mk_get_signal_result (-1) g2 fl' si' []
                     (Some (mk_dump_info signum fl' (pid t2) si'
                              (tgid t2) (ve_exec_path t2)))) ->
              exists r' t',
                Some r = Some r' /\
                tasks (gs_group r') !! i = Some t' /\
                same_thread t t' /\
                others g i r' /\
                action (sighand (gs_group r')) = action (sighand g) /\
                dequeued (blocked t) (pending t) (pending t') /\
                outcome g t r' t') as Hterm2.
    { intros r Hr.
      apply (Hterm true g2 t2 r); try reflexivity; try assumption.
      repeat split. }
    destruct (dump_info_malloc_ok env); cbn [negb]; cbv iota;
      [|apply Hterm2; left; reflexivity].
    destruct (Z.eqb_spec (get_ve_task_struct_ret env) 0); cbn [negb]; cbv iota;
      [|apply Hterm2; left; reflexivity].
    destruct (Z.eqb_spec (pthread_create_ret env) 0); cbn [negb]; cbv iota;
      [|apply Hterm2; left; reflexivity].
    apply Hterm2. right. split; reflexivity.
  - apply (Hterm false g1 t1); try reflexivity; try assumption.
    + repeat split.
    + left. reflexivity.
Qed.

(** [ve_get_signal] with enough fuel for the queue of the thread. *)
Lemma ve_get_signal_spec fuel g i t fl si env :
  tasks g !! i = Some t ->
  unreserved (pending t) ->
  (length (sig_list (pending t)) + 64 < fuel)%nat ->
  exists r t',
    ve_get_signal fuel g i fl si env = Some r /\
    tasks (gs_group r) !! i = Some t' /\
    same_thread t t' /\
    others g i r /\
    action (sighand (gs_group r)) = action (sighand g) /\
    dequeued (blocked t) (pending t) (pending t') /\
    (signal_flag (sighand g) = VE_SIGNAL_GROUP_COREDUMP ->
     r = mk_get_signal_result (-1)
           (set_task g i (psm_set_task_state t STOP)) fl si [] None) /\
    (signal_flag (sighand g) <> VE_SIGNAL_GROUP_COREDUMP -> outcome g t r t').
Proof.
  intros Hi Hun Hfuel. unfold ve_get_signal, should_dump_core. rewrite Hi.
  destruct (Z.eqb_spec (signal_flag (sighand g)) VE_SIGNAL_GROUP_COREDUMP)
    as [E|E]; cbn [negb]; cbv iota.
  - eexists _, _. split; [reflexivity|]. cbn [gs_group].
    split; [eapply set_task_lookup, Hi|]. split; [repeat split|].
    split.
    { split; [|cbn [gs_signum]; intros; lia].
      intros _ j Hne. cbn [gs_group tasks set_task].
      apply list_lookup_insert_ne. congruence. }
    split; [reflexivity|]. split; [apply dequeued_refl|].
    split; [reflexivity|]. intros; contradiction.
  - destruct (ve_get_signal_loop_spec fuel g i t fl si env Hi Hun)
      as (r & t' & Hr & Ht' & H1 & H2 & H3 & H4 & H5).
    { pose proof (weight_le (pending t)). lia. }
    exists r, t'. repeat (split; [assumption|]).
    split; [intros; contradiction|]. intros _. exact H5.
Qed.

(** After the result -2 every thread of the group is stopped. *)
Lemma others_stopped g i t r t' :
  tasks g !! i = Some t -> tasks (gs_group r) !! i = Some t' ->
  others g i r -> gs_signum r = -2 ->
  p_ve_thread t' = stopped_regs t -> ve_task_state t' = STOP ->
  forall j tj, tasks g !! j = Some tj ->
    exists tj', tasks (gs_group r) !! j = Some tj' /\
      ve_task_state tj' = STOP /\ p_ve_thread tj' = stopped_regs tj.
Proof.
  intros Hi Hi' [_ Ho] Hs Hr Hst j tj Hj.
  destruct (decide (j = i)) as [->|Hne].
  - exists t'. rewrite Hi in Hj. injection Hj as <-. auto.
  - exists (stopped tj). rewrite (Ho Hs j Hne), Hj.
    split; [reflexivity|]. rewrite stopped_eq. split; reflexivity.
Qed.

(** X14: [ve_get_signal] ends when the pending mask of the thread holds
    no bit of the signals 32 and 33, which [sigaddset] never sets: 65
    dequeues more than the queue of the thread has records then suffice.
    Its result is -2, -1, 0 or a signal number.  A signal number is that of
    a signal that was pending and not blocked on entry and whose action is
    a handler of the process, neither SIG_IGN nor SIG_DFL; nothing is sent
    and no dump is started.  The result 0 means that no pending signal of
    the thread is left that is not blocked; the flag of the thread is then
    clear. *)
Theorem ve_get_signal_returns fuel g i t fl si env :
  tasks g !! i = Some t ->
  unreserved (pending t) ->
  (length (sig_list (pending t)) + 64 < fuel)%nat ->
  exists r t',
    ve_get_signal fuel g i fl si env = Some r /\
    tasks (gs_group r) !! i = Some t' /\
    (gs_signum r = -2 \/ gs_signum r = -1 \/ gs_signum r = 0 \/
     1 <= gs_signum r <= 64) /\
    (0 < gs_signum r ->
     deliverable (pending t) (blocked t) (gs_signum r) /\
     ve_sig_handler (sighand g) (gs_signum r) <> SIG_IGN /\
     ve_sig_handler (sighand g) (gs_signum r) <> SIG_DFL /\
     sigpending t' = 0 /\ gs_events r = [] /\ gs_dump r = None) /\
    (gs_signum r = 0 ->
     psm_get_next_ve_signal (pending t') (blocked t') = 0 /\
     (forall s, ~ deliverable (pending t') (blocked t') s) /\
     sigpending t' = 0 /\ gs_events r = [] /\ gs_dump r = None).
Proof.
  intros Hi Hun Hfuel.
  destruct (ve_get_signal_spec fuel g i t fl si env Hi Hun Hfuel)
    as (r & t' & Hr & Ht' & Hsame & _ & _ & _ & Hcd & Hout).
  exists r, t'. split; [exact Hr|]. split; [exact Ht'|].
  destruct (Z.eq_dec (signal_flag (sighand g)) VE_SIGNAL_GROUP_COREDUMP)
    as [E|E].
  { rewrite (Hcd E). simpl. split; [auto|]. split; intros; lia. }
  assert (blocked t' = blocked t) as Hb by apply Hsame.
  specialize (Hout E). unfold outcome in Hout. cbv zeta in Hout.
  unfold ve_sig_handler. rewrite Hb.
  destruct Hout as [H|[H|[H|H]]].
  - destruct H as (H0 & Hn & Hf & He & Hdu & _). rewrite H0.
    split; [auto|]. split; [intros; lia|]. intros _.
    split; [apply next_signal_zero; exact Hn|].
    repeat (split; [assumption|]); assumption.
  - destruct H as (H0 & Hd & Hi1 & Hi2 & Hf & He & Hdu & _).
    split; [auto|].
    split; [intros _; repeat (split; [assumption|]); assumption|].
    intros; lia.
  - destruct H as (H0 & _). rewrite H0. split; [auto|]. split; intros; lia.
  - destruct H as (H0 & _). rewrite H0. split; [auto|]. split; intros; lia.
Qed.

(** X15: what [ve_get_signal] spares, on a thread whose pending mask
    holds no bit of the signals 32 and 33.  Whatever it returns, it takes
    from the thread only records and bits of signals that are not blocked:
    the pending bits and the records of every blocked signal are as before,
    so that [psm_do_sigpending] reports the same signals; no bit is set and
    no record is added; the mask, the saved mask and the alternate stack of
    the thread and the actions of the group are as before.  Unless it
    returns -2, the registers of the thread and the other threads are as
    before too; the state of the thread is as before when the result is not
    negative.  When it returns -2 it has stopped the group: every thread is
    in the state STOP, with the registers of its core when it is the
    current task of one and its own registers otherwise, and the other
    threads keep their pending queues and masks. *)
Theorem ve_get_signal_spares_blocked fuel g i t fl si env :
  tasks g !! i = Some t ->
  unreserved (pending t) ->
  (length (sig_list (pending t)) + 64 < fuel)%nat ->
  exists r t',
    ve_get_signal fuel g i fl si env = Some r /\
    tasks (gs_group r) !! i = Some t' /\
    blocked t' = blocked t /\
    sas_ss_sp t' = sas_ss_sp t /\ sas_ss_size t' = sas_ss_size t /\
    ve_saved_sigmask t' = ve_saved_sigmask t /\ mask_saved t' = mask_saved t /\
    action (sighand (gs_group r)) = action (sighand g) /\
    (forall s, sigismember (signal (pending t')) s = 1 ->
               sigismember (signal (pending t)) s = 1) /\
    (forall s, (count_sig s (sig_list (pending t'))
                <= count_sig s (sig_list (pending t)))%nat) /\
    (forall s, sigismember (blocked t) s = 1 ->
       (sigismember (signal (pending t')) s = 1
        <-> sigismember (signal (pending t)) s = 1) /\
       count_sig s (sig_list (pending t')) = count_sig s (sig_list (pending t))) /\
    (forall s, sigismember (psm_do_sigpending t') s = 1
               <-> sigismember (psm_do_sigpending t) s = 1) /\
    (gs_signum r <> -2 ->
     p_ve_thread t' = p_ve_thread t /\
     forall j, j <> i -> tasks (gs_group r) !! j = tasks g !! j) /\
    (0 <= gs_signum r -> ve_task_state t' = ve_task_state t) /\
    (gs_signum r = -2 ->
     forall j tj, tasks g !! j = Some tj ->
       exists tj',
         tasks (gs_group r) !! j = Some tj' /\
         ve_task_state tj' = STOP /\ p_ve_thread tj' = stopped_regs tj /\
         blocked tj' = blocked tj /\ (j <> i -> pending tj' = pending tj)).
Proof.
  intros Hi Hun Hfuel.
  destruct (ve_get_signal_spec fuel g i t fl si env Hi Hun Hfuel)
    as (r & t' & Hr & Ht' & Hsame & Hoth & Hact & (D1 & D2 & D3) & Hcd & Hout).
  pose proof Hsame as (_ & S3 & S4 & S5 & S6 & S7 & _).
  exists r, t'. repeat (split; [assumption|]).
  split.
  { intros s. unfold psm_do_sigpending. rewrite !sigismember_sigandset, S3.
    split; intros [Hb Hp]; (split; [exact Hb|]); apply (D3 s Hb); exact Hp. }
  destruct Hoth as [Ho1 Ho2].
  destruct (Z.eq_dec (signal_flag (sighand g)) VE_SIGNAL_GROUP_COREDUMP)
    as [E|E].
  { specialize (Hcd E). subst r. cbn [gs_signum gs_group] in *.
    rewrite (set_task_lookup g i _ t Hi) in Ht'. injection Ht' as <-.
    split; [intros _; split; [reflexivity|apply Ho1; lia]|].
    split; intros; lia. }
  specialize (Hout E). unfold outcome in Hout. cbv zeta in Hout.
  destruct Hout as [H|[H|[H|H]]].
  - destruct H as (H0 & _ & _ & _ & _ & _ & Hp & Hs & _).
    split; [intros Hn; split; [exact Hp|exact (Ho1 Hn)]|].
    split; [intros _; exact Hs|]. intros; lia.
  - destruct H as (H0 & _ & _ & _ & _ & _ & _ & _ & Hp & Hs & _).
    split; [intros Hn; split; [exact Hp|exact (Ho1 Hn)]|].
    split; [intros _; exact Hs|]. intros; lia.
  - destruct H as (H0 & _ & _ & _ & _ & _ & Hp & Hs & _).
    split; [intros; contradiction|]. split; [intros; lia|].
    intros _ j tj Hj. destruct (decide (j = i)) as [->|Hne].
    + exists t'. rewrite Hi in Hj. injection Hj as <-.
      repeat (split; [assumption|]). intros; contradiction.
    + exists (stopped tj). rewrite (Ho2 H0 j Hne), Hj.
      split; [reflexivity|]. rewrite stopped_eq. repeat split.
  - destruct H as (H0 & Hp & _).
    split; [intros Hn; split; [exact Hp|exact (Ho1 Hn)]|].
    split; intros; lia.
Qed.

(** X16: the default actions of [ve_get_signal], on a thread whose
    pending mask holds no bit of the signals 32 and 33.  While a core dump
    of the group is in progress it returns -1 at once and does nothing but
    set the state of the thread to STOP.  Otherwise the result -2 means
    that a signal that was pending and not blocked, with the default action
    and not ignored by default, is a stop signal; nothing is sent and every
    thread of the group is put in the state STOP, with the registers of its
    core when it is the current task of one.  The result -1 means that
    such a signal is not a stop signal.  For a signal that dumps core the
    thread gets PF_DUMPCORE and the state STOP and the group is marked as
    dumping core; then either the dump thread is started with this signal,
    [*flag], [*ve_siginfo] and the thread, or, when that fails, and for
    every signal that does not dump core, the process is sent one signal
    with [kill]: the signal itself, the thread getting PF_SIGNALED, when
    [*flag] says it comes from an exception, and SIGKILL otherwise. *)
Theorem ve_get_signal_default_action fuel g i t fl si env :
  tasks g !! i = Some t ->
  unreserved (pending t) ->
  (length (sig_list (pending t)) + 64 < fuel)%nat ->
  exists r t',
    ve_get_signal fuel g i fl si env = Some r /\
    tasks (gs_group r) !! i = Some t' /\
    (signal_flag (sighand g) = VE_SIGNAL_GROUP_COREDUMP ->
     r = mk_get_signal_result (-1)
           (set_task g i (psm_set_task_state t STOP)) fl si [] None) /\
    (signal_flag (sighand g) <> VE_SIGNAL_GROUP_COREDUMP ->
     let default_action sig :=
       deliverable (pending t) (blocked t) sig /\
       ve_sig_handler (sighand g) sig = SIG_DFL /\
       ve_sig_ignore sig = false in
     (gs_signum r = -2 ->
      (exists sig, default_action sig /\ ve_sig_stop sig = true) /\
      gs_events r = [] /\ gs_dump r = None /\
      forall j tj, tasks g !! j = Some tj ->
        exists tj', tasks (gs_group r) !! j = Some tj' /\
          ve_task_state tj' = STOP /\ p_ve_thread tj' = stopped_regs tj) /\
     (gs_signum r = -1 ->
      exists sig,
        default_action sig /\ ve_sig_stop sig = false /\
        let fl0 := if ve_sig_coredump sig
                   then Z.lor (flags t) PF_DUMPCORE else flags t in
        (ve_sig_coredump sig = true ->
         ve_task_state t' = STOP /\
         signal_flag (sighand (gs_group r)) = VE_SIGNAL_GROUP_COREDUMP) /\
        (ve_sig_coredump sig = false ->
         ve_task_state t' = ve_task_state t /\
         signal_flag (sighand (gs_group r)) = signal_flag (sighand g)) /\
        ((gs_dump r = None /\
          gs_events r = [if SYNCHRONOUS_SIGNAL =? gs_flag r
                         then Kill (pid t) sig else Kill (pid t) SIGKILL] /\
          flags t' = (if SYNCHRONOUS_SIGNAL =? gs_flag r
                      then Z.lor fl0 PF_SIGNALED else fl0)) \/
         (ve_sig_coredump sig = true /\ gs_events r = [] /\
          gs_dump r
          = Some (mk_dump_info sig (gs_flag r) (pid t) (gs_siginfo r)
                    (tgid t) (ve_exec_path t)) /\
          flags t' = fl0))) /\
     (gs_events r <> [] \/ gs_dump r <> None -> gs_signum r = -1)).
Proof.
  intros Hi Hun Hfuel.
  destruct (ve_get_signal_spec fuel g i t fl si env Hi Hun Hfuel)
    as (r & t' & Hr & Ht' & _ & Hoth & _ & _ & Hcd & Hout).
  exists r, t'. split; [exact Hr|]. split; [exact Ht'|]. split; [exact Hcd|].
  intros E. specialize (Hout E). unfold outcome in Hout. cbv zeta in *.
  unfold ve_sig_handler.
  destruct Hout as [H|[H|[H|H]]].
  - destruct H as (H0 & _ & _ & He & Hdu & _). rewrite H0, He, Hdu.
    split; [intros; lia|]. split; [intros; lia|]. intros [?|?]; contradiction.
  - destruct H as (H0 & _ & _ & _ & _ & He & Hdu & _). rewrite He, Hdu.
    split; [intros; lia|]. split; [intros; lia|]. intros [?|?]; contradiction.
  - destruct H as (H0 & Hs & _ & He & Hdu & _ & Hp & Hst & _).
    split.
    { intros _. split; [exact Hs|]. split; [exact He|]. split; [exact Hdu|].
      eapply others_stopped; eassumption. }
    rewrite H0, He, Hdu.
    split; [intros; lia|]. intros [?|?]; contradiction.
  - destruct H as (H0 & _ & sig & Hdef & Hst & Hsf & Hts & Hev). rewrite H0.
    split; [intros; lia|]. split; [|reflexivity].
    intros _. exists sig. split; [exact Hdef|]. split; [exact Hst|].
    split; [intros Hc; rewrite Hc in Hts, Hsf; auto|].
    split; [intros Hc; rewrite Hc in Hts, Hsf; auto|].
    exact Hev.
Qed.

End Loop.

Section NoSignal.

Context {hdr : veos_headers}.

(** The registers after an interrupted system call is set to restart. *)
Definition restarted (regs : core_user_reg_t) : core_user_reg_t :=
  if (SR regs 0 =? u64 (- VE_ENORESTART)) || (SR regs 0 =? u64 (- VE_ERESTARTSYS))
  then set_IC regs (u64 (IC regs - 8)) else regs.

Lemma no_signal_delivered_spec t :
  let t' := no_signal_delivered t in
  p_ve_thread t' = restarted (p_ve_thread t) /\
  mask_saved t' = false /\
  (mask_saved t = true ->
   forall s, sigismember (blocked t') s = 1
             <-> ~ unmaskable s /\ sigismember (ve_saved_sigmask t) s = 1) /\
  (mask_saved t = false -> blocked t' = blocked t) /\
  pending t' = pending t /\ ve_task_state t' = ve_task_state t.
Proof.
  cbv zeta. unfold no_signal_delivered, restarted.
  set (t1 := if _ || _ then _ else t).
  assert (mask_saved t1 = mask_saved t /\ ve_saved_sigmask t1 = ve_saved_sigmask t /\
          blocked t1 = blocked t /\ pending t1 = pending t /\
          ve_task_state t1 = ve_task_state t /\
          p_ve_thread t1
          = (if (SR (p_ve_thread t) 0 =? u64 (- VE_ENORESTART))
                || (SR (p_ve_thread t) 0 =? u64 (- VE_ERESTARTSYS))
             then set_IC (p_ve_thread t) (u64 (IC (p_ve_thread t) - 8))
             else p_ve_thread t)) as (M & S & B & P & St & T).
  { unfold t1.
    destruct ((SR (p_ve_thread t) 0 =? u64 (- VE_ENORESTART))
              || (SR (p_ve_thread t) 0 =? u64 (- VE_ERESTARTSYS)));
      repeat split. }
  rewrite M. destruct (mask_saved t) eqn:Em.
  - simpl. rewrite psm_set_current_blocked_thread.
    destruct (psm_set_current_blocked_fields t1 (ve_saved_sigmask t1))
      as (Hp & _).
    split; [exact T|]. split; [reflexivity|].
    split; [intros _ s; rewrite psm_set_current_blocked_member, S; tauto|].
    split; [discriminate|]. split; [congruence|].
    rewrite <- St. unfold psm_set_current_blocked, recalc_sigpending.
    destruct (negb _); reflexivity.
  - split; [exact T|]. split; [congruence|]. split; [discriminate|].
    split; [intros _; exact B|]. split; [exact P|exact St].
Qed.

End NoSignal.

Section Deliver.

Context {hdr : veos_headers} {lq : legacy_queue_macro} {sm : signal_macros}
  {sched : veos_scheduler}.
Variable __veos_virt_to_phy : Z -> Z.

(** X17: [psm_do_signal_ve], on a thread whose pending mask holds no bit
    of the signals 32 and 33, returns 0 or -1, and sends and starts what
    [ve_get_signal] sent and started.  When [ve_get_signal] hands it no
    signal to run a handler for (0: nothing left to deliver; -2: the
    group is stopped), it returns 0 and -1 respectively and leaves the
    memory, the other threads and the actions as [ve_get_signal] left
    them; in the registers [ve_get_signal] left, which are those of the
    thread on entry for 0 and those of the stopped thread for -2, it sets a
    system call that was interrupted to restart (the instruction counter
    goes back by 8) for -VE_ENORESTART as for -VE_ERESTARTSYS; it puts a
    saved mask back, without SIGKILL, SIGSTOP and SIGCONT, clearing the
    flag of the saved mask, and keeps the state of the thread.  When
    [ve_get_signal] gives -1 it returns -1 and changes nothing more.  (The
    dequeues allowed are 65 more than the queue of the thread has
    records.) *)
Theorem psm_do_signal_ve_unhandled fuel g i t env dma_status mem ok :
  tasks g !! i = Some t ->
  unreserved (pending t) ->
  (length (sig_list (pending t)) + 64 < fuel)%nat ->
  exists res r0 t1,
    ve_get_signal fuel g i 0 (mk_siginfo (-1) 0 0 0 0) env = Some r0 /\
    tasks (gs_group r0) !! i = Some t1 /\
    psm_do_signal_ve __veos_virt_to_phy fuel g i env dma_status mem ok
    = Some res /\
    ds_events res = gs_events r0 /\ ds_dump res = gs_dump r0 /\
    (ds_retval res = 0 \/ ds_retval res = -1) /\
    (gs_signum r0 = -1 ->
     ds_retval res = -1 /\ ds_group res = gs_group r0 /\ ds_memory res = mem) /\
    (gs_signum r0 = 0 \/ gs_signum r0 = -2 ->
     ds_retval res = (if gs_signum r0 =? 0 then 0 else -1) /\
     ds_memory res = mem /\
     sighand (ds_group res) = sighand (gs_group r0) /\
     (forall j, j <> i -> tasks (ds_group res) !! j = tasks (gs_group r0) !! j) /\
     p_ve_thread t1
     = (if gs_signum r0 =? 0 then p_ve_thread t else stopped_regs t) /\
     exists t',
       tasks (ds_group res) !! i = Some t' /\
       p_ve_thread t' = restarted (p_ve_thread t1) /\
       ve_task_state t' = ve_task_state t1 /\
       mask_saved t' = false /\
       (mask_saved t = true ->
        forall s, sigismember (blocked t') s = 1
                  <-> ~ unmaskable s /\ sigismember (ve_saved_sigmask t) s = 1) /\
       (mask_saved t = false -> blocked t' = blocked t)).
Proof.
  intros Hi Hun Hfuel.
  destruct (ve_get_signal_spec fuel g i t 0 (mk_siginfo (-1) 0 0 0 0) env
              Hi Hun Hfuel)
    as (r0 & t1 & Hr & Ht1 & Hsame & _ & _ & _ & Hcd & Hout).
  assert (gs_signum r0 = 0 \/ gs_signum r0 = -2 ->
          p_ve_thread t1
          = (if gs_signum r0 =? 0 then p_ve_thread t else stopped_regs t))
    as Hregs.
  { intros Hs.
    destruct (Z.eq_dec (signal_flag (sighand g)) VE_SIGNAL_GROUP_COREDUMP)
      as [E|E]; [rewrite (Hcd E) in Hs; simpl in Hs; lia|].
    specialize (Hout E). unfold outcome in Hout. cbv zeta in Hout.
    destruct Hout as [H|[H|[H|H]]].
    - destruct H as (H0 & _ & _ & _ & _ & _ & Hp & _). rewrite H0. exact Hp.
    - destruct H as (H0 & _). lia.
    - destruct H as (H0 & _ & _ & _ & _ & _ & Hp & _). rewrite H0. exact Hp.
    - destruct H as (H0 & _). lia. }
  clear Hcd Hout.
  unfold psm_do_signal_ve. rewrite Hr.
  destruct (Z.ltb_spec 0 (gs_signum r0)) as [Hpos|Hpos].
  { destruct (ve_handle_signal _ _ _ _ _ _ _ _ _) as [[retval g'] mem'].
    eexists _, r0, t1. split; [reflexivity|]. split; [exact Ht1|].
    split; [reflexivity|]. simpl.
    split; [reflexivity|]. split; [reflexivity|].
    split; [destruct (0 >? retval); auto|]. split; intros; lia. }
  destruct (Z.eqb_spec (gs_signum r0) 0) as [E0|E0];
    [|destruct (Z.eqb_spec (gs_signum r0) (-2)) as [E2|E2]]; cbn [orb]; cbv iota.
  3:{ eexists _, r0, t1. split; [reflexivity|]. split; [exact Ht1|].
      split; [reflexivity|]. simpl.
      split; [reflexivity|]. split; [reflexivity|]. split; [auto|].
      split; [auto|]. intros [?|?]; contradiction. }
  all: specialize (Hregs ltac:(lia)).
  all: unfold update_task; rewrite Ht1;
    eexists _, r0, t1; (split; [reflexivity|]); (split; [exact Ht1|]);
    (split; [reflexivity|]);
    cbn [ds_events ds_dump ds_retval ds_group ds_memory];
    (split; [reflexivity|]); (split; [reflexivity|]).
  all: destruct (no_signal_delivered_spec t1) as (N1 & N2 & N3 & N4 & _ & N6).
  all: destruct Hsame as (_ & S3 & S4 & S5 & _).
  all: rewrite S5, S4 in N3; rewrite S5, S3 in N4.
  all: assert (tasks (set_task (gs_group r0) i (no_signal_delivered t1)) !! i
               = Some (no_signal_delivered t1)) as Hl
      by (apply (set_task_lookup _ _ _ t1), Ht1).
  all: assert (forall j, j <> i ->
                 tasks (set_task (gs_group r0) i (no_signal_delivered t1)) !! j
                 = tasks (gs_group r0) !! j) as Hj
      by (intros j Hne; simpl; apply list_lookup_insert_ne; congruence).
  - split; [destruct (gs_signum r0 =? -2); auto|].
    split; [intros; lia|]. intros _.
    rewrite E0 in *. split; [reflexivity|]. split; [reflexivity|].
    split; [reflexivity|]. split; [exact Hj|]. split; [exact Hregs|].
    eexists. split; [exact Hl|]. auto.
  - split; [destruct (gs_signum r0 =? -2); auto|].
    split; [intros; lia|]. intros _.
    rewrite E2 in *. split; [reflexivity|]. split; [reflexivity|].
    split; [reflexivity|]. split; [exact Hj|]. split; [exact Hregs|].
    eexists. split; [exact Hl|]. auto.
Qed.

(** X18: the mask replaced by [psm_do_sigsuspend] comes back.  After
    [psm_do_sigsuspend] on a thread whose pending mask holds no bit of the
    signals 32 and 33, when every frame address has a translation and the
    transfers succeed, [psm_do_signal_ve] ends; when it had no handler to
    run, the mask of the thread is the one it had before
    [psm_do_sigsuspend], without SIGKILL, SIGSTOP and SIGCONT; when it
    started a handler, the frame holds that mask, and the return from the
    handler, [psm_restore_ve_context], gives up when it cannot read the
    stack pointer and installs that mask as it was when it reads the stack
    pointer at which the handler was started.  In both cases the flag of
    the saved mask is clear afterwards. *)
Theorem sigsuspend_mask_comes_back fuel g i t0 mask_set env mem ok :
  tasks g !! i = Some (psm_do_sigsuspend t0 mask_set) ->
  unreserved (pending t0) ->
  (length (sig_list (pending t0)) + 64 < fuel)%nat ->
  (forall a, 0 <= __veos_virt_to_phy a) ->
  exists res r0 t',
    ve_get_signal fuel g i 0 (mk_siginfo (-1) 0 0 0 0) env = Some r0 /\
    psm_do_signal_ve __veos_virt_to_phy fuel g i env 0 mem ok = Some res /\
    tasks (ds_group res) !! i = Some t' /\
    (gs_signum r0 = 0 \/ gs_signum r0 = -2 ->
     mask_saved t' = false /\
     forall s, sigismember (blocked t') s = 1
               <-> ~ unmaskable s /\ sigismember (blocked t0) s = 1) /\
    (0 < gs_signum r0 ->
     ds_retval res = 0 /\ mask_saved t' = false /\
     IC (p_ve_thread t') = ve_sig_handler (sighand g) (gs_signum r0) /\
     forall rd ok',
       (read_curr_sp rd t' = None ->
        psm_restore_ve_context __veos_virt_to_phy (ds_group res) i rd 0
          (ds_memory res) ok' = None) /\
       (forall sp,
          read_curr_sp rd t' = Some sp ->
          u64 (sp + HANDLER_STACK_FRAME)
          = u64 (SR (p_ve_thread t') 11 + HANDLER_STACK_FRAME) ->
          exists r g2 evs t2,
            psm_restore_ve_context __veos_virt_to_phy (ds_group res) i rd 0
              (ds_memory res) ok' = Some (r, g2, evs) /\
            tasks g2 !! i = Some t2 /\
            blocked t2 = blocked t0)).
Proof.
  intros Hi Hun Hfuel Hvirt.
  set (ts := psm_do_sigsuspend t0 mask_set) in *.
  assert (ve_saved_sigmask ts = blocked t0 /\ mask_saved ts = true /\
          pending ts = pending t0) as (Hsv & Hms & Hp).
  { unfold ts, psm_do_sigsuspend.
    destruct (psm_set_current_blocked_fields
                (set_mask_saved (set_ve_saved_sigmask t0 (blocked t0)) true)
                mask_set) as (E1 & _ & _ & _ & _ & E2 & E3 & _).
    rewrite E1, E2, E3. repeat split. }
  rewrite <- Hp in Hfuel, Hun.
  destruct (ve_get_signal_spec fuel g i ts 0 (mk_siginfo (-1) 0 0 0 0) env
              Hi Hun Hfuel)
    as (r0 & t1 & Hr & Ht1 & Hsame & Hoth & Hact & _).
  destruct Hsame as (_ & S3 & S4 & S5 & _).
  unfold psm_do_signal_ve. rewrite Hr.
  destruct (Z.ltb_spec 0 (gs_signum r0)) as [Hpos|Hpos].
  { destruct (handle_then_restore __veos_virt_to_phy (gs_group r0) i t1
                (gs_flag r0) (gs_signum r0) (gs_siginfo r0) mem ok Ht1)
      as (g1 & mem1 & t2 & regs0 & H1 & H2 & H3 & _ & H5 & _ & _ & H7 & H8).
    { apply Hvirt. }
    rewrite H1. change (0 >? 0) with false. cbv iota.
    eexists _, r0, t2. split; [reflexivity|]. split; [reflexivity|].
    cbn [ds_group ds_retval ds_memory].
    split; [exact H2|]. split; [intros; lia|]. intros _.
    split; [reflexivity|]. split; [exact H5|].
    split.
    { rewrite H3, Hact. reflexivity. }
    intros rd ok'. destruct (H8 rd ok') as [R0 R1]. split; [exact R0|].
    intros sp Hsp Hva. rewrite H7 in Hva.
    destruct (R1 sp Hsp Hva) as (r & g2 & evs & t3 & Q1 & Q2 & _ & Q4 & _).
    exists r, g2, evs, t3. split; [exact Q1|]. split; [exact Q2|].
    rewrite Q4, S5, Hms, S4. exact Hsv. }
  destruct (no_signal_delivered_spec t1) as (_ & N2 & N3 & _).
  rewrite S5, S4, Hsv in N3. specialize (N3 Hms).
  destruct (Z.eqb_spec (gs_signum r0) 0) as [E0|E0];
    [|destruct (Z.eqb_spec (gs_signum r0) (-2)) as [E2|E2]]; cbn [orb]; cbv iota.
  3:{ eexists _, r0, t1. split; [reflexivity|]. split; [reflexivity|].
      cbn [ds_group]. split; [exact Ht1|]. split; intros; lia. }
  all: unfold update_task; rewrite Ht1;
    eexists _, r0, _; (split; [reflexivity|]); (split; [reflexivity|]);
    cbn [ds_group];
    (split; [apply (set_task_lookup _ _ _ t1), Ht1|]);
    (split; [intros _; split; [exact N2|exact N3]|intros; lia]).
Qed.

End Deliver.

(** A thread with SIGUSR1 and SIGSEGV queued, SIGUSR1 blocked, in a group
    whose signals all have a handler, and in a group whose signals all
    have the default action. *)
Definition task_pending : ve_task_struct :=
  mk_task 100 (p_ve_thread task_demo)
    (mk_sigpending
       [mk_sigqueue SIGUSR1 0 (mk_siginfo SIGUSR1 0 0 0 0);
        mk_sigqueue SIGSEGV 1 (mk_siginfo SIGSEGV 0 0 0x6000 0)]
       (Z.lor (ve_mask SIGUSR1) (ve_mask SIGSEGV)))
    (ve_mask SIGUSR1) 0 false 0x20000 0x4000 1 false []
    1 0 0 0 100 (ve_exec_path task_demo).

Definition group_pending : thread_group := mk_group [task_pending] sighand_demo.

Definition group_default : thread_group :=
  mk_group [task_pending] (mk_sighand (fun _ => mk_sigaction SIG_DFL 0 0) 2 8 8 0 0).

Definition siginfo_none : siginfo_t := mk_siginfo (-1) 0 0 0 0.

Definition dump_start_ok : dump_start := mk_dump_start true 0 0.

Lemma task_pending_unreserved : unreserved (pending task_pending).
Proof. apply unreserved_testbit; reflexivity. Qed.

Lemma task_demo_unreserved : unreserved (pending task_demo).
Proof. apply unreserved_testbit; reflexivity. Qed.

Lemma ve_get_signal_returns_witness :
  exists r,
    ve_get_signal (hdr := sample_headers) (sm := sample_macros)
      (sched := sample_scheduler) 70
      group_pending 0%nat 0 siginfo_none dump_start_ok = Some r /\
    (gs_signum r = -2 \/ gs_signum r = -1 \/ gs_signum r = 0 \/
     1 <= gs_signum r <= 64) /\
    (0 < gs_signum r ->
     deliverable (pending task_pending) (blocked task_pending) (gs_signum r) /\
     gs_events r = [] /\ gs_dump r = None).
Proof.
  destruct (ve_get_signal_returns (hdr := sample_headers) (sm := sample_macros)
              (sched := sample_scheduler)
              70 group_pending 0%nat task_pending 0 siginfo_none dump_start_ok)
    as (r & t' & H1 & _ & H3 & H4 & _).
  - reflexivity.
  - exact task_pending_unreserved.
  - simpl. lia.
  - exists r. split; [exact H1|]. split; [exact H3|].
    intros Hp. destruct (H4 Hp) as (A & _ & _ & _ & B & C). auto.
Defined.

Lemma ve_get_signal_spares_blocked_witness :
  exists r t',
    ve_get_signal (hdr := sample_headers) (sm := sample_macros)
      (sched := sample_scheduler) 70
      group_pending 0%nat 0 siginfo_none dump_start_ok = Some r /\
    tasks (gs_group r) !! 0%nat = Some t' /\
    blocked t' = ve_mask SIGUSR1 /\
    sigismember (signal (pending t')) SIGUSR1 = 1 /\
    count_sig SIGUSR1 (sig_list (pending t')) = 1%nat.
Proof.
  destruct (ve_get_signal_spares_blocked (hdr := sample_headers)
              (sm := sample_macros) (sched := sample_scheduler)
              70 group_pending 0%nat task_pending 0 siginfo_none dump_start_ok)
    as (r & t' & H1 & H2 & H3 & _ & _ & _ & _ & _ & _ & _ & H11 & _).
  - reflexivity.
  - exact task_pending_unreserved.
  - simpl. lia.
  - exists r, t'. split; [exact H1|]. split; [exact H2|]. split; [exact H3|].
    destruct (H11 SIGUSR1 eq_refl) as [A B].
    split; [apply A; reflexivity|rewrite B; reflexivity].
Defined.

Lemma ve_get_signal_default_action_witness :
  exists r t',
    ve_get_signal (hdr := sample_headers) (sm := sample_macros)
      (sched := sample_scheduler) 70
      group_default 0%nat 0 siginfo_none dump_start_ok = Some r /\
    tasks (gs_group r) !! 0%nat = Some t' /\
    (gs_signum r = -1 ->
     exists sig,
       deliverable (pending task_pending) (blocked task_pending) sig /\
       ((gs_dump r = None /\
         gs_events r = [if 1 =? gs_flag r
                        then Kill 100 sig else Kill 100 SIGKILL]) \/
        (gs_events r = [] /\
         gs_dump r = Some (mk_dump_info sig (gs_flag r) 100 (gs_siginfo r)
                             100 (ve_exec_path task_demo)) /\
         flags t' = 0x200))).
Proof.
  destruct (ve_get_signal_default_action (hdr := sample_headers)
              (sm := sample_macros) (sched := sample_scheduler)
              70 group_default 0%nat task_pending 0 siginfo_none dump_start_ok)
    as (r & t' & H1 & H2 & _ & H3).
  - reflexivity.
  - exact task_pending_unreserved.
  - simpl. lia.
  - exists r, t'. split; [exact H1|]. split; [exact H2|]. intros Hm.
    destruct H3 as (_ & H4 & _); [vm_compute; discriminate|].
    destruct (H4 Hm)
      as (sig & (A & _) & _ & _ & _ & [(B1 & B2 & _)|(Hc & C & D & F)]).
    + exists sig. split; [exact A|]. left. split; [exact B1|exact B2].
    + exists sig. split; [exact A|]. right. split; [exact C|].
      split; [exact D|]. rewrite F, Hc. reflexivity.
Defined.

(** [task_demo] has nothing pending and was interrupted in a system call
    that restarts. *)
Lemma psm_do_signal_ve_unhandled_witness :
  exists res r0,
    ve_get_signal (hdr := sample_headers) (sm := sample_macros)
      (sched := sample_scheduler) 65
      group_demo 0%nat 0 siginfo_none dump_start_ok = Some r0 /\
    psm_do_signal_ve (hdr := sample_headers) (lq := lq_mask)
      (sm := sample_macros) (sched := sample_scheduler)
      (fun a => a) 65 group_demo 0%nat dump_start_ok 0
      (fun _ => frame_zero) true = Some res /\
    (ds_retval res = 0 \/ ds_retval res = -1) /\
    (gs_signum r0 = 0 ->
     exists t',
       tasks (ds_group res) !! 0%nat = Some t' /\
       p_ve_thread t' = restarted (hdr := sample_headers) (p_ve_thread task_demo)).
Proof.
  destruct (psm_do_signal_ve_unhandled (hdr := sample_headers) (lq := lq_mask)
              (sm := sample_macros) (sched := sample_scheduler)
              (fun a => a) 65 group_demo 0%nat task_demo
              dump_start_ok 0 (fun _ => frame_zero) true)
    as (res & r0 & t1 & H1 & _ & H2 & _ & _ & H5 & _ & H7).
  - reflexivity.
  - exact task_demo_unreserved.
  - simpl. lia.
  - exists res, r0. split; [exact H1|]. split; [exact H2|]. split; [exact H5|].
    intros E.
    destruct (H7 (or_introl E)) as (_ & _ & _ & _ & R & t' & A & B & _).
    exists t'. split; [exact A|]. rewrite B, R, E. reflexivity.
Defined.

(** [task_demo] after a [psm_do_sigsuspend] that blocks SIGUSR1 only. *)
Lemma sigsuspend_mask_comes_back_witness :
  let ts := psm_do_sigsuspend (hdr := sample_headers) task_demo (ve_mask SIGUSR1) in
  exists res r0 t',
    ve_get_signal (hdr := sample_headers) (sm := sample_macros)
      (sched := sample_scheduler) 65
      (mk_group [ts] sighand_demo) 0%nat 0 siginfo_none dump_start_ok = Some r0 /\
    psm_do_signal_ve (hdr := sample_headers) (lq := lq_mask)
      (sm := sample_macros) (sched := sample_scheduler)
      (fun a => Z.abs a) 65 (mk_group [ts] sighand_demo)
      0%nat dump_start_ok 0 (fun _ => frame_zero) true = Some res /\
    tasks (ds_group res) !! 0%nat = Some t' /\
    (gs_signum r0 = 0 \/ gs_signum r0 = -2 ->
     mask_saved t' = false /\
     forall s, sigismember (blocked t') s = 1
               <-> ~ unmaskable s /\ sigismember (blocked task_demo) s = 1).
Proof.
  cbv zeta.
  destruct (sigsuspend_mask_comes_back (hdr := sample_headers) (lq := lq_mask)
              (sm := sample_macros) (sched := sample_scheduler)
              (fun a => Z.abs a) 65
              (mk_group [psm_do_sigsuspend (hdr := sample_headers) task_demo
                           (ve_mask SIGUSR1)] sighand_demo)
              0%nat task_demo (ve_mask SIGUSR1) dump_start_ok
              (fun _ => frame_zero) true)
    as (res & r0 & t' & H1 & H2 & H3 & H4 & _).
  - reflexivity.
  - exact task_demo_unreserved.
  - simpl. lia.
  - intros a. lia.
  - exists res, r0, t'. split; [exact H1|]. split; [exact H2|].
    split; [exact H3|exact H4].
Defined.

(** The same calls, run: a handler to start, a dump started by the
    default action of SIGSEGV, the process killed when the dump cannot
    start, and the group stopped by the default action of SIGTSTP. *)
Example delivery_demo :
  (fun r => (gs_signum r, gs_flag r, gs_siginfo r, gs_events r, gs_dump r))
    <$> ve_get_signal (hdr := sample_headers) (sm := sample_macros)
          (sched := sample_scheduler) 70
          group_pending 0%nat 0 siginfo_none dump_start_ok
  = Some (SIGSEGV, 1, mk_siginfo SIGSEGV 0 0 0x6000 0, [], None) /\
  (fun r => (gs_signum r, gs_events r, gs_dump r,
             (fun t => (ve_task_state t, flags t)) <$> tasks (gs_group r)))
    <$> ve_get_signal (hdr := sample_headers) (sm := sample_macros)
          (sched := sample_scheduler) 70
          group_default 0%nat 0 siginfo_none dump_start_ok
  = Some (-1, [],
          Some (mk_dump_info SIGSEGV 1 100 (mk_siginfo SIGSEGV 0 0 0x6000 0)
                  100 (ve_exec_path task_demo)),
          [(3, 0x200)]) /\
  (fun r => (gs_signum r, gs_events r, gs_dump r,
             (fun t => (ve_task_state t, flags t)) <$> tasks (gs_group r)))
    <$> ve_get_signal (hdr := sample_headers) (sm := sample_macros)
          (sched := sample_scheduler) 70
          group_default 0%nat 0 siginfo_none (mk_dump_start false 0 0)
  = Some (-1, [Kill 100 SIGSEGV], None, [(3, 0x600)]) /\
  (fun r => (gs_signum r, gs_events r, gs_dump r,
             (fun t => (pid t, ve_task_state t)) <$> tasks (gs_group r)))
    <$> ve_get_signal (hdr := sample_headers) (sm := sample_macros)
          (sched := sample_scheduler) 70
          (mk_group [set_pending task_demo (mk_sigpending [] (ve_mask 20));
                     task_pending]
             (mk_sighand (fun _ => mk_sigaction SIG_DFL 0 0) 0 8 8 0 0))
          0%nat 0 siginfo_none dump_start_ok
  = Some (-2, [], None, [(100, 3); (100, 3)]).
Proof. vm_compute. repeat split. Qed.

(** Without the hypothesis on the signals 32 and 33 the loop need not
    end: with the bit of signal 32 set, no record of it and the action
    SIG_IGN, each round dequeues signal 32 again, since [sigdelset] does
    not clear its bit. *)
Definition task_reserved_bit : ve_task_struct :=
  mk_task 100 (p_ve_thread task_demo) (mk_sigpending [] (ve_mask 32))
    0 0 false 0x20000 0x4000 1 false [] 1 0 0 0 100 [].

Definition group_reserved_bit : thread_group :=
  mk_group [task_reserved_bit]
    (mk_sighand (fun _ => mk_sigaction SIG_IGN 0 0) 0 8 8 0 0).

Lemma ve_get_signal_loop_reserved_bit fuel fl si env :
  ve_get_signal_loop (hdr := sample_headers) (sm := sample_macros)
    (sched := sample_scheduler) fuel group_reserved_bit 0%nat fl si env = None.
Proof.
  revert si. induction fuel as [|fuel IH]; intros si; [reflexivity|].
  cbn [ve_get_signal_loop].
  change (tasks group_reserved_bit !! 0%nat) with (Some task_reserved_bit).
  cbv beta iota.
  assert (psm_dequeue_ve_signal (hdr := sample_headers) si
            (pending task_reserved_bit) (blocked task_reserved_bit) fl
            (sighand group_reserved_bit)
          = (32, (mk_siginfo 32 0 SI_USER 0 0, fl, pending task_reserved_bit,
                  sighand group_reserved_bit))) as -> by reflexivity.
  cbv beta iota zeta.
  change (32 =? 0) with false. cbv iota.
  change (SIG_IGN =? _) with true. cbv iota.
  apply IH.
Qed.

End Delivery.

(** * The DMA engine: open, close and synchronous transfers *)

Module DmaEngineSpec.
Import Word DmaApi DmaApiSpec DmaEngine.

Section Open.

Context {hdr : dma_headers} {nd : dma_descriptors}.

Lemma ve_dma__stop_engine_ends reads :
  Exists halted reads ->
  exists rest, ve_dma__stop_engine reads = Some ([ve_dma_hw_post_stop], rest).
Proof.
  intros H. unfold ve_dma__stop_engine.
  destruct (proj2 (wait_for_halt_ends reads) H) as [rest ->].
  exists rest. reflexivity.
Qed.

Lemma ve_dma__stop_engine_spins reads :
  ~ Exists halted reads -> ve_dma__stop_engine reads = None.
Proof.
  intros H. unfold ve_dma__stop_engine.
  destruct (wait_for_halt reads) as [rest|] eqn:E; [|reflexivity].
  exfalso. apply H, wait_for_halt_ends. rewrite E. eexists. reflexivity.
Qed.

(** An engine that is not in use: no request waits, no descriptor is
    taken, no close is under way. *)
Definition idle (hdl : ve_dma_hdl) : Prop :=
  waiting_list hdl = [] /\ should_stop hdl = 0 /\ desc_num_used hdl = 0 /\
  forall i, req_entry hdl i = 0.

(** The engine is halted for [ve_dma_open_p], which tests the halt bits of
    the register. *)
Definition halt_bit (ctl_status : Z) : Prop :=
  Z.land ctl_status VE_DMA_CTL_STATUS_HALT <> 0.

(** X19: [ve_dma_open_p] returns, unless the engine it finds running
    never halts.  A handle it returns is that of an engine not in use,
    which [ve_dma_close_p] closes with 0, never with -EBUSY, as soon as the
    engine halts; before it all descriptors were cleared and the helper
    thread was started.  When it returns NULL, what it had acquired is
    released: nothing when the allocation failed, the mutex and the handle
    when the mapping failed, and the mapping as well when the helper
    thread could not be started. *)
Theorem ve_dma_open_p_spec env :
  (ve_dma_open_p env = None
   <-> hdl_malloc_ok env = true /\ mmap_ok env = true /\
       ~ halt_bit (ctl_status env) /\ ~ Exists halted (halt_reads env)) /\
  (forall hdl acts,
     ve_dma_open_p env = Some (Some hdl, acts) ->
     idle hdl /\ desc_used_begin hdl = readptr env /\
     pthread_create_err env = 0 /\
     (forall i, (i < VE_DMA_NUM_DESC)%nat ->
                ve_dma_hw_clear_dma (Z.of_nat i) ∈ acts) /\
     last acts = Some pthread_create_helper /\
     forall reads,
       Exists halted reads ->
       exists cl,
         ve_dma_close_p hdl reads = Some cl /\ cl_ret cl = 0 /\
         last (cl_actions cl) = Some free_hdl) /\
  (forall acts,
     ve_dma_open_p env = Some (None, acts) ->
     (hdl_malloc_ok env = false /\ acts = []) \/
     (hdl_malloc_ok env = true /\ mmap_ok env = false /\
      acts = [engine pthread_mutex_destroy; engine free_hdl]) \/
     (hdl_malloc_ok env = true /\ mmap_ok env = true /\
      pthread_create_err env <> 0 /\
      exists pre,
        acts = pre ++ [engine munmap_control_regs; engine pthread_mutex_destroy;
                       engine free_hdl])).
Proof.
  unfold ve_dma_open_p, halt_bit.
  destruct (hdl_malloc_ok env); cbn [negb]; cbv iota.
  2:{ split; [split; [discriminate|intros (? & _); discriminate]|].
      split; [discriminate|]. intros acts [= <-]. left. auto. }
  destruct (mmap_ok env); cbn [negb]; cbv iota.
  2:{ split; [split; [discriminate|intros (_ & ? & _); discriminate]|].
      split; [discriminate|]. intros acts [= <-]. right. left. auto. }
  set (stopped := if Z.land (ctl_status env) VE_DMA_CTL_STATUS_HALT =? 0
                  then _ else _).
  assert (stopped = None
          <-> Z.land (ctl_status env) VE_DMA_CTL_STATUS_HALT = 0 /\
              ~ Exists halted (halt_reads env)) as Hnone.
  { unfold stopped.
    destruct (Z.eqb_spec (Z.land (ctl_status env) VE_DMA_CTL_STATUS_HALT) 0)
      as [E|E].
    - split.
      + intros Hs. split; [exact E|]. intros Hex.
        destruct (ve_dma__stop_engine_ends _ Hex) as [rest Hr]. congruence.
      + intros [_ Hn]. apply ve_dma__stop_engine_spins, Hn.
    - split; [discriminate|]. intros [? _]. contradiction. }
  destruct stopped as [[acts0 rest]|].
  - destruct (Z.eqb_spec (pthread_create_err env) 0) as [Ep|Ep];
      cbn [negb]; cbv iota.
    + split.
      { split; [discriminate|]. intros (_ & _ & H1 & H2).
        assert (Z.land (ctl_status env) VE_DMA_CTL_STATUS_HALT = 0) as E0
          by (destruct (Z.eq_dec (Z.land (ctl_status env)
                                    VE_DMA_CTL_STATUS_HALT) 0);
              [assumption|contradiction]).
        discriminate (proj2 Hnone (conj E0 H2)). }
      split; [|discriminate].
      intros hdl acts [= <- <-].
      split; [repeat split|]. split; [reflexivity|]. split; [exact Ep|].
      split.
      { intros i Hi. rewrite !elem_of_app. right. left.
        apply list_elem_of_fmap. exists i. split; [reflexivity|].
        apply elem_of_seq. lia. }
      split.
      { rewrite !app_assoc. apply last_snoc. }
      intros reads Hex. unfold ve_dma_close_p. simpl.
      destruct (ve_dma__stop_engine_ends _ Hex) as [rest' ->].
      eexists. split; [reflexivity|]. split; reflexivity.
    + split.
      { split; [discriminate|]. intros (_ & _ & H1 & H2).
        assert (Z.land (ctl_status env) VE_DMA_CTL_STATUS_HALT = 0) as E0
          by (destruct (Z.eq_dec (Z.land (ctl_status env)
                                    VE_DMA_CTL_STATUS_HALT) 0);
              [assumption|contradiction]).
        discriminate (proj2 Hnone (conj E0 H2)). }
      split; [discriminate|].
      intros acts [= <-]. right. right.
      split; [reflexivity|]. split; [reflexivity|]. split; [exact Ep|].
      eexists. rewrite app_assoc. reflexivity.
  - split; [|split; discriminate].
    split; [|reflexivity]. intros _.
    destruct (proj1 Hnone eq_refl) as [H1 H2].
    split; [reflexivity|]. split; [reflexivity|]. split; [|exact H2].
    intros H. apply H, H1.
Qed.

End Open.

Section Xfer.

Context {hdr : dma_headers}.

Variable ve_dma_reqlist_make : Z -> Z -> Z -> Z -> Z -> Z -> Z -> Z * list Z.
Variable ve_dma_reqlist_post : ve_dma_hdl -> ve_dma_req_hdl -> Z * ve_dma_hdl.
Variable ve_dma_reqlist__cancel : ve_dma_hdl -> ve_dma_req_hdl -> ve_dma_hdl.
Variable ve_dma_reqlist_drain_waiting_list : ve_dma_hdl -> Z * ve_dma_hdl.

Local Notation "'post'" :=
  (ve_dma_post_p_va ve_dma_reqlist_make ve_dma_reqlist_post
     ve_dma_reqlist__cancel ve_dma_reqlist_drain_waiting_list).

Local Notation "'xfer'" :=
  (ve_dma_xfer_p_va ve_dma_reqlist_make ve_dma_reqlist_post
     ve_dma_reqlist__cancel ve_dma_reqlist_drain_waiting_list).

(** What a post that returns leaves. *)
Lemma ve_dma_post_p_va_cases hdl srctype srcpid srcaddr dsttype dstpid dstaddr
    length malloc_ok reads r :
  post hdl srctype srcpid srcaddr dsttype dstpid dstaddr length malloc_ok reads
  = Some r ->
  (invalid_arguments srctype srcaddr dsttype dstaddr length /\
   r = mk_post None (Some EINVAL) hdl []) \/
  (~ invalid_arguments srctype srcaddr dsttype dstaddr length /\
   r = mk_post None None hdl []) \/
  (~ invalid_arguments srctype srcaddr dsttype dstaddr length /\
   malloc_ok = true /\ should_stop hdl = 0 /\
   pr_errno r = None /\
   ((exists req, pr_ret r = Some req /\ pr_actions r = [ve_dma_hw_start]) \/
    (pr_ret r = None /\ Exists halted reads /\
     exists mid, pr_actions r
                 = [ve_dma_hw_post_stop] ++ mid ++ [pthread_cond_broadcast]))).
Proof.
  unfold ve_dma_post_p_va, invalid_arguments.
  destruct (IS_ALIGNED length 8) eqn:E1; cbn [negb]; cbv iota.
  2:{ intros [= <-]. left. split; [|reflexivity]. left.
      rewrite <- IS_ALIGNED_8. congruence. }
  destruct (Z.ltb_spec VE_DMA_MAX_LENGTH length) as [E2|E2].
  { intros [= <-]. left. split; [|reflexivity]. right. left. exact E2. }
  destruct (IS_ALIGNED srcaddr 8) eqn:E3; cbn [negb]; cbv iota.
  2:{ intros [= <-]. left. split; [|reflexivity]. do 2 right. left.
      rewrite <- IS_ALIGNED_8. congruence. }
  destruct (IS_ALIGNED dstaddr 8) eqn:E4; cbn [negb]; cbv iota.
  2:{ intros [= <-]. left. split; [|reflexivity]. do 3 right. left.
      rewrite <- IS_ALIGNED_8. congruence. }
  destruct (Z.eqb_spec (ve_dma_post__check_addr_type srctype) 0) as [E5|E5];
    cbn [negb]; cbv iota.
  2:{ intros [= <-]. left. split; [|reflexivity]. do 4 right. left.
      rewrite <- ve_dma_post__check_addr_type_0. exact E5. }
  destruct (Z.eqb_spec (ve_dma_post__check_addr_type dsttype) 0) as [E6|E6];
    cbn [negb]; cbv iota.
  2:{ intros [= <-]. left. split; [|reflexivity]. do 5 right.
      rewrite <- ve_dma_post__check_addr_type_0. exact E6. }
  assert (~ (length mod 8 <> 0 \/ VE_DMA_MAX_LENGTH < length \/
             srcaddr mod 8 <> 0 \/ dstaddr mod 8 <> 0 \/
             ~ addr_kind srctype \/ ~ addr_kind dsttype)) as Hvalid.
  { apply IS_ALIGNED_8 in E1, E3, E4.
    apply ve_dma_post__check_addr_type_0 in E5, E6.
    intros [H|[H|[H|[H|[H|H]]]]]; try contradiction; lia. }
  destruct malloc_ok; cbn [negb]; cbv iota.
  2:{ intros [= <-]. right. left. split; [exact Hvalid|reflexivity]. }
  destruct (ve_dma_reqlist_make _ _ _ _ _ _ _) as [n entries].
  destruct (n <=? 0).
  { intros [= <-]. right. left. split; [exact Hvalid|reflexivity]. }
  destruct (Z.eqb_spec (should_stop hdl) 0) as [Es|Es]; cbn [negb]; cbv iota.
  2:{ intros [= <-]. right. left. split; [exact Hvalid|reflexivity]. }
  destruct (ve_dma_reqlist_post _ _) as [rv hdl1].
  destruct (rv <? 0).
  2:{ intros [= <-]. right. right. split; [exact Hvalid|].
      split; [reflexivity|]. split; [exact Es|]. split; [reflexivity|].
      left. eexists. split; reflexivity. }
  unfold ve_dma__terminate_nolock, ve_dma__stop_engine.
  destruct (wait_for_halt reads) as [rest|] eqn:Ew; [|discriminate].
  intros [= <-]. right. right. split; [exact Hvalid|].
  split; [reflexivity|]. split; [exact Es|]. split; [reflexivity|].
  right. split; [reflexivity|]. split.
  { apply wait_for_halt_ends. rewrite Ew. eexists. reflexivity. }
  eexists. simpl. reflexivity.
Qed.

(** X20: [ve_dma_xfer_p_va] never returns VE_DMA_STATUS_NOT_FINISHED.
    With invalid arguments, with a failed allocation, or on an engine that
    is being closed, it returns VE_DMA_STATUS_ERROR at once, without
    waiting, with the engine as it was and nothing done to the hardware
    ([errno] is EINVAL exactly for invalid arguments).  Whenever it waits,
    a request was posted and the hardware started, the request handle is
    freed before it returns, and the status it returns is the one
    [ve_dma_wait] reports. *)
Theorem ve_dma_xfer_p_va_spec hdl srctype srcpid srcaddr dsttype dstpid dstaddr
    length malloc_ok reads first wakes :
  let call :=
    xfer hdl srctype srcpid srcaddr dsttype dstpid dstaddr length malloc_ok
      reads first wakes in
  (forall r, call = Some r -> xf_ret r <> VE_DMA_STATUS_NOT_FINISHED) /\
  (invalid_arguments srctype srcaddr dsttype dstaddr length ->
   call = Some (mk_xfer VE_DMA_STATUS_ERROR
                  (mk_post None (Some EINVAL) hdl []) false)) /\
  (~ invalid_arguments srctype srcaddr dsttype dstaddr length ->
   malloc_ok = false \/ should_stop hdl <> 0 ->
   call = Some (mk_xfer VE_DMA_STATUS_ERROR (mk_post None None hdl []) false)) /\
  (forall r,
     call = Some r ->
     (pr_ret (xf_post r) = None ->
      xf_ret r = VE_DMA_STATUS_ERROR /\ xf_req_freed r = false) /\
     (pr_ret (xf_post r) <> None ->
      xf_req_freed r = true /\
      ve_dma_wait first wakes = Some (xf_ret r) /\
      pr_actions (xf_post r) = [ve_dma_hw_start] /\
      should_stop hdl = 0 /\
      ~ invalid_arguments srctype srcaddr dsttype dstaddr length)).
Proof.
  cbv zeta. unfold ve_dma_xfer_p_va.
  pose proof (ve_dma_post_p_va_cases hdl srctype srcpid srcaddr dsttype dstpid
                dstaddr length malloc_ok reads) as Hcases.
  split; [|split; [|split]].
  - intros r.
    destruct (post _ _ _ _ _ _ _ _ _ _) as [pr|]; [|discriminate].
    destruct (pr_ret pr); [|intros [= <-]; discriminate].
    destruct (ve_dma_wait first wakes) as [ret|] eqn:Ew; [|discriminate].
    intros [= <-]. simpl. revert Ew. unfold ve_dma_wait.
    destruct (wait_loop _ _ _) as [s|]; [|discriminate].
    intros [= <-]. destruct s; discriminate.
  - intros Hinv. unfold ve_dma_post_p_va.
    destruct (IS_ALIGNED length 8) eqn:E1; cbn [negb]; cbv iota; [|reflexivity].
    destruct (Z.ltb_spec VE_DMA_MAX_LENGTH length) as [E2|E2]; [reflexivity|].
    destruct (IS_ALIGNED srcaddr 8) eqn:E3; cbn [negb]; cbv iota; [|reflexivity].
    destruct (IS_ALIGNED dstaddr 8) eqn:E4; cbn [negb]; cbv iota; [|reflexivity].
    destruct (Z.eqb_spec (ve_dma_post__check_addr_type srctype) 0) as [E5|E5];
      cbn [negb]; cbv iota; [|reflexivity].
    destruct (Z.eqb_spec (ve_dma_post__check_addr_type dsttype) 0) as [E6|E6];
      cbn [negb]; cbv iota; [|reflexivity].
    exfalso. apply IS_ALIGNED_8 in E1, E3, E4.
    apply ve_dma_post__check_addr_type_0 in E5, E6.
    destruct Hinv as [H|[H|[H|[H|[H|H]]]]]; try contradiction; lia.
  - intros Hvalid Hfail. unfold ve_dma_post_p_va.
    destruct (IS_ALIGNED length 8) eqn:E1; cbn [negb]; cbv iota.
    2:{ exfalso. apply Hvalid. left. rewrite <- IS_ALIGNED_8. congruence. }
    destruct (Z.ltb_spec VE_DMA_MAX_LENGTH length) as [E2|E2].
    { exfalso. apply Hvalid. right. left. exact E2. }
    destruct (IS_ALIGNED srcaddr 8) eqn:E3; cbn [negb]; cbv iota.
    2:{ exfalso. apply Hvalid. do 2 right. left. rewrite <- IS_ALIGNED_8.
        congruence. }
    destruct (IS_ALIGNED dstaddr 8) eqn:E4; cbn [negb]; cbv iota.
    2:{ exfalso. apply Hvalid. do 3 right. left. rewrite <- IS_ALIGNED_8.
        congruence. }
    destruct (Z.eqb_spec (ve_dma_post__check_addr_type srctype) 0) as [E5|E5];
      cbn [negb]; cbv iota.
    2:{ exfalso. apply Hvalid. do 4 right. left.
        rewrite <- ve_dma_post__check_addr_type_0. exact E5. }
    destruct (Z.eqb_spec (ve_dma_post__check_addr_type dsttype) 0) as [E6|E6];
      cbn [negb]; cbv iota.
    2:{ exfalso. apply Hvalid. do 5 right.
        rewrite <- ve_dma_post__check_addr_type_0. exact E6. }
    destruct malloc_ok; cbn [negb]; cbv iota; [|reflexivity].
    destruct Hfail as [?|Hs]; [discriminate|].
    destruct (ve_dma_reqlist_make _ _ _ _ _ _ _) as [n entries].
    destruct (n <=? 0); [reflexivity|].
    destruct (Z.eqb_spec (should_stop hdl) 0); [contradiction|reflexivity].
  - intros r.
    destruct (post _ _ _ _ _ _ _ _ _ _) as [pr|]; [|discriminate].
    specialize (Hcases pr eq_refl).
    destruct (pr_ret pr) as [req|] eqn:Er.
    + destruct (ve_dma_wait first wakes) as [ret|]; [|discriminate].
      intros [= <-]. simpl. rewrite Er. split; [discriminate|]. intros _.
      split; [reflexivity|]. split; [reflexivity|].
      destruct Hcases
        as [[_ ->]|[[_ ->]|(Hv & _ & Hs & _ & [(rq & _ & Ha)|(Hn & _)])]];
        try discriminate; try congruence.
      auto.
    + intros [= <-]. simpl. rewrite Er. split; [auto|]. intros H. contradiction.
Qed.

End Xfer.

(** An engine as [ve_dma_open_p] finds it, halted, with two descriptors. *)
Definition two_descriptors : dma_descriptors := {| VE_DMA_NUM_DESC := 2 |}.

Definition open_env_demo : open_env := mk_open_env true true 1 [] 5 0.

Example ve_dma_open_p_demo :
  ve_dma_open_p (hdr := sample_dma_headers) (nd := two_descriptors) open_env_demo
  = Some (Some (mk_hdl [] 0 5 0 (fun _ => 0)),
          [ve_dma_hw_clear_dma 0; ve_dma_hw_clear_dma 1; pthread_create_helper]) /\
  (fun r => (cl_ret r, cl_actions r))
    <$> ve_dma_close_p (hdr := sample_dma_headers)
          (mk_hdl [] 0 5 0 (fun _ => 0)) [0; 1]
  = Some (0, [ve_dma_hw_post_stop; pthread_join_helper; pthread_mutex_destroy;
              munmap_control_regs; free_hdl]).
Proof. split; reflexivity. Qed.

(** A transfer that completes at the second wake-up. *)
Example ve_dma_xfer_p_va_demo :
  (fun r => (xf_ret r, xf_req_freed r, desc_num_used (pr_hdl (xf_post r))))
    <$> ve_dma_xfer_p_va (hdr := sample_dma_headers) demo_reqlist_make
          demo_reqlist_post demo_reqlist__cancel demo_reqlist_drain_waiting_list
          hdl_idle 2 100 0x1000 0 100 0x2000 64 true []
          unfinished [unfinished; mk_obs VE_DMA_STATUS_OK 0]
  = Some (VE_DMA_STATUS_OK, true, 1).
Proof. reflexivity. Qed.

End DmaEngineSpec.

(** * Transfers of the pseudo process: reads, failures and round trips *)

Module TransferSpec.
Import Word MmTransfer MmTransferSpec.

(** X21: for a range that does not wrap around the address space,
    [calc_address] gives the smallest span of aligned words that holds it:
    its start and its size are multiples of 8, it begins at most 7 bytes
    before the range and ends at most 7 bytes after it, the two offsets
    are these distances, and the span is the range itself when the range
    is aligned at both ends. *)
Theorem calc_address_span address datasize :
  0 <= address -> 0 <= datasize -> address + datasize + 8 <= 2 ^ 64 ->
  let as_ := calc_address (mk_addr address (u64 (address + datasize)) 0 0 0 0 0) in
  aligned_top_address as_ mod 8 = 0 /\
  aligned_bottom_address as_ mod 8 = 0 /\
  new_datasize as_ mod 8 = 0 /\
  aligned_top_address as_ <= address < aligned_top_address as_ + 8 /\
  address + datasize <= aligned_bottom_address as_ < address + datasize + 8 /\
  top_offset as_ = address - aligned_top_address as_ /\
  bottom_offset as_ = aligned_bottom_address as_ - (address + datasize) /\
  new_datasize as_ = aligned_bottom_address as_ - aligned_top_address as_ /\
  top_offset as_ + datasize + bottom_offset as_ = new_datasize as_ /\
  (address mod 8 = 0 -> (address + datasize) mod 8 = 0 ->
   aligned_top_address as_ = address /\ new_datasize as_ = datasize).
Proof.
  intros Ha Hd Hb.
  destruct (calc_address_spec address datasize Ha Hd Hb)
    as (Hat & Hto & Hab & Hbo & Hnd).
  cbv zeta. rewrite Hat, Hto, Hab, Hbo, Hnd. unfold align_up, align_down.
  repeat split; try dlia.
Qed.

Section Requests.

Variable malloc_result : nat -> malloc_outcome.
Variable veos : nat -> veos_reply.

Lemma _ve_recv_data_ipc_negative address datasize buff w ret buff' w' :
  datasize mod 8 = 0 ->
  _ve_recv_data_ipc veos address datasize buff 0 w = Some ((ret, buff'), w') ->
  ret < 0 -> ret = - EFAULT.
Proof.
  intros Hal. unfold _ve_recv_data_ipc. rewrite Hal. simpl.
  unfold __ve_recv_data, mbind, M_bind, mret, M_ret.
  destruct (amm_dma_xfer_req _ _ _ _) as [[[r h] w1]|]; [|discriminate].
  intros [= <- <- <-]. destruct (Z.ltb_spec r 0); [reflexivity|lia].
Qed.

Lemma _ve_send_data_ipc_negative address datasize buff w ret w' :
  datasize mod 8 = 0 ->
  _ve_send_data_ipc veos address datasize buff 0 w = Some (ret, w') ->
  requests w' = requests w ++ [send_span address datasize] /\
  (ret < 0 -> ret = - EFAULT).
Proof.
  intros Hal. unfold _ve_send_data_ipc. rewrite Hal. simpl.
  unfold __ve_send_data, mbind, M_bind, mret, M_ret.
  destruct (amm_dma_xfer_req _ _ _ _) as [[[r h] w1]|] eqn:E; [|discriminate].
  apply amm_dma_xfer_req_spec in E as (Hq & _).
  intros [= <- <-]. split; [exact Hq|].
  destruct (Z.ltb_spec r 0); [reflexivity|lia].
Qed.

(** A [ve_recv_data] that fails. *)
Lemma ve_recv_data_negative address datasize data off w ret data' w' :
  0 <= address -> 0 <= datasize -> address + datasize + 8 <= 2 ^ 64 ->
  ve_recv_data malloc_result veos address datasize data off w
  = Some ((ret, data'), w') ->
  ret < 0 -> data' = data /\ (ret = - ENOMEM \/ ret = - EFAULT).
Proof.
  intros Ha Hd Hb.
  destruct (calc_address_spec address datasize Ha Hd Hb)
    as (Hat & Hto & Hab & Hbo & Hnd).
  unfold align_up, align_down in *.
  unfold ve_recv_data, mbind, M_bind, mret, M_ret, malloc.
  destruct (malloc_result (n_malloc w)) as [|?].
  { intros [= <- <- <-]. auto. }
  simpl.
  destruct (malloc_result (S (n_malloc w))) as [|buff].
  { intros [= <- <- <-]. auto. }
  destruct (_ve_recv_data_ipc _ _ _ _ _ _) as [[[r b] w1]|] eqn:E; [|discriminate].
  assert (new_datasize
            (calc_address (mk_addr address (u64 (address + datasize)) 0 0 0 0 0))
          mod 8 = 0) as Hal by (rewrite Hnd; dlia).
  pose proof (_ve_recv_data_ipc_negative _ _ _ _ _ _ _ Hal E) as HE.
  clear E. rename HE into E.
  destruct (Z.ltb_spec r 0) as [Hr|Hr].
  - intros [= <- <- <-] _. split; [reflexivity|]. right. apply E, Hr.
  - intros [= <- <- <-] Hneg. lia.
Qed.

(** [ve_recv_data] when every allocation and request succeeds. *)
Lemma ve_recv_data_total address datasize data off w :
  cooperative malloc_result veos ->
  0 <= address -> 0 <= datasize -> address + datasize + 8 <= 2 ^ 64 ->
  exists data' w',
    ve_recv_data malloc_result veos address datasize data off w
    = Some ((0, data'), w').
Proof.
  intros coop Ha Hd Hb.
  destruct (calc_address_spec address datasize Ha Hd Hb)
    as (Hat & Hto & Hab & Hbo & Hnd).
  unfold ve_recv_data, mbind, M_bind, mret, M_ret.
  destruct (malloc_coop malloc_result veos coop w) as [b1 ->].
  destruct (malloc_coop malloc_result veos coop
              (mk_world (ve_mem w) (requests w) (S (n_malloc w))))
    as [b2 ->].
  unfold _ve_recv_data_ipc. rewrite Hnd.
  destruct (Z.eqb_spec ((align_up (address + datasize) - align_down address)
                        mod 8) 0) as [_|E];
    [|exfalso; unfold align_up, align_down in E; dlia].
  cbn [negb]. cbv iota.
  unfold __ve_recv_data, mbind, M_bind, mret, M_ret.
  match goal with
  | |- context [amm_dma_xfer_req veos ?p ?h ?w0] =>
      destruct (amm_dma_xfer_req_coop malloc_result veos coop p h w0)
        as (h' & w1 & -> & _)
  end.
  simpl. eexists _, _. reflexivity.
Qed.

End Requests.

Section SendData.

Variable malloc_result : nat -> malloc_outcome.
Variable veos : nat -> veos_reply.

(** The request that writes the accelerator is the last one of a
    [ve_send_data]: a call that has not come to it has written nothing. *)
Lemma ve_send_data_failure address datasize data w ret w' :
  0 <= address -> 0 <= datasize -> address + datasize + 8 <= 2 ^ 64 ->
  ve_send_data malloc_result veos address datasize data w = Some (ret, w') ->
  (ret < 0 -> ret = - ENOMEM \/ ret = - EFAULT) /\
  ((ve_mem w' = ve_mem w /\ (ret < 0 -> ret = - ENOMEM \/ ret = - EFAULT)) \/
   (ret <> - ENOMEM /\
    exists before,
      requests w'
      = before ++ [send_span (align_down address)
                     (align_up (address + datasize) - align_down address)])).
Proof.
  intros Ha Hd Hb.
  pose proof (calc_address_spec address datasize Ha Hd Hb) as H.
  cbv zeta in H. destruct H as (Hat & Hto & Hab & Hbo & Hnd).
  set (as_ := calc_address (mk_addr address (u64 (address + datasize)) 0 0 0 0 0))
    in *.
  assert (new_datasize as_ mod 8 = 0) as Hal
    by (rewrite Hnd; unfold align_up, align_down; dlia).
  set (goal := fun (mem : Z -> Z) (r : Z) (w2 : world) =>
         (r < 0 -> r = - ENOMEM \/ r = - EFAULT) /\
         ((ve_mem w2 = mem /\ (r < 0 -> r = - ENOMEM \/ r = - EFAULT)) \/
          (r <> - ENOMEM /\
           exists before,
             requests w2
             = before ++ [send_span (align_down address)
                            (align_up (address + datasize)
                             - align_down address)]))).
  change (ve_send_data malloc_result veos address datasize data w
          = Some (ret, w') -> goal (ve_mem w) ret w').
  assert (forall buff w1 r w2,
            ve_send_data_merge veos as_ buff data datasize w1 = Some (r, w2) ->
            goal (ve_mem w1) r w2)
    as Hmerge.
  { intros buff w1 r w2 E. unfold ve_send_data_merge in E.
    destruct (_ve_send_data_ipc_negative _ _ _ _ _ _ _ Hal E) as [Hq Hneg].
    rewrite Hat, Hnd in Hq.
    assert (r < 0 -> r = - ENOMEM \/ r = - EFAULT) as Hc by auto.
    split; [exact Hc|]. right. split.
    - intros ->. unfold ENOMEM, EFAULT in Hneg. lia.
    - exists (requests w1). exact Hq. }
  assert (forall a buff off w1 r b w2,
            0 <= a -> a + 16 <= 2 ^ 64 ->
            ve_recv_data malloc_result veos a 8 buff off w1 = Some ((r, b), w2) ->
            ve_mem w2 = ve_mem w1 /\ (r < 0 -> r = - ENOMEM \/ r = - EFAULT))
    as Hrecv.
  { intros a buff off w1 r b w2 H0 H1 E. split.
    - apply ve_recv_data_spec in E as (Hm & _); [exact Hm|lia..].
    - intros Hr.
      destruct (ve_recv_data_negative malloc_result veos a 8 buff off w1 r b w2
                  H0 ltac:(lia) ltac:(lia) E Hr) as [_ Hc].
      exact Hc. }
  assert (forall buff w1 r w2,
            ve_send_data_bottom malloc_result veos as_ buff data datasize w1
            = Some (r, w2) ->
            goal (ve_mem w1) r w2)
    as Hbottom.
  { intros buff w1 r w2. unfold ve_send_data_bottom.
    destruct (negb (bottom_offset as_ =? 0)) eqn:Eb; [|apply Hmerge].
    unfold mbind, M_bind, mret, M_ret.
    destruct (ve_recv_data _ _ _ _ _ _ _) as [[[r1 b] w3]|] eqn:E; [|discriminate].
    rewrite Hab in E.
    assert (bottom_offset as_ <> 0) as Hbo0
      by (destruct (Z.eqb_spec (bottom_offset as_) 0); [discriminate|assumption]).
    rewrite Hbo in Hbo0.
    rewrite (u64_small (align_up (address + datasize) - 8)) in E
      by (unfold align_up in *; dlia).
    apply Hrecv in E as [Hm Hneg]; [|unfold align_up in *; dlia..].
    destruct (Z.eqb_spec r1 0) as [->|Hne]; cbn [negb]; cbv iota.
    - intros E2. rewrite <- Hm. apply (Hmerge _ _ _ _ E2).
    - intros [= <- <-]. split; [exact Hneg|]. left. split; [exact Hm|exact Hneg]. }
  unfold ve_send_data, mbind, M_bind, mret, M_ret, malloc.
  destruct (malloc_result (n_malloc w)) as [|?].
  { intros [= <- <-]. split; [auto|]. left. split; [reflexivity|auto]. }
  simpl.
  destruct (malloc_result (S (n_malloc w))) as [|buff].
  { intros [= <- <-]. split; [auto|]. left. split; [reflexivity|auto]. }
  fold as_.
  destruct (negb (top_offset as_ =? 0)) eqn:Et.
  - destruct (ve_recv_data _ _ _ _ _ _ _) as [[[r1 b] w3]|] eqn:E; [|discriminate].
    rewrite Hat in E.
    assert (top_offset as_ <> 0) as Hto0
      by (destruct (Z.eqb_spec (top_offset as_) 0); [discriminate|assumption]).
    rewrite Hto in Hto0.
    apply Hrecv in E as [Hm Hneg]; [|unfold align_down in *; dlia..].
    simpl in Hm.
    destruct (Z.eqb_spec r1 0) as [->|Hne]; cbn [negb]; cbv iota.
    + intros E2. rewrite <- Hm. apply (Hbottom _ _ _ _ E2).
    + intros [= <- <-]. split; [exact Hneg|]. left. split; [exact Hm|exact Hneg].
  - intros E2. apply (Hbottom _ _ _ _ E2).
Qed.

(** X22: [ve_recv_data] never changes the memory of the accelerator, and
    never the caller's buffer outside the [datasize] bytes from [off] on.
    When it returns 0, and veos replies 0 only after moving every byte of
    a request (its replies fitting an [int]), these bytes are those of the
    accelerator from [address] on.  When it fails it returns -ENOMEM or
    -EFAULT and the buffer is as it was.  It returns 0 when every
    allocation and every request succeeds.  (The range does not wrap
    around the 64-bit address space; a request that reads the accelerator
    writes none of its memory.) *)
Theorem ve_recv_data_reads address datasize data off w :
  0 <= address -> 0 <= datasize -> address + datasize + 8 <= 2 ^ 64 ->
  (forall ret data' w',
     ve_recv_data malloc_result veos address datasize data off w
     = Some ((ret, data'), w') ->
     ve_mem w' = ve_mem w /\
     (forall k, ~ off <= k < off + datasize -> data' k = data k) /\
     (ret = 0 -> honest veos ->
      forall k, off <= k < off + datasize ->
                data' k = ve_mem w (address + (k - off))) /\
     (ret < 0 -> data' = data /\ (ret = - ENOMEM \/ ret = - EFAULT))) /\
  (cooperative malloc_result veos ->
   exists data' w',
     ve_recv_data malloc_result veos address datasize data off w
     = Some ((0, data'), w')).
Proof.
  intros Ha Hd Hb. split.
  - intros ret data' w' E.
    destruct (ve_recv_data_spec malloc_result veos address datasize data off w
                ret data' w' Ha Hd Hb E) as (Hm & Hout & Hc).
    split; [exact Hm|]. split; [exact Hout|]. split.
    + intros Hr Hh k Hk. rewrite (Hc Hr Hh).
      destruct (Z.leb_spec off k); [|lia].
      destruct (Z.ltb_spec k (off + datasize)); [reflexivity|lia].
    + apply (ve_recv_data_negative malloc_result veos address datasize data off
               w ret data' w' Ha Hd Hb E).
  - intros coop. apply ve_recv_data_total; assumption.
Qed.

(** X23: what [ve_send_data] wrote, [ve_recv_data] reads back.  When veos
    replies 0 only after moving every byte of a request (its replies
    fitting an [int]), after a [ve_send_data] that returned 0 a
    [ve_recv_data] of the same range that returns 0 fills the buffer with
    the bytes sent and leaves the rest of the buffer and the memory of the
    accelerator alone; and both calls return 0 when every allocation and
    every request succeeds. *)
Theorem send_then_recv address datasize data buf off w :
  0 <= address -> 0 <= datasize -> address + datasize + 8 <= 2 ^ 64 ->
  honest veos ->
  (forall w1 data' w2,
     ve_send_data malloc_result veos address datasize data w = Some (0, w1) ->
     ve_recv_data malloc_result veos address datasize buf off w1
     = Some ((0, data'), w2) ->
     (forall k, 0 <= k < datasize -> data' (off + k) = data k) /\
     (forall k, ~ off <= k < off + datasize -> data' k = buf k) /\
     ve_mem w2 = ve_mem w1) /\
  (cooperative malloc_result veos ->
   exists w1 data' w2,
     ve_send_data malloc_result veos address datasize data w = Some (0, w1) /\
     ve_recv_data malloc_result veos address datasize buf off w1
     = Some ((0, data'), w2)).
Proof.
  intros Ha Hd Hb Hh. split.
  - intros w1 data' w2 Es Er.
    destruct (ve_send_data_spec malloc_result veos address datasize data
                Ha Hd Hb Hh w 0 w1 Es) as [_ Hsent].
    destruct (ve_recv_data_spec malloc_result veos address datasize buf off w1
                0 data' w2 Ha Hd Hb Er) as (Hm & Hout & Hc).
    specialize (Hc eq_refl Hh). specialize (Hsent eq_refl).
    split; [|split; [exact Hout|exact Hm]].
    intros k Hk. rewrite Hc.
    destruct (Z.leb_spec off (off + k)); [|lia].
    destruct (Z.ltb_spec (off + k) (off + datasize)); [|lia].
    simpl. rewrite Hsent by lia. f_equal. lia.
  - intros coop.
    destruct (ve_send_data_coop malloc_result veos coop address datasize data w
                Ha Hd Hb) as (w1 & Es & _).
    destruct (ve_recv_data_total malloc_result veos address datasize buf off w1
                coop Ha Hd Hb) as (data' & w2 & Er).
    exists w1, data', w2. split; assumption.
Qed.

(** X24: a [ve_send_data] that returns a negative value returns -ENOMEM or
    -EFAULT, never -EINVAL.  Only its last request, the one that sends the
    enclosing aligned span, writes the accelerator: a call that returns
    -ENOMEM, and any call that ends before that request, leaves every byte
    of the accelerator as it was.  (A request that reads the accelerator
    writes none of its memory.) *)
Theorem ve_send_data_fails_clean address datasize data w :
  0 <= address -> 0 <= datasize -> address + datasize + 8 <= 2 ^ 64 ->
  forall ret w',
    ve_send_data malloc_result veos address datasize data w = Some (ret, w') ->
    (ret < 0 -> ret = - ENOMEM \/ ret = - EFAULT) /\
    ret <> - EINVAL /\
    (ret = - ENOMEM -> forall a, ve_mem w' a = ve_mem w a) /\
    ((forall a, ve_mem w' a = ve_mem w a) \/
     exists before,
       requests w'
       = before ++ [send_span (align_down address)
                      (align_up (address + datasize) - align_down address)]).
Proof.
  intros Ha Hd Hb ret w' E.
  destruct (ve_send_data_failure address datasize data w ret w' Ha Hd Hb E)
    as [Hneg Hcases].
  split; [exact Hneg|]. split; [|split].
  - intros ->. destruct (Hneg ltac:(unfold EINVAL; lia)) as [H|H];
      unfold EINVAL, ENOMEM, EFAULT in H; lia.
  - intros Hr a. destruct Hcases as [[Hm _]|[Hne _]]; [|contradiction].
    rewrite Hm. reflexivity.
  - destruct Hcases as [[Hm _]|[_ Hq]]; [left|right; exact Hq].
    intros a. rewrite Hm. reflexivity.
Qed.

End SendData.

Lemma calc_address_span_witness :
  let as_ := calc_address (mk_addr 0x1003 (u64 (0x1003 + 6)) 0 0 0 0 0) in
  aligned_top_address as_ = 0x1000 /\ new_datasize as_ = 16 /\
  top_offset as_ = 3 /\ bottom_offset as_ = 7.
Proof.
  destruct (calc_address_span 0x1003 6 ltac:(lia) ltac:(lia) ltac:(lia))
    as (H1 & _ & _ & H4 & H5 & H6 & H7 & H8 & H9 & _).
  cbv zeta in *. repeat split; dlia.
Defined.

Lemma ve_recv_data_reads_witness :
  exists data' w',
    ve_recv_data malloc_demo veos_demo 0x1003 6 data_demo 2 world_demo
    = Some ((0, data'), w') /\
    ve_mem w' = ve_mem world_demo /\
    (forall k, 2 <= k < 2 + 6 -> data' k = ve_mem world_demo (0x1003 + (k - 2))).
Proof.
  destruct (ve_recv_data_reads malloc_demo veos_demo 0x1003 6 data_demo 2
              world_demo ltac:(lia) ltac:(lia) ltac:(lia)) as [H1 H2].
  destruct (H2 cooperative_demo) as (data' & w' & E).
  exists data', w'. split; [exact E|].
  destruct (H1 0 data' w' E) as (Hm & _ & Hc & _).
  split; [exact Hm|]. apply (Hc eq_refl honest_demo).
Defined.

Lemma send_then_recv_witness :
  exists w1 data' w2,
    ve_send_data malloc_demo veos_demo 0x1003 6 data_demo world_demo
    = Some (0, w1) /\
    ve_recv_data malloc_demo veos_demo 0x1003 6 (fun _ => 0) 0 w1
    = Some ((0, data'), w2) /\
    forall k, 0 <= k < 6 -> data' (0 + k) = data_demo k.
Proof.
  destruct (send_then_recv malloc_demo veos_demo 0x1003 6 data_demo (fun _ => 0)
              0 world_demo ltac:(lia) ltac:(lia) ltac:(lia) honest_demo)
    as [H1 H2].
  destruct (H2 cooperative_demo) as (w1 & data' & w2 & Es & Er).
  exists w1, data', w2. split; [exact Es|]. split; [exact Er|].
  apply (H1 w1 data' w2 Es Er).
Defined.

(** A veos that refuses every request and moves nothing. *)
Definition veos_refuses (_ : nat) : veos_reply :=
  mk_reply true 0 0 true (-5) (fun _ => false).

Lemma ve_send_data_fails_clean_witness :
  exists w',
    ve_send_data malloc_demo veos_refuses 0x1003 6 data_demo world_demo
    = Some (- EFAULT, w') /\
    requests w' = [read_word 0x1000] /\
    forall a, ve_mem w' a = ve_mem world_demo a.
Proof.
  destruct (ve_send_data malloc_demo veos_refuses 0x1003 6 data_demo world_demo)
    as [[ret w']|] eqn:E; [|vm_compute in E; discriminate E].
  destruct (ve_send_data_fails_clean malloc_demo veos_refuses 0x1003 6 data_demo
              world_demo ltac:(lia) ltac:(lia) ltac:(lia) ret w' E)
    as (_ & _ & _ & H).
  vm_compute in E. injection E as Hr Hw. subst ret.
  exists w'. split; [reflexivity|].
  assert (requests w' = [read_word 0x1000]) as Hq by (subst w'; reflexivity).
  split; [exact Hq|].
  destruct H as [H|[before H]]; [exact H|].
  rewrite Hq in H. destruct before as [|? [|? ?]]; discriminate H.
Defined.

(** A reply of 2^32 - 14 after a write that veos has carried out: the
    [int] it is kept in holds -14, and the call fails with the bytes
    written. *)
Definition veos_wraps (_ : nat) : veos_reply :=
  mk_reply true 0 0 true (2 ^ 32 - 14) (fun _ => true).

Example ve_send_data_wrapped_reply :
  (fun r => (r.1, requests r.2, (ve_mem r.2) <$> seqZ 0x1000 8))
    <$> ve_send_data malloc_demo veos_wraps 0x1000 8 data_demo world_demo
  = Some (- EFAULT, [send_span 0x1000 8],
          [0xA0; 0xA1; 0xA2; 0xA3; 0xA4; 0xA5; 0xA6; 0xA7]).
Proof. vm_compute. reflexivity. Qed.

(** A reply of -2^32 to a request of which veos has moved nothing: the
    [int] holds 0 and the call succeeds with nothing written. *)
Definition veos_wraps_to_zero (_ : nat) : veos_reply :=
  mk_reply true 0 0 true (- 2 ^ 32) (fun _ => false).

Example ve_send_data_lost_failure :
  (fun r => (r.1, requests r.2, (ve_mem r.2) <$> seqZ 0x1000 8))
    <$> ve_send_data malloc_demo veos_wraps_to_zero 0x1000 8 data_demo world_demo
  = Some (0, [send_span 0x1000 8], seqZ 0 8).
Proof. vm_compute. reflexivity. Qed.

Example ve_send_data_refused :
  (fun r => (r.1, requests r.2, (ve_mem r.2) <$> seqZ 0x1000 16))
    <$> ve_send_data malloc_demo veos_refuses 0x1003 6 data_demo world_demo
  = Some (- EFAULT, [read_word 0x1000], seqZ 0 16).
Proof. vm_compute. reflexivity. Qed.

End TransferSpec.

(** * The descriptors of a core dump *)

Module CoreDump.
Import Word TaskSignal TaskSignalSpec.





Section Dump.

Context {hdr : veos_headers} {sched : veos_scheduler}
  {limits : CoreName.path_limits}.





End Dump.



End CoreDump.

(** * The name of the core file *)

Module CoreNameSpec.
Import Word Ascii CoreName.

(** A text: characters other than NUL. *)
Definition text (s : list ascii) : Prop := Forall (fun ch => ch <> zero) s.

(** The name buffer holds the string [name]: the string and its NUL are
    inside the allocation, [space_used] is its length, [actual_space] the
    size of the allocation. *)
Definition holds (c : ve_corename) (name : list ascii) : Prop :=
  exists rest,
    corename c = Some (name ++ zero :: rest) /\
    space_used c = Z.of_nat (length name) /\
    actual_space c = Z.of_nat (length name + 1 + length rest) /\
    actual_space c < 2 ^ 64 /\
    text name.

(** Neither flag is set: [ve_vsnprintf] appends. *)
Definition plain (c : ve_corename) : Prop :=
  copy_pattern c = false /\ use_all c = false.

Lemma text_app s1 s2 : text s1 -> text s2 -> text (s1 ++ s2).
Proof. intros H1 H2. apply Forall_app. split; assumption. Qed.

Lemma text_cons ch s : ch <> zero -> text s -> text (ch :: s).
Proof. intros H1 H2. apply Forall_cons. split; assumption. Qed.

Lemma text_nil : text [].
Proof. apply List.Forall_nil. Qed.

Lemma text_digits u : text (digits u).
Proof.
  induction u; simpl; try apply text_nil;
    (apply text_cons; [discriminate|assumption]).
Qed.

Lemma text_decimal z : text (decimal z).
Proof.
  unfold decimal. destruct (Z.to_int z).
  - apply text_digits.
  - apply text_cons; [discriminate|apply text_digits].
Qed.

Lemma eqb_zero ch : ch <> zero -> (ch =? zero)%char = false.
Proof. intros Hne. destruct (Ascii.eqb_spec ch zero); [contradiction|reflexivity]. Qed.

Lemma cstring_text s rest : text s -> cstring (s ++ zero :: rest) = ret s.
Proof.
  induction 1 as [|ch s Hch _ IH]; simpl.
  - reflexivity.
  - rewrite (eqb_zero ch Hch), IH. reflexivity.
Qed.

Lemma cstring_inv b s :
  cstring b = ret s -> exists rest, b = s ++ zero :: rest /\ text s.
Proof.
  revert s. induction b as [|ch b IH]; simpl; intros s Hs; [discriminate|].
  destruct (Ascii.eqb_spec ch zero) as [->|Hne].
  - injection Hs as <-. exists b. split; [reflexivity|apply text_nil].
  - destruct (cstring b) as [s'| |] eqn:E; simpl in Hs; try discriminate.
    injection Hs as <-. destruct (IH s' eq_refl) as (rest & -> & Ht).
    exists rest. split; [reflexivity|apply text_cons; assumption].
Qed.

(** [vsnprintf] with room for the whole text. *)
Lemma vsnprintf_whole pre mid post s n :
  length mid = S (length s) ->
  Z.of_nat (length s) < n ->
  vsnprintf (Some (pre ++ mid ++ post)) (Z.of_nat (length pre)) n s
  = ret (Some (pre ++ s ++ zero :: post)).
Proof.
  intros Hmid Hn. unfold vsnprintf.
  destruct (Z.eqb_spec n 0) as [->|_]; [lia|].
  rewrite take_ge by lia.
  destruct (Z.leb_spec
    (Z.of_nat (length pre) + Z.of_nat (length (s ++ [zero])))
    (Z.of_nat (length (pre ++ mid ++ post)))) as [_|Hlt].
  - rewrite Nat2Z.id, take_app_length.
    replace (length pre + length (s ++ [zero]))%nat
      with (length pre + length mid)%nat
      by (rewrite length_app; simpl; lia).
    rewrite <- drop_drop, drop_app_length, drop_app_length.
    rewrite <- (app_assoc s [zero] post). reflexivity.
  - rewrite !length_app in Hlt. simpl in Hlt. lia.
Qed.

(** [vsnprintf] with less room than the text needs: the region is filled
    and ends with the NUL. *)
Lemma vsnprintf_cut pre mid s n :
  n = Z.of_nat (length mid) ->
  0 < n <= Z.of_nat (length s) ->
  vsnprintf (Some (pre ++ mid)) (Z.of_nat (length pre)) n s
  = ret (Some (pre ++ take (Z.to_nat (n - 1)) s ++ [zero])).
Proof.
  intros -> Hn. unfold vsnprintf.
  destruct (Z.eqb_spec (Z.of_nat (length mid)) 0) as [E|_]; [lia|].
  assert (length (take (Z.to_nat (Z.of_nat (length mid) - 1)) s ++ [zero])
          = length mid) as Hw.
  { rewrite length_app, length_take. simpl. lia. }
  rewrite Hw.
  destruct (Z.leb_spec (Z.of_nat (length pre) + Z.of_nat (length mid))
              (Z.of_nat (length (pre ++ mid)))) as [_|Hlt].
  - rewrite Nat2Z.id, take_app_length.
    rewrite <- drop_drop, drop_app_length, drop_all, app_nil_r.
    reflexivity.
  - rewrite length_app in Hlt. lia.
Qed.

Lemma vsnprintf_whole0 mid post s n :
  length mid = S (length s) ->
  Z.of_nat (length s) < n ->
  vsnprintf (Some (mid ++ post)) 0 n s = ret (Some (s ++ zero :: post)).
Proof. exact (vsnprintf_whole [] mid post s n). Qed.

Lemma vsnprintf_cut0 mid s n :
  n = Z.of_nat (length mid) ->
  0 < n <= Z.of_nat (length s) ->
  vsnprintf (Some mid) 0 n s
  = ret (Some (take (Z.to_nat (n - 1)) s ++ [zero])).
Proof. exact (vsnprintf_cut [] mid s n). Qed.

Section Buffer.

Variable h : host.

(** Appending to the name: the text is stored behind the name when there
    is room for it and its NUL; otherwise the buffer is enlarged once, to
    the size the name needs, and the text is stored then; when that
    [realloc] fails the result is [-ENOMEM] and the pointer is lost. *)
Lemma ve_vsnprintf_append k c name s :
  holds c name -> plain c -> text s ->
  Z.of_nat (length name + length s) + 1 < 2 ^ 64 ->
  if Z.of_nat (length name + length s) <? actual_space c
  then exists c',
      ve_vsnprintf h k c s = ret (0, c', k) /\
      holds c' (name ++ s) /\ actual_space c' = actual_space c /\
      core_pattern c' = core_pattern c /\ plain c'
  else if realloc_grants h k
  then exists c',
      ve_vsnprintf h k c s = ret (0, c', S k) /\
      holds c' (name ++ s) /\
      actual_space c' = Z.of_nat (length name + length s) + 1 /\
      core_pattern c' = core_pattern c /\ plain c'
  else ve_vsnprintf h k c s
       = ret (- SignalApi.ENOMEM, set_corename None c, S k).
Proof.
  intros (rest & Hb & Hu & Ha & Hlim & Hname) [Hcp Hua] Hs Hbound.
  assert (u64 (actual_space c - space_used c) = Z.of_nat (1 + length rest))
    as Hfree.
  { rewrite u64_small by lia. lia. }
  unfold ve_vsnprintf. cbn [ve_vsnprintf_again].
  rewrite Hcp, Hua. cbn [orb]. rewrite Hfree, Hb, Hu.
  destruct (Z.ltb_spec (Z.of_nat (length name + length s)) (actual_space c))
    as [Hfit|Hfull].
  - (* the text fits *)
    assert (length s <= length rest)%nat as Hle by lia.
    replace (name ++ zero :: rest)
      with (name ++ (zero :: take (length s) rest) ++ drop (length s) rest)
      by (simpl; rewrite take_drop; reflexivity).
    rewrite vsnprintf_whole by (simpl; rewrite ?length_take; lia).
    cbn [bind copy_pattern set_corename use_all].
    destruct (Z.ltb_spec (Z.of_nat (length s)) (Z.of_nat (1 + length rest)))
      as [_|Hge]; [|lia].
    rewrite Hcp, Hua.
    eexists. split; [reflexivity|].
    split; [|repeat split; assumption].
    exists (drop (length s) rest). cbn.
    rewrite <- app_assoc. repeat split.
    + rewrite Hu, length_app. lia.
    + rewrite Ha, length_app, length_drop. lia.
    + assumption.
    + apply text_app; assumption.
  - (* the buffer is too small *)
    assert (length rest < length s)%nat as Hlt by lia.
    replace (name ++ zero :: rest) with (name ++ (zero :: rest)) by reflexivity.
    rewrite vsnprintf_cut by (simpl length; lia).
    cbn [bind copy_pattern set_corename use_all actual_space].
    destruct (Z.ltb_spec (Z.of_nat (length s)) (Z.of_nat (1 + length rest)))
      as [Hge|_]; [lia|].
    rewrite Hcp.
    assert (u64 (actual_space c + Z.of_nat (length s)
                 - Z.of_nat (1 + length rest) + 1)
            = Z.of_nat (length name + length s + 1)) as Hsize.
    { rewrite u64_small by lia. lia. }
    rewrite Hsize. unfold realloc.
    cbn [corename set_corename default from_option id].
    destruct (realloc_grants h k); [|reflexivity].
    set (cut := take _ s).
    set (fresh := map (realloc_fresh h k) _).
    assert (length cut = length rest) as Hcut.
    { unfold cut. rewrite length_take. simpl length. lia. }
    assert (length fresh = (length s - length rest)%nat) as Hfresh.
    { unfold fresh. rewrite length_map, length_seq, !length_app, Hcut.
      simpl. lia. }
    rewrite take_ge by (rewrite !length_app, Hcut; simpl; lia).
    cbn [ve_vsnprintf_again copy_pattern use_all set_actual_space
         set_corename actual_space space_used corename orb].
    rewrite Hcp, Hua. cbn [orb]. rewrite Hu.
    replace (u64 (Z.of_nat (length name + length s + 1)
                  - Z.of_nat (length name)))
      with (Z.of_nat (length s) + 1) by (rewrite u64_small by lia; lia).
    replace ((name ++ cut ++ [zero]) ++ fresh)
      with (name ++ (cut ++ [zero] ++ fresh) ++ [])
      by (rewrite app_nil_r, <- !app_assoc; reflexivity).
    rewrite vsnprintf_whole
      by (rewrite ?length_app, ?Hcut, ?Hfresh; simpl; lia).
    cbn [bind copy_pattern set_corename set_actual_space use_all].
    destruct (Z.ltb_spec (Z.of_nat (length s)) (Z.of_nat (length s) + 1))
      as [_|Hge]; [|lia].
    rewrite Hcp, Hua.
    eexists. split; [reflexivity|].
    split; [|repeat split; cbn; try assumption; lia].
    exists []. cbn. rewrite <- app_assoc. repeat split.
    + rewrite length_app. lia.
    + rewrite length_app. simpl. lia.
    + lia.
    + apply text_app; assumption.
Qed.

Lemma ve_vsnprintf_append_ok k c name s :
  holds c name -> plain c -> text s ->
  Z.of_nat (length name + length s) + 1 < 2 ^ 64 ->
  realloc_grants h k = true ->
  exists c' k',
    ve_vsnprintf h k c s = ret (0, c', k') /\
    holds c' (name ++ s) /\ core_pattern c' = core_pattern c /\ plain c'.
Proof.
  intros Hc Hp Hs Hb Hg.
  pose proof (ve_vsnprintf_append k c name s Hc Hp Hs Hb) as Happ.
  rewrite Hg in Happ.
  destruct (Z.of_nat (length name + length s) <? actual_space c);
    destruct Happ as (c' & E & Hh & _ & Hcp & Hpl);
    exists c'; eexists; (split; [exact E|]);
    (split; [exact Hh|]); (split; [exact Hcp|exact Hpl]).
Qed.

(** X26: [ve_vsnprintf] appending a text to the name never writes past
    the name buffer.  When the name, the text and the NUL fit, the text is
    stored and [realloc] is not called.  Otherwise [realloc] is called
    once, for exactly the size the new name needs; when it succeeds the
    text is stored, when it fails the result is [-ENOMEM] and the name
    pointer is [NULL].  The pattern buffer is left alone. *)
Theorem ve_vsnprintf_appends k c name s :
  holds c name -> plain c -> text s ->
  Z.of_nat (length name + length s) + 1 < 2 ^ 64 ->
  let grows := actual_space c <=? Z.of_nat (length name + length s) in
  exists retval c',
    ve_vsnprintf h k c s = ret (retval, c', if grows then S k else k) /\
    retval = (if grows && negb (realloc_grants h k)
              then - SignalApi.ENOMEM else 0) /\
    (retval = 0 ->
     holds c' (name ++ s) /\
     actual_space c' = (if grows then Z.of_nat (length name + length s) + 1
                        else actual_space c)) /\
    (retval <> 0 -> corename c' = None) /\
    core_pattern c' = core_pattern c.
Proof.
  intros Hc Hp Hs Hb grows.
  pose proof (ve_vsnprintf_append k c name s Hc Hp Hs Hb) as Happ.
  unfold grows. rewrite Z.leb_antisym.
  destruct (Z.of_nat (length name + length s) <? actual_space c);
    cbn [negb andb].
  - destruct Happ as (c' & E & Hh & Ha & Hcp & _).
    exists 0, c'. repeat split; try assumption. intros Hne. lia.
  - destruct (realloc_grants h k); cbn [negb].
    + destruct Happ as (c' & E & Hh & Ha & Hcp & _).
      exists 0, c'. repeat split; try assumption. intros Hne. lia.
    + exists (- SignalApi.ENOMEM), (set_corename None c).
      split; [exact Happ|]. split; [reflexivity|].
      split; [intros Hz; vm_compute in Hz; discriminate Hz|].
      split; [intros _; reflexivity|reflexivity].
Qed.

(** With [use_all] the text replaces the name, the buffer being enlarged
    to the size of the text when it is too small. *)
Lemma ve_vsnprintf_use_all k c b s :
  corename c = Some b -> actual_space c = Z.of_nat (length b) ->
  (0 < length b)%nat -> actual_space c < 2 ^ 64 ->
  copy_pattern c = false -> use_all c = true -> text s ->
  Z.of_nat (length s) + 1 < 2 ^ 64 ->
  realloc_grants h k = true ->
  exists c' k',
    ve_vsnprintf h k c s = ret (0, c', k') /\
    holds c' s /\ core_pattern c' = core_pattern c /\
    copy_pattern c' = false /\ use_all c' = true.
Proof.
  intros Hb Ha Hpos Hlim Hcp Hua Hs Hbound Hg.
  unfold ve_vsnprintf. cbn [ve_vsnprintf_again].
  rewrite Hcp, Hua. cbn [orb]. rewrite Hb, Ha.
  destruct (Z.ltb_spec (Z.of_nat (length s)) (Z.of_nat (length b)))
    as [Hfit|Hfull].
  - pose proof (vsnprintf_whole0 (take (S (length s)) b)
                  (drop (S (length s)) b) s (Z.of_nat (length b))) as Hw.
    rewrite take_drop in Hw.
    rewrite Hw by (rewrite ?length_take; lia).
    cbn [bind copy_pattern set_corename use_all]. rewrite Hcp, Hua.
    eexists. eexists. split; [reflexivity|].
    split; [|repeat split; assumption].
    exists (drop (S (length s)) b). cbn. repeat split.
    + rewrite Ha, length_drop. lia.
    + assumption.
    + assumption.
  - rewrite vsnprintf_cut0 by lia.
    cbn [bind copy_pattern set_corename use_all actual_space].
    rewrite Hcp, Ha.
    replace (u64 (Z.of_nat (length b) + Z.of_nat (length s)
                  - Z.of_nat (length b) + 1))
      with (Z.of_nat (length s) + 1) by (rewrite u64_small by lia; lia).
    unfold realloc. rewrite Hg.
    cbn [corename set_corename default from_option id].
    set (cut := take _ s).
    set (fresh := map (realloc_fresh h k) _).
    assert (S (length cut) = length b) as Hcut.
    { unfold cut. rewrite length_take. lia. }
    assert (length (cut ++ [zero]) = length b) as Hcut'.
    { rewrite length_app. simpl. lia. }
    assert (length fresh = (length s + 1 - length b)%nat) as Hfresh.
    { unfold fresh. rewrite length_map, length_seq, Hcut'. lia. }
    rewrite take_ge by lia.
    cbn [ve_vsnprintf_again copy_pattern use_all set_actual_space
         set_corename actual_space space_used corename orb].
    rewrite Hcp, Hua. cbn [orb].
    replace ((cut ++ [zero]) ++ fresh) with (((cut ++ [zero]) ++ fresh) ++ [])
      by apply app_nil_r.
    rewrite vsnprintf_whole0 by (rewrite ?length_app, ?Hfresh; simpl; lia).
    cbn [bind copy_pattern set_corename set_actual_space use_all].
    destruct (Z.ltb_spec (Z.of_nat (length s)) (Z.of_nat (length s) + 1))
      as [_|Hge]; [|lia].
    rewrite Hcp, Hua.
    eexists. eexists. split; [reflexivity|].
    split; [|repeat split; assumption].
    exists []. cbn. repeat split.
    + simpl. lia.
    + lia.
    + assumption.
Qed.

(** With [copy_pattern] the text goes to the pattern buffer, the room
    being taken to be that of the name buffer. *)
Lemma ve_vsnprintf_copy k c p s :
  copy_pattern c = true -> core_pattern c = Some p ->
  Z.of_nat (length s) < actual_space c ->
  ve_vsnprintf h k c s
  = if Z.of_nat (length s) <? Z.of_nat (length p)
    then ret (0, set_core_pattern
                   (Some (s ++ zero :: drop (S (length s)) p)) c, k)
    else undefined overflow.
Proof.
  intros Hcp Hp Hlt.
  unfold ve_vsnprintf. cbn [ve_vsnprintf_again].
  rewrite Hcp. cbn [orb]. rewrite Hp. unfold vsnprintf.
  destruct (Z.eqb_spec (actual_space c) 0) as [E|_]; [lia|].
  rewrite take_ge by lia.
  rewrite length_app. simpl length.
  destruct (Z.ltb_spec (Z.of_nat (length s)) (Z.of_nat (length p)))
    as [Hfit|Hfull].
  - destruct (Z.leb_spec (0 + Z.of_nat (length s + 1)) (Z.of_nat (length p)))
      as [_|Hno]; [|lia].
    cbn [bind copy_pattern set_core_pattern].
    destruct (Z.ltb_spec (Z.of_nat (length s)) (actual_space c))
      as [_|Hno]; [|lia].
    rewrite Hcp. cbn [Z.to_nat take Nat.add app].
    rewrite <- app_assoc.
    replace (length s + 1)%nat with (S (length s)) by lia.
    reflexivity.
  - destruct (Z.leb_spec (0 + Z.of_nat (length s + 1)) (Z.of_nat (length p)))
      as [Hno|_]; [lia|].
    reflexivity.
Qed.

End Buffer.

(** ** The name as a function of the pattern *)

Definition starts_with (ch : ascii) (s : list ascii) : bool :=
  match s with
  | x :: _ => (x =? ch)%char
  | [] => false
  end.

Section Expansion.

Variable tgid : Z.
Variable host_name : list ascii.

(** The text a pattern stands for, and whether it has a [%p]: [%%] is a
    percent sign, [%p] the process id, [%h] the host name; every other
    conversion, a percent sign at the end and the newlines are dropped. *)
Fixpoint expansion (pat : list ascii) : list ascii * bool :=
  match pat with
  | [] => ([], false)
  | ch :: pat' =>
      if (ch =? "%")%char
      then
        match pat' with
        | [] => ([], false)
        | d :: pat'' =>
            let r := expansion pat'' in
            if (d =? "%")%char then ("%"%char :: r.1, r.2)
            else if (d =? "p")%char then (decimal tgid ++ r.1, true)
            else if (d =? "h")%char then (host_name ++ r.1, r.2)
            else r
        end
      else
        let r := expansion pat' in
        if (ch =? "010")%char then r else (ch :: r.1, r.2)
  end.

Definition pid_suffix (pid_in_pattern : bool) : list ascii :=
  if pid_in_pattern then [".";"v";"e"]%char
  else ["."%char] ++ decimal tgid ++ [".";"v";"e"]%char.

(** The name of the core file of a process started from [dir]. *)
Definition core_file_name (dir pat : list ascii) : list ascii :=
  if starts_with "|" pat
  then dir ++ ["/";"c";"o";"r";"e"]%char ++ pid_suffix false
  else
    let r := expansion pat in
    (if starts_with "/" r.1 || bool_decide (dir = [])
     then r.1 else dir ++ ["/"%char] ++ r.1) ++ pid_suffix r.2.

Lemma text_expansion pat :
  text pat -> text host_name -> text (expansion pat).1.
Proof.
  intros Hpat Hhost. revert Hpat.
  induction pat as [pat IH] using (induction_ltof1 _ (@length ascii)).
  unfold ltof in IH. intros Hpat.
  destruct pat as [|ch pat]; [apply text_nil|].
  apply Forall_cons in Hpat as [Hch Hpat]. cbn [expansion].
  destruct (ch =? "%")%char.
  - destruct pat as [|d pat]; [apply text_nil|].
    apply Forall_cons in Hpat as [Hd Hpat].
    assert (text (expansion pat).1) as Hr by (apply IH; [simpl; lia|exact Hpat]).
    destruct (d =? "%")%char; [apply text_cons; [discriminate|exact Hr]|].
    destruct (d =? "p")%char; [apply text_app; [apply text_decimal|exact Hr]|].
    destruct (d =? "h")%char; [apply text_app; assumption|].
    exact Hr.
  - assert (text (expansion pat).1) as Hr by (apply IH; [simpl; lia|exact Hpat]).
    destruct (ch =? "010")%char; [exact Hr|].
    apply text_cons; assumption.
Qed.

Lemma text_pid_suffix pid : text (pid_suffix pid).
Proof.
  unfold pid_suffix. destruct pid.
  - repeat (apply text_cons; [discriminate|]). apply text_nil.
  - apply text_cons; [discriminate|]. apply text_app; [apply text_decimal|].
    repeat (apply text_cons; [discriminate|]). apply text_nil.
Qed.

End Expansion.

Section Name.

Context `{path_limits}.
Variable h : host.
Variable ve_exec_path : list ascii.
Variable tgid : Z.
Variable host_name : list ascii.

Hypothesis realloc_granted : forall k, realloc_grants h k = true.
Hypothesis host_named : cstring (gethostname h) = ret host_name.

Local Abbreviation expand := (expansion tgid host_name).

(** The loop stores the expansion of the pattern behind the name. *)
Lemma pattern_loop_spec fuel :
  forall pat pre post pid k c name,
    text pat ->
    core_pattern c = Some (pre ++ pat ++ zero :: post) ->
    plain c -> holds c name ->
    (length pat < fuel)%nat ->
    Z.of_nat (length name + length (expand pat).1) + 1 < 2 ^ 64 ->
    exists c' k',
      pattern_loop h tgid fuel (length pre) pid k c
      = ret (0, pid || (expand pat).2, c', k') /\
      holds c' (name ++ (expand pat).1) /\
      core_pattern c' = core_pattern c /\ plain c'.
Proof.
  induction fuel as [|fuel IH];
    intros pat pre post pid k c name Hpat Hbuf Hplain Hname Hfuel Hbound;
    [lia|].
  assert (forall rest s pid',
    Z.of_nat (length name + length (s ++ (expand rest).1)) + 1 < 2 ^ 64 ->
    text s -> text rest -> (length rest < fuel)%nat ->
    forall skipped,
    core_pattern c = Some ((pre ++ skipped) ++ rest ++ zero :: post) ->
    exists c' k',
      (r <- ve_vsnprintf h k c s ;;
       let '(retval, c', k') := r in
       if negb (retval =? 0) then ret (retval, pid', c', k')
       else if copy_pattern c && negb (k' =? k)%nat
       then undefined dangling
       else pattern_loop h tgid fuel (length (pre ++ skipped)) pid' k' c')
      = ret (0, pid' || (expand rest).2, c', k') /\
      holds c' (name ++ s ++ (expand rest).1) /\
      core_pattern c' = core_pattern c /\ plain c') as Hnext.
  { intros rest s pid' Hb Hs Hrest Hlen skipped Hbuf'.
    rewrite length_app in Hb.
    destruct (ve_vsnprintf_append_ok h k c name s Hname Hplain Hs
                ltac:(lia) (realloc_granted k))
      as (c1 & k1 & E & Hh1 & Hcp1 & Hpl1).
    rewrite E. cbn [bind]. cbn [Z.eqb negb].
    rewrite (proj1 Hplain). cbn [andb].
    destruct (IH rest (pre ++ skipped) post pid' k1 c1 (name ++ s) Hrest
                ltac:(rewrite Hcp1; exact Hbuf') Hpl1 Hh1 Hlen
                ltac:(rewrite length_app; lia))
      as (c2 & k2 & E2 & Hh2 & Hcp2 & Hpl2).
    exists c2, k2. rewrite E2, <- app_assoc in *.
    repeat split; try assumption; try apply Hpl2. congruence. }
  assert (exists cp, cp = core_pattern c) as [cp Hcp0] by eauto.
  rewrite <- Hcp0.
  cbn [pattern_loop]. cbv zeta. rewrite Hbuf. cbn [char_at].
  destruct pat as [|ch pat].
  - cbn [app]. rewrite list_lookup_middle by reflexivity. cbn [bind].
    rewrite Ascii.eqb_refl. exists c, k. cbn [expansion fst snd].
    rewrite orb_false_r, app_nil_r. subst cp. auto.
  - apply Forall_cons in Hpat as [Hch Hpat].
    cbn [app]. rewrite list_lookup_middle by reflexivity. cbn [bind].
    rewrite (eqb_zero ch Hch). cbn [expansion] in *.
    assert (pre ++ ch :: pat ++ zero :: post
            = (pre ++ [ch]) ++ pat ++ zero :: post) as Hshift
      by (rewrite <- app_assoc; reflexivity).
    assert (S (length pre) = length (pre ++ [ch])) as Hlen1
      by (rewrite length_app; simpl; lia).
    destruct (Ascii.eqb_spec ch "%") as [->|Hnp]; cbn [negb].
    + destruct pat as [|d pat].
      * rewrite Hshift. cbn [app].
        rewrite Hlen1, list_lookup_middle by reflexivity.
        cbn [bind]. rewrite Ascii.eqb_refl. exists c, k. cbn [fst snd].
        rewrite orb_false_r, app_nil_r. subst cp. auto.
      * apply Forall_cons in Hpat as [Hd Hpat].
        assert (pre ++ "%"%char :: d :: pat ++ zero :: post
                = (pre ++ ["%"%char; d]) ++ pat ++ zero :: post) as Hshift2
          by (rewrite <- app_assoc; reflexivity).
        assert (S (S (length pre)) = length (pre ++ ["%"%char; d])) as Hlen2
          by (rewrite length_app; simpl; lia).
        cbn [app].
        replace (pre ++ "%"%char :: d :: pat ++ zero :: post)
          with ((pre ++ ["%"%char]) ++ d :: pat ++ zero :: post)
          by (rewrite <- app_assoc; reflexivity).
        rewrite Hlen1, list_lookup_middle by reflexivity.
        rewrite <- Hlen1.
        cbn [bind]. rewrite (eqb_zero d Hd). rewrite Hlen2.
        simpl length in Hfuel. cbn [app] in Hbuf.
        rewrite Hshift2 in Hbuf.
        destruct (Ascii.eqb_spec d "%") as [->|Hd1].
        { cbn [fst snd] in *.
          destruct (Hnext pat ["%"%char] pid Hbound
                      ltac:(apply text_cons; [discriminate|apply text_nil])
                      Hpat ltac:(lia) _ Hbuf) as (c' & k' & E & Hh & Hc & Hp).
          exists c', k'. rewrite E. subst cp. auto. }
        destruct (Ascii.eqb_spec d "p") as [->|Hd2].
        { cbn [fst snd] in *.
          destruct (Hnext pat (decimal tgid) true Hbound
                      (text_decimal tgid) Hpat ltac:(lia) _ Hbuf)
            as (c' & k' & E & Hh & Hc & Hp).
          exists c', k'. rewrite E. rewrite orb_true_r. subst cp. auto. }
        destruct (Ascii.eqb_spec d "h") as [->|Hd3].
        { cbn [fst snd] in *. rewrite host_named.
          assert (text host_name) as Hhost.
          { destruct (cstring_inv _ _ host_named) as (? & _ & Ht). exact Ht. }
          destruct (Hnext pat host_name pid Hbound Hhost Hpat
                      ltac:(lia) _ Hbuf) as (c' & k' & E & Hh & Hc & Hp).
          exists c', k'. cbn [bind]. rewrite E. subst cp. auto. }
        destruct (IH pat (pre ++ ["%"%char; d]) post pid k c name Hpat Hbuf
                    Hplain Hname ltac:(lia) Hbound)
          as (c' & k' & E & Hh & Hc & Hp).
        exists c', k'. rewrite E. subst cp. auto.
    + simpl length in Hfuel. cbn [app] in Hbuf.
      rewrite Hshift in Hbuf. rewrite Hlen1.
      destruct (Ascii.eqb_spec ch "010") as [->|Hnl].
      * destruct (IH pat (pre ++ ["010"%char]) post pid k c name Hpat Hbuf
                    Hplain Hname ltac:(lia) Hbound)
          as (c' & k' & E & Hh & Hc & Hp).
        exists c', k'. rewrite E. subst cp. auto.
      * cbn [fst snd] in *.
        destruct (Hnext pat [ch] pid Hbound
                    ltac:(apply text_cons; [exact Hch|apply text_nil])
                    Hpat ltac:(lia) _ Hbuf) as (c' & k' & E & Hh & Hc & Hp).
        exists c', k'. rewrite E. subst cp. auto.
Qed.

Lemma holds_first c name :
  holds c name ->
  exists first,
    char_at (corename c) 0 = ret first /\
    (first =? "/")%char = starts_with "/" name.
Proof.
  intros (rest & Hb & _ & _ & _ & Ht). rewrite Hb.
  destruct name as [|ch name]; cbn.
  - exists zero. split; reflexivity.
  - exists ch. split; reflexivity.
Qed.

Lemma holds_cstring c name :
  holds c name -> cstring_at (corename c) = ret name.
Proof.
  intros (rest & Hb & _ & _ & _ & Ht). rewrite Hb. cbn [cstring_at].
  apply cstring_text. exact Ht.
Qed.

(** The label [append_pid]. *)
Lemma append_pid_spec pid k c name :
  holds c name -> plain c ->
  Z.of_nat (length (name ++ pid_suffix tgid pid)) + 1 < 2 ^ 64 ->
  exists c',
    append_pid h tgid pid k c = ret (0, c') /\
    holds c' (name ++ pid_suffix tgid pid) /\
    core_pattern c' = None /\ plain c'.
Proof.
  intros Hname Hplain Hbound. rewrite length_app in Hbound.
  unfold append_pid.
  destruct (ve_vsnprintf_append_ok h k c name (pid_suffix tgid pid) Hname
              Hplain (text_pid_suffix tgid pid) ltac:(lia) (realloc_granted k))
    as (c' & k' & E & Hh & _ & Hp).
  unfold pid_suffix in E. rewrite E. cbn [bind]. unfold free_pattern.
  eexists. split; [reflexivity|].
  split; [exact Hh|]. split; [reflexivity|exact Hp].
Qed.

Section Path.

Variable dir : list ascii.
Hypothesis exec_path : cstring ve_exec_path = ret dir.

Lemma exec_path_first :
  exists path0,
    char_at (Some ve_exec_path) 0 = ret path0 /\
    negb (path0 =? zero)%char = negb (bool_decide (dir = [])).
Proof.
  destruct (cstring_inv _ _ exec_path) as (rest & -> & Ht).
  destruct dir as [|ch dir']; cbn.
  - exists zero. split; reflexivity.
  - exists ch. apply Forall_cons in Ht as [Hch _].
    rewrite (eqb_zero ch Hch). split; reflexivity.
Qed.

Lemma exec_path_second :
  dir <> [] ->
  exists path1,
    char_at (Some ve_exec_path) 1 = ret path1 /\
    negb (path1 =? zero)%char = negb (length dir =? 1)%nat.
Proof.
  intros Hne.
  destruct (cstring_inv _ _ exec_path) as (rest & -> & Ht).
  destruct dir as [|ch [|ch' dir']]; [contradiction| |]; cbn.
  - exists zero. split; reflexivity.
  - exists ch'. apply Forall_cons in Ht as [_ Ht].
    apply Forall_cons in Ht as [Hch _].
    rewrite (eqb_zero ch' Hch). split; reflexivity.
Qed.

Lemma text_dir : text dir.
Proof. destruct (cstring_inv _ _ exec_path) as (rest & _ & Ht). exact Ht. Qed.

(** The label [out] for a name that stays as it is. *)
Lemma prepend_path_kept pid k c name :
  holds c name -> plain c ->
  starts_with "/" name || bool_decide (dir = []) = true ->
  prepend_path h ve_exec_path tgid pid k c = append_pid h tgid pid k c.
Proof.
  intros Hname Hplain Hkept. unfold prepend_path.
  destruct (holds_first c name Hname) as (first & -> & Hfirst).
  cbn [bind]. rewrite Hfirst.
  destruct (starts_with "/" name); cbn [negb bind]; [reflexivity|].
  destruct exec_path_first as (path0 & -> & Hp0). cbn [bind].
  rewrite Hp0. cbn [orb] in Hkept. rewrite Hkept. reflexivity.
Qed.

(** The label [out] for a relative name: the name is copied to the
    pattern buffer, which has [PATH_MAX] bytes whatever the name buffer
    has grown to. *)
Lemma prepend_path_relative pid k c name p :
  holds c name -> plain c ->
  core_pattern c = Some p -> length p = PATH_MAX ->
  starts_with "/" name || bool_decide (dir = []) = false ->
  Z.of_nat (length (dir ++ ["/"%char] ++ name ++ pid_suffix tgid pid)) + 1
    < 2 ^ 64 ->
  if (PATH_MAX <=? length name)%nat
  then prepend_path h ve_exec_path tgid pid k c = undefined overflow
  else if (length dir =? 1)%nat
  then prepend_path h ve_exec_path tgid pid k c = undefined overlap
  else exists c',
      prepend_path h ve_exec_path tgid pid k c = ret (0, c') /\
      holds c' (dir ++ ["/"%char] ++ name ++ pid_suffix tgid pid) /\
      core_pattern c' = None /\ plain c'.
Proof.
  intros Hname Hplain Hp Hlen Hrel Hbound.
  apply orb_false_iff in Hrel as [Hrel Hdir].
  assert (dir <> []) as Hne.
  { intros ->. rewrite bool_decide_eq_true_2 in Hdir by reflexivity.
    discriminate. }
  unfold prepend_path.
  destruct (holds_first c name Hname) as (first & -> & Hfirst).
  cbn [bind]. rewrite Hfirst, Hrel. cbn [negb].
  destruct exec_path_first as (path0 & -> & Hp0). cbn [bind].
  rewrite Hp0, Hdir. cbn [negb].
  cbn [corename set_copy_pattern]. rewrite (holds_cstring c name Hname).
  cbn [bind].
  assert (Z.of_nat (length name) < actual_space c) as Hroom.
  { destruct Hname as (rest & _ & _ & Ha & _). lia. }
  rewrite (ve_vsnprintf_copy h k (set_copy_pattern true c) p name
             eq_refl Hp Hroom).
  rewrite Hlen.
  destruct (Nat.leb_spec PATH_MAX (length name)) as [Hbig|Hsmall].
  - destruct (Z.ltb_spec (Z.of_nat (length name)) (Z.of_nat PATH_MAX));
      [lia|reflexivity].
  - destruct (Z.ltb_spec (Z.of_nat (length name)) (Z.of_nat PATH_MAX));
      [|lia].
    cbn [bind Z.eqb negb].
    destruct (exec_path_second Hne) as (path1 & -> & Hp1). cbn [bind].
    rewrite Hp1.
    destruct (length dir =? 1)%nat eqn:Hone; cbn [negb]; [reflexivity|].
    rewrite exec_path. cbn [bind].
    cbn [core_pattern set_use_all set_copy_pattern set_core_pattern
         cstring_at].
    destruct Hname as (rest & Hb & Hu & Ha & Hlim & Ht).
    rewrite (cstring_text name _ Ht).
    cbn [bind].
    set (c1 := set_use_all true _).
    destruct (ve_vsnprintf_use_all h k c1 (name ++ zero :: rest)
                (dir ++ ["/"%char] ++ name)) as (c2 & k2 & E & Hh & _ & Hcp & _).
    + exact Hb.
    + cbn. rewrite Ha, length_app. simpl. f_equal. lia.
    + rewrite length_app. simpl. lia.
    + exact Hlim.
    + reflexivity.
    + reflexivity.
    + apply text_app; [apply text_dir|].
      apply text_cons; [discriminate|exact Ht].
    + rewrite !length_app in *. simpl in *. lia.
    + apply realloc_granted.
    + rewrite E. cbn [bind Z.eqb negb].
      destruct (append_pid_spec pid k2 (set_use_all false c2)
                  (dir ++ ["/"%char] ++ name)) as (c3 & E3 & Hh3 & Hc3 & Hp3).
      * exact Hh.
      * split; [exact Hcp|reflexivity].
      * rewrite <- !app_assoc. exact Hbound.
      * exists c3. rewrite E3. rewrite <- !app_assoc in Hh3. auto.
Qed.

Lemma fresh_corename_holds p :
  (0 < PATH_MAX)%nat -> Z.of_nat PATH_MAX < 2 ^ 64 ->
  holds (set_core_pattern p fresh_corename) [].
Proof.
  intros Hpos Hlim. exists (replicate (PATH_MAX - 1) zero). cbn.
  destruct PATH_MAX as [|n]; [lia|]. cbn.
  rewrite Nat.sub_0_r, length_replicate.
  repeat split; try apply text_nil; lia.
Qed.

(** The run up to the labels [append_pid] and [out]. *)
Lemma ve_format_core_filename_run data pat :
  (0 < PATH_MAX)%nat -> Z.of_nat PATH_MAX < 2 ^ 64 ->
  open_core_file h = true -> malloc_pattern h = true ->
  read_core_file h = Some data ->
  cstring (read_pattern data) = ret pat ->
  Z.of_nat (length (core_file_name tgid host_name dir pat)) + 1 < 2 ^ 64 ->
  exists c k,
    holds c (if starts_with "|" pat then dir ++ ["/";"c";"o";"r";"e"]%char
             else (expand pat).1) /\
    plain c /\
    (exists p, core_pattern c = Some p /\ length p = PATH_MAX) /\
    ve_format_core_filename h ve_exec_path tgid fresh_corename
    = if starts_with "|" pat then append_pid h tgid false k c
      else prepend_path h ve_exec_path tgid (expand pat).2 k c.
Proof.
  intros Hpos Hlim Hopen Hmalloc Hread Hpat Hbound.
  unfold ve_format_core_filename. rewrite Hopen, Hmalloc, Hread.
  cbn [negb]. cbv zeta.
  set (p := read_pattern data) in *.
  assert (length p = PATH_MAX) as Hlen.
  { unfold p, read_pattern.
    rewrite length_app, length_take, length_replicate. lia. }
  destruct (cstring_inv _ _ Hpat) as (post & Hp & Htext).
  pose proof (fresh_corename_holds (Some p) Hpos Hlim) as Hfresh.
  set (c0 := set_core_pattern (Some p) fresh_corename) in *.
  assert (plain c0) as Hplain by (split; reflexivity).
  assert (char_at (core_pattern c0) 0
          = ret (match pat with ch :: _ => ch | [] => zero end)) as Hfirst.
  { cbn. rewrite Hp. destruct pat; reflexivity. }
  rewrite Hfirst. cbn [bind].
  unfold core_file_name in Hbound.
  destruct pat as [|ch pat'] eqn:Epat.
  - (* the empty pattern *)
    cbn [starts_with] in *. change (zero =? "|")%char with false.
    cbv iota.
    destruct (pattern_loop_spec (S PATH_MAX) [] [] post false 0 c0 []
                text_nil) as (c1 & k1 & E & Hh & Hcp & Hpl).
    + rewrite <- Hp. reflexivity.
    + exact Hplain.
    + exact Hfresh.
    + simpl. lia.
    + simpl. lia.
    + change (length (@nil ascii)) with 0%nat in E. rewrite E.
      cbn [bind Z.eqb negb orb].
      exists c1, k1. repeat split; try assumption; try apply Hpl.
      exists p. split; [rewrite Hcp; reflexivity|exact Hlen].
  - cbn [starts_with] in *.
    destruct (ch =? "|")%char.
    + (* a pipe *)
      rewrite exec_path. cbn [bind].
      destruct (ve_vsnprintf_append_ok h 0 c0 []
                  (dir ++ ["/"%char] ++ ["c";"o";"r";"e"]%char) Hfresh Hplain)
        as (c1 & k1 & E & Hh & Hcp & Hpl).
      * apply text_app; [apply text_dir|].
        repeat (apply text_cons; [discriminate|]). apply text_nil.
      * rewrite !length_app in *. simpl in *. lia.
      * apply realloc_granted.
      * rewrite E. cbn [bind Z.eqb negb].
        exists c1, k1. repeat split; try assumption; try apply Hpl.
        exists p. split; [rewrite Hcp; reflexivity|exact Hlen].
    + destruct (pattern_loop_spec (S PATH_MAX) (ch :: pat') [] post false 0
                  c0 [] Htext) as (c1 & k1 & E & Hh & Hcp & Hpl).
      * rewrite <- Hp. reflexivity.
      * exact Hplain.
      * exact Hfresh.
      * rewrite <- Hlen, Hp, length_app. simpl. lia.
      * set (r := expand (ch :: pat')) in *.
        destruct (starts_with "/" r.1 || bool_decide (dir = []));
          rewrite !length_app in Hbound; simpl in *; lia.
      * change (length (@nil ascii)) with 0%nat in E. rewrite E.
        cbn [bind Z.eqb negb orb app] in *.
        exists c1, k1. repeat split; try assumption; try apply Hpl.
        exists p. split; [rewrite Hcp; reflexivity|exact Hlen].
Qed.

(** X27: called as [do_ve_coredump] calls it, with the pattern file read
    and every [realloc] granted, [ve_format_core_filename] returns 0 and
    leaves in the name buffer the name the pattern stands for: a pattern
    that starts with a pipe gives "core" in the directory of the
    executable; otherwise the conversions are expanded and the directory
    is put in front of a relative name; ".ve" is appended, after the
    process id unless the pattern had [%p].  A relative name needs a
    directory of more than one character and must be shorter than
    [PATH_MAX]. *)
Theorem ve_format_core_filename_name data pat :
  (0 < PATH_MAX)%nat -> Z.of_nat PATH_MAX < 2 ^ 64 ->
  open_core_file h = true -> malloc_pattern h = true ->
  read_core_file h = Some data ->
  cstring (read_pattern data) = ret pat ->
  let name := core_file_name tgid host_name dir pat in
  Z.of_nat (length name) + 1 < 2 ^ 64 ->
  starts_with "|" pat
  || starts_with "/" (expand pat).1
  || bool_decide (dir = [])
  || ((length (expand pat).1 <? PATH_MAX)%nat && (1 <? length dir)%nat)
  = true ->
  exists c',
    ve_format_core_filename h ve_exec_path tgid fresh_corename = ret (0, c') /\
    cstring_at (corename c') = ret name /\
    space_used c' = Z.of_nat (length name) /\
    Z.of_nat (length name) < actual_space c' /\
    core_pattern c' = None /\
    copy_pattern c' = false /\ use_all c' = false.
Proof.
  intros Hpos Hlim Hopen Hmalloc Hread Hpat name Hbound Hdefined.
  destruct (ve_format_core_filename_run data pat Hpos Hlim Hopen Hmalloc
              Hread Hpat Hbound)
    as (c & k & Hh & Hpl & (p & Hp & Hlen) & ->).
  assert (forall c',
    holds c' name /\ core_pattern c' = None /\ plain c' ->
    cstring_at (corename c') = ret name /\
    space_used c' = Z.of_nat (length name) /\
    Z.of_nat (length name) < actual_space c' /\
    core_pattern c' = None /\
    copy_pattern c' = false /\ use_all c' = false) as Hfin.
  { intros c' (Hh' & Hc' & Hp'). split; [apply holds_cstring; exact Hh'|].
    destruct Hh' as (rest & _ & Hu & Ha & _ & _).
    repeat split; try assumption; try apply Hp'. lia. }
  unfold name, core_file_name in *.
  destruct (starts_with "|" pat).
  - destruct (append_pid_spec false k c _ Hh Hpl) as (c' & E & Hrest).
    + rewrite <- app_assoc. exact Hbound.
    + exists c'. split; [exact E|]. apply Hfin.
      rewrite <- app_assoc in Hrest. exact Hrest.
  - cbn [orb] in Hdefined.
    destruct (starts_with "/" (expand pat).1 || bool_decide (dir = []))
      eqn:Hkept.
    + rewrite (prepend_path_kept _ k c _ Hh Hpl Hkept).
      destruct (append_pid_spec (expand pat).2 k c _ Hh Hpl Hbound)
        as (c' & E & Hrest).
      exists c'. split; [exact E|]. apply Hfin. exact Hrest.
    + cbn [orb] in Hdefined.
      apply andb_true_iff in Hdefined as [Hshort Hlong].
      apply Nat.ltb_lt in Hshort. apply Nat.ltb_lt in Hlong.
      pose proof (prepend_path_relative (expand pat).2 k c _ p Hh Hpl Hp
                    Hlen Hkept) as Hrel.
      rewrite <- !app_assoc in Hbound. specialize (Hrel Hbound).
      destruct (Nat.leb_spec PATH_MAX (length (expand pat).1)); [lia|].
      destruct (Nat.eqb_spec (length dir) 1); [lia|].
      destruct Hrel as (c' & E & Hrest).
      exists c'. split; [exact E|]. apply Hfin.
      rewrite <- !app_assoc. exact Hrest.
Qed.

(** A relative name for an executable that has a directory: the two
    runs that go wrong. *)
Lemma ve_format_core_filename_relative data pat :
  (0 < PATH_MAX)%nat -> Z.of_nat PATH_MAX < 2 ^ 64 ->
  open_core_file h = true -> malloc_pattern h = true ->
  read_core_file h = Some data ->
  cstring (read_pattern data) = ret pat ->
  Z.of_nat (length (core_file_name tgid host_name dir pat)) + 1 < 2 ^ 64 ->
  starts_with "|" pat = false ->
  starts_with "/" (expand pat).1 = false ->
  dir <> [] ->
  ((PATH_MAX <= length (expand pat).1)%nat ->
   ve_format_core_filename h ve_exec_path tgid fresh_corename
   = undefined overflow) /\
  ((length (expand pat).1 < PATH_MAX)%nat -> length dir = 1%nat ->
   ve_format_core_filename h ve_exec_path tgid fresh_corename
   = undefined overlap).
Proof.
  intros Hpos Hlim Hopen Hmalloc Hread Hpat Hbound Hpipe Hrel Hdir.
  destruct (ve_format_core_filename_run data pat Hpos Hlim Hopen Hmalloc
              Hread Hpat Hbound)
    as (c & k & Hh & Hpl & (p & Hp & Hlen) & ->).
  unfold core_file_name in Hbound. rewrite Hpipe in *.
  assert (starts_with "/" (expand pat).1 || bool_decide (dir = []) = false)
    as Hkept.
  { rewrite Hrel, bool_decide_eq_false_2 by exact Hdir. reflexivity. }
  rewrite Hkept in Hbound. rewrite <- !app_assoc in Hbound.
  pose proof (prepend_path_relative (expand pat).2 k c _ p Hh Hpl Hp
                Hlen Hkept Hbound) as Hcase.
  destruct (Nat.leb_spec PATH_MAX (length (expand pat).1)) as [Hbig|Hsmall].
  - split; [intros _; exact Hcase|lia].
  - split; [lia|]. intros _ Hone. rewrite Hone in Hcase. exact Hcase.
Qed.

(** X28: a relative name of [PATH_MAX] characters or more, which the name
    buffer has grown to hold, is copied past the end of the pattern
    buffer: that copy is bounded by the size of the name buffer, while the
    pattern buffer keeps its [PATH_MAX] bytes. *)
Theorem ve_format_core_filename_long_name data pat :
  (0 < PATH_MAX)%nat -> Z.of_nat PATH_MAX < 2 ^ 64 ->
  open_core_file h = true -> malloc_pattern h = true ->
  read_core_file h = Some data ->
  cstring (read_pattern data) = ret pat ->
  Z.of_nat (length (core_file_name tgid host_name dir pat)) + 1 < 2 ^ 64 ->
  starts_with "|" pat = false ->
  starts_with "/" (expand pat).1 = false ->
  dir <> [] ->
  (PATH_MAX <= length (expand pat).1)%nat ->
  ve_format_core_filename h ve_exec_path tgid fresh_corename
  = undefined overflow.
Proof.
  intros Hpos Hlim Hopen Hmalloc Hread Hpat Hbound Hpipe Hrel Hdir Hbig.
  exact (proj1 (ve_format_core_filename_relative data pat Hpos Hlim Hopen
                  Hmalloc Hread Hpat Hbound Hpipe Hrel Hdir) Hbig).
Qed.

(** X29: for an executable whose directory has one character, such as
    the root directory, a relative name is put together by printing the
    name buffer into the name buffer itself, which [vsnprintf] leaves
    undefined. *)
Theorem ve_format_core_filename_root_directory data pat :
  (0 < PATH_MAX)%nat -> Z.of_nat PATH_MAX < 2 ^ 64 ->
  open_core_file h = true -> malloc_pattern h = true ->
  read_core_file h = Some data ->
  cstring (read_pattern data) = ret pat ->
  Z.of_nat (length (core_file_name tgid host_name dir pat)) + 1 < 2 ^ 64 ->
  starts_with "|" pat = false ->
  starts_with "/" (expand pat).1 = false ->
  length dir = 1%nat ->
  (length (expand pat).1 < PATH_MAX)%nat ->
  ve_format_core_filename h ve_exec_path tgid fresh_corename
  = undefined overlap.
Proof.
  intros Hpos Hlim Hopen Hmalloc Hread Hpat Hbound Hpipe Hrel Hone Hsmall.
  assert (dir <> []) as Hdir by (intros E; rewrite E in Hone; discriminate).
  exact (proj2 (ve_format_core_filename_relative data pat Hpos Hlim Hopen
                  Hmalloc Hread Hpat Hbound Hpipe Hrel Hdir) Hsmall Hone).
Qed.

End Path.

End Name.

(** ** Sample runs *)

(** [PATH_MAX] as Linux has it. *)
#[local] Instance linux_limits : path_limits := {| PATH_MAX := 4096 |}.

(** A host named "ve0" on which the pattern file holds [pattern] and every
    [realloc] is granted. *)
Definition sample_host (pattern : list ascii) : host :=
  mk_host true true (Some pattern)
    (["v";"e";"0"]%char ++ replicate 61 zero)
    (fun _ => true) (fun _ _ => "#"%char).

(** The array [ve_exec_path] holding [dir]. *)
Definition sample_exec_path (dir : list ascii) : list ascii :=
  dir ++ replicate (PATH_MAX - length dir) zero.

(** A name buffer of five bytes that holds "co". *)
Definition short_corename : ve_corename :=
  mk_ve_corename (Some (["c";"o"]%char ++ [zero; zero; zero])) None 5 2
    false false.

Lemma short_corename_holds : holds short_corename ["c";"o"]%char.
Proof.
  exists [zero; zero]. split; [reflexivity|]. split; [reflexivity|].
  split; [reflexivity|]. split; [reflexivity|].
  apply text_cons; [discriminate|]. apply text_cons; [discriminate|].
  apply text_nil.
Defined.

Lemma ve_vsnprintf_appends_witness :
  exists c',
    ve_vsnprintf (sample_host []) 0 short_corename ["r";"e";".";"x"]%char
    = ret (0, c', 1%nat) /\
    corename c' = Some (["c";"o";"r";"e";".";"x"]%char ++ [zero]) /\
    actual_space c' = 7.
Proof.
  destruct (ve_vsnprintf_appends (sample_host []) 0 short_corename
              ["c";"o"]%char ["r";"e";".";"x"]%char short_corename_holds)
    as (retval & c' & E & Hr & _).
  - split; reflexivity.
  - repeat (apply text_cons; [discriminate|]). apply text_nil.
  - reflexivity.
  - exists c'. vm_compute in E. injection E as <- <-.
    split; [reflexivity|]. split; reflexivity.
Defined.

Lemma ve_format_core_filename_name_witness :
  exists c',
    ve_format_core_filename
      (sample_host ["c";"o";"r";"e";".";"%";"h";"010"]%char)
      (sample_exec_path ["/";"o";"p";"t"]%char) 4242 fresh_corename
    = ret (0, c') /\
    cstring_at (corename c')
    = ret ["/";"o";"p";"t";"/";"c";"o";"r";"e";".";"v";"e";"0";".";
           "4";"2";"4";"2";".";"v";"e"]%char /\
    space_used c' = 21 /\ 21 < actual_space c' /\
    core_pattern c' = None /\
    copy_pattern c' = false /\ use_all c' = false.
Proof.
  apply (ve_format_core_filename_name
           (sample_host ["c";"o";"r";"e";".";"%";"h";"010"]%char)
           (sample_exec_path ["/";"o";"p";"t"]%char) 4242
           ["v";"e";"0"]%char (fun _ => eq_refl) eq_refl
           ["/";"o";"p";"t"]%char eq_refl
           ["c";"o";"r";"e";".";"%";"h";"010"]%char
           ["c";"o";"r";"e";".";"%";"h";"010"]%char);
    try (match goal with |- (_ < _)%nat => apply Nat.ltb_lt end);
    vm_compute; reflexivity.
Defined.

(** A pattern of 1400 [%h], which stands for 4200 characters. *)
Definition long_pattern : list ascii :=
  concat (replicate 1400 ["%";"h"]%char).

Lemma ve_format_core_filename_long_name_witness :
  ve_format_core_filename (sample_host long_pattern)
    (sample_exec_path ["/";"o";"p";"t"]%char) 4242 fresh_corename
  = undefined overflow.
Proof.
  apply (ve_format_core_filename_long_name (sample_host long_pattern)
           (sample_exec_path ["/";"o";"p";"t"]%char) 4242
           ["v";"e";"0"]%char (fun _ => eq_refl) eq_refl
           ["/";"o";"p";"t"]%char eq_refl long_pattern long_pattern);
    try (match goal with
         | |- (_ < _)%nat => apply Nat.ltb_lt
         | |- (_ <= _)%nat => apply Nat.leb_le
         | |- _ <> _ => discriminate
         end);
    vm_compute; reflexivity.
Defined.

Lemma ve_format_core_filename_root_directory_witness :
  ve_format_core_filename (sample_host ["c";"o";"r";"e"]%char)
    (sample_exec_path ["/"]%char) 4242 fresh_corename
  = undefined overlap.
Proof.
  apply (ve_format_core_filename_root_directory
           (sample_host ["c";"o";"r";"e"]%char)
           (sample_exec_path ["/"]%char) 4242
           ["v";"e";"0"]%char (fun _ => eq_refl) eq_refl
           ["/"]%char eq_refl ["c";"o";"r";"e"]%char
           ["c";"o";"r";"e"]%char);
    try (match goal with |- (_ < _)%nat => apply Nat.ltb_lt end);
    vm_compute; reflexivity.
Defined.

End CoreNameSpec.
